(** * GuardTime client SDK (libgt 0.3.12): base32 codec, time conversion,
      location decoder, verification orchestrator, decoding and extension
      of timestamps.

    A shallow embedding of [base32.c], of [asn1_time_get.c] and of the
    verification core, the decoders and the queries of [gt_timestamp.c],
    with the properties of the design specification stated and settled
    against it, followed by further properties of the same code.

    Conventions.
    - C [int], [unsigned] and [size_t] values are [Z]; where the source
      relies on a fixed width (an [unsigned char] store, the 32-bit
      [unsigned] accumulator of [collectBits], a 32-bit [time_t]) the
      wrap-around is written out.
    - A byte buffer is a [list Z] of values in [0, 256); a pointer into a
      buffer is the offset of the byte it points to.
    - [assert] is compiled out (release build); every assertion of the
      source is recorded next to the definition it belongs to.
    - Calls into OpenSSL, into the allocator and into SDK functions that
      are not embedded here ([hashchain.c], [gt_internal.c], [gt_asn1.c])
      are results supplied by an environment record.  The verification
      core takes the result of [GT_ASN1_TIME_get] on the certificate from
      its environment as well; the function itself is embedded in
      [Asn1Time]. *)

From Stdlib Require Import ZArith Lia Bool String Ascii DecimalString.
From stdpp Require Import base list gmap.

Local Open Scope Z_scope.

(** Array access on byte buffers and [int] arrays: [rd l i] is [l[i]] and
    [wr l i v] is [l[i] = v].  Outside the range [rd] yields 0 and [wr]
    leaves the array as it is. *)
Definition rd (l : list Z) (i : Z) : Z :=
  if i <? 0 then 0 else default 0 (l !! Z.to_nat i).

Definition wr (l : list Z) (i : Z) (v : Z) : list Z :=
  if i <? 0 then l else <[Z.to_nat i := v]> l.

(** An [unsigned char] store keeps the low eight bits. *)
Definition to_uchar (v : Z) : Z := v mod 256.

(** * base32.c *)
Module Base32.

(** [static const char base32EncodeTable[32]] *)
Definition base32EncodeTable : string := "ABCDEFGHIJKLMNOPQRSTUVWXYZ234567".

(** [static const unsigned char base32NumDecTable[10] =
      { -1, -1, 26, 27, 28, 29, 30, 31, -1, -1 }]: the initialisers are
    converted to [unsigned char] when they are stored. *)
Definition base32NumDecTable : list Z :=
  map to_uchar [-1; -1; 26; 27; 28; 29; 30; 31; -1; -1].

(** [makeMask]: the loop [for (i = 0; i < bit_count; i++) ret = (ret << 1) | 1]. *)
Fixpoint makeMask_loop (n : nat) (ret : Z) : Z :=
  match n with
  | O => ret
  | S n' => makeMask_loop n' (Z.lor (Z.shiftl ret 1) 1)
  end.

Definition makeMask (bit_count : Z) : Z := makeMask_loop (Z.to_nat bit_count) 0.

(** [buf[idx] |= v] on an [unsigned char] buffer. *)
Definition or_byte (buf : list Z) (idx v : Z) : list Z :=
  wr buf idx (to_uchar (Z.lor (rd buf idx) v)).

(** [addBits(buf, &bits_decoded, bits)]; returns the buffer and the new
    [bits_decoded]. *)
Definition addBits (buf : list Z) (bits_decoded : Z) (bits : Z) : list Z * Z :=
  if bits <? 0 then (buf, bits_decoded)
  else
    let bits_to_first_byte :=
      let b := 8 - Z.rem bits_decoded 8 in if b >? 5 then 5 else b in
    let shift_count := 8 - bits_to_first_byte - Z.rem bits_decoded 8 in
    let buf_idx := Z.quot bits_decoded 8 in
    let selected_bits :=
      Z.shiftr
        (Z.land bits (Z.shiftl (makeMask bits_to_first_byte) (5 - bits_to_first_byte)))
        (5 - bits_to_first_byte) in
    let buf := or_byte buf buf_idx (Z.shiftl selected_bits shift_count) in
    let bits_decoded := bits_decoded + bits_to_first_byte in
    if bits_to_first_byte <? 5 then
      let bits_to_second_byte := 5 - bits_to_first_byte in
      let shift_count := 8 - bits_to_second_byte in
      let buf_idx := buf_idx + 1 in
      let selected_bits :=
        Z.land bits
          (Z.shiftr (Z.shiftl (makeMask bits_to_second_byte) (5 - bits_to_second_byte))
                    (5 - bits_to_second_byte)) in
      (or_byte buf buf_idx (Z.shiftl selected_bits shift_count),
       bits_decoded + bits_to_second_byte)
    else (buf, bits_decoded).

(** Character classes of [<ctype.h>] in the C locale, on character codes. *)
Definition isdigit (c : Z) : bool := (48 <=? c) && (c <=? 57).
Definition is_upper (c : Z) : bool := (65 <=? c) && (c <=? 90).
Definition is_lower (c : Z) : bool := (97 <=? c) && (c <=? 122).
Definition toupper (c : Z) : Z := if is_lower c then c - 32 else c.

(** One round of the decoding loop of [GT_base32Decode] on character [c]:
    [None] is the [break] on ['='], [Some] the state the next round starts
    from. *)
Definition decode_char (c : Z) (st : list Z * Z) : option (list Z * Z) :=
  let '(buf, bits_decoded) := st in
  if c =? 61 then None
  else if isdigit c then Some (addBits buf bits_decoded (rd base32NumDecTable (c - 48)))
  else if is_upper c || is_lower c then Some (addBits buf bits_decoded (toupper c - 65))
  else Some st.

(** The loop [for (i = 0; i < base32_len; i++)] over the characters it visits. *)
Fixpoint decode_loop (cs : list Z) (st : list Z * Z) : list Z * Z :=
  match cs with
  | [] => st
  | c :: cs' =>
      match decode_char c st with
      | None => st
      | Some st' => decode_loop cs' st'
      end
  end.

(** [strlen]: the characters before the first NUL. *)
Fixpoint strlen (s : list Z) : Z :=
  match s with
  | [] => 0
  | c :: s' => if c =? 0 then 0 else 1 + strlen s'
  end.

(** [GT_base32Decode(base32, base32_len, &ret_len)].  [malloc_ok] is the
    outcome of [OPENSSL_malloc]; the result is the zero-filled buffer after
    decoding together with [*ret_len], or [None] for the [NULL] return. *)
Definition GT_base32Decode (malloc_ok : bool) (base32 : list Z) (base32_len : Z)
  : option (list Z * Z) :=
  let base32_len := if base32_len <? 0 then strlen base32 else base32_len in
  if negb malloc_ok then None
  else
    let ret := replicate (Z.to_nat (Z.quot (base32_len * 5) 8 + 2)) 0 in
    let '(ret, bits_decoded) := decode_loop (take (Z.to_nat base32_len) base32) (ret, 0) in
    Some (ret, Z.quot bits_decoded 8).

(** The decoded bytes a caller sees: the first [ret_len] bytes of the buffer. *)
Definition decoded_bytes (r : option (list Z * Z)) : option (list Z) :=
  match r with
  | Some (buf, ret_len) => Some (take (Z.to_nat ret_len) buf)
  | None => None
  end.

(** [readNextBits(data, data_len, bits_read)]; -1 at the end of the data. *)
Definition readNextBits (data : list Z) (data_len : Z) (bits_read : Z) : Z :=
  let byte_to_read := Z.quot bits_read 8 in
  if byte_to_read >=? data_len then -1
  else
    let first_byte_bits :=
      let f := 8 - (bits_read - byte_to_read * 8) in if f >? 5 then 5 else f in
    let shift_count := 8 - Z.rem bits_read 8 - first_byte_bits in
    let ret :=
      Z.shiftr (Z.land (rd data byte_to_read)
                       (Z.shiftl (makeMask first_byte_bits) shift_count))
               shift_count in
    let byte_to_read := byte_to_read + 1 in
    if first_byte_bits <? 5 then
      let second_byte_bits := 5 - first_byte_bits in
      let ret := Z.shiftl ret second_byte_bits in
      if byte_to_read <? data_len then
        let shift_count := 8 - second_byte_bits in
        Z.lor ret
          (Z.shiftr (Z.land (rd data byte_to_read)
                            (Z.shiftl (makeMask second_byte_bits) shift_count))
                    shift_count)
      else ret
    else ret.

(** The character [base32EncodeTable[i]]. *)
Definition table_char (i : Z) : ascii :=
  match String.get (Z.to_nat i) base32EncodeTable with
  | Some a => a
  | None => "000"%char
  end.

(** The output of the encoder is kept as the list of characters written so
    far, most recent first; [ret_len] is its length. *)
Definition push (a : ascii) (ret : list ascii) : list ascii := a :: ret.
Definition ret_len (ret : list ascii) : Z := Z.of_nat (length ret).

(** First loop of [GT_base32Encode]:
    [for (bits_read = 0; (next_bits = readNextBits(..)) != -1; bits_read += 5)].
    Every round advances [bits_read] by 5, so [fuel] rounds suffice when
    [fuel] exceeds the number of 5-bit groups. *)
Fixpoint encode_loop (fuel : nat) (data : list Z) (data_len group_len : Z)
    (bits_read : Z) (ret : list ascii) : Z * list ascii :=
  match fuel with
  | O => (bits_read, ret)
  | S fuel' =>
      let next_bits := readNextBits data data_len bits_read in
      if next_bits =? -1 then (bits_read, ret)
      else
        let ret := push (table_char next_bits) ret in
        let ret :=
          if (Z.rem (ret_len ret) (group_len + 1) =? group_len)
             && (bits_read + 5 <? data_len * 8)
          then push "-"%char ret else ret in
        encode_loop fuel' data data_len group_len (bits_read + 5) ret
  end.

(** Second loop: [while (bits_read % 40 != 0)]. At most seven rounds. *)
Fixpoint pad_loop (fuel : nat) (group_len : Z) (bits_read : Z) (ret : list ascii)
  : Z * list ascii :=
  match fuel with
  | O => (bits_read, ret)
  | S fuel' =>
      if Z.rem bits_read 40 =? 0 then (bits_read, ret)
      else
        let ret := push "="%char ret in
        let ret :=
          if (Z.rem (ret_len ret) (group_len + 1) =? group_len)
             && negb (Z.rem bits_read 40 =? 35)
          then push "-"%char ret else ret in
        pad_loop fuel' group_len (bits_read + 5) ret
  end.

(** What a call of [GT_base32Encode] leaves behind: the size of the buffer
    it allocated and the characters it stored before the final NUL. *)
Record Encoded := { buf_len : Z; text : string }.

(** [GT_base32Encode(data, data_len, group_len)], for [data_len] the length
    of [data] (the source asserts [data_len != 0]). *)
Definition GT_base32Encode (malloc_ok : bool) (data : list Z) (group_len : Z)
  : option Encoded :=
  let data_len := Z.of_nat (length data) in
  let buf_len := Z.quot (data_len * 8 + 39) 40 * 8 in
  let buf_len := if group_len >? 0 then buf_len + Z.quot (buf_len - 1) group_len else buf_len in
  let buf_len := buf_len + 1 in
  if negb malloc_ok then None
  else
    let '(bits_read, ret) :=
      encode_loop (S (Z.to_nat (data_len * 8))) data data_len group_len 0 [] in
    let '(_, ret) := pad_loop 8 group_len bits_read ret in
    Some {| buf_len := buf_len; text := string_of_list_ascii (rev ret) |}.

(** The bytes stored, including the terminating NUL, fit the allocation. *)
Definition fits (e : Encoded) : bool :=
  Z.of_nat (String.length (text e)) + 1 <=? buf_len e.

End Base32.


(** * Status codes and hash algorithms (gt_base.h) *)

(** [enum GTStatusCode]: the values the enumerators get. *)
Definition GT_OK : Z := 0.
Definition GT_EARLIER : Z := 1.
Definition GT_NOT_EARLIER : Z := 2.
Definition GT_EXTENDED : Z := 3.
Definition GT_NOT_EXTENDED : Z := 4.
Definition GT_INVALID_ARGUMENT : Z := 256.
Definition GT_INVALID_FORMAT : Z := 257.
Definition GT_UNTRUSTED_HASH_ALGORITHM : Z := 258.
Definition GT_UNTRUSTED_SIGNATURE_ALGORITHM : Z := 259.
Definition GT_INVALID_LINKING_INFO : Z := 260.
Definition GT_UNSUPPORTED_FORMAT : Z := 261.
Definition GT_INVALID_AGGREGATION : Z := 516.
Definition GT_INVALID_SIGNATURE : Z := 517.
Definition GT_WRONG_SIGNED_DATA : Z := 518.
Definition GT_OUT_OF_MEMORY : Z := 768.
Definition GT_IO_ERROR : Z := 769.
Definition GT_TIME_OVERFLOW : Z := 770.
Definition GT_CRYPTO_FAILURE : Z := 771.
Definition GT_PKI_SYSTEM_FAILURE : Z := 772.
Definition GT_UNKNOWN_ERROR : Z := 773.

(** The header groups the error codes in ranges: syntax errors from 0x100,
    semantic errors from 0x200, system errors from 0x300. *)
Definition is_system_error (code : Z) : bool := 768 <=? code.

(** [enum GTVerificationError] and [enum GTVerificationStatus] (bit flags). *)
Definition GT_NO_FAILURES : Z := 0.
Definition GT_SYNTACTIC_CHECK_FAILURE : Z := 1.
Definition GT_HASHCHAIN_VERIFICATION_FAILURE : Z := 2.
Definition GT_PUBLIC_KEY_SIGNATURE_FAILURE : Z := 16.
Definition GT_PUBLIC_KEY_SIGNATURE_PRESENT : Z := 1.
Definition GT_PUBLICATION_REFERENCE_PRESENT : Z := 2.

(** [enum GTHashAlgorithm] *)
Definition GT_HASHALG_SHA1 : Z := 0.
Definition GT_HASHALG_SHA256 : Z := 1.
Definition GT_HASHALG_RIPEMD160 : Z := 2.
Definition GT_HASHALG_SHA224 : Z := 3.
Definition GT_HASHALG_SHA384 : Z := 4.
Definition GT_HASHALG_SHA512 : Z := 5.

(** Modelled from the spec: [GT_getHashSize] is defined in [gt_internal.c],
    which is not part of this development.  The digest sizes are those of
    the algorithm table (20/32/20/28/48/64 for ids 0..5, the same table the
    documentation of [enum GTHashAlgorithm] gives); an id without a known
    size yields 0, the value [extractLocation] tests for. *)
Definition GT_getHashSize (hash_algorithm : Z) : Z :=
  if hash_algorithm =? GT_HASHALG_SHA1 then 20
  else if hash_algorithm =? GT_HASHALG_SHA256 then 32
  else if hash_algorithm =? GT_HASHALG_RIPEMD160 then 20
  else if hash_algorithm =? GT_HASHALG_SHA224 then 28
  else if hash_algorithm =? GT_HASHALG_SHA384 then 48
  else if hash_algorithm =? GT_HASHALG_SHA512 then 64
  else 0.

(** * Hash-chain steps *)
Module HashChain.

(** [GTHashEntry]: one step of a hash chain as the verification info
    presents it ([sibling_hash_value] is in base 16). *)
Record GTHashEntry := {
  hash_algorithm : Z;
  direction : Z;
  sibling_hash_algorithm : Z;
  sibling_hash_value : string;
  level : Z
}.

(** The data a step hashes, from the imprint of the previous step and the
    sibling imprint.  The folding routine itself ([GT_hashChainCalculate],
    hashchain.c) is not part of this development; the order of
    concatenation is the one gt_base.h documents for
    [GTHashEntry.direction]: with direction 0 the sibling hash value is
    concatenated to the left of the hash from the previous step, with
    direction 1 to the right of it (no other value is permitted).
    [checkName] relies on the same reading: it takes [step[1] != 1] to mean
    that the sibling is not on the right. *)
Definition step_input (direction : Z) (previous sibling : list Z) : list Z :=
  if direction =? 0 then sibling ++ previous else previous ++ sibling.

(** One folded step under the hash function [H] of the step. *)
Definition fold_step (H : list Z -> list Z) (direction : Z)
    (previous sibling : list Z) : list Z :=
  H (step_input direction previous sibling).

End HashChain.

(** * The location decoder (gt_timestamp.c) *)
Module Location.

(** [collectBits(buf, &len, num)]: the loop
    [while (num-- > 0 && *len > 0) { res <<= 1; res |= buf[--*len]; }]
    on a 32-bit [unsigned res]; returns [res] and the new [*len].
    The source asserts [*len >= num] and [num <= 8 * sizeof(res)]. *)
Fixpoint collectBits_loop (n : nat) (buf : list Z) (len res : Z) : Z * Z :=
  match n with
  | O => (res, len)
  | S n' =>
      if len >? 0 then
        collectBits_loop n' buf (len - 1)
          (Z.lor (Z.shiftl res 1 mod 2 ^ 32) (rd buf (len - 1)))
      else (res, len)
  end.

Definition collectBits (buf : list Z) (len num : Z) : Z * Z :=
  collectBits_loop (Z.to_nat num) buf len 0.

(** [checkName(steps, &len, &name, &name_len)]: [steps] holds the offset of
    every remembered step in the chain [data]; a name is the offset of its
    first byte ([None] for [NULL]).  Returns the new [name], [name_len] and
    [*len].  The source asserts [*len >= 0]. *)
Definition checkName (data : list Z) (steps : list Z) (len : Z)
    (name : option Z) (name_len : Z) : option Z * Z * Z :=
  let hash_len := GT_getHashSize GT_HASHALG_SHA224 in
  if len <=? 0 then (name, name_len, len)
  else
    let step := rd steps (len - 1) in
    if negb (rd data (step + 1) =? 1) then (name, name_len, len)
    else if negb (rd data (step + 2) =? GT_HASHALG_SHA224) then (name, name_len, len)
    else if negb (rd data (step + 3 + 0) =? 0) then (name, name_len, len)
    else if rd data (step + 3 + 1) + 2 >? hash_len then (name, name_len, len)
    else if negb (forallb (fun i => rd data (step + 3 + i) =? 0)
                          (seqZ (2 + rd data (step + 3 + 1))
                                (hash_len - (2 + rd data (step + 3 + 1)))))
    then (name, name_len, len)
    else (Some (step + 3 + 2), rd data (step + 3 + 1), len - 1).

(** The constants of [extractLocation]. *)
Definition hasher_level : Z := 80.       (* [static const int hasher = 80] *)
Definition gdepth_top : Z := 60.
Definition gdepth_national : Z := 39.
Definition gdepth_state : Z := 19.
Definition slot_bits_top : Z := 3.
Definition ab_bits_top : Z := 3.
Definition slot_bits_national : Z := 2.
Definition ab_bits_national : Z := 3.
Definition slot_bits_state : Z := 2.
Definition ab_bits_state : Z := 2.
Definition top_level : Z := gdepth_top + (slot_bits_top + ab_bits_top) - 2.
Definition national_level : Z :=
  gdepth_national + (slot_bits_national + ab_bits_national) - 2.
Definition state_level : Z := gdepth_state + (slot_bits_state + ab_bits_state) - 2.

(** [struct LocationInfo] *)
Record LocationInfo := {
  hasher : Z;
  national_cluster : Z;
  national_machine : Z;
  national_slot : Z;
  national_name : option Z;
  national_name_len : Z;
  state_cluster : Z;
  state_machine : Z;
  state_slot : Z;
  state_name : option Z;
  state_name_len : Z;
  local_cluster : Z;
  local_machine : Z;
  local_slot : Z;
  local_name : option Z;
  local_name_len : Z;
  client_id : Z;
  client_name : option Z;
  client_name_len : Z
}.

(** [loc = {0}] *)
Definition loc_zero : LocationInfo :=
  {| hasher := 0; national_cluster := 0;
     national_machine := 0; national_slot := 0;
     national_name := None; national_name_len := 0;
     state_cluster := 0; state_machine := 0; state_slot := 0;
     state_name := None; state_name_len := 0;
     local_cluster := 0; local_machine := 0; local_slot := 0;
     local_name := None; local_name_len := 0;
     client_id := 0; client_name := None; client_name_len := 0 |}.

(** The variables of [extractLocation] that live across loop rounds: the
    read position [p], the arrays [steps] and [bits] with their common
    length [num_bits], [last_level] and [loc]. *)
Record LocState := {
  p : Z;
  steps : list Z;
  bits : list Z;
  num_bits : Z;
  last_level : Z;
  loc : LocationInfo
}.

Definition init_state : LocState :=
  {| p := 0; steps := replicate 256 0; bits := replicate 256 0;
     num_bits := 0; last_level := -1; loc := loc_zero |}.

(** The fields of one step as the loop reads them. *)
Record RawStep := {
  rs_direction : Z;      (* [*p] at the direction byte *)
  rs_algorithm : Z;      (* [*p] at the hash algorithm byte *)
  rs_hash_size : Z;
  rs_level : Z;          (* [hash_level] *)
  rs_next : Z            (* [p] at the beginning of the next entry *)
}.

(** The reading part of a loop round, from [p] at the beginning of a step:
    either the error code of a [goto cleanup] or the fields read. *)
Definition read_step (data : list Z) (p : Z) : Z + RawStep :=
  let length := Z.of_nat (List.length data) in
  let p := p + 1 in                         (* the direction byte *)
  if p >=? length then inl GT_INVALID_LINKING_INFO
  else if negb (rd data p =? 0) && negb (rd data p =? 1) then inl GT_INVALID_LINKING_INFO
  else
    let dir := rd data p in
    let p := p + 1 in                       (* the hash algorithm byte *)
    if p >=? length then inl GT_INVALID_LINKING_INFO
    else
      let alg := rd data p in
      let hash_size := GT_getHashSize alg in
      if hash_size =? 0 then inl GT_INVALID_LINKING_INFO
      else
        let p := p + 1 + hash_size in       (* the level byte *)
        if p >=? length then inl GT_INVALID_LINKING_INFO
        else
          inr {| rs_direction := dir; rs_algorithm := alg; rs_hash_size := hash_size;
                 rs_level := rd data p; rs_next := p + 1 |}.

(** Assignments to the members of [loc], one per block of the loop body. *)
Definition set_hasher (l : LocationInfo) (h nc : Z) : LocationInfo :=
  {| hasher := h; national_cluster := nc;
     national_machine := national_machine l; national_slot := national_slot l;
     national_name := national_name l; national_name_len := national_name_len l;
     state_cluster := state_cluster l; state_machine := state_machine l;
     state_slot := state_slot l;
     state_name := state_name l; state_name_len := state_name_len l;
     local_cluster := local_cluster l; local_machine := local_machine l;
     local_slot := local_slot l;
     local_name := local_name l; local_name_len := local_name_len l;
     client_id := client_id l; client_name := client_name l;
     client_name_len := client_name_len l |}.

Definition set_national (l : LocationInfo) (m s : Z) (nm : option Z) (nl c : Z)
  : LocationInfo :=
  {| hasher := hasher l; national_cluster := national_cluster l;
     national_machine := m; national_slot := s;
     national_name := nm; national_name_len := nl;
     state_cluster := c; state_machine := state_machine l;
     state_slot := state_slot l;
     state_name := state_name l; state_name_len := state_name_len l;
     local_cluster := local_cluster l; local_machine := local_machine l;
     local_slot := local_slot l;
     local_name := local_name l; local_name_len := local_name_len l;
     client_id := client_id l; client_name := client_name l;
     client_name_len := client_name_len l |}.

Definition set_state (l : LocationInfo) (m s : Z) (nm : option Z) (nl c : Z)
  : LocationInfo :=
  {| hasher := hasher l; national_cluster := national_cluster l;
     national_machine := national_machine l; national_slot := national_slot l;
     national_name := national_name l; national_name_len := national_name_len l;
     state_cluster := state_cluster l; state_machine := m; state_slot := s;
     state_name := nm; state_name_len := nl;
     local_cluster := c; local_machine := local_machine l;
     local_slot := local_slot l;
     local_name := local_name l; local_name_len := local_name_len l;
     client_id := client_id l; client_name := client_name l;
     client_name_len := client_name_len l |}.

Definition set_local (l : LocationInfo) (m s : Z) (nm : option Z) (nl c : Z)
  : LocationInfo :=
  {| hasher := hasher l; national_cluster := national_cluster l;
     national_machine := national_machine l; national_slot := national_slot l;
     national_name := national_name l; national_name_len := national_name_len l;
     state_cluster := state_cluster l; state_machine := state_machine l;
     state_slot := state_slot l;
     state_name := state_name l; state_name_len := state_name_len l;
     local_cluster := local_cluster l; local_machine := m; local_slot := s;
     local_name := nm; local_name_len := nl;
     client_id := c; client_name := client_name l;
     client_name_len := client_name_len l |}.

Definition set_client_name (l : LocationInfo) (nm : option Z) (nl : Z) : LocationInfo :=
  {| hasher := hasher l; national_cluster := national_cluster l;
     national_machine := national_machine l; national_slot := national_slot l;
     national_name := national_name l; national_name_len := national_name_len l;
     state_cluster := state_cluster l; state_machine := state_machine l;
     state_slot := state_slot l;
     state_name := state_name l; state_name_len := state_name_len l;
     local_cluster := local_cluster l; local_machine := local_machine l;
     local_slot := local_slot l;
     local_name := local_name l; local_name_len := local_name_len l;
     client_id := client_id l; client_name := nm; client_name_len := nl |}.

(** A round changes [num_bits] and [loc] together. *)
Definition update (st : LocState) (n : Z) (l : LocationInfo) : LocState :=
  {| p := p st; steps := steps st; bits := bits st; num_bits := n;
     last_level := last_level st; loc := l |}.

(** The four statements shared by the three region blocks:
    [machine = collectBits(bits, &num_bits, ab_bits);
     slot = collectBits(bits, &num_bits, slot_bits);
     checkName(steps, &num_bits, &name, &name_len);
     cluster = collectBits(bits, &num_bits, num_bits);] *)
Definition region_block (data : list Z) (st : LocState) (ab_bits slot_bits : Z)
    (name : option Z) (name_len : Z) : Z * Z * option Z * Z * Z * Z :=
  let '(machine, n) := collectBits (bits st) (num_bits st) ab_bits in
  let '(slot, n) := collectBits (bits st) n slot_bits in
  let '(name, name_len, n) := checkName data (steps st) n name name_len in
  let '(cluster, n) := collectBits (bits st) n n in
  (machine, slot, name, name_len, cluster, n).

(** [if (hash_level > top_level && last_level <= top_level) { ... }] *)
Definition top_block (data : list Z) (st : LocState) : LocState :=
  let l := loc st in
  let '(m, s, nm, nl, c, n) :=
    region_block data st ab_bits_top slot_bits_top
                 (national_name l) (national_name_len l) in
  update st n (set_national l m s nm nl c).

(** [if (hash_level > national_level && last_level <= national_level) { ... }] *)
Definition national_block (data : list Z) (st : LocState) : LocState :=
  let l := loc st in
  let '(m, s, nm, nl, c, n) :=
    region_block data st ab_bits_national slot_bits_national
                 (state_name l) (state_name_len l) in
  update st n (set_state l m s nm nl c).

(** [if (hash_level > state_level && last_level <= state_level) { ... }] *)
Definition state_block (data : list Z) (st : LocState) : LocState :=
  let l := loc st in
  let '(m, s, nm, nl, c, n) :=
    region_block data st ab_bits_state slot_bits_state
                 (local_name l) (local_name_len l) in
  update st n (set_local l m s nm nl c).

(** [if (hash_level > 1 && last_level <= 1) { checkName(.., &loc.client_name, ..); }] *)
Definition client_block (data : list Z) (st : LocState) : LocState :=
  let l := loc st in
  let '(nm, nl, n) :=
    checkName data (steps st) (num_bits st) (client_name l) (client_name_len l) in
  update st n (set_client_name l nm nl).

(** The block that ends the loop:
    [if (hash_level > hasher && last_level <= hasher) { ...; break; }] *)
Definition hasher_block (hash_level hash_bit : Z) (st : LocState) : LocState :=
  let h := if hash_level =? 255 then 1 + hash_bit else hash_level - hasher_level in
  let '(nc, n) := collectBits (bits st) (num_bits st) (num_bits st) in
  update st n (set_hasher (loc st) h nc).

Definition when (b : bool) (f : LocState -> LocState) (st : LocState) : LocState :=
  if b then f st else st.

(** The level tests of the loop body. *)
Definition crosses (threshold hash_level last_level : Z) : bool :=
  (hash_level >? threshold) && (last_level <=? threshold).

(** What a loop round ends in. *)
Inductive Outcome :=
| Invalid (res : Z)          (* [goto cleanup] with the error [res] *)
| Overrun                    (* [steps[num_bits]] outside [steps[256]] *)
| Finished (st : LocState)   (* [break] *)
| Continue (st : LocState).  (* next round *)

(** The start of a round: [steps[num_bits] = p], and [p] moved over the
    step to the beginning of the next entry. *)
Definition remember_step (st : LocState) (next : Z) : LocState :=
  {| p := next; steps := wr (steps st) (num_bits st) (p st);
     bits := bits st; num_bits := num_bits st;
     last_level := last_level st; loc := loc st |}.

(** The first two region tests of the loop body, in their order. *)
Definition upper_blocks (data : list Z) (hash_level last_level : Z) (st : LocState)
  : LocState :=
  let st := when (crosses top_level hash_level last_level) (top_block data) st in
  when (crosses national_level hash_level last_level) (national_block data) st.

(** The four tests that follow the [break] test. *)
Definition region_blocks (data : list Z) (hash_level last_level : Z) (st : LocState)
  : LocState :=
  let st := upper_blocks data hash_level last_level st in
  let st := when (crosses state_level hash_level last_level) (state_block data) st in
  when (crosses 1 hash_level last_level) (client_block data) st.

(** The end of a round: [last_level = hash_level; bits[num_bits++] = hash_bit]. *)
Definition push_bit (hash_level hash_bit : Z) (st : LocState) : LocState :=
  {| p := p st; steps := steps st;
     bits := wr (bits st) (num_bits st) hash_bit;
     num_bits := num_bits st + 1;
     last_level := hash_level; loc := loc st |}.

(** One round of [for ( ; ; )]. *)
Definition loc_step (data : list Z) (st : LocState) : Outcome :=
  if num_bits st >=? 256 then Overrun
  else
    match read_step data (p st) with
    | inl res => Invalid res
    | inr r =>
        let hash_bit := to_uchar (1 - rs_direction r) in
        let hash_level := rs_level r in
        let ll := last_level st in
        let st := remember_step st (rs_next r) in
        if crosses hasher_level hash_level ll then
          Finished (hasher_block hash_level hash_bit st)
        else
          Continue (push_bit hash_level hash_bit
                      (region_blocks data hash_level ll st))
    end.

(** The loop. Every round that continues moves [p] forward by at least 24
    bytes and a round fails once [p + 1] reaches the end of the chain, so
    [fuel] rounds suffice when [fuel] exceeds the number of bytes left;
    [None] stands for a loop cut short by [fuel]. *)
Fixpoint extract_loop (fuel : nat) (data : list Z) (st : LocState) : option Outcome :=
  match fuel with
  | O => None
  | S fuel' =>
      match loc_step data st with
      | Continue st' => extract_loop fuel' data st'
      | o => Some o
      end
  end.

Definition run_loop (data : list Z) : option Outcome :=
  extract_loop (S (List.length data)) data init_state.

(** [tmp_id]: the four clusters packed into a [GT_UInt64]. *)
Definition pack_id (l : LocationInfo) : Z :=
  let tmp_id := 0 in
  let tmp_id := Z.lor tmp_id (national_cluster l) in
  let tmp_id := Z.shiftl tmp_id 16 mod 2 ^ 64 in
  let tmp_id := Z.lor tmp_id (state_cluster l) in
  let tmp_id := Z.shiftl tmp_id 16 mod 2 ^ 64 in
  let tmp_id := Z.lor tmp_id (local_cluster l) in
  let tmp_id := Z.shiftl tmp_id 16 mod 2 ^ 64 in
  Z.lor tmp_id (client_id l).

(** The bytes of a name found by [checkName]. *)
Definition name_bytes (data : list Z) (name : option Z) (name_len : Z) : list Z :=
  match name with
  | Some o => take (Z.to_nat name_len) (drop (Z.to_nat o) data)
  | None => []
  end.

Definition codes (s : string) : list Z :=
  map (fun a => Z.of_N (N_of_ascii a)) (list_ascii_of_string s).

(** [sprintf(.., "[%d]", cluster)] for an [unsigned] cluster read as [int]. *)
Definition print_cluster (v : Z) : list Z :=
  let i := if v >=? 2 ^ 31 then v - 2 ^ 32 else v in
  codes "[" ++ codes (DecimalString.NilZero.string_of_int (Z.to_int i)) ++ codes "]".

Definition name_sep : list Z := codes " : ".
Definition no_name_len : Z := 7.   (* [strlen("[00000]")] *)

(** The name buffer: the size passed to [GT_malloc] and the characters
    stored before the final NUL. *)
Record NameBuf := { name_alloc : Z; name_text : list Z }.

Definition part_len (name_len : Z) : Z := if name_len >? 0 then name_len else no_name_len.

Definition part_text (data : list Z) (name : option Z) (name_len cluster : Z) : list Z :=
  if name_len >? 0 then name_bytes data name name_len else print_cluster cluster.

Definition make_name (data : list Z) (l : LocationInfo) : NameBuf :=
  let sep := Z.of_nat (List.length name_sep) in
  let len := part_len (national_name_len l) + sep + part_len (state_name_len l) + sep
             + part_len (local_name_len l) in
  let len := if client_name_len l >? 0 then len + sep + client_name_len l else len in
  let text :=
    part_text data (national_name l) (national_name_len l) (national_cluster l)
    ++ name_sep
    ++ part_text data (state_name l) (state_name_len l) (state_cluster l)
    ++ name_sep
    ++ part_text data (local_name l) (local_name_len l) (local_cluster l) in
  let text :=
    if client_name_len l >? 0
    then text ++ name_sep ++ name_bytes data (client_name l) (client_name_len l)
    else text in
  {| name_alloc := len + 1; name_text := text |}.

(** [extractLocation(hash_chain, &location_id, &location_name)] on the
    bytes of the chain; [malloc_ok] is the outcome of [GT_malloc].  The
    result is the return value with what the two output parameters receive
    (nothing on an error); [None] where the source leaves the behaviour
    undefined. *)
Definition extractLocation (malloc_ok : bool) (hash_chain : list Z)
  : option (Z * option (Z * option NameBuf)) :=
  match run_loop hash_chain with
  | Some (Finished st) =>
      let l := loc st in
      let tmp_id := pack_id l in
      if (national_name_len l + state_name_len l + local_name_len l
          + client_name_len l) mod 2 ^ 32 >? 0 then
        if malloc_ok then Some (GT_OK, Some (tmp_id, Some (make_name hash_chain l)))
        else Some (GT_OUT_OF_MEMORY, None)
      else Some (GT_OK, Some (tmp_id, None))
  | Some (Invalid res) => Some (res, None)
  | Some Overrun | Some (Continue _) | None => None
  end.

End Location.

(** * Decoded timestamps *)
Module Token.

(** OpenSSL's [ASN1_TYPE]: the type tag with the value it carries (the NID
    of an object, the bytes of a string). *)
Record ASN1_TYPE := {
  type : Z;
  value_object : Z;
  value_octet_string : list Z
}.

Definition V_ASN1_NULL : Z := 5.
Definition V_ASN1_OCTET_STRING : Z := 4.
Definition V_ASN1_OBJECT : Z := 6.

(** NIDs the source compares against; [GT_id_gt_time_signature_alg_nid] is
    assigned by [GT_init] and is only required to differ from the others. *)
Definition NID_undef : Z := 0.
Definition NID_pkcs9_contentType : Z := 50.
Definition NID_pkcs9_messageDigest : Z := 51.
Definition NID_id_smime_ct_TSTInfo : Z := 207.
Definition GT_id_gt_time_signature_alg_nid : Z := 10001.

(** [X509_ALGOR]: the algorithm (by NID) and the type tag of its parameter,
    if there is one. *)
Record X509_ALGOR := {
  algorithm : Z;
  parameter : option Z
}.

(** [X509]: the issuer-and-serial key by which a signer info names its
    certificate, the DER of the public key, [notBefore], and the rest. *)
Record X509 := {
  cert_issuer_and_serial : Z;
  cert_key : list Z;
  cert_notBefore : list Z;
  cert_rest : list Z
}.

Record PKCS7_SIGNER_INFO := {
  si_version : Z;
  issuer_and_serial : Z;
  digest_alg : X509_ALGOR;
  auth_attr : list (Z * ASN1_TYPE);      (* attributes by NID, first value *)
  digest_enc_alg : X509_ALGOR;
  enc_digest : list Z
}.

(** [PKCS7]: the parts of a CMS token the SDK looks at. [signer_info] and
    [cert] are the stacks of [d.sign]; [None] is a [NULL] stack. *)
Record PKCS7 := {
  type_is_signed : bool;
  detached : bool;
  sd_version : Z;
  contents_type : Z;
  contents : ASN1_TYPE;
  signer_info_stack : option (list PKCS7_SIGNER_INFO);
  cert : option (list X509)
}.

Record GTTSTInfo := {
  version : Z;
  extensions : list Z;
  tst_rest : list Z
}.

Record GTPublishedData := {
  publicationIdentifier : Z;
  publicationImprint : list Z
}.

Record GTSignatureInfo := {
  signatureAlgorithm : X509_ALGOR;
  signatureValue : list Z;
  keyCommitmentRef : list (list Z)
}.

Record GTTimeSignature := {
  location : list Z;
  history : list Z;
  publishedData : GTPublishedData;
  pkSignature : option GTSignatureInfo;
  pubReference : option (list (list Z))
}.

(** [struct GTTimestamp_st].  [signer_info] points into the token: it is
    the index of a signer info in the token's stack, so that a change of
    the token is seen through it. *)
Record GTTimestamp := {
  token : option PKCS7;
  tst_info : option GTTSTInfo;
  signer_info : option nat;
  time_signature : option GTTimeSignature
}.

(** [PKCS7_get_signer_info(token)] *)
Definition PKCS7_get_signer_info (t : PKCS7) : option (list PKCS7_SIGNER_INFO) :=
  if type_is_signed t then signer_info_stack t else None.

(** [timestamp->signer_info], dereferenced. *)
Definition the_signer_info (ts : GTTimestamp) : option PKCS7_SIGNER_INFO :=
  match token ts, signer_info ts with
  | Some t, Some i =>
      match signer_info_stack t with
      | Some sis => sis !! i
      | None => None
      end
  | _, _ => None
  end.

(** [PKCS7_get_signed_attribute(si, nid)] *)
Definition PKCS7_get_signed_attribute (si : PKCS7_SIGNER_INFO) (nid : Z)
  : option ASN1_TYPE :=
  match List.find (fun a => fst a =? nid) (auth_attr si) with
  | Some a => Some (snd a)
  | None => None
  end.

(** [PKCS7_cert_from_signer_info(token, si)]: the certificate of the
    token's bag that carries the issuer and serial number of [si]. *)
Definition PKCS7_cert_from_signer_info (t : PKCS7) (si : PKCS7_SIGNER_INFO)
  : option X509 :=
  if type_is_signed t then
    match cert t with
    | Some certs =>
        List.find (fun c => cert_issuer_and_serial c =? issuer_and_serial si) certs
    | None => None
    end
  else None.

End Token.

(** * Results of functions that leave through [goto cleanup] *)

(** [Ok a]: the function returns [GT_OK] and hands [a] to its caller.
    [Err res]: it returns the error code [res] and hands over nothing.
    [Undef]: the source dereferences a [NULL] pointer or writes outside an
    array. *)
Inductive Res (A : Type) :=
| Ok (a : A)
| Err (res : Z)
| Undef.

Arguments Ok {A} a.
Arguments Err {A} res.
Arguments Undef {A}.

Definition bind {A B : Type} (r : Res A) (k : A -> Res B) : Res B :=
  match r with
  | Ok a => k a
  | Err res => Err res
  | Undef => Undef
  end.

Notation "'let*' x ':=' e 'in' k" := (bind e (fun x => k))
  (at level 10, x name, e at level 100, k at level 200).
Notation "'check' e 'in' k" := (bind e (fun _ => k))
  (at level 10, e at level 100, k at level 200).

(** [if (!cond) { res = code; goto cleanup; }] *)
Definition require (cond : bool) (code : Z) : Res unit :=
  if cond then Ok tt else Err code.

(** [tmp_res = f(..); if (tmp_res != GT_OK) { res = tmp_res; goto cleanup; }]
    for a callee given by its return value and its output. *)
Definition call {A : Type} (r : Z * A) : Res A :=
  if fst r =? GT_OK then Ok (snd r) else Err (fst r).

(** A callee that yields a pointer or a length, with the code to leave with
    when it yields [NULL] or a negative length. *)
Definition from_option {A : Type} (o : option A) (code : Z) : Res A :=
  match o with
  | Some a => Ok a
  | None => Err code
  end.

(** The value of the [int] a function returns. *)
Definition ret_code {A : Type} (r : Res A) : option Z :=
  match r with
  | Ok _ => Some GT_OK
  | Err res => Some res
  | Undef => None
  end.

Fixpoint bytes_eqb (a b : list Z) : bool :=
  match a, b with
  | [], [] => true
  | x :: a', y :: b' => (x =? y) && bytes_eqb a' b'
  | _, _ => false
  end.

(** * Calls that leave this development *)

(** The results of the calls into OpenSSL, into the allocator and into the
    SDK functions that are not embedded here, one member per call site. *)
Record Env := {
  sizeof_time_t : Z;
  (* createVerificationInfo *)
  malloc_info : bool;
  malloc_implicit : bool;
  addExplicitVerificationInfo : Z;
  GT_shape : list Z -> Z * list Z;
  GT_findHistoryIdentifier : Z -> list Z -> Z * Z;
  malloc_location_name : bool;
  GT_publishedDataToBase32 : Token.GTPublishedData -> Z * string;
  (* setVerifiedPKISignatureInfo *)
  i2d_X509_PUBKEY : list Z -> option (list Z);
  GTPublishedData_new : bool;
  GT_ASN1_TIME_get : list Z -> Z * Z;
  GT_uint64ToASN1Integer : bool;
  GT_calculateDataImprint : list Z -> Z -> Z * list Z;
  i2d_X509 : Token.X509 -> option (list Z);
  malloc_base32 : bool;
  malloc_certificate : bool;
  oidToString : Z -> Z * string;
  GT_hexEncode : list Z -> Z * string;
  (* checkTimestampSyntax *)
  GT_checkUnhandledExtensions : list Z -> Z;
  GT_checkDataImprint : list Z -> Z;
  GT_checkHashChain : list Z -> Z;
  GT_checkHashChainLengthConsistent : list Z -> Z;
  (* checkHashChain *)
  GT_isSupportedHashAlgorithm : Z -> bool;
  EVP_get_digestbyobj : Z -> option Z;
  GT_EVPToHashChainID : option Z -> Z;
  i2d_GTTSTInfo : Token.GTTSTInfo -> option (list Z);
  i2d_auth_attr : list (Z * Token.ASN1_TYPE) -> option (list Z);
  GT_hashChainCalculate : list Z -> list Z -> Z * list Z;
  GT_hashChainCalculateNoDepth : list Z -> list Z -> Z * list Z;
  (* checkPublicKeySignature *)
  i2d_GTPublishedData : Token.GTPublishedData -> option (list Z);
  X509_get_pubkey : Token.X509 -> option (list Z);
  EVP_VerifyInit : Z -> Z;
  EVP_VerifyUpdate : Z -> list Z -> Z;
  EVP_VerifyFinal : Z -> list Z -> list Z -> list Z -> Z
}.

(** * Verification (gt_timestamp.c) *)
Module Verify.
Import Token.

(** [GTTimeStampImplicit] *)
Record GTTimeStampImplicit := {
  location_id : Z;
  location_name : option Location.NameBuf;
  registered_time : Z;
  public_key_fingerprint : option string;
  publication_string : option string
}.

(** [GTTimeStampExplicit]: the members [setVerifiedPKISignatureInfo] sets;
    the members filled by [addExplicitVerificationInfo] are left out. *)
Record GTTimeStampExplicit := {
  certificate : option string;
  pki_algorithm : option string;
  pki_value : option string
}.

(** [GTVerificationInfo]; [implicit_data] is [None] only between the two
    allocations of [createVerificationInfo]. *)
Record GTVerificationInfo := {
  version : Z;
  verification_errors : Z;
  verification_status : Z;
  implicit_data : option GTTimeStampImplicit;
  explicit_data : option GTTimeStampExplicit
}.

(** [info->verification_errors |= flag] *)
Definition add_error (info : GTVerificationInfo) (flag : Z) : GTVerificationInfo :=
  {| version := version info;
     verification_errors := Z.lor (verification_errors info) flag;
     verification_status := verification_status info;
     implicit_data := implicit_data info;
     explicit_data := explicit_data info |}.

(** [info->verification_status |= flag] *)
Definition add_status (info : GTVerificationInfo) (flag : Z) : GTVerificationInfo :=
  {| version := version info;
     verification_errors := verification_errors info;
     verification_status := Z.lor (verification_status info) flag;
     implicit_data := implicit_data info;
     explicit_data := explicit_data info |}.

Definition set_implicit (info : GTVerificationInfo) (i : GTTimeStampImplicit)
  : GTVerificationInfo :=
  {| version := version info;
     verification_errors := verification_errors info;
     verification_status := verification_status info;
     implicit_data := Some i;
     explicit_data := explicit_data info |}.

Definition set_explicit (info : GTVerificationInfo) (e : GTTimeStampExplicit)
  : GTVerificationInfo :=
  {| version := version info;
     verification_errors := verification_errors info;
     verification_status := verification_status info;
     implicit_data := implicit_data info;
     explicit_data := Some e |}.

(** Conversions between the integer types involved in the registration
    time: [(time_t) v] for a [time_t] of [size] bytes, [(GT_UInt64) v] and
    the store into the signed [GT_Time_t64]. *)
Definition cast_signed (bits : Z) (v : Z) : Z :=
  (v + 2 ^ (bits - 1)) mod 2 ^ bits - 2 ^ (bits - 1).
Definition cast_time_t (size : Z) (v : Z) : Z := cast_signed (8 * size) v.
Definition cast_uint64 (v : Z) : Z := v mod 2 ^ 64.
Definition cast_int64 (v : Z) : Z := cast_signed 64 v.

(** The test on [history_identifier] (a 64-bit unsigned [GT_HashDBIndex])
    that [createVerificationInfo] makes when [sizeof(time_t) < 8]. *)
Definition time_t_overflow (env : Env) (history_identifier : Z) : bool :=
  (cast_time_t (sizeof_time_t env) history_identifier <? 0)
  || negb (cast_uint64 (cast_time_t (sizeof_time_t env) history_identifier)
           =? history_identifier).

(** The part of [createVerificationInfo] from [GT_shape] to the assignment
    of [registered_time]: the updated info and [history_identifier]. *)
Definition registration_time (env : Env) (sig : GTTimeSignature)
    (info : GTVerificationInfo) : Res (GTVerificationInfo * Z) :=
  let '(tmp_res, history_shape) := GT_shape env (history sig) in
  let '(tmp_res, history_identifier) :=
    if tmp_res =? GT_OK then
      GT_findHistoryIdentifier env (publicationIdentifier (publishedData sig))
                               history_shape
    else (tmp_res, 0) in
  let tmp_res :=
    if (sizeof_time_t env <? 8) && (tmp_res =? GT_OK)
       && time_t_overflow env history_identifier
    then GT_INVALID_FORMAT else tmp_res in
  if negb (tmp_res =? GT_OK) then
    if (tmp_res =? GT_INVALID_FORMAT) || (tmp_res =? GT_INVALID_LINKING_INFO)
       || (tmp_res =? GT_UNSUPPORTED_FORMAT)
    then Ok (add_error info GT_SYNTACTIC_CHECK_FAILURE, 0)
    else Err tmp_res
  else Ok (info, history_identifier).

(** [setVerifiedPublicationSignatureInfo]: the publication string. *)
Definition setVerifiedPublicationSignatureInfo (env : Env) (sig : GTTimeSignature)
  : Res string :=
  call (GT_publishedDataToBase32 env (publishedData sig)).

(** [setVerifiedPKISignatureInfo]: the key fingerprint and, when the
    explicit data is there, its three members. *)
Definition setVerifiedPKISignatureInfo (env : Env) (tok : PKCS7)
    (si : PKCS7_SIGNER_INFO) (pk : GTSignatureInfo)
    (explicit : option GTTimeStampExplicit)
  : Res (string * option GTTimeStampExplicit) :=
  let* certificate := from_option (PKCS7_cert_from_signer_info tok si)
                                  GT_INVALID_FORMAT in
  let* key_der := from_option (i2d_X509_PUBKEY env (cert_key certificate))
                              GT_CRYPTO_FAILURE in
  check require (GTPublishedData_new env) GT_OUT_OF_MEMORY in
  let* key_pub_time := call (GT_ASN1_TIME_get env (cert_notBefore certificate)) in
  check require (GT_uint64ToASN1Integer env) GT_OUT_OF_MEMORY in
  let* imprint := call (GT_calculateDataImprint env key_der GT_HASHALG_SHA256) in
  let* fingerprint :=
    call (GT_publishedDataToBase32 env
            {| publicationIdentifier := key_pub_time;
               publicationImprint := imprint |}) in
  match explicit with
  | None => Ok (fingerprint, None)
  | Some _ =>
      let* cert_der := from_option (i2d_X509 env certificate) GT_CRYPTO_FAILURE in
      let* tmp_cert :=
        from_option (Base32.GT_base32Encode (malloc_base32 env) cert_der 8)
                    GT_OUT_OF_MEMORY in
      check require (malloc_certificate env) GT_OUT_OF_MEMORY in
      let* alg := call (oidToString env (algorithm (signatureAlgorithm pk))) in
      let* value := call (GT_hexEncode env (signatureValue pk)) in
      Ok (fingerprint,
          Some {| certificate := Some (Base32.text tmp_cert);
                  pki_algorithm := Some alg;
                  pki_value := Some value |})
  end.

(** The first part of [createVerificationInfo]: the two allocations, the
    explicit data when [parse_data] is set, and the two status flags. *)
Definition create_head (env : Env) (sig : GTTimeSignature) (parse_data : Z)
  : Res GTVerificationInfo :=
  check require (malloc_info env) GT_OUT_OF_MEMORY in
  check require (malloc_implicit env) GT_OUT_OF_MEMORY in
  let tmp_info :=
    {| version := 2; verification_errors := GT_NO_FAILURES;
       verification_status := 0; implicit_data := None;
       explicit_data := None |} in
  let* tmp_info :=
    if negb (parse_data =? 0) then
      check call (addExplicitVerificationInfo env, tt) in
      Ok (set_explicit tmp_info
            {| certificate := None; pki_algorithm := None; pki_value := None |})
    else Ok tmp_info in
  let tmp_info :=
    match pkSignature sig with
    | Some _ => add_status tmp_info GT_PUBLIC_KEY_SIGNATURE_PRESENT
    | None => tmp_info
    end in
  let tmp_info :=
    match pubReference sig with
    | Some refs =>
        if Z.of_nat (List.length refs) >? 0
        then add_status tmp_info GT_PUBLICATION_REFERENCE_PRESENT else tmp_info
    | None => tmp_info
    end in
  Ok tmp_info.

(** The last part, from [extractLocation] on, with [history_identifier] as
    the middle part has left it. *)
Definition create_tail (env : Env) (tok : PKCS7) (si : option PKCS7_SIGNER_INFO)
    (sig : GTTimeSignature) (tmp_info : GTVerificationInfo) (history_identifier : Z)
  : Res GTVerificationInfo :=
  let registered := cast_int64 history_identifier in
  let* l :=
    match Location.extractLocation (malloc_location_name env) (location sig) with
    | None => Undef
    | Some (tmp_res, out) =>
        if tmp_res =? GT_OK then Ok (tmp_info, out)
        else if tmp_res =? GT_INVALID_LINKING_INFO
        then Ok (add_error tmp_info GT_SYNTACTIC_CHECK_FAILURE, out)
        else Err tmp_res
    end in
  let '(tmp_info, out) := l in
  let '(id, name) :=
    match out with
    | Some (id, name) => (id, name)
    | None => (0, None)       (* the initial values of the two locals *)
    end in
  if Z.land (verification_status tmp_info) GT_PUBLIC_KEY_SIGNATURE_PRESENT =? 0 then
    let* s := setVerifiedPublicationSignatureInfo env sig in
    Ok (set_implicit tmp_info
          {| location_id := id; location_name := name;
             registered_time := registered;
             public_key_fingerprint := None; publication_string := Some s |})
  else
    match pkSignature sig, si with
    | Some pk, Some si =>
        let* r := setVerifiedPKISignatureInfo env tok si pk (explicit_data tmp_info) in
        let tmp_info :=
          match snd r with
          | Some e => set_explicit tmp_info e
          | None => tmp_info
          end in
        Ok (set_implicit tmp_info
              {| location_id := id; location_name := name;
                 registered_time := registered;
                 public_key_fingerprint := Some (fst r);
                 publication_string := None |})
    | _, _ => Undef
    end.

(** [createVerificationInfo(timestamp, &verification_info, parse_data)] for
    a timestamp with token [tok], signer info [si] and time signature
    [sig]. *)
Definition createVerificationInfo (env : Env) (tok : PKCS7)
    (si : option PKCS7_SIGNER_INFO) (sig : GTTimeSignature) (parse_data : Z)
  : Res GTVerificationInfo :=
  let* tmp_info := create_head env sig parse_data in
  let* r := registration_time env sig tmp_info in
  create_tail env tok si sig (fst r) (snd r).

(** [checkTimestampSyntax(timestamp)]: the [int] it returns. *)
Definition checkTimestampSyntax (env : Env) (tok : PKCS7) (tst : GTTSTInfo)
    (si : PKCS7_SIGNER_INFO) (sig : GTTimeSignature) : Z :=
  if negb (sd_version tok =? 3) then GT_UNSUPPORTED_FORMAT
  else if negb (Token.version tst =? 1) then GT_UNSUPPORTED_FORMAT
  else if negb (si_version si =? 1) then GT_UNSUPPORTED_FORMAT
  else
    let tmp_res := GT_checkUnhandledExtensions env (extensions tst) in
    if negb (tmp_res =? GT_OK) then tmp_res
    else
      let tmp_res := GT_checkDataImprint env (publicationImprint (publishedData sig)) in
      if negb (tmp_res =? GT_OK) then tmp_res
      else
        let tmp_res := GT_checkHashChain env (location sig) in
        if negb (tmp_res =? GT_OK) then tmp_res
        else
          let tmp_res := GT_checkHashChain env (history sig) in
          if negb (tmp_res =? GT_OK) then tmp_res
          else
            let tmp_res := GT_checkHashChainLengthConsistent env (location sig) in
            if negb (tmp_res =? GT_OK) then tmp_res
            else
              match PKCS7_get_signed_attribute si NID_pkcs9_contentType with
              | None => GT_INVALID_FORMAT
              | Some a =>
                  if negb (type a =? V_ASN1_OBJECT)
                     || negb (value_object a =? NID_id_smime_ct_TSTInfo)
                  then GT_INVALID_FORMAT
                  else
                    match PKCS7_get_signed_attribute si NID_pkcs9_messageDigest with
                    | None => GT_INVALID_FORMAT
                    | Some a =>
                        if negb (type a =? V_ASN1_OCTET_STRING) then GT_INVALID_FORMAT
                        else GT_OK
                    end
              end.

(** The parameter of an algorithm identifier is absent or an explicit NULL. *)
Definition parameter_ok (a : X509_ALGOR) : bool :=
  match parameter a with
  | None => true
  | Some t => t =? V_ASN1_NULL
  end.

(** [checkHashChain(timestamp)] *)
Definition checkHashChain (env : Env) (tst : GTTSTInfo) (si : PKCS7_SIGNER_INFO)
    (sig : GTTimeSignature) : Res unit :=
  let imprint := publicationImprint (publishedData sig) in
  check require (negb (Z.of_nat (List.length imprint) <? 1)) GT_INVALID_FORMAT in
  let alg_server := rd imprint 0 in
  check require (GT_isSupportedHashAlgorithm env alg_server)
                GT_UNTRUSTED_HASH_ALGORITHM in
  let alg_client :=
    GT_EVPToHashChainID env (EVP_get_digestbyobj env (algorithm (digest_alg si))) in
  check require (negb (alg_client <? 0)) GT_UNTRUSTED_HASH_ALGORITHM in
  check require (parameter_ok (digest_alg si)) GT_INVALID_FORMAT in
  let* tmp_der := from_option (i2d_GTTSTInfo env tst) GT_CRYPTO_FAILURE in
  let* tmp_imprint := call (GT_calculateDataImprint env tmp_der alg_client) in
  let* attribute_value :=
    match PKCS7_get_signed_attribute si NID_pkcs9_messageDigest with
    | Some a => if type a =? V_ASN1_OCTET_STRING then Ok a else Err GT_INVALID_FORMAT
    | None => Err GT_INVALID_FORMAT
    end in
  check require
    (negb (negb (Z.of_nat (List.length tmp_imprint)
                 =? Z.of_nat (List.length (value_octet_string attribute_value)) + 1)
           || negb (bytes_eqb (value_octet_string attribute_value)
                              (drop 1 tmp_imprint))))
    GT_WRONG_SIGNED_DATA in
  let* tmp_der := from_option (i2d_auth_attr env (auth_attr si)) GT_CRYPTO_FAILURE in
  let* input := call (GT_calculateDataImprint env tmp_der alg_client) in
  let* loc_output := call (GT_hashChainCalculate env (location sig) input) in
  let* hist_output := call (GT_hashChainCalculateNoDepth env (history sig) loc_output) in
  let* output := call (GT_calculateDataImprint env hist_output alg_server) in
  check require (bytes_eqb output imprint) GT_INVALID_AGGREGATION in
  Ok tt.

(** [checkPublicKeySignature(timestamp, certificate)] *)
Definition checkPublicKeySignature (env : Env) (sig : GTTimeSignature)
    (pk : GTSignatureInfo) (certificate : X509) : Res unit :=
  let algorithm := signatureAlgorithm pk in
  let signature := signatureValue pk in
  let* published_data_der :=
    from_option (i2d_GTPublishedData env (publishedData sig)) GT_CRYPTO_FAILURE in
  let* pubkey := from_option (X509_get_pubkey env certificate) GT_CRYPTO_FAILURE in
  let* evp_md :=
    from_option (EVP_get_digestbyobj env (Token.algorithm algorithm))
                GT_CRYPTO_FAILURE in
  check require (parameter_ok algorithm) GT_INVALID_FORMAT in
  check require (negb (GT_EVPToHashChainID env (Some evp_md) <? 0))
                GT_UNTRUSTED_SIGNATURE_ALGORITHM in
  check require (negb (EVP_VerifyInit env evp_md =? 0)) GT_CRYPTO_FAILURE in
  check require (negb (EVP_VerifyUpdate env evp_md published_data_der =? 0))
                GT_CRYPTO_FAILURE in
  let tmp_res := EVP_VerifyFinal env evp_md published_data_der signature pubkey in
  check require (negb (tmp_res <? 0)) GT_CRYPTO_FAILURE in
  check require (negb (tmp_res =? 0)) GT_INVALID_SIGNATURE in
  Ok tt.

(** The [int] of a sub-check. *)
Definition code_of (r : Res unit) : Res Z :=
  match r with
  | Ok _ => Ok GT_OK
  | Err res => Ok res
  | Undef => Undef
  end.

(** The [switch (tmp_res)] after the hash chain check. *)
Definition hashchain_failure (tmp_res : Z) : bool :=
  (tmp_res =? GT_INVALID_FORMAT) || (tmp_res =? GT_UNTRUSTED_HASH_ALGORITHM)
  || (tmp_res =? GT_WRONG_SIGNED_DATA) || (tmp_res =? GT_INVALID_AGGREGATION).

(** The [switch (tmp_res)] after the public key signature check. *)
Definition signature_failure (tmp_res : Z) : bool :=
  (tmp_res =? GT_INVALID_FORMAT) || (tmp_res =? GT_UNTRUSTED_HASH_ALGORITHM)
  || (tmp_res =? GT_UNTRUSTED_SIGNATURE_ALGORITHM)
  || (tmp_res =? GT_WRONG_SIGNED_DATA) || (tmp_res =? GT_INVALID_SIGNATURE).

(** [GTTimestamp_verify(timestamp, parse_data, verification_info)].
    [timestamp] is [None] for a [NULL] argument and [out_nonnull] tells
    whether [verification_info] is a non-[NULL] pointer; [Ok info] is the
    return of [GT_OK] with [*verification_info = info]. *)
Definition GTTimestamp_verify (env : Env) (timestamp : option GTTimestamp)
    (parse_data : Z) (out_nonnull : bool) : Res GTVerificationInfo :=
  match timestamp with
  | None => Err GT_INVALID_ARGUMENT
  | Some ts =>
      match token ts, tst_info ts, time_signature ts with
      | Some tok, Some tst, Some sig =>
          check require out_nonnull GT_INVALID_ARGUMENT in
          let* tmp_info :=
            createVerificationInfo env tok (the_signer_info ts) sig parse_data in
          match the_signer_info ts with
          | None => Undef
          | Some si =>
              let certificate :=
                if negb (Z.land (verification_status tmp_info)
                                GT_PUBLIC_KEY_SIGNATURE_PRESENT =? 0)
                then PKCS7_cert_from_signer_info tok si else None in
              (* Syntactic Check. *)
              let tmp_res := checkTimestampSyntax env tok tst si sig in
              let tmp_info :=
                if negb (tmp_res =? GT_OK)
                then add_error tmp_info GT_SYNTACTIC_CHECK_FAILURE else tmp_info in
              (* Hash Chain Check. *)
              let* tmp_res := code_of (checkHashChain env tst si sig) in
              let* tmp_info :=
                if tmp_res =? GT_OK then Ok tmp_info
                else if hashchain_failure tmp_res
                then Ok (add_error tmp_info GT_HASHCHAIN_VERIFICATION_FAILURE)
                else Err tmp_res in
              (* Public Key Signature Check if applicable. *)
              match pkSignature sig with
              | None => Ok tmp_info
              | Some pk =>
                  let* tmp_res :=
                    match certificate with
                    | None => Ok GT_INVALID_FORMAT
                    | Some c => code_of (checkPublicKeySignature env sig pk c)
                    end in
                  if tmp_res =? GT_OK then Ok tmp_info
                  else if signature_failure tmp_res
                  then Ok (add_error tmp_info GT_PUBLIC_KEY_SIGNATURE_FAILURE)
                  else Err tmp_res
              end
          end
      | _, _, _ => Err GT_INVALID_ARGUMENT
      end
  end.

End Verify.

(** * The extension engine (gt_timestamp.c) *)
Module Extend.

(** [struct GTTimestamp_st] as an object in memory: [token] is the address
    of a [PKCS7] object, [signer_info] the index of a signer info inside
    that token; [tst_info] and [time_signature] are owned by the
    timestamp. *)
Record GTTimestamp_st := {
  token : option nat;
  tst_info : option Token.GTTSTInfo;
  signer_info : option nat;
  time_signature : option Token.GTTimeSignature
}.

(** The memory a call works on: the timestamps and tokens that are
    allocated, by address, and the caller's variable that
    [extended_timestamp] points to. *)
Record Heap := {
  timestamps : gmap nat GTTimestamp_st;
  tokens : gmap nat Token.PKCS7;
  out : option nat
}.

Record GTCertToken := {
  ct_version : Z;
  ct_extensions : list Z;
  ct_rest : list Z
}.

Record GTCertTokenResponse := {
  status : list Z;
  certToken : option GTCertToken
}.

(** Results of the calls that leave this development. *)
Record ExtendEnv := {
  d2i_GTCertTokenResponse : list Z -> Z -> option GTCertTokenResponse;
  response_malloc_failure : bool;         (* [GT_isMallocFailure()] *)
  GT_analyseResponseStatus : list Z -> Z;
  GT_checkUnhandledExtensions : list Z -> Z;
  GT_extendConsistencyCheck : Token.GTTimeSignature -> GTCertToken -> Z;
  GT_extendTimeSignature :
    Token.GTTimeSignature -> GTCertToken -> Z * Token.GTTimeSignature;
  GT_malloc_timestamp : bool;             (* in [GTTimestamp_new] *)
  PKCS7_dup : bool;                       (* the duplicate could be allocated *)
  ASN1_item_pack : Token.GTTimeSignature -> option (list Z);
  pack_malloc_failure : bool;
  d2i_GTTSTInfo : list Z -> option Token.GTTSTInfo;
  tst_info_malloc_failure : bool;
  d2i_GTTimeSignature : list Z -> option Token.GTTimeSignature;
  time_signature_malloc_failure : bool
}.

Definition store_timestamp (h : Heap) (a : nat) (o : GTTimestamp_st) : Heap :=
  {| timestamps := <[a := o]> (timestamps h); tokens := tokens h; out := out h |}.

Definition store_token (h : Heap) (a : nat) (t : Token.PKCS7) : Heap :=
  {| timestamps := timestamps h; tokens := <[a := t]> (tokens h); out := out h |}.

Definition store_out (h : Heap) (a : nat) : Heap :=
  {| timestamps := timestamps h; tokens := tokens h; out := Some a |}.

(** [GTTimestamp_free(timestamp)]: the token goes with the timestamp. *)
Definition GTTimestamp_free (h : Heap) (timestamp : option nat) : Heap :=
  match timestamp with
  | None => h
  | Some a =>
      match timestamps h !! a with
      | None => h
      | Some o =>
          {| timestamps := delete a (timestamps h);
             tokens := match token o with
                       | Some ta => delete ta (tokens h)
                       | None => tokens h
                       end;
             out := out h |}
      end
  end.

(** [GTTimestamp_updateTSTInfo(timestamp)]: the return value and the memory
    afterwards; [None] when [timestamp] or its token is not allocated. *)
Definition GTTimestamp_updateTSTInfo (env : ExtendEnv) (h : Heap)
    (timestamp : option nat) : option (Z * Heap) :=
  match timestamp with
  | None => Some (GT_INVALID_ARGUMENT, h)
  | Some a =>
      match timestamps h !! a with
      | None => None
      | Some o =>
          match token o with
          | None => Some (GT_INVALID_ARGUMENT, h)
          | Some ta =>
              match tokens h !! ta with
              | None => None
              | Some t =>
                  let o := {| token := token o; tst_info := None;
                              signer_info := signer_info o;
                              time_signature := time_signature o |} in
                  let h := store_timestamp h a o in
                  if negb (Token.type_is_signed t) then Some (GT_INVALID_FORMAT, h)
                  else if Token.detached t then Some (GT_INVALID_FORMAT, h)
                  else if negb (Token.contents_type t =? Token.NID_id_smime_ct_TSTInfo)
                  then Some (GT_INVALID_FORMAT, h)
                  else if negb (Token.type (Token.contents t)
                                =? Token.V_ASN1_OCTET_STRING)
                  then Some (GT_INVALID_FORMAT, h)
                  else
                    match d2i_GTTSTInfo env
                            (Token.value_octet_string (Token.contents t)) with
                    | None =>
                        Some (if tst_info_malloc_failure env
                              then GT_OUT_OF_MEMORY else GT_INVALID_FORMAT, h)
                    | Some tst =>
                        Some (GT_OK,
                              store_timestamp h a
                                {| token := token o; tst_info := Some tst;
                                   signer_info := signer_info o;
                                   time_signature := time_signature o |})
                    end
              end
          end
      end
  end.

(** [GTTimestamp_updateTimeSignature(timestamp)] *)
Definition GTTimestamp_updateTimeSignature (env : ExtendEnv) (h : Heap)
    (timestamp : option nat) : option (Z * Heap) :=
  match timestamp with
  | None => Some (GT_INVALID_ARGUMENT, h)
  | Some a =>
      match timestamps h !! a with
      | None => None
      | Some o =>
          match token o with
          | None => Some (GT_INVALID_ARGUMENT, h)
          | Some ta =>
              match tokens h !! ta with
              | None => None
              | Some t =>
                  let o := {| token := token o; tst_info := tst_info o;
                              signer_info := None; time_signature := None |} in
                  let h := store_timestamp h a o in
                  if negb (Token.type_is_signed t) then Some (GT_INVALID_FORMAT, h)
                  else
                    match Token.PKCS7_get_signer_info t with
                    | Some [si] =>
                        let o := {| token := token o; tst_info := tst_info o;
                                    signer_info := Some 0%nat;
                                    time_signature := None |} in
                        let h := store_timestamp h a o in
                        if negb (Token.algorithm (Token.digest_enc_alg si)
                                 =? Token.GT_id_gt_time_signature_alg_nid)
                           || negb (match Token.parameter (Token.digest_enc_alg si) with
                                    | None => true
                                    | Some ty => ty =? Token.V_ASN1_NULL
                                    end)
                        then Some (GT_INVALID_FORMAT, h)
                        else
                          match d2i_GTTimeSignature env (Token.enc_digest si) with
                          | None =>
                              Some (if time_signature_malloc_failure env
                                    then GT_OUT_OF_MEMORY else GT_INVALID_FORMAT, h)
                          | Some sig =>
                              Some (GT_OK,
                                    store_timestamp h a
                                      {| token := token o; tst_info := tst_info o;
                                         signer_info := Some 0%nat;
                                         time_signature := Some sig |})
                          end
                    | _ => Some (GT_INVALID_FORMAT, h)
                    end
              end
          end
      end
  end.

(** The first part of [GTTimestamp_createExtendedTimestamp], up to the new
    time signature: it reads the response and the time signature of the
    input and writes nothing. *)
Definition extended_time_signature (env : ExtendEnv) (sig : Token.GTTimeSignature)
    (response : list Z) (response_length : Z) : Res Token.GTTimeSignature :=
  let* resp :=
    from_option (d2i_GTCertTokenResponse env response response_length)
                (if response_malloc_failure env
                 then GT_OUT_OF_MEMORY else GT_INVALID_FORMAT) in
  check call (GT_analyseResponseStatus env (status resp), tt) in
  let* cert_token := from_option (certToken resp) GT_INVALID_FORMAT in
  check require (ct_version cert_token =? 1) GT_UNSUPPORTED_FORMAT in
  check call (GT_checkUnhandledExtensions env (ct_extensions cert_token), tt) in
  check call (GT_extendConsistencyCheck env sig cert_token, tt) in
  call (GT_extendTimeSignature env sig cert_token).

(** The token of the new timestamp: the duplicate with the time signature
    of its signer info replaced and its certificates removed. *)
Definition spliced (t : Token.PKCS7) (sis : list Token.PKCS7_SIGNER_INFO)
    (si : Token.PKCS7_SIGNER_INFO) (packed : list Z) : Token.PKCS7 :=
  {| Token.type_is_signed := Token.type_is_signed t;
     Token.detached := Token.detached t;
     Token.sd_version := Token.sd_version t;
     Token.contents_type := Token.contents_type t;
     Token.contents := Token.contents t;
     Token.signer_info_stack :=
       Some (<[0%nat :=
                {| Token.si_version := Token.si_version si;
                   Token.issuer_and_serial := Token.issuer_and_serial si;
                   Token.digest_alg := Token.digest_alg si;
                   Token.auth_attr := Token.auth_attr si;
                   Token.digest_enc_alg := Token.digest_enc_alg si;
                   Token.enc_digest := packed |}]> sis);
     Token.cert := None |}.

(** The second part, from [PKCS7_dup] to [GTTimestamp_updateTimeSignature],
    for the new timestamp at address [a]: the code to leave with and the
    memory at that point. *)
Definition build (env : ExtendEnv) (h : Heap) (a : nat) (in_token : Token.PKCS7)
    (ets : Token.GTTimeSignature) : option (Z * Heap) :=
  if negb (PKCS7_dup env) then Some (GT_OUT_OF_MEMORY, h)
  else
    let ta := fresh (dom (tokens h)) in
    let h := store_token h ta in_token in
    let h := store_timestamp h a
               {| token := Some ta; tst_info := None; signer_info := None;
                  time_signature := None |} in
    (* the source asserts that the token is signed and has one signer info *)
    match Token.PKCS7_get_signer_info in_token with
    | Some (si :: sis) =>
        match ASN1_item_pack env ets with
        | None =>
            Some (if pack_malloc_failure env
                  then GT_OUT_OF_MEMORY else GT_CRYPTO_FAILURE, h)
        | Some packed =>
            let h := store_token h ta (spliced in_token (si :: sis) si packed) in
            match GTTimestamp_updateTSTInfo env h (Some a) with
            | None => None
            | Some (tmp_res, h) =>
                if negb (tmp_res =? GT_OK) then Some (tmp_res, h)
                else
                  match GTTimestamp_updateTimeSignature env h (Some a) with
                  | None => None
                  | Some (tmp_res, h) =>
                      if negb (tmp_res =? GT_OK) then Some (tmp_res, h)
                      else Some (GT_OK, h)
                  end
            end
        end
    | _ => None
    end.

(** [GTTimestamp_createExtendedTimestamp(timestamp, response,
    response_length, extended_timestamp)]: [timestamp] is the address of
    the input ([None] for [NULL]), [response] the buffer ([None] for
    [NULL]), [extended_timestamp] tells whether the output pointer is
    non-[NULL].  The result is the return value and the memory afterwards;
    [None] where the behaviour is undefined. *)
Definition GTTimestamp_createExtendedTimestamp (env : ExtendEnv) (h : Heap)
    (timestamp : option nat) (response : option (list Z)) (response_length : Z)
    (extended_timestamp : bool) : option (Z * Heap) :=
  match timestamp with
  | None => Some (GT_INVALID_ARGUMENT, h)
  | Some a_in =>
      match timestamps h !! a_in with
      | None => None
      | Some o =>
          match token o, tst_info o, time_signature o, response with
          | Some ta_in, Some _, Some sig, Some resp =>
              if (response_length =? 0) || negb extended_timestamp
              then Some (GT_INVALID_ARGUMENT, h)
              else
                match extended_time_signature env sig resp response_length with
                | Undef => None
                | Err res => Some (res, h)
                | Ok ets =>
                    (* tmp_timestamp = GTTimestamp_new() *)
                    if negb (GT_malloc_timestamp env) then Some (GT_OUT_OF_MEMORY, h)
                    else
                      let a := fresh (dom (timestamps h)) in
                      let h1 := store_timestamp h a
                                  {| token := None; tst_info := None;
                                     signer_info := None;
                                     time_signature := None |} in
                      match tokens h !! ta_in with
                      | None => None
                      | Some in_token =>
                          match build env h1 a in_token ets with
                          | None => None
                          | Some (res, h2) =>
                              if res =? GT_OK then Some (GT_OK, store_out h2 a)
                              else Some (res, GTTimestamp_free h2 (Some a))
                          end
                      end
                end
          | _, _, _, _ => Some (GT_INVALID_ARGUMENT, h)
          end
      end
  end.

End Extend.

(** * asn1_time_get.c *)
Module Asn1Time.

Definition V_ASN1_UTCTIME : Z := 23.
Definition V_ASN1_GENERALIZEDTIME : Z := 24.

(** OpenSSL's [ASN1_TIME]: the type tag, [length] and the buffer [data]
    points to ([None] for [NULL]). *)
Record ASN1_TIME := {
  type : Z;
  length : Z;
  data : option (list Z)
}.

(** [static const char days[2][12]] *)
Definition days : list (list Z) :=
  [ [31; 28; 31; 30; 31; 30; 31; 31; 30; 31; 30; 31];
    [31; 29; 31; 30; 31; 30; 31; 31; 30; 31; 30; 31] ].

(** [days[isleap][i]] *)
Definition days_at (isleap : bool) (i : Z) : Z :=
  rd (nth (if isleap then 1%nat else 0%nat) days []) i.

(** The loop of [pint] on the text [d], the cursor being at offset [s]:
    while [n] is not zero, a character that is not a digit ends the
    function ([None]); a digit is added to ten times [retval], [n] is
    decremented and the cursor moves on. *)
Fixpoint pint_loop (d : list Z) (n : nat) (s retval : Z) : option Z * Z :=
  match n with
  | O => (Some retval, s)
  | S n' =>
      if (rd d s <? 48) || (rd d s >? 57) then (None, s)
      else pint_loop d n' (s + 1) (retval * 10 + (rd d s - 48))
  end.

(** [pint(&s, n, min, max, &e)]: the value returned, the new [s] and the
    new [*e]. *)
Definition pint (d : list Z) (s : Z) (n : nat) (min max e : Z) : Z * Z * Z :=
  match pint_loop d n s 0 with
  | (None, s') => (0, s', GT_INVALID_FORMAT)
  | (Some retval, s') =>
      (retval, s',
       if (retval <? min) || (retval >? max) then GT_INVALID_FORMAT else e)
  end.

(** The members of [struct tm] that the function sets. *)
Record tm := {
  tm_sec : Z;
  tm_min : Z;
  tm_hour : Z;
  tm_mday : Z;
  tm_mon : Z;
  tm_year : Z;
  tm_isdst : Z
}.

(** The loop that skips fractional seconds: the cursor moves on while it
    is at a full stop, a comma or a digit.  It stops at the terminator at
    the latest. *)
Fixpoint skip_fraction (fuel : nat) (d : list Z) (s : Z) : Z :=
  match fuel with
  | O => s
  | S fuel' =>
      if (rd d s =? 46) || (rd d s =? 44) || ((rd d s >=? 48) && (rd d s <=? 57))
      then skip_fraction fuel' d (s + 1) else s
  end.

(** [for (i = t.tm_mon - 1; i >= 0; --i)], adding [days[isleap][i] * 86400]
    to the result; [n] bounds the number of rounds. *)
Fixpoint month_loop (n : nat) (isleap : bool) (i result : Z) : Z :=
  match n with
  | O => result
  | S n' =>
      if i >=? 0 then month_loop n' isleap (i - 1) (result + days_at isleap i * 86400)
      else result
  end.

(** [for (i = 1900; i >= year; i -= 100)], adding 86400 to the result
    unless [i % 400 == 0]. *)
Fixpoint past_centuries (fuel : nat) (year i result : Z) : Z :=
  match fuel with
  | O => result
  | S fuel' =>
      if i >=? year then
        past_centuries fuel' year (i - 100)
          (if Z.rem i 400 =? 0 then result else result + 86400)
      else result
  end.

(** [for (i = 2100; i < year; i += 100)], subtracting 86400 from the
    result unless [i % 400 == 0]. *)
Fixpoint future_centuries (fuel : nat) (year i result : Z) : Z :=
  match fuel with
  | O => result
  | S fuel' =>
      if i <? year then
        future_centuries fuel' year (i + 100)
          (if Z.rem i 400 =? 0 then result else result - 86400)
      else result
  end.

(** The conversion by hand of a UTC time: the value stored through [result]
    and the error code.  [GT_Time_t64] is 64 bits wide, so that
    the test on [sizeof] of the result holds; no intermediate value leaves its range for
    the years [pint] lets through.  The loops over the centuries make at
    most a hundred rounds for a year of four digits. *)
Definition seconds_by_hand (t : tm) (offset : Z) : Z * Z :=
  let result := tm_sec t in
  let result := result + (tm_min t - offset) * 60 in
  let result := result + tm_hour t * 3600 in
  let result := result + (tm_mday t - 1) * 86400 in
  let year := tm_year t + 1900 in
  let isleap :=
    ((Z.rem year 4 =? 0) && negb (Z.rem year 100 =? 0)) || (Z.rem year 400 =? 0) in
  let result := month_loop 12 isleap (tm_mon t - 1) result in
  let result := result + (year - 1970) * 31536000 in
  if year <? 1970 then
    let result := result - Z.quot (1970 - year + 2) 4 * 86400 in
    let result := past_centuries 100 year 1900 result in
    (if result >=? 0 then GT_TIME_OVERFLOW else GT_OK, result)
  else
    let result := result + Z.quot (year - 1970 + 1) 4 * 86400 in
    let result := future_centuries 100 year 2100 result in
    (if result <? 0 then GT_TIME_OVERFLOW else GT_OK, result).

(** The calls of [pint] for the fields of the time, from the beginning of
    the text [d]: the year of two digits (of four in a GeneralizedTime),
    month, day, hour, minute and, if a digit follows, the second.  The
    result is [t] as far as it is set, the cursor and [error].
    ([tm_isdst] is set only before [mktime] is called.) *)
Definition read_fields (generalized : bool) (d : list Z) : tm * Z * Z :=
  let error := GT_OK in
  let s := 0 in
  let '(year, s, error) :=
    if generalized then
      let '(v, s, error) := pint d s 4 0 9999 error in (v - 1900, s, error)
    else
      let '(v, s, error) := pint d s 2 0 99 error in
      (if v <? 50 then v + 100 else v, s, error) in
  let '(v, s, error) := pint d s 2 1 12 error in
  let mon := v - 1 in
  let '(mday, s, error) := pint d s 2 1 31 error in
  let '(hour, s, error) := pint d s 2 0 23 error in
  let '(min, s, error) := pint d s 2 0 59 error in
  let '(sec, s, error) :=
    if (rd d s >=? 48) && (rd d s <=? 57) then pint d s 2 0 59 error
    else (0, s, error) in
  ({| tm_sec := sec; tm_min := min; tm_hour := hour; tm_mday := mday;
      tm_mon := mon; tm_year := year; tm_isdst := 0 |}, s, error).

(** [t.tm_isdst = -1] *)
Definition set_isdst (t : tm) (v : Z) : tm :=
  {| tm_sec := tm_sec t; tm_min := tm_min t; tm_hour := tm_hour t;
     tm_mday := tm_mday t; tm_mon := tm_mon t; tm_year := tm_year t;
     tm_isdst := v |}.

(** The zone at the cursor: [Z], or a sign, two digits of hours and two of
    minutes.  The result is [offset] in minutes, the cursor and [error];
    [None] when the character at the cursor is none of [Z], [+] and [-]. *)
Definition read_zone (d : list Z) (s error : Z) : option (Z * Z * Z) :=
  if rd d s =? 90 then Some (0, s + 1, error)
  else if (rd d s =? 45) || (rd d s =? 43) then
    let i := rd d s =? 45 in
    let s := s + 1 in
    let '(offset, s, error) := pint d s 2 0 12 error in
    let offset := offset * 60 in
    let '(v, s, error) := pint d s 2 0 59 error in
    let offset := offset + v in
    Some (if i then - offset else offset, s, error)
  else None.

(** [GT_ASN1_TIME_get(a, result)] outside Windows: the value returned and
    what is stored through [result], if anything is.  [mktime] is the
    function of the C library, which reads the time zone of the process. *)
Definition GT_ASN1_TIME_get (mktime : tm -> Z) (a : ASN1_TIME) : Z * option Z :=
  if negb (type a =? V_ASN1_GENERALIZEDTIME) && negb (type a =? V_ASN1_UTCTIME)
  then (GT_INVALID_FORMAT, None)
  else
    let generalized := type a =? V_ASN1_GENERALIZEDTIME in
    match data a with
    | None => (GT_INVALID_FORMAT, None)
    | Some d =>
        if negb (rd d (length a) =? 0) then (GT_INVALID_FORMAT, None)
        else
          let '(t, s, error) := read_fields generalized d in
          if negb (error =? GT_OK) then (error, None)
          else
            let s := if generalized then skip_fraction (List.length d) d s else s in
            if generalized && (rd d s =? 0) then
              let result := mktime (set_isdst t (-1)) in
              (if result =? -1 then GT_TIME_OVERFLOW else GT_OK, Some result)
            else
              match read_zone d s error with
              | None => (GT_INVALID_FORMAT, None)
              | Some (offset, s, error) =>
                  if negb (error =? GT_OK) then (error, None)
                  else if negb (rd d s =? 0) then (GT_INVALID_FORMAT, None)
                  else
                    let '(error, result) := seconds_by_hand t offset in
                    (error, Some result)
              end
    end.

End Asn1Time.

(** * Queries on a decoded timestamp (gt_timestamp.c) *)
Module Query.
Import Token.

(** [GTTimestamp_isExtended(timestamp)]; [None] is a [NULL] argument. *)
Definition GTTimestamp_isExtended (timestamp : option GTTimestamp) : Z :=
  match timestamp with
  | None => GT_INVALID_ARGUMENT
  | Some ts =>
      match time_signature ts with
      | None => GT_INVALID_ARGUMENT
      | Some sig =>
          match pkSignature sig with
          | None => GT_EXTENDED
          | Some _ => GT_NOT_EXTENDED
          end
      end
  end.

(** [GTTimestamp_isEarlierThan(this_timestamp, that_timestamp)]: the two
    history identifiers ([GT_HashDBIndex] values) are compared. *)
Definition GTTimestamp_isEarlierThan (env : Env)
    (this_timestamp that_timestamp : option GTTimestamp) : Z :=
  match this_timestamp, that_timestamp with
  | Some this, Some that =>
      match token this, tst_info this, time_signature this,
            token that, tst_info that, time_signature that with
      | Some _, Some _, Some sig1, Some _, Some _, Some sig2 =>
          let '(tmp_res, shape1) := GT_shape env (history sig1) in
          if negb (tmp_res =? GT_OK) then tmp_res
          else
            let '(tmp_res, idx1) :=
              GT_findHistoryIdentifier env
                (publicationIdentifier (publishedData sig1)) shape1 in
            if negb (tmp_res =? GT_OK) then tmp_res
            else
              let '(tmp_res, shape2) := GT_shape env (history sig2) in
              if negb (tmp_res =? GT_OK) then tmp_res
              else
                let '(tmp_res, idx2) :=
                  GT_findHistoryIdentifier env
                    (publicationIdentifier (publishedData sig2)) shape2 in
                if negb (tmp_res =? GT_OK) then tmp_res
                else if idx1 <? idx2 then GT_EARLIER
                else GT_NOT_EARLIER
      | _, _, _, _, _, _ => GT_INVALID_ARGUMENT
      end
  | _, _ => GT_INVALID_ARGUMENT
  end.

End Query.

(** * Decoding and encoding a timestamp (gt_timestamp.c) *)
Module Decode.
Import Extend.

(** [GTTimeStampResp]: the status and the token of a response. *)
Record GTTimeStampResp := {
  resp_status : list Z;
  timeStampToken : option Token.PKCS7
}.

(** Results of the calls that leave this development. *)
Record DecodeEnv := {
  d2i_PKCS7 : list Z -> Z -> option Token.PKCS7;
  token_malloc_failure : bool;            (* [GT_isMallocFailure()] *)
  d2i_GTTimeStampResp : list Z -> Z -> option GTTimeStampResp;
  resp_malloc_failure : bool;
  i2d_PKCS7 : Token.PKCS7 -> option (list Z);   (* [None]: a negative length *)
  GT_malloc_data : bool
}.

(** The statements that end [GTTimestamp_DERDecode] and
    [GTTimestamp_createTimestamp] alike, for the new timestamp at address
    [a]: the two update calls, then the store into the caller's variable;
    on an error [GTTimestamp_free] at [cleanup]. *)
Definition finish (env : ExtendEnv) (h : Heap) (a : nat) : option (Z * Heap) :=
  match GTTimestamp_updateTSTInfo env h (Some a) with
  | None => None
  | Some (tmp_res, h) =>
      if negb (tmp_res =? GT_OK) then Some (tmp_res, GTTimestamp_free h (Some a))
      else
        match GTTimestamp_updateTimeSignature env h (Some a) with
        | None => None
        | Some (tmp_res, h) =>
            if negb (tmp_res =? GT_OK) then Some (tmp_res, GTTimestamp_free h (Some a))
            else Some (GT_OK, store_out h a)
        end
  end.

(** [GTTimestamp_new()]: the address of the new timestamp ([None] for
    [NULL]) and the memory afterwards. *)
Definition GTTimestamp_new (env : ExtendEnv) (h : Heap) : option nat * Heap :=
  if GT_malloc_timestamp env then
    let a := fresh (dom (timestamps h)) in
    (Some a, store_timestamp h a
               {| token := None; tst_info := None; signer_info := None;
                  time_signature := None |})
  else (None, h).

(** [tmp_timestamp->token = t] for a token [t] that has just been decoded:
    the token becomes an object in memory, owned by the timestamp at [a]. *)
Definition set_token (h : Heap) (a : nat) (t : Token.PKCS7) : Heap :=
  let ta := fresh (dom (tokens h)) in
  store_timestamp (store_token h ta t) a
    {| token := Some ta; tst_info := None; signer_info := None;
       time_signature := None |}.

(** [GTTimestamp_DERDecode(data, data_length, timestamp)]: [data] is the
    buffer ([None] for [NULL]) and [timestamp] tells whether the output
    pointer is non-[NULL].  The result is the return value and the memory
    afterwards. *)
Definition GTTimestamp_DERDecode (env : ExtendEnv) (denv : DecodeEnv) (h : Heap)
    (data : option (list Z)) (data_length : Z) (timestamp : bool)
  : option (Z * Heap) :=
  match data with
  | None => Some (GT_INVALID_ARGUMENT, h)
  | Some d =>
      if (data_length =? 0) || negb timestamp then Some (GT_INVALID_ARGUMENT, h)
      else
        match GTTimestamp_new env h with
        | (None, h) => Some (GT_OUT_OF_MEMORY, h)
        | (Some a, h) =>
            match d2i_PKCS7 denv d data_length with
            | None =>
                Some (if token_malloc_failure denv
                      then GT_OUT_OF_MEMORY else GT_INVALID_FORMAT,
                      GTTimestamp_free h (Some a))
            | Some t => finish env (set_token h a t) a
            end
        end
  end.

(** [GTTimestamp_createTimestamp(response, response_length, timestamp)].
    The decoded response is a local object that is freed at [cleanup]; its
    token is moved into the new timestamp. *)
Definition GTTimestamp_createTimestamp (env : ExtendEnv) (denv : DecodeEnv) (h : Heap)
    (response : option (list Z)) (response_length : Z) (timestamp : bool)
  : option (Z * Heap) :=
  match response with
  | None => Some (GT_INVALID_ARGUMENT, h)
  | Some r =>
      if (response_length =? 0) || negb timestamp then Some (GT_INVALID_ARGUMENT, h)
      else
        match d2i_GTTimeStampResp denv r response_length with
        | None =>
            Some (if resp_malloc_failure denv
                  then GT_OUT_OF_MEMORY else GT_INVALID_FORMAT, h)
        | Some resp =>
            let tmp_res := GT_analyseResponseStatus env (resp_status resp) in
            if negb (tmp_res =? GT_OK) then Some (tmp_res, h)
            else
              match timeStampToken resp with
              | None => Some (GT_INVALID_FORMAT, h)
              | Some t =>
                  match GTTimestamp_new env h with
                  | (None, h) => Some (GT_OUT_OF_MEMORY, h)
                  | (Some a, h) => finish env (set_token h a t) a
                  end
              end
        end
  end.

(** [GTTimestamp_getDEREncoded(timestamp, data, data_length)]: the return
    value and the bytes stored through [data] ([*data_length] is their
    number); [None] when [timestamp] or its token is not allocated. *)
Definition GTTimestamp_getDEREncoded (denv : DecodeEnv) (h : Heap)
    (timestamp : option nat) (data data_length : bool)
  : option (Z * option (list Z)) :=
  match timestamp with
  | None => Some (GT_INVALID_ARGUMENT, None)
  | Some a =>
      match timestamps h !! a with
      | None => None
      | Some o =>
          match token o with
          | None => Some (GT_INVALID_ARGUMENT, None)
          | Some ta =>
              if negb data || negb data_length then Some (GT_INVALID_ARGUMENT, None)
              else
                match tokens h !! ta with
                | None => None
                | Some t =>
                    match i2d_PKCS7 denv t with
                    | None => Some (GT_CRYPTO_FAILURE, None)
                    | Some der =>
                        if negb (GT_malloc_data denv) then Some (GT_OUT_OF_MEMORY, None)
                        else Some (GT_OK, Some der)
                    end
                end
          end
      end
  end.

End Decode.

(** * Inputs and comparison functions used in the statements *)

(** Reading the digits 0, 1, 8 and 9 as the symbol 7. *)
Definition digit_as_seven (c : Z) : Z :=
  if (c =? 48) || (c =? 49) || (c =? 56) || (c =? 57) then 55 else c.

(** The characters [GT_base32Decode] gives a value to, and the terminator. *)
Definition base32_symbol (c : Z) : bool :=
  Base32.isdigit c || Base32.is_upper c || Base32.is_lower c.

(** The bytes of one step of a chain as [extractLocation] walks it: the
    byte at the beginning of the step, which the loop steps over, the
    direction, the sibling imprint (algorithm id and digest) and the
    level. *)
Definition step_bytes (first direction algorithm : Z) (sibling : list Z) (level : Z)
  : list Z :=
  [first; direction; algorithm] ++ sibling ++ [level].

(** The layout of a step in the words of the specification: direction,
    algorithm, sibling imprint, level, and no other byte. *)
Definition spec_step_bytes (direction algorithm : Z) (sibling : list Z) (level : Z)
  : list Z :=
  [direction; algorithm] ++ sibling ++ [level].

(** The state after [n] loop rounds that all continue. *)
Fixpoint rounds (n : nat) (data : list Z) (st : Location.LocState)
  : option Location.LocState :=
  match n with
  | O => Some st
  | S n' =>
      match Location.loc_step data st with
      | Location.Continue st' => rounds n' data st'
      | _ => None
      end
  end.

(** [loc] when the loop has ended in its [break]. *)
Definition final_loc (data : list Z) : option Location.LocationInfo :=
  match Location.run_loop data with
  | Some (Location.Finished st) => Some (Location.loc st)
  | _ => None
  end.

(** What the local-to-state block assigns. *)
Definition local_fields (l : Location.LocationInfo)
  : Z * Z * option Z * Z * Z :=
  (Location.local_machine l, Location.local_slot l, Location.local_name l,
   Location.local_name_len l, Location.client_id l).

(** Sample sibling digests and chains. *)
Definition sha1_sibling : list Z := replicate 20 17.
Definition sha224_sibling : list Z := replicate 28 171.

(** A name tag: tag byte 0, the length, the name, zero padding to 28 bytes. *)
Definition name_tag (name : list Z) : list Z :=
  [0; Z.of_nat (List.length name)] ++ name
  ++ replicate (26 - List.length name) 0.

(** A step that embeds a name tag, in the words of the specification: the
    direction is 1, the sibling algorithm is SHA-224, the first sibling
    byte is 0, the second is a length [L] with [2 + L <= 28], and the
    sibling bytes from offset [2 + L] to 27 are zero.  [step] is the offset
    of the step in the chain; its sibling digest starts at [step + 3]. *)
Definition embedded_name_tag (data : list Z) (step : Z) : Prop :=
  rd data (step + 1) = 1
  /\ rd data (step + 2) = GT_HASHALG_SHA224
  /\ rd data (step + 3 + 0) = 0
  /\ 2 + rd data (step + 3 + 1) <= 28
  /\ forall i, 2 + rd data (step + 3 + 1) <= i < 28 -> rd data (step + 3 + i) = 0.

(** A SHA-1 step with a fixed sibling digest. *)
Definition sha1_step (first direction level : Z) : list Z :=
  step_bytes first direction GT_HASHALG_SHA1 sha1_sibling level.

(** A chain that ends in a single step of the old core architecture. *)
Definition chain_one_hasher_step : list Z := sha1_step 1 0 255.

(** A chain laid out in the words of the specification: two steps without
    the byte in front of the direction. *)
Definition chain_spec_layout : list Z :=
  spec_step_bytes 1 GT_HASHALG_SHA224 sha224_sibling 5
  ++ spec_step_bytes 0 GT_HASHALG_SHA1 sha1_sibling 255.

(** The same two steps as the loop expects them. *)
Definition chain_code_layout : list Z :=
  step_bytes 1 1 GT_HASHALG_SHA224 sha224_sibling 5
  ++ step_bytes 1 0 GT_HASHALG_SHA1 sha1_sibling 255.

(** Six steps below the state level, one above it, then the hasher step. *)
Definition chain_local_state_hasher : list Z :=
  sha1_step 1 0 1 ++ sha1_step 1 1 2 ++ sha1_step 1 0 3 ++ sha1_step 1 0 4
  ++ sha1_step 1 0 5 ++ sha1_step 1 0 6 ++ sha1_step 1 0 23 ++ sha1_step 1 0 255.

(** The same chain with a step of level 10 put before the hasher step: the
    level drops below the state level again and is then exceeded a second
    time, by the step that ends the walk. *)
Definition chain_level_drop : list Z :=
  sha1_step 1 0 1 ++ sha1_step 1 1 2 ++ sha1_step 1 0 3 ++ sha1_step 1 0 4
  ++ sha1_step 1 0 5 ++ sha1_step 1 0 6 ++ sha1_step 1 0 23 ++ sha1_step 1 0 10
  ++ sha1_step 1 0 255.

(** Six steps below the state level, a step of level 22, the hasher step. *)
Definition chain_level_22 : list Z :=
  sha1_step 1 0 1 ++ sha1_step 1 1 2 ++ sha1_step 1 0 3 ++ sha1_step 1 0 4
  ++ sha1_step 1 0 5 ++ sha1_step 1 0 6 ++ sha1_step 1 0 22 ++ sha1_step 1 0 255.

(** The state the loop is in after [n] rounds on [data] (the initial state
    if it does not get that far). *)
Definition state_after (n : nat) (data : list Z) : Location.LocState :=
  default Location.init_state (rounds n data Location.init_state).

(** A flag of a bitmap is set. *)
Definition has_flag (bitmap flag : Z) : Prop := Z.land bitmap flag = flag.

(** The registration time a verification info reports. *)
Definition reported_time (info : Verify.GTVerificationInfo) : option Z :=
  option_map Verify.registered_time (Verify.implicit_data info).

(** The flag a failed sub-check contributes. *)
Definition flag_if (failed : bool) (flag : Z) : Z := if failed then flag else 0.

(** The info of a successful creation (an empty one otherwise). *)
Definition info_of (r : Res Verify.GTVerificationInfo) : Verify.GTVerificationInfo :=
  match r with
  | Ok info => info
  | _ => {| Verify.version := 0; Verify.verification_errors := 0;
            Verify.verification_status := 0; Verify.implicit_data := None;
            Verify.explicit_data := None |}
  end.

(** ** A sample environment and sample timestamps *)

(** An environment in which no call fails for a system reason: hashing
    prefixes the algorithm id, the chain calculations pass their input on,
    [sizeof(time_t)] is [time_t_size], the history identifier found is
    [history_identifier] and [EVP_VerifyFinal] returns [verify_final]. *)
Definition sample_env (time_t_size history_identifier verify_final : Z) : Env :=
  {| sizeof_time_t := time_t_size;
     malloc_info := true;
     malloc_implicit := true;
     addExplicitVerificationInfo := GT_OK;
     GT_shape := fun _ => (GT_OK, []);
     GT_findHistoryIdentifier := fun _ _ => (GT_OK, history_identifier);
     malloc_location_name := true;
     GT_publishedDataToBase32 := fun _ => (GT_OK, "AAAAAAAA"%string);
     i2d_X509_PUBKEY := fun k => Some k;
     GTPublishedData_new := true;
     GT_ASN1_TIME_get := fun _ => (GT_OK, 1200000000);
     GT_uint64ToASN1Integer := true;
     GT_calculateDataImprint := fun data alg => (GT_OK, alg :: data);
     i2d_X509 := fun c => Some (Token.cert_key c);
     malloc_base32 := true;
     malloc_certificate := true;
     oidToString := fun _ => (GT_OK, "1.2.840.113549.1.1.11"%string);
     GT_hexEncode := fun _ => (GT_OK, "00"%string);
     GT_checkUnhandledExtensions := fun _ => GT_OK;
     GT_checkDataImprint := fun _ => GT_OK;
     GT_checkHashChain := fun _ => GT_OK;
     GT_checkHashChainLengthConsistent := fun _ => GT_OK;
     GT_isSupportedHashAlgorithm := fun alg => (0 <=? alg) && (alg <=? 5);
     EVP_get_digestbyobj := fun nid => Some nid;
     GT_EVPToHashChainID := fun md => match md with Some _ => 1 | None => -1 end;
     i2d_GTTSTInfo := fun t => Some (Token.tst_rest t);
     i2d_auth_attr := fun _ => Some [7];
     GT_hashChainCalculate := fun _ input => (GT_OK, input);
     GT_hashChainCalculateNoDepth := fun _ input => (GT_OK, input);
     i2d_GTPublishedData := fun d => Some (Token.publicationImprint d);
     X509_get_pubkey := fun c => Some (Token.cert_key c);
     EVP_VerifyInit := fun _ => 1;
     EVP_VerifyUpdate := fun _ _ => 1;
     EVP_VerifyFinal := fun _ _ _ _ => verify_final |}.

Definition sample_signer_info : Token.PKCS7_SIGNER_INFO :=
  {| Token.si_version := 1;
     Token.issuer_and_serial := 42;
     Token.digest_alg := {| Token.algorithm := 672; Token.parameter := None |};
     Token.auth_attr :=
       [(Token.NID_pkcs9_contentType,
         {| Token.type := Token.V_ASN1_OBJECT;
            Token.value_object := Token.NID_id_smime_ct_TSTInfo;
            Token.value_octet_string := [] |});
        (Token.NID_pkcs9_messageDigest,
         {| Token.type := Token.V_ASN1_OCTET_STRING;
            Token.value_object := 0;
            Token.value_octet_string := [9; 9] |})];
     Token.digest_enc_alg :=
       {| Token.algorithm := Token.GT_id_gt_time_signature_alg_nid;
          Token.parameter := None |};
     Token.enc_digest := [48; 0] |}.

Definition sample_certificate : Token.X509 :=
  {| Token.cert_issuer_and_serial := 42; Token.cert_key := [1; 2; 3];
     Token.cert_notBefore := []; Token.cert_rest := [] |}.

(** A token of [SignedData] version [sd_version] with the certificate bag
    [certs]. *)
Definition sample_token (sd_version : Z) (certs : option (list Token.X509))
  : Token.PKCS7 :=
  {| Token.type_is_signed := true;
     Token.detached := false;
     Token.sd_version := sd_version;
     Token.contents_type := Token.NID_id_smime_ct_TSTInfo;
     Token.contents := {| Token.type := Token.V_ASN1_OCTET_STRING;
                          Token.value_object := 0;
                          Token.value_octet_string := [9; 9] |};
     Token.signer_info_stack := Some [sample_signer_info];
     Token.cert := certs |}.

Definition sample_tst_info : Token.GTTSTInfo :=
  {| Token.version := 1; Token.extensions := []; Token.tst_rest := [9; 9] |}.

Definition sample_pk_signature : Token.GTSignatureInfo :=
  {| Token.signatureAlgorithm := {| Token.algorithm := 668; Token.parameter := None |};
     Token.signatureValue := [5; 5];
     Token.keyCommitmentRef := [] |}.

(** In [sample_env] the chain recomputation yields the imprint [1; 1; 7]. *)
Definition good_imprint : list Z := [1; 1; 7].
Definition bad_imprint : list Z := [1; 0; 0].

Definition sample_time_signature (imprint : list Z)
    (pk : option Token.GTSignatureInfo) : Token.GTTimeSignature :=
  {| Token.location := chain_one_hasher_step;
     Token.history := [];
     Token.publishedData := {| Token.publicationIdentifier := 1300000000;
                               Token.publicationImprint := imprint |};
     Token.pkSignature := pk;
     Token.pubReference := None |}.

Definition sample_timestamp (sd_version : Z) (certs : option (list Token.X509))
    (imprint : list Z) (pk : option Token.GTSignatureInfo) : Token.GTTimestamp :=
  {| Token.token := Some (sample_token sd_version certs);
     Token.tst_info := Some sample_tst_info;
     Token.signer_info := Some 0%nat;
     Token.time_signature := Some (sample_time_signature imprint pk) |}.

(** A short-term timestamp on which every sub-check passes. *)
Definition timestamp_sound : Token.GTTimestamp :=
  sample_timestamp 3 (Some [sample_certificate]) good_imprint (Some sample_pk_signature).

(** A short-term timestamp on which all three sub-checks fail: wrong
    [SignedData] version, wrong publication imprint, and (in an environment
    whose [EVP_VerifyFinal] returns 0) an invalid signature. *)
Definition timestamp_all_wrong : Token.GTTimestamp :=
  sample_timestamp 1 (Some [sample_certificate]) bad_imprint (Some sample_pk_signature).

(** The same timestamp without the signer's certificate in the token. *)
Definition timestamp_no_certificate : Token.GTTimestamp :=
  sample_timestamp 1 None bad_imprint (Some sample_pk_signature).

(** A sound extended timestamp. *)
Definition timestamp_extended : Token.GTTimestamp :=
  sample_timestamp 3 None good_imprint None.

(** A result that is not undefined. *)
Definition defined {A : Type} (r : Res A) : Prop := r <> Undef.

(** ** Memory during an extension *)

(** The memory [h2] differs from [h] by a timestamp at the new address [a]
    whose token is the new token [tok] at address [ta]. *)
Definition built (h : Extend.Heap) (a ta : nat) (tok : Token.PKCS7)
    (h2 : Extend.Heap) : Prop :=
  exists o,
    Extend.token o = Some ta
    /\ Extend.timestamps h2 = <[a := o]> (Extend.timestamps h)
    /\ Extend.tokens h2 = <[ta := tok]> (Extend.tokens h)
    /\ Extend.out h2 = Extend.out h.

(** The memory [h'] after a successful extension of the timestamp at
    [timestamp] in [h]: the caller's variable holds the address of a
    timestamp that did not exist in [h]; its token is a new object, the
    duplicate of the input's token with the packed new time signature in
    its signer info and no certificates; its time signature is the decoding
    of what was packed. *)
Definition extended (env : Extend.ExtendEnv) (h h' : Extend.Heap)
    (timestamp : option nat) (response : option (list Z)) (response_length : Z)
  : Prop :=
  exists a_in o_in ta_in in_token sig resp ets a ta new si sis packed,
    timestamp = Some a_in
    /\ Extend.timestamps h !! a_in = Some o_in
    /\ Extend.token o_in = Some ta_in
    /\ Extend.tokens h !! ta_in = Some in_token
    /\ Extend.time_signature o_in = Some sig
    /\ response = Some resp
    /\ Extend.extended_time_signature env sig resp response_length = Ok ets
    /\ Token.PKCS7_get_signer_info in_token = Some (si :: sis)
    /\ Extend.ASN1_item_pack env ets = Some packed
    /\ Extend.out h' = Some a
    /\ Extend.timestamps h !! a = None
    /\ Extend.timestamps h' !! a = Some new
    /\ Extend.token new = Some ta
    /\ Extend.tokens h !! ta = None
    /\ Extend.tokens h' !! ta = Some (Extend.spliced in_token (si :: sis) si packed)
    /\ Extend.time_signature new = Extend.d2i_GTTimeSignature env packed
    /\ is_Some (Extend.time_signature new).

(** An extender that answers every request, and a memory holding one
    short-term timestamp at address 0 with its token at address 0. *)
Definition sample_extend_env : Extend.ExtendEnv :=
  {| Extend.d2i_GTCertTokenResponse :=
       fun _ _ => Some {| Extend.status := [0];
                          Extend.certToken :=
                            Some {| Extend.ct_version := 1;
                                    Extend.ct_extensions := [];
                                    Extend.ct_rest := [] |} |};
     Extend.response_malloc_failure := false;
     Extend.GT_analyseResponseStatus := fun _ => GT_OK;
     Extend.GT_checkUnhandledExtensions := fun _ => GT_OK;
     Extend.GT_extendConsistencyCheck := fun _ _ => GT_OK;
     Extend.GT_extendTimeSignature :=
       fun sig _ => (GT_OK, sample_time_signature good_imprint None);
     Extend.GT_malloc_timestamp := true;
     Extend.PKCS7_dup := true;
     Extend.ASN1_item_pack := fun _ => Some [48; 1; 1];
     Extend.pack_malloc_failure := false;
     Extend.d2i_GTTSTInfo := fun _ => Some sample_tst_info;
     Extend.tst_info_malloc_failure := false;
     Extend.d2i_GTTimeSignature :=
       fun _ => Some (sample_time_signature good_imprint None);
     Extend.time_signature_malloc_failure := false |}.

Definition sample_heap : Extend.Heap :=
  {| Extend.timestamps :=
       {[ 0%nat := {| Extend.token := Some 0%nat;
                      Extend.tst_info := Some sample_tst_info;
                      Extend.signer_info := Some 0%nat;
                      Extend.time_signature :=
                        Some (sample_time_signature good_imprint
                                (Some sample_pk_signature)) |} ]};
     Extend.tokens := {[ 0%nat := sample_token 3 (Some [sample_certificate]) ]};
     Extend.out := None |}.

(** The memory a call leaves behind. *)
Definition heap_of (r : option (Z * Extend.Heap)) (h : Extend.Heap) : Extend.Heap :=
  match r with
  | Some (_, h') => h'
  | None => h
  end.

(** The same extender when [GTTimestamp_updateTimeSignature] cannot decode
    what was packed. *)
Definition failing_extend_env : Extend.ExtendEnv :=
  {| Extend.d2i_GTCertTokenResponse := Extend.d2i_GTCertTokenResponse sample_extend_env;
     Extend.response_malloc_failure := false;
     Extend.GT_analyseResponseStatus := fun _ => GT_OK;
     Extend.GT_checkUnhandledExtensions := fun _ => GT_OK;
     Extend.GT_extendConsistencyCheck := fun _ _ => GT_OK;
     Extend.GT_extendTimeSignature := Extend.GT_extendTimeSignature sample_extend_env;
     Extend.GT_malloc_timestamp := true;
     Extend.PKCS7_dup := true;
     Extend.ASN1_item_pack := fun _ => Some [48; 1; 1];
     Extend.pack_malloc_failure := false;
     Extend.d2i_GTTSTInfo := fun _ => Some sample_tst_info;
     Extend.tst_info_malloc_failure := false;
     Extend.d2i_GTTimeSignature := fun _ => None;
     Extend.time_signature_malloc_failure := false |}.

(** ** Comparison functions for the further properties *)

Section Base32CodecDefinitions.
Import Base32.

(** The low [k] bits of [b] cleared. *)
Definition clear_low (b k : Z) : Z := Z.shiftl (Z.shiftr b k) k.

(** [readNextBits] on the two bytes it looks at, for [r = bits_read % 8]. *)
Definition window_read (r b1 b2 : Z) : Z :=
  let first_byte_bits := let f := 8 - r in if f >? 5 then 5 else f in
  let shift_count := 8 - r - first_byte_bits in
  let ret := Z.shiftr (Z.land b1 (Z.shiftl (makeMask first_byte_bits) shift_count))
                      shift_count in
  if first_byte_bits <? 5 then
    let second_byte_bits := 5 - first_byte_bits in
    let ret := Z.shiftl ret second_byte_bits in
    let shift_count := 8 - second_byte_bits in
    Z.lor ret (Z.shiftr (Z.land b2 (Z.shiftl (makeMask second_byte_bits) shift_count))
                        shift_count)
  else ret.

(** What [addBits] ors into the first and into the second byte. *)
Definition first_part (r bits : Z) : Z :=
  let bits_to_first_byte := let b := 8 - r in if b >? 5 then 5 else b in
  let shift_count := 8 - bits_to_first_byte - r in
  Z.shiftl
    (Z.shiftr (Z.land bits (Z.shiftl (makeMask bits_to_first_byte) (5 - bits_to_first_byte)))
              (5 - bits_to_first_byte))
    shift_count.

Definition second_part (r bits : Z) : Z :=
  let bits_to_first_byte := let b := 8 - r in if b >? 5 then 5 else b in
  let bits_to_second_byte := 5 - bits_to_first_byte in
  Z.shiftl
    (Z.land bits
       (Z.shiftr (Z.shiftl (makeMask bits_to_second_byte) (5 - bits_to_second_byte))
                 (5 - bits_to_second_byte)))
    (8 - bits_to_second_byte).

Definition window_ok (r b1 b2 : Z) : bool :=
  let v := window_read r b1 b2 in
  (0 <=? v) && (v <? 32)
  && (to_uchar (Z.lor (clear_low b1 (8 - r)) (first_part r v))
      =? (if r + 5 >=? 8 then b1 else clear_low b1 (3 - r)))
  && ((r <=? 3) || (to_uchar (Z.lor 0 (second_part r v)) =? clear_low b2 (11 - r))).

Definition is_byte (b : Z) : Prop := 0 <= b < 256.

Definition kept (data : list Z) (t j : Z) : Z :=
  if 8 * (j + 1) <=? t then rd data j
  else if t <=? 8 * j then 0
  else clear_low (rd data j) (8 * (j + 1) - t).

Definition holds (data : list Z) (t : Z) (buf : list Z) : Prop :=
  forall j, 0 <= j < Z.of_nat (List.length buf) -> rd buf j = kept data t j.

Definition chars (l : list ascii) : list Z := map (fun a => Z.of_N (N_of_ascii a)) l.

Definition plain (c : Z) : Prop := c <> 61 /\ c <> 0.

(** The text [ret] written so far (most recent character first) decodes,
    in a buffer of [L] zero bytes, to the first [t] bits of the data. *)
Definition decodes_to (data : list Z) (L : nat) (t : Z) (ret : list ascii)
    (buf : list Z) : Prop :=
  Forall plain (chars ret)
  /\ decode_loop (chars (rev ret)) (replicate L 0, 0) = (buf, t)
  /\ List.length buf = L
  /\ holds data t buf
  /\ 0 <= t <= 5 * Z.of_nat (List.length ret)
  /\ t < 8 * Z.of_nat (List.length data) + 5.

(** After [t / 5] symbols or padding characters the text holds [d] dashes,
    at least [group_len] characters apart. *)
Definition spaced (group_len t : Z) (ret : list ascii) (slack : Z) : Prop :=
  exists c d,
    t = 5 * c /\ ret_len ret = c + d /\ 0 <= d /\ 0 <= c
    /\ group_len * d + slack <= c.

(** The symbols of a text up to its first equals sign. *)
Fixpoint symbol_count (cs : list Z) : Z :=
  match cs with
  | [] => 0
  | c :: cs' =>
      if c =? 61 then 0
      else (if base32_symbol c then 1 else 0) + symbol_count cs'
  end.

(** The length [GT_base32Decode] works with. *)
Definition effective_len (s : list Z) (base32_len : Z) : Z :=
  if base32_len <? 0 then strlen s else base32_len.

(** The text holds the characters the decoder reads: a terminator for
    [strlen] to find, or at least [base32_len] characters. *)
Definition readable (s : list Z) (base32_len : Z) : Prop :=
  if base32_len <? 0 then In 0 s else base32_len <= Z.of_nat (List.length s).

(** The characters of [s] that are not skipped: symbols, the equals sign
    and the terminator. *)
Definition significant (c : Z) : bool := base32_symbol c || (c =? 61) || (c =? 0).

End Base32CodecDefinitions.

Section Asn1TimeGetDefinitions.
Import Asn1Time.

(** ** The proleptic Gregorian calendar, for comparison *)
Definition is_leap_year (y : Z) : bool :=
  ((y mod 4 =? 0) && negb (y mod 100 =? 0)) || (y mod 400 =? 0).

Definition days_in_month (y m : Z) : Z :=
  if m =? 2 then (if is_leap_year y then 29 else 28)
  else if (m =? 4) || (m =? 6) || (m =? 9) || (m =? 11) then 30
  else 31.

(** The leap years from year 1 to year [y - 1]. *)
Definition leap_years_before (y : Z) : Z :=
  (y - 1) / 4 - (y - 1) / 100 + (y - 1) / 400.

(** The days from 1 January 1970 to 1 January of year [y]. *)
Definition days_before_year (y : Z) : Z :=
  365 * (y - 1970) + (leap_years_before y - leap_years_before 1970).

(** The days of year [y] before its month [m]. *)
Definition days_before_month (y m : Z) : Z :=
  fold_right Z.add 0 (map (days_in_month y) (seqZ 1 (m - 1))).

(** The seconds from 1970-01-01T00:00:00Z to the given time of the given
    day, without leap seconds. *)
Definition unix_seconds (y m d hour min sec : Z) : Z :=
  86400 * (days_before_year y + days_before_month y m + (d - 1))
  + 3600 * hour + 60 * min + sec.

(** [struct tm] for a calendar date and a time of day. *)
Definition tm_of (y m d hour min sec isdst : Z) : tm :=
  {| tm_sec := sec; tm_min := min; tm_hour := hour; tm_mday := d;
     tm_mon := m - 1; tm_year := y - 1900; tm_isdst := isdst |}.

(** What the conversion adds for the year and for the months. *)
Definition year_part (y : Z) : Z :=
  if y <? 1970 then
    past_centuries 100 y 1900 ((y - 1970) * 31536000 - Z.quot (1970 - y + 2) 4 * 86400)
  else
    future_centuries 100 y 2100 ((y - 1970) * 31536000 + Z.quot (y - 1970 + 1) 4 * 86400).

Definition year_ok (y : Z) : bool := year_part y =? 86400 * days_before_year y.

Definition month_ok (y m : Z) : bool :=
  (month_loop 12 true (m - 1 - 1) 0 =? 86400 * days_before_month 2000 m)
  && (month_loop 12 false (m - 1 - 1) 0 =? 86400 * days_before_month 2001 m).

(** ** Texts of times *)
(** The decimal digits of a number below 100 and of one below 10000, as
    characters. *)
Definition two_digits (v : Z) : list Z := [48 + v / 10; 48 + v mod 10].
Definition four_digits (v : Z) : list Z :=
  [48 + v / 1000; 48 + (v / 100) mod 10; 48 + (v / 10) mod 10; 48 + v mod 10].

(** The end of a time: [Z], or a difference to UTC of [hh] hours and [mm]
    minutes with its sign. *)
Inductive Zone :=
| Zulu
| Ahead (hh mm : Z)
| Behind (hh mm : Z).

Definition zone_text (z : Zone) : list Z :=
  match z with
  | Zulu => [90]
  | Ahead hh mm => 43 :: two_digits hh ++ two_digits mm
  | Behind hh mm => 45 :: two_digits hh ++ two_digits mm
  end.

(** The minutes by which the local time is ahead of UTC. *)
Definition zone_minutes (z : Zone) : Z :=
  match z with
  | Zulu => 0
  | Ahead hh mm => hh * 60 + mm
  | Behind hh mm => - (hh * 60 + mm)
  end.

Definition zone_ok (z : Zone) : Prop :=
  match z with
  | Zulu => True
  | Ahead hh mm | Behind hh mm => 0 <= hh <= 12 /\ 0 <= mm <= 59
  end.

(** An [ASN1_TIME] that holds [text] and its terminator. *)
Definition asn1_time (type : Z) (text : list Z) : ASN1_TIME :=
  {| type := type; length := Z.of_nat (List.length text); data := Some (text ++ [0]) |}.

(** The time of day is one the function lets through. *)
Definition time_of_day (hour min sec : Z) : Prop :=
  0 <= hour <= 23 /\ 0 <= min <= 59 /\ 0 <= sec <= 59.

(** The characters the function takes for fractional seconds. *)
Definition fraction_char (c : Z) : bool :=
  (c =? 46) || (c =? 44) || ((c >=? 48) && (c <=? 57)).

(** The code the conversion by hand ends in for the year [y] and the
    result [r]. *)
Definition sign_code (y r : Z) : Z :=
  if y <? 1970 then (if r >=? 0 then GT_TIME_OVERFLOW else GT_OK)
  else (if r <? 0 then GT_TIME_OVERFLOW else GT_OK).

(** The year a UTCTime of the two digits [yy] stands for. *)
Definition utc_year (yy : Z) : Z := if yy <? 50 then 2000 + yy else 1900 + yy.

(** The seconds of a text: two digits, or nothing before a character that
    is not a digit. *)
Definition seconds_text (sec : Z) (sec_text rest : list Z) : Prop :=
  sec_text = two_digits sec
  \/ (sec_text = [] /\ sec = 0 /\ (rd rest 0 >=? 48) && (rd rest 0 <=? 57) = false).

(** The type tag of a text. *)
Definition time_type (generalized : bool) : Z :=
  if generalized then V_ASN1_GENERALIZEDTIME else V_ASN1_UTCTIME.

Definition format_code (e : Z) : Prop := e = GT_OK \/ e = GT_INVALID_FORMAT.

(** The buffer [d] holds [text] from offset [s] on. *)
Definition reads_at (d : list Z) (s : Z) (text : list Z) : Prop :=
  forall i, 0 <= i < Z.of_nat (List.length text) -> rd d (s + i) = rd text i.

(** The year of a text: four digits in a GeneralizedTime, two in a
    UTCTime. *)
Definition year_text (generalized : bool) (y : Z) : list Z :=
  if generalized then four_digits y else two_digits y.

Definition year_range (generalized : bool) (y : Z) : Prop :=
  if generalized then 0 <= y <= 9999 else 0 <= y <= 99.

(** The end of a text: a zone, or nothing (local time, in a
    GeneralizedTime only). *)
Definition zone_end (generalized : bool) (ztext : list Z) : Prop :=
  (generalized = true /\ ztext = [])
  \/ exists z, zone_ok z /\ ztext = zone_text z.

(** A text that [GT_ASN1_TIME_get] takes for a time. *)
Definition time_text (generalized : bool) (text : list Z) : Prop :=
  exists y m dd hour min sec sec_text frac ztext,
    text = year_text generalized y ++ two_digits m ++ two_digits dd
           ++ two_digits hour ++ two_digits min ++ sec_text ++ frac ++ ztext
    /\ year_range generalized y /\ 1 <= m <= 12 /\ 1 <= dd <= 31
    /\ time_of_day hour min sec
    /\ seconds_text sec sec_text (frac ++ ztext ++ [0])
    /\ Forall (fun c => fraction_char c = true) frac
    /\ (generalized = false -> frac = [])
    /\ zone_end generalized ztext.

End Asn1TimeGetDefinitions.

Section LocationWalkDefinitions.
Import Location.

(** The number that the [k] array elements from [buf[lo]] on spell, the
    first one being the least significant bit. *)
Fixpoint window_value (buf : list Z) (lo : Z) (k : nat) : Z :=
  match k with
  | O => 0
  | S k' => rd buf lo + 2 * window_value buf (lo + 1) k'
  end.

(** An array element is a bit. *)
Definition is_bit (b : Z) : Prop := b = 0 \/ b = 1.

(** A member of [loc] fits the 16 bits it gets in the location id. *)
Definition short (v : Z) : Prop := 0 <= v < 2 ^ 16.

(** The 16-bit field of a location id that starts at bit [k]. *)
Definition id_field (id k : Z) : Z := (id / 2 ^ k) mod 2 ^ 16.

(** The decimal digits. *)
Definition decimal_digits : list Z := [0; 1; 2; 3; 4; 5; 6; 7; 8; 9].

(** A part of the location name is taken from a name tag, or its cluster is
    printed with five digits at most. *)
Definition printable (name_len cluster : Z) : Prop :=
  0 < name_len \/ 0 <= cluster < 100000.

(** The loop has read a step at offset [s] of the chain. *)
Definition stepped (data : list Z) (s : Z) : Prop :=
  0 <= s /\ exists r, read_step data s = inr r.

(** A name that is in use lies in the chain. *)
Definition name_inside (data : list Z) (name : option Z) (name_len : Z) : Prop :=
  0 < name_len ->
  exists o, name = Some o /\ 0 <= o /\ o + name_len <= Z.of_nat (List.length data).

Definition names_inside (data : list Z) (l : LocationInfo) : Prop :=
  name_inside data (national_name l) (national_name_len l)
  /\ name_inside data (state_name l) (state_name_len l)
  /\ name_inside data (local_name l) (local_name_len l)
  /\ name_inside data (client_name l) (client_name_len l).

(** What holds of the variables of the loop while the first [n] elements
    of [steps] are in use. *)
Definition remembered (data : list Z) (n : Z) (st : LocState) : Prop :=
  0 <= num_bits st <= n
  /\ (forall j, 0 <= j < n -> stepped data (rd (steps st) j))
  /\ names_inside data (loc st).

(** What holds of them at the beginning of a round. *)
Definition round_start (data : list Z) (st : LocState) : Prop :=
  List.length (steps st) = 256%nat /\ 0 <= p st
  /\ remembered data (num_bits st) st.

(** A block of the loop body keeps what holds during a round and is not
    affected by bytes behind the chain. *)
Definition sound_block (data rest : list Z) (f : list Z -> LocState -> LocState) : Prop :=
  forall n st, remembered data n st ->
    remembered data n (f data st) /\ f (data ++ rest) st = f data st.

(** One step of a chain: the byte in front, the direction, the sibling
    algorithm and digest, the level. *)
Record ChainStep := {
  cs_first : Z;
  cs_direction : Z;
  cs_algorithm : Z;
  cs_sibling : list Z;
  cs_level : Z
}.

Definition chain_step_bytes (s : ChainStep) : list Z :=
  step_bytes (cs_first s) (cs_direction s) (cs_algorithm s) (cs_sibling s) (cs_level s).

(** The bytes of a chain given step by step. *)
Definition chain_bytes (l : list ChainStep) : list Z := flat_map chain_step_bytes l.

(** A step the loop accepts: the direction is 0 or 1 and the digest has
    the size of its algorithm. *)
Definition readable_step (s : ChainStep) : Prop :=
  (cs_direction s = 0 \/ cs_direction s = 1)
  /\ GT_getHashSize (cs_algorithm s) = Z.of_nat (List.length (cs_sibling s))
  /\ cs_sibling s <> [].

(** A readable step of level 0 or 1, below every level the loop tests for. *)
Definition low_step (s : ChainStep) : Prop := readable_step s /\ cs_level s <= 1.

End LocationWalkDefinitions.

Section DecodeMemoryDefinitions.
Import Extend.
Import Decode.

(** A token that the two update functions accept: signed data that is not
    detached and carries a TSTInfo as an octet string, with exactly one
    signer info [si], whose signature algorithm is the time signature with
    no parameter or a NULL one. *)
Definition timestamp_token (t : Token.PKCS7) (si : Token.PKCS7_SIGNER_INFO) : Prop :=
  Token.type_is_signed t = true
  /\ Token.detached t = false
  /\ Token.contents_type t = Token.NID_id_smime_ct_TSTInfo
  /\ Token.type (Token.contents t) = Token.V_ASN1_OCTET_STRING
  /\ Token.signer_info_stack t = Some [si]
  /\ Token.algorithm (Token.digest_enc_alg si) = Token.GT_id_gt_time_signature_alg_nid
  /\ (Token.parameter (Token.digest_enc_alg si) = None
      \/ Token.parameter (Token.digest_enc_alg si) = Some Token.V_ASN1_NULL).

(** The memory [h'] after the token [t] has been made a timestamp: the
    caller's variable holds the address of a timestamp that did not exist
    in [h]; the token is a new object owned by it, its TSTInfo and its time
    signature are the decodings of what the token carries, and nothing
    else has changed. *)
Definition decoded (env : ExtendEnv) (h h' : Heap) (t : Token.PKCS7) : Prop :=
  exists a ta si tst sig,
    timestamps h !! a = None
    /\ tokens h !! ta = None
    /\ timestamps h'
       = <[a := {| token := Some ta; tst_info := Some tst;
                   signer_info := Some 0%nat; time_signature := Some sig |}]>
           (timestamps h)
    /\ tokens h' = <[ta := t]> (tokens h)
    /\ out h' = Some a
    /\ timestamp_token t si
    /\ d2i_GTTSTInfo env (Token.value_octet_string (Token.contents t)) = Some tst
    /\ d2i_GTTimeSignature env (Token.enc_digest si) = Some sig.

(** A call that returns: [GT_OK] with the memory [decoded] from a token, or
    an error with the memory as it was. *)
Definition transactional (env : ExtendEnv) (h : Heap) (r : option (Z * Heap))
    (source : Token.PKCS7 -> Prop) : Prop :=
  exists code h',
    r = Some (code, h')
    /\ (code = GT_OK -> exists t, source t /\ decoded env h h' t)
    /\ (code <> GT_OK -> h' = h).

End DecodeMemoryDefinitions.

Section DecodedTimestampsDefinitions.
Import Token.
Import Verify.
Import Query.

(** The timestamp at address [a] as the functions that take a
    [const GTTimestamp *] see it, the token dereferenced. *)
Definition timestamp_at (h : Extend.Heap) (a : nat) : option GTTimestamp :=
  match Extend.timestamps h !! a with
  | Some o =>
      Some {| token := match Extend.token o with
                       | Some ta => Extend.tokens h !! ta
                       | None => None
                       end;
              tst_info := Extend.tst_info o;
              signer_info := Extend.signer_info o;
              time_signature := Extend.time_signature o |}
  | None => None
  end.

(** The timestamp that the caller's variable points to. *)
Definition handed_out (h : Extend.Heap) : option GTTimestamp :=
  match Extend.out h with
  | Some a => timestamp_at h a
  | None => None
  end.

(** A decoder that yields the sample token whatever it is given. *)
Definition sample_decode_env : Decode.DecodeEnv :=
  {| Decode.d2i_PKCS7 := fun _ _ => Some (sample_token 3 (Some [sample_certificate]));
     Decode.token_malloc_failure := false;
     Decode.d2i_GTTimeStampResp :=
       fun _ _ => Some {| Decode.resp_status := [0];
                          Decode.timeStampToken :=
                            Some (sample_token 3 (Some [sample_certificate])) |};
     Decode.resp_malloc_failure := false;
     Decode.i2d_PKCS7 := fun _ => Some [48; 0];
     Decode.GT_malloc_data := true |}.

End DecodedTimestampsDefinitions.

Section QueriesDefinitions.
Import Token.
Import Verify.
Import Query.

(** What the implicit data says about the kind of the timestamp: a key
    fingerprint for a PKI-signed one, a publication string for an extended
    one. *)
Definition reports_signed (info : GTVerificationInfo) : Prop :=
  has_flag (verification_status info) GT_PUBLIC_KEY_SIGNATURE_PRESENT
  /\ exists i, implicit_data info = Some i
       /\ is_Some (public_key_fingerprint i) /\ publication_string i = None.

Definition reports_extended (info : GTVerificationInfo) : Prop :=
  Z.land (verification_status info) GT_PUBLIC_KEY_SIGNATURE_PRESENT = 0
  /\ exists i, implicit_data info = Some i
       /\ public_key_fingerprint i = None /\ is_Some (publication_string i).

(** The history identifiers that the environment finds are times that a
    signed 64-bit integer holds. *)
Definition identifiers_in_range (env : Env) : Prop :=
  forall id shape, 0 <= snd (GT_findHistoryIdentifier env id shape) < 2 ^ 63.

End QueriesDefinitions.

Section VerifySoundDefinitions.
Import Token.
Import Verify.

(** What [checkHashChain] has recomputed when it returns [GT_OK]: the
    digest of the DER of the TSTInfo is the value of the message-digest
    attribute, an octet string, and the digest of the DER of the signed attributes, taken
    through the location chain and the history chain and hashed with the
    algorithm of the published imprint, is [output]. *)
Definition recomputed (env : Env) (tst : GTTSTInfo) (si : PKCS7_SIGNER_INFO)
    (sig : GTTimeSignature) (output : list Z) : Prop :=
  let imprint := publicationImprint (publishedData sig) in
  let alg_client :=
    GT_EVPToHashChainID env (EVP_get_digestbyobj env (algorithm (digest_alg si))) in
  exists tst_der tst_imprint md attr_der input loc_output hist_output,
    imprint <> []
    /\ GT_isSupportedHashAlgorithm env (rd imprint 0) = true
    /\ 0 <= alg_client
    /\ i2d_GTTSTInfo env tst = Some tst_der
    /\ GT_calculateDataImprint env tst_der alg_client = (GT_OK, tst_imprint)
    /\ PKCS7_get_signed_attribute si NID_pkcs9_messageDigest = Some md
    /\ type md = V_ASN1_OCTET_STRING
    /\ value_octet_string md = drop 1 tst_imprint
    /\ i2d_auth_attr env (auth_attr si) = Some attr_der
    /\ GT_calculateDataImprint env attr_der alg_client = (GT_OK, input)
    /\ GT_hashChainCalculate env (location sig) input = (GT_OK, loc_output)
    /\ GT_hashChainCalculateNoDepth env (history sig) loc_output = (GT_OK, hist_output)
    /\ GT_calculateDataImprint env hist_output (rd imprint 0) = (GT_OK, output).

(** What [checkPublicKeySignature] has verified when it returns [GT_OK]:
    [EVP_VerifyFinal] has accepted the signature value over the DER of the
    published data under the key of the certificate. *)
Definition signature_verified (env : Env) (sig : GTTimeSignature)
    (pk : GTSignatureInfo) (certificate : X509) : Prop :=
  exists der pubkey evp_md,
    i2d_GTPublishedData env (publishedData sig) = Some der
    /\ X509_get_pubkey env certificate = Some pubkey
    /\ EVP_get_digestbyobj env (algorithm (signatureAlgorithm pk)) = Some evp_md
    /\ 0 < EVP_VerifyFinal env evp_md der (signatureValue pk) pubkey.

End VerifySoundDefinitions.

(** * Properties *)

(** ** Base32 *)
Section Base32Facts.
Import Base32.

Lemma makeMask_values :
  makeMask 1 = 1 /\ makeMask 2 = 3 /\ makeMask 3 = 7 /\ makeMask 4 = 15 /\ makeMask 5 = 31.
Proof. repeat split; reflexivity. Qed.

(** With [bits_decoded] non-negative, only its remainder modulo 8 decides
    which bits of the symbol go where. *)
Lemma rem8_cases (n : Z) :
  0 <= n ->
  Z.rem n 8 = 0 \/ Z.rem n 8 = 1 \/ Z.rem n 8 = 2 \/ Z.rem n 8 = 3 \/
  Z.rem n 8 = 4 \/ Z.rem n 8 = 5 \/ Z.rem n 8 = 6 \/ Z.rem n 8 = 7.
Proof.
  intros Hn. rewrite Z.rem_mod_nonneg by lia.
  pose proof (Z.mod_pos_bound n 8 ltac:(lia)). lia.
Qed.

(** The sentinel 255 and the symbol value 31 select the same bits. *)
Lemma addBits_255_31 (buf : list Z) (bits_decoded : Z) :
  0 <= bits_decoded ->
  addBits buf bits_decoded 255 = addBits buf bits_decoded 31.
Proof.
  intros Hn. unfold addBits.
  destruct (rem8_cases bits_decoded Hn) as [E|[E|[E|[E|[E|[E|[E|E]]]]]]];
    rewrite E; reflexivity.
Qed.

(** Evaluate the closed tests that remain once the remainder is known. *)
Ltac eval_first_byte :=
  match goal with
  | |- context [if 8 - ?k >? 5 then 5 else 8 - ?k] =>
      let v := eval vm_compute in (if 8 - k >? 5 then 5 else 8 - k) in
      change (if 8 - k >? 5 then 5 else 8 - k) with v
  end;
  match goal with
  | |- context [?a <? 5] =>
      let v := eval vm_compute in (a <? 5) in change (a <? 5) with v
  end;
  cbv iota.

(** Every symbol advances [bits_decoded] by five. *)
Lemma addBits_count (buf : list Z) (bits_decoded bits : Z) :
  0 <= bits_decoded -> 0 <= bits ->
  snd (addBits buf bits_decoded bits) = bits_decoded + 5.
Proof.
  intros Hn Hb. unfold addBits.
  destruct (bits <? 0) eqn:Hneg; [lia|].
  destruct (rem8_cases bits_decoded Hn) as [E|[E|[E|[E|[E|[E|[E|E]]]]]]];
    rewrite E; eval_first_byte; cbn [snd]; lia.
Qed.
End Base32Facts.

Section Base32Decode.
Import Base32.

Lemma sentinel_digit_char (c : Z) (buf : list Z) (bits_decoded : Z) :
  In c [48; 49; 56; 57] ->
  decode_char c (buf, bits_decoded) = Some (addBits buf bits_decoded 255).
Proof.
  intros Hc. cbn [In] in Hc.
  destruct Hc as [<-|[<-|[<-|[<-|[]]]]]; reflexivity.
Qed.

Lemma seven_char (buf : list Z) (bits_decoded : Z) :
  decode_char 55 (buf, bits_decoded) = Some (addBits buf bits_decoded 31).
Proof. reflexivity. Qed.

Lemma digit_as_seven_char (c : Z) (buf : list Z) (bits_decoded : Z) :
  0 <= bits_decoded ->
  decode_char (digit_as_seven c) (buf, bits_decoded) = decode_char c (buf, bits_decoded).
Proof.
  intros Hn. unfold digit_as_seven.
  destruct ((c =? 48) || (c =? 49) || (c =? 56) || (c =? 57)) eqn:E; [|reflexivity].
  rewrite seven_char, sentinel_digit_char, addBits_255_31; [reflexivity|exact Hn|].
  cbn [In]. lia.
Qed.

Lemma table_nonneg (i : Z) : 0 <= rd base32NumDecTable i.
Proof.
  unfold rd. destruct (i <? 0); [lia|].
  destruct (Z.to_nat i) as [|[|[|[|[|[|[|[|[|[|n]]]]]]]]]]; vm_compute; discriminate.
Qed.

Lemma decode_char_nonneg (c : Z) (buf buf' : list Z) (n n' : Z) :
  0 <= n -> decode_char c (buf, n) = Some (buf', n') -> 0 <= n'.
Proof.
  intros Hn. unfold decode_char.
  destruct (c =? 61); [discriminate|].
  destruct (isdigit c).
  - intros [= E]. apply (f_equal snd) in E. cbn [snd] in E.
    rewrite addBits_count in E; [lia|exact Hn|apply table_nonneg].
  - destruct (is_upper c || is_lower c) eqn:L.
    + intros [= E]. apply (f_equal snd) in E. cbn [snd] in E.
      rewrite addBits_count in E; [lia|exact Hn|].
      unfold toupper, is_upper, is_lower in *. destruct ((97 <=? c) && (c <=? 122)) eqn:Lo; lia.
    + intros [= <- <-]. exact Hn.
Qed.

Lemma decode_loop_digit_as_seven (s : list Z) :
  forall buf n, 0 <= n ->
    decode_loop (map digit_as_seven s) (buf, n) = decode_loop s (buf, n).
Proof.
  induction s as [|c s IH]; intros buf n Hn; [reflexivity|].
  cbn [map decode_loop]. rewrite digit_as_seven_char by exact Hn.
  destruct (decode_char c (buf, n)) as [[buf' n']|] eqn:E; [|reflexivity].
  apply IH. eapply decode_char_nonneg; eassumption.
Qed.

Lemma strlen_digit_as_seven (s : list Z) : strlen (map digit_as_seven s) = strlen s.
Proof.
  induction s as [|c s IH]; [reflexivity|]. cbn [map strlen]. rewrite IH.
  unfold digit_as_seven.
  destruct ((c =? 48) || (c =? 49) || (c =? 56) || (c =? 57)) eqn:E; [|reflexivity].
  replace (c =? 0) with false by lia. reflexivity.
Qed.

Lemma GT_base32Decode_digit_as_seven (ok : bool) (s : list Z) (len : Z) :
  GT_base32Decode ok (map digit_as_seven s) len = GT_base32Decode ok s len.
Proof.
  unfold GT_base32Decode. rewrite strlen_digit_as_seven.
  destruct (negb ok); [reflexivity|].
  rewrite firstn_map. rewrite decode_loop_digit_as_seven by lia. reflexivity.
Qed.



(** The digits in a whole text: "0189" followed by "7777" decodes to five
    bytes of ones, like "77777777". *)
Example base32Decode_0189 :
  decoded_bytes (GT_base32Decode true [48; 49; 56; 57; 55; 55; 55; 55] 8)
  = Some [255; 255; 255; 255; 255].
Proof. reflexivity. Qed.

End Base32Decode.

Section Base32Encode.
Import Base32.

(** Both loops of the encoder only append to what is already written. *)
Lemma encode_loop_appends (fuel : nat) (data : list Z) (data_len group_len : Z) :
  forall bits_read ret,
    exists l, snd (encode_loop fuel data data_len group_len bits_read ret) = l ++ ret.
Proof.
  induction fuel as [|fuel IH]; intros bits_read ret; cbn [encode_loop].
  - exists []. reflexivity.
  - destruct (readNextBits data data_len bits_read =? -1).
    + exists []. reflexivity.
    + match goal with
      | |- context [encode_loop fuel _ _ _ ?b ?r] => destruct (IH b r) as [l Hl]
      end.
      rewrite Hl.
      destruct ((Z.rem (ret_len (push (table_char (readNextBits data data_len bits_read)) ret))
                   (group_len + 1) =? group_len)
                && (bits_read + 5 <? data_len * 8)); unfold push.
      * exists (l ++ ["-"%char; table_char (readNextBits data data_len bits_read)]).
        rewrite <- app_assoc. reflexivity.
      * exists (l ++ [table_char (readNextBits data data_len bits_read)]).
        rewrite <- app_assoc. reflexivity.
Qed.

Lemma pad_loop_appends (fuel : nat) (group_len : Z) :
  forall bits_read ret, exists l, snd (pad_loop fuel group_len bits_read ret) = l ++ ret.
Proof.
  induction fuel as [|fuel IH]; intros bits_read ret; cbn [pad_loop].
  - exists []. reflexivity.
  - destruct (Z.rem bits_read 40 =? 0).
    + exists []. reflexivity.
    + match goal with
      | |- context [pad_loop fuel _ ?b ?r] => destruct (IH b r) as [l Hl]
      end.
      rewrite Hl.
      destruct ((Z.rem (ret_len (push "="%char ret)) (group_len + 1) =? group_len)
                && negb (Z.rem bits_read 40 =? 35)); unfold push.
      * exists (l ++ ["-"%char; "="%char]). rewrite <- app_assoc. reflexivity.
      * exists (l ++ ["="%char]). rewrite <- app_assoc. reflexivity.
Qed.

(** The first five bits of a non-empty input are never the end marker. *)
Lemma readNextBits_first (b : Z) (data : list Z) :
  readNextBits (b :: data) (Z.of_nat (List.length (b :: data))) 0
  = Z.shiftr (Z.land b 248) 3.
Proof.
  unfold readNextBits.
  change (Z.quot 0 8) with 0.
  assert (E : (0 >=? Z.of_nat (List.length (b :: data))) = false).
  { rewrite Z.geb_leb. apply Z.leb_gt. cbn [List.length]. lia. }
  rewrite E. reflexivity.
Qed.

Lemma first_bits_not_end (b : Z) : (Z.shiftr (Z.land b 248) 3 =? -1) = false.
Proof.
  apply Z.eqb_neq. intros E.
  assert (H : 0 <= Z.shiftr (Z.land b 248) 3).
  { apply Z.shiftr_nonneg. apply Z.land_nonneg. right. lia. }
  lia.
Qed.

(** With [group_len = 0] the test [ret_len % (group_len + 1) == group_len]
    holds after every character: the first round stores a symbol and a
    dash. *)
Lemma encode_loop_first_round (fuel : nat) (b : Z) (data : list Z) :
  encode_loop (S fuel) (b :: data) (Z.of_nat (List.length (b :: data))) 0 0 []
  = encode_loop fuel (b :: data) (Z.of_nat (List.length (b :: data))) 0 (0 + 5)
      ["-"%char; table_char (Z.shiftr (Z.land b 248) 3)].
Proof.
  cbn [encode_loop]. rewrite readNextBits_first, first_bits_not_end.
  replace (0 + 5 <? Z.of_nat (List.length (b :: data)) * 8) with true
    by (symmetry; apply Z.ltb_lt; cbn [List.length]; lia).
  reflexivity.
Qed.

(** Whatever the input, a dash follows the first symbol of the ungrouped
    output. *)
Lemma base32Encode_ungrouped_has_dash (b : Z) (data : list Z) :
  exists e c rest,
    GT_base32Encode true (b :: data) 0 = Some e
    /\ text e = String c (String "-"%char rest).
Proof.
  unfold GT_base32Encode. cbn [negb]. rewrite encode_loop_first_round.
  set (c := table_char (Z.shiftr (Z.land b 248) 3)).
  match goal with
  | |- context [encode_loop ?f ?d ?n ?g ?r0 ?r] =>
      destruct (encode_loop_appends f d n g r0 r) as [l1 H1];
      destruct (encode_loop f d n g r0 r) as [bits_read ret]
  end.
  cbn [snd] in H1. subst ret.
  match goal with
  | |- context [pad_loop ?f ?g ?r0 ?r] =>
      destruct (pad_loop_appends f g r0 r) as [l2 H2];
      destruct (pad_loop f g r0 r) as [bits_read' ret']
  end.
  cbn [snd] in H2. subst ret'.
  eexists _, c, (string_of_list_ascii (rev l1 ++ rev l2)).
  split; [reflexivity|].
  cbn [text]. rewrite !rev_app_distr. reflexivity.
Qed.

(** The encoding loop is not cut short: it ends when [readNextBits]
    reports the end of the data. *)
Lemma makeMask_loop_nonneg (n : nat) : forall ret, 0 <= ret -> 0 <= makeMask_loop n ret.
Proof.
  induction n as [|n IH]; intros ret Hr; cbn [makeMask_loop]; [exact Hr|].
  apply IH. apply Z.lor_nonneg. split; [apply Z.shiftl_nonneg; exact Hr|lia].
Qed.

Lemma readNextBits_end (data : list Z) (data_len bits_read : Z) :
  readNextBits data data_len bits_read = -1 <-> data_len <= Z.quot bits_read 8.
Proof.
  unfold readNextBits.
  destruct (Z.quot bits_read 8 >=? data_len) eqn:E.
  - rewrite Z.geb_leb in E. apply Z.leb_le in E. tauto.
  - rewrite Z.geb_leb in E. apply Z.leb_gt in E.
    split; [|lia]. intros H. exfalso.
    assert (M : forall k, 0 <= makeMask k)
      by (intros k; apply makeMask_loop_nonneg; lia).
    match type of H with
    | ?t = -1 => assert (N : 0 <= t)
    end; [|lia].
    repeat match goal with
           | |- 0 <= (if ?b then _ else _) => destruct b
           | |- 0 <= Z.lor _ _ => apply Z.lor_nonneg; split
           | |- 0 <= Z.shiftl _ _ => apply Z.shiftl_nonneg
           | |- 0 <= Z.shiftr _ _ => apply Z.shiftr_nonneg
           | |- 0 <= Z.land _ (Z.shiftl _ _) =>
               apply Z.land_nonneg; right; apply Z.shiftl_nonneg; apply M
           end.
Qed.

Lemma encode_loop_ends (data : list Z) (data_len group_len : Z) (fuel : nat) :
  forall bits_read ret,
    0 <= bits_read ->
    data_len * 8 - bits_read < Z.of_nat fuel ->
    readNextBits data data_len
      (fst (encode_loop fuel data data_len group_len bits_read ret)) = -1.
Proof.
  induction fuel as [|fuel IH]; intros bits_read ret Hb Hf; cbn [encode_loop].
  - cbn [fst]. apply readNextBits_end.
    apply Z.quot_le_lower_bound; lia.
  - destruct (readNextBits data data_len bits_read =? -1) eqn:E.
    + cbn [fst]. apply Z.eqb_eq. exact E.
    + apply IH; lia.
Qed.

Lemma GT_base32Encode_loop_ends (data : list Z) (group_len : Z) :
  let data_len := Z.of_nat (List.length data) in
  readNextBits data data_len
    (fst (encode_loop (S (Z.to_nat (data_len * 8))) data data_len group_len 0 []))
  = -1.
Proof. intros data_len. apply encode_loop_ends; lia. Qed.

(** C9 (the code departs from it). For the one-byte input 0x00 and
    [group_len = 0] the encoder stores "A-A=-=-=-=-=-=": a dash after every
    character but the last, fourteen characters and the NUL in the nine
    bytes it allocated, where the ungrouped encoding is "AA======". *)
Theorem base32Encode_ungrouped_zero_byte :
  GT_base32Encode true [0] 0
  = Some {| buf_len := 9; text := "A-A=-=-=-=-=-=" |}
  /\ (forall e, GT_base32Encode true [0] 0 = Some e -> fits e = false)
  /\ GT_base32Encode true [0] 8 = Some {| buf_len := 9; text := "AA======" |}.
Proof.
  split; [reflexivity|split; [|reflexivity]].
  intros e [= <-]. reflexivity.
Qed.

(** Grouping by eight, as the SDK itself calls the encoder. *)
Example base32Encode_foobar :
  GT_base32Encode true [102; 111; 111; 98; 97; 114] 8
  = Some {| buf_len := 18; text := "MZXW6YTB-OI======" |}.
Proof. reflexivity. Qed.

End Base32Encode.

(** ** Hash-chain steps *)
Section HashChainFacts.
Import HashChain.



End HashChainFacts.

(** ** Comparisons and array reads *)

Lemma geb_false (a b : Z) : a < b -> (a >=? b) = false.
Proof. intros H. rewrite Z.geb_leb. apply Z.leb_gt. exact H. Qed.

Lemma geb_true (a b : Z) : b <= a -> (a >=? b) = true.
Proof. intros H. rewrite Z.geb_leb. apply Z.leb_le. exact H. Qed.

Lemma gtb_true (a b : Z) : b < a -> (a >? b) = true.
Proof. intros H. rewrite Z.gtb_ltb. apply Z.ltb_lt. exact H. Qed.

Lemma gtb_false (a b : Z) : a <= b -> (a >? b) = false.
Proof. intros H. rewrite Z.gtb_ltb. apply Z.ltb_ge. exact H. Qed.

Lemma rd_app_r (l1 l2 : list Z) (k : Z) :
  0 <= k -> rd (l1 ++ l2) (Z.of_nat (List.length l1) + k) = rd l2 k.
Proof.
  intros Hk. unfold rd.
  rewrite !(proj2 (Z.ltb_ge _ 0)) by lia.
  rewrite lookup_app_r by lia.
  replace (Z.to_nat (Z.of_nat (List.length l1) + k) - List.length l1)%nat
    with (Z.to_nat k) by lia.
  reflexivity.
Qed.

Lemma rd_cons (x : Z) (l : list Z) (k : Z) :
  0 <= k -> rd (x :: l) (k + 1) = rd l k.
Proof.
  intros Hk. unfold rd.
  rewrite !(proj2 (Z.ltb_ge _ 0)) by lia.
  replace (Z.to_nat (k + 1)) with (S (Z.to_nat k)) by lia.
  reflexivity.
Qed.

Lemma rd_wr_ne (l : list Z) (i j v : Z) :
  0 <= j -> i <> j -> rd (wr l i v) j = rd l j.
Proof.
  intros Hj Hij. unfold rd, wr.
  rewrite !(proj2 (Z.ltb_ge j 0)) by lia.
  destruct (i <? 0) eqn:Hi; [reflexivity|].
  rewrite list_lookup_insert_ne by lia. reflexivity.
Qed.

(** ** The location decoder *)
Section CheckName.
Import Location.

Lemma forallb_seqZ (f : Z -> bool) (a n : Z) :
  forallb f (seqZ a n) = true <-> forall i, a <= i < a + n -> f i = true.
Proof.
  rewrite forallb_forall. split.
  - intros H i Hi. apply H. apply list_elem_of_In. apply elem_of_seqZ. exact Hi.
  - intros H i Hi. apply H. apply list_elem_of_In in Hi.
    apply elem_of_seqZ in Hi. exact Hi.
Qed.

(** [checkName] either finds the tag and pops the step, or changes nothing. *)
Lemma checkName_cases (data steps : list Z) (len : Z) (name : option Z) (name_len : Z) :
  0 < len ->
  (embedded_name_tag data (rd steps (len - 1))
   /\ checkName data steps len name name_len
      = (Some (rd steps (len - 1) + 3 + 2),
         rd data (rd steps (len - 1) + 3 + 1), len - 1))
  \/ (~ embedded_name_tag data (rd steps (len - 1))
      /\ checkName data steps len name name_len = (name, name_len, len)).
Proof.
  intros Hlen. unfold checkName, embedded_name_tag.
  change (GT_getHashSize GT_HASHALG_SHA224) with 28.
  rewrite (proj2 (Z.leb_gt len 0)) by lia.
  set (step := rd steps (len - 1)).
  destruct (rd data (step + 1) =? 1) eqn:E1; cbn [negb];
    [apply Z.eqb_eq in E1 | apply Z.eqb_neq in E1; right; split; [tauto|reflexivity]].
  destruct (rd data (step + 2) =? GT_HASHALG_SHA224) eqn:E2; cbn [negb];
    [apply Z.eqb_eq in E2 | apply Z.eqb_neq in E2; right; split; [tauto|reflexivity]].
  destruct (rd data (step + 3 + 0) =? 0) eqn:E3; cbn [negb];
    [apply Z.eqb_eq in E3 | apply Z.eqb_neq in E3; right; split; [tauto|reflexivity]].
  destruct (rd data (step + 3 + 1) + 2 >? 28) eqn:E4.
  { right. split; [|reflexivity]. rewrite Z.gtb_ltb in E4. apply Z.ltb_lt in E4.
    intros (_ & _ & _ & H & _). lia. }
  rewrite Z.gtb_ltb in E4. apply Z.ltb_ge in E4.
  destruct (forallb (fun i => rd data (step + 3 + i) =? 0)
              (seqZ (2 + rd data (step + 3 + 1))
                    (28 - (2 + rd data (step + 3 + 1))))) eqn:E5; cbn [negb].
  - left. split; [|reflexivity].
    repeat split; try assumption; try lia.
    intros i Hi. apply Z.eqb_eq.
    apply (proj1 (forallb_seqZ _ _ _) E5). lia.
  - right. split; [|reflexivity].
    intros (_ & _ & _ & _ & H).
    assert (T : forallb (fun i => rd data (step + 3 + i) =? 0)
                  (seqZ (2 + rd data (step + 3 + 1))
                        (28 - (2 + rd data (step + 3 + 1)))) = true).
    { apply forallb_seqZ. intros i Hi. apply Z.eqb_eq. apply H. lia. }
    congruence.
Qed.

(** [collectBits] reads the array below [len] only. *)
Lemma collectBits_loop_below (n : nat) (buf buf' : list Z) :
  forall len res,
    (forall i, 0 <= i < len -> rd buf i = rd buf' i) ->
    collectBits_loop n buf len res = collectBits_loop n buf' len res.
Proof.
  induction n as [|n IH]; intros len res H; cbn [collectBits_loop]; [reflexivity|].
  destruct (len >? 0) eqn:E; [|reflexivity].
  rewrite Z.gtb_ltb in E. apply Z.ltb_lt in E.
  rewrite (H (len - 1)) by lia. apply IH. intros i Hi. apply H. lia.
Qed.

Lemma name_bytes_lookup (data : list Z) (o len k : Z) :
  0 <= o -> 0 <= k < len ->
  rd (name_bytes data (Some o) len) k = rd data (o + k).
Proof.
  intros Ho Hk. unfold name_bytes, rd.
  rewrite !(proj2 (Z.ltb_ge _ 0)) by lia.
  rewrite lookup_take_lt by lia. rewrite lookup_drop.
  replace (Z.to_nat o + Z.to_nat k)%nat with (Z.to_nat (o + k)) by lia.
  reflexivity.
Qed.


End CheckName.

Section ReadStep.
Import Location.


Lemma length_step_bytes (h d a : Z) (sib : list Z) (lvl : Z) :
  Z.of_nat (List.length (step_bytes h d a sib lvl)) = 4 + Z.of_nat (List.length sib).
Proof. unfold step_bytes. rewrite !length_app. cbn [List.length]. lia. Qed.

(** The bytes of a step at their offsets. *)
Lemma step_bytes_at (pre : list Z) (h d a : Z) (sib : list Z) (lvl : Z) (rest : list Z) :
  let data := pre ++ step_bytes h d a sib lvl ++ rest in
  let P := Z.of_nat (List.length pre) in
  rd data (P + 1) = d
  /\ rd data (P + 1 + 1) = a
  /\ rd data (P + 1 + 1 + 1 + Z.of_nat (List.length sib)) = lvl.
Proof.
  intros data P. subst data P. unfold step_bytes.
  repeat split.
  - rewrite rd_app_r by lia. reflexivity.
  - replace (Z.of_nat (List.length pre) + 1 + 1)
      with (Z.of_nat (List.length pre) + 2) by lia.
    rewrite rd_app_r by lia. reflexivity.
  - replace (Z.of_nat (List.length pre) + 1 + 1 + 1 + Z.of_nat (List.length sib))
      with (Z.of_nat (List.length pre) + (Z.of_nat (List.length sib) + 1 + 1 + 1)) by lia.
    rewrite rd_app_r by lia.
    cbn [app]. rewrite !rd_cons by lia.
    rewrite <- app_assoc.
    replace (Z.of_nat (List.length sib)) with (Z.of_nat (List.length sib) + 0) by lia.
    rewrite rd_app_r by lia. reflexivity.
Qed.

(** What the loop reads from a step laid out as [step_bytes]. *)
Lemma read_step_layout (pre : list Z) (h d a : Z) (sib : list Z) (lvl : Z)
    (rest : list Z) :
  d = 0 \/ d = 1 ->
  GT_getHashSize a = Z.of_nat (List.length sib) ->
  sib <> [] ->
  read_step (pre ++ step_bytes h d a sib lvl ++ rest) (Z.of_nat (List.length pre))
  = inr {| rs_direction := d; rs_algorithm := a;
           rs_hash_size := Z.of_nat (List.length sib);
           rs_level := lvl;
           rs_next := Z.of_nat (List.length pre) + 4
                      + Z.of_nat (List.length sib) |}.
Proof.
  intros Hd Ha Hs.
  destruct (step_bytes_at pre h d a sib lvl rest) as (A1 & A2 & A3).
  cbv zeta in A1, A2, A3.
  assert (Hlen : 0 < Z.of_nat (List.length sib)) by (destruct sib; [congruence|cbn; lia]).
  unfold read_step.
  rewrite !length_app, !Nat2Z.inj_add, length_step_bytes.
  set (P := Z.of_nat (List.length pre)) in *.
  set (data := pre ++ step_bytes h d a sib lvl ++ rest) in *.
  rewrite geb_false by lia.
  rewrite A1.
  assert (Ed : negb (d =? 0) && negb (d =? 1) = false) by (destruct Hd; subst d; reflexivity).
  rewrite Ed. rewrite geb_false by lia.
  rewrite A2, Ha.
  rewrite (proj2 (Z.eqb_neq _ 0)) by lia.
  rewrite geb_false by lia.
  rewrite A3. f_equal. f_equal. lia.
Qed.

End ReadStep.

Section LoopBody.
Import Location.

Ltac destruct_pairs :=
  repeat match goal with
         | |- context [let '(_, _) := ?x in _] => destruct x
         end.

Lemma read_step_direction (data : list Z) (pos : Z) (r : RawStep) :
  read_step data pos = inr r ->
  (rs_direction r = 0 \/ rs_direction r = 1)
  /\ rs_hash_size r = GT_getHashSize (rs_algorithm r)
  /\ 0 < rs_hash_size r
  /\ rs_next r = pos + 4 + rs_hash_size r.
Proof.
  unfold read_step.
  destruct (pos + 1 >=? _); [discriminate|].
  destruct (negb (rd data (pos + 1) =? 0) && negb (rd data (pos + 1) =? 1)) eqn:Ed;
    [discriminate|].
  destruct (pos + 1 + 1 >=? _); [discriminate|].
  destruct (GT_getHashSize (rd data (pos + 1 + 1)) =? 0) eqn:Eh; [discriminate|].
  destruct (_ >=? _); [discriminate|].
  intros [= <-]. cbn [rs_direction rs_hash_size rs_algorithm rs_next].
  apply Z.eqb_neq in Eh.
  assert (Hs : 0 <= GT_getHashSize (rd data (pos + 1 + 1))).
  { unfold GT_getHashSize. repeat destruct (Z.eqb _ _); lia. }
  repeat split; lia.
Qed.

(** A round on a step that reads well. *)
Lemma loc_step_read (data : list Z) (st : LocState) (r : RawStep) :
  num_bits st < 256 ->
  read_step data (p st) = inr r ->
  loc_step data st =
  if crosses hasher_level (rs_level r) (last_level st) then
    Finished (hasher_block (rs_level r) (to_uchar (1 - rs_direction r))
                (remember_step st (rs_next r)))
  else
    Continue (push_bit (rs_level r) (to_uchar (1 - rs_direction r))
                (region_blocks data (rs_level r) (last_level st)
                   (remember_step st (rs_next r)))).
Proof.
  intros Hn Hr. unfold loc_step. rewrite geb_false by lia. rewrite Hr. reflexivity.
Qed.

(** A round that ends or continues has read its step. *)
Lemma loc_step_inv (data : list Z) (st : LocState) :
  (forall st', loc_step data st = Finished st' \/ loc_step data st = Continue st' ->
     num_bits st < 256 /\ exists r, read_step data (p st) = inr r).
Proof.
  intros st'. unfold loc_step.
  destruct (num_bits st >=? 256) eqn:E.
  { intros [H|H]; discriminate. }
  rewrite Z.geb_leb in E. apply Z.leb_gt in E.
  destruct (read_step data (p st)) as [res|r].
  { intros [H|H]; discriminate. }
  intros _. split; [exact E|]. exists r. reflexivity.
Qed.

Lemma hash_bit_value (d : Z) : d = 0 \/ d = 1 -> to_uchar (1 - d) = 1 - d.
Proof. intros [-> | ->]; reflexivity. Qed.

Lemma hasher_block_hasher (hash_level hash_bit : Z) (st : LocState) :
  hasher (loc (hasher_block hash_level hash_bit st))
  = if hash_level =? 255 then 1 + hash_bit else hash_level - hasher_level.
Proof. unfold hasher_block. destruct_pairs. reflexivity. Qed.

(** The blocks keep [p]. *)
Lemma region_blocks_p (data : list Z) (hash_level ll : Z) (st : LocState) :
  p (region_blocks data hash_level ll st) = p st.
Proof.
  unfold region_blocks, upper_blocks, when,
    top_block, national_block, state_block, client_block, region_block.
  repeat match goal with
         | |- context [if ?b then _ else _] => destruct b
         end; destruct_pairs; reflexivity.
Qed.

Lemma hasher_block_p (hash_level hash_bit : Z) (st : LocState) :
  p (hasher_block hash_level hash_bit st) = p st.
Proof. unfold hasher_block. destruct_pairs. reflexivity. Qed.

(** Only the local-to-state block assigns the local members. *)
Lemma upper_blocks_local (data : list Z) (hash_level ll : Z) (st : LocState) :
  local_fields (loc (upper_blocks data hash_level ll st)) = local_fields (loc st).
Proof.
  unfold upper_blocks, when, top_block, national_block, region_block.
  repeat match goal with
         | |- context [if ?b then _ else _] => destruct b
         end; destruct_pairs; reflexivity.
Qed.

Lemma client_block_local (data : list Z) (st : LocState) :
  local_fields (loc (client_block data st)) = local_fields (loc st).
Proof. unfold client_block. destruct_pairs. reflexivity. Qed.

Lemma hasher_block_local (hash_level hash_bit : Z) (st : LocState) :
  local_fields (loc (hasher_block hash_level hash_bit st)) = local_fields (loc st).
Proof. unfold hasher_block. destruct_pairs. reflexivity. Qed.

End LoopBody.

Section Layout.
Import Location.

(** C2 as stated fails: a chain whose steps are laid out as direction,
    algorithm, sibling imprint, level is not read that way.  The byte taken
    as the direction is the second one (here the algorithm id 3), and the
    chain is rejected; with one more byte in front of every step the same
    steps are read. *)
Lemma spec_layout_step_rejected :
  read_step chain_spec_layout 0 = inl GT_INVALID_LINKING_INFO
  /\ read_step chain_spec_layout 0
     <> inr {| rs_direction := 1; rs_algorithm := GT_HASHALG_SHA224;
               rs_hash_size := 28; rs_level := 5;
               rs_next := Z.of_nat (List.length
                            (spec_step_bytes 1 GT_HASHALG_SHA224 sha224_sibling 5)) |}
  /\ extractLocation true chain_spec_layout = Some (GT_INVALID_LINKING_INFO, None)
  /\ read_step chain_code_layout 0
     = inr {| rs_direction := 1; rs_algorithm := GT_HASHALG_SHA224;
              rs_hash_size := 28; rs_level := 5; rs_next := 32 |}.
Proof. repeat split; discriminate. Qed.

(** What the loop has read when it has read a step at offset [pos]. *)
Lemma read_step_bytes (data : list Z) (pos : Z) (r : RawStep) :
  read_step data pos = inr r ->
  rs_direction r = rd data (pos + 1)
  /\ rs_algorithm r = rd data (pos + 2)
  /\ rs_level r = rd data (pos + 3 + rs_hash_size r)
  /\ pos + 3 + rs_hash_size r < Z.of_nat (List.length data).
Proof.
  unfold read_step.
  destruct (pos + 1 >=? _); [discriminate|].
  destruct (negb _ && negb _); [discriminate|].
  destruct (pos + 1 + 1 >=? _); [discriminate|].
  destruct (GT_getHashSize _ =? 0); [discriminate|].
  destruct (_ >=? _) eqn:E; [discriminate|].
  intros [= <-]. cbn [rs_direction rs_hash_size rs_algorithm rs_level].
  rewrite Z.geb_leb in E. apply Z.leb_gt in E.
  repeat split; try (f_equal; lia).
Qed.

(** C2, amended. Every step of a chain walked by the location decoder
    occupies [4 + digest size] consecutive bytes: one byte that the decoder
    steps over without looking at it, the direction (0 or 1), the id of the
    sibling hash algorithm (of known digest size), the sibling digest of
    exactly that size, and the level.  A step laid out like this is read
    with these fields whatever its first byte is, and the round leaves [p]
    at the byte after the level. *)
Theorem location_step_layout (pre rest sib : list Z) (h d a lvl : Z) (st : LocState) :
  d = 0 \/ d = 1 ->
  GT_getHashSize a = Z.of_nat (List.length sib) ->
  sib <> [] ->
  p st = Z.of_nat (List.length pre) ->
  num_bits st < 256 ->
  let data := pre ++ step_bytes h d a sib lvl ++ rest in
  read_step data (p st)
  = inr {| rs_direction := d; rs_algorithm := a;
           rs_hash_size := Z.of_nat (List.length sib);
           rs_level := lvl;
           rs_next := p st + 4 + Z.of_nat (List.length sib) |}
  /\ (exists st',
        (loc_step data st = Finished st' \/ loc_step data st = Continue st')
        /\ p st' = p st + Z.of_nat (List.length (step_bytes h d a sib lvl)))
  /\ (forall data' pos r,
        read_step data' pos = inr r ->
        rs_direction r = rd data' (pos + 1)
        /\ (rs_direction r = 0 \/ rs_direction r = 1)
        /\ rs_algorithm r = rd data' (pos + 2)
        /\ rs_hash_size r = GT_getHashSize (rs_algorithm r)
        /\ 0 < rs_hash_size r
        /\ rs_level r = rd data' (pos + 3 + rs_hash_size r)
        /\ rs_next r = pos + 4 + rs_hash_size r).
Proof.
  intros Hd Ha Hs Hp Hn data.
  assert (R : read_step data (p st)
              = inr {| rs_direction := d; rs_algorithm := a;
                       rs_hash_size := Z.of_nat (List.length sib);
                       rs_level := lvl;
                       rs_next := p st + 4 + Z.of_nat (List.length sib) |}).
  { rewrite Hp. apply read_step_layout; assumption. }
  split; [exact R|split].
  - rewrite (loc_step_read data st _ Hn R).
    cbn [rs_level rs_direction rs_next]. rewrite length_step_bytes.
    destruct (crosses hasher_level lvl (last_level st)).
    + eexists. split; [left; reflexivity|].
      rewrite hasher_block_p. cbn [remember_step p]. lia.
    + eexists. split; [right; reflexivity|].
      cbn [push_bit p]. rewrite region_blocks_p. cbn [remember_step p]. lia.
  - intros data' pos r Hr.
    destruct (read_step_direction data' pos r Hr) as (D & S1 & S2 & N).
    destruct (read_step_bytes data' pos r Hr) as (B1 & B2 & B3 & _).
    repeat split; assumption.
Qed.

Lemma location_step_layout_witness :
  read_step chain_code_layout 0
  = inr {| rs_direction := 1; rs_algorithm := GT_HASHALG_SHA224;
           rs_hash_size := 28; rs_level := 5; rs_next := 32 |}.
Proof.
  exact (proj1 (location_step_layout [] (step_bytes 1 0 GT_HASHALG_SHA1 sha1_sibling 255)
                  sha224_sibling 1 1 GT_HASHALG_SHA224 5 init_state
                  (or_intror eq_refl) eq_refl ltac:(discriminate) eq_refl eq_refl)).
Defined.

End Layout.

Section Boundaries.
Import Location.

Lemma crosses_spec (threshold hash_level ll : Z) :
  crosses threshold hash_level ll = true <-> threshold < hash_level /\ ll <= threshold.
Proof.
  unfold crosses. rewrite andb_true_iff, Z.gtb_ltb, Z.ltb_lt, Z.leb_le. tauto.
Qed.

(** C4 as stated fails: on a chain whose only step has direction 0 and
    level byte 0xFF the hasher id is 2, not [1 + direction = 1]. *)
Lemma hasher_id_is_not_one_plus_direction :
  read_step chain_one_hasher_step 0
  = inr {| rs_direction := 0; rs_algorithm := GT_HASHALG_SHA1; rs_hash_size := 20;
           rs_level := 255; rs_next := 24 |}
  /\ option_map hasher (final_loc chain_one_hasher_step) = Some 2
  /\ option_map hasher (final_loc chain_one_hasher_step) <> Some (1 + 0).
Proof. repeat split; discriminate. Qed.

(** C4, amended. The loop ends at the first step whose level exceeds 80
    (the level before it being at most 80), and the hasher id it assigns
    is [1 + (1 - direction)], that is [2 - direction], when the level byte
    of that step is 0xFF, and [level - 80] otherwise. *)
Theorem hasher_id_at_boundary (data : list Z) (st : LocState) :
  (forall r, num_bits st < 256 -> read_step data (p st) = inr r ->
     hasher_level < rs_level r -> last_level st <= hasher_level ->
     exists st', loc_step data st = Finished st'
       /\ hasher (loc st')
          = if rs_level r =? 255 then 1 + (1 - rs_direction r)
            else rs_level r - 80)
  /\ (forall st', loc_step data st = Finished st' ->
        exists r, read_step data (p st) = inr r
          /\ 80 < rs_level r /\ last_level st <= 80
          /\ (rs_direction r = 0 \/ rs_direction r = 1)
          /\ hasher (loc st')
             = if rs_level r =? 255 then 2 - rs_direction r else rs_level r - 80).
Proof.
  split.
  - intros r Hn Hr Hl Hll.
    rewrite (loc_step_read data st r Hn Hr).
    rewrite (proj2 (crosses_spec hasher_level (rs_level r) (last_level st)))
      by (split; assumption).
    eexists. split; [reflexivity|].
    rewrite hasher_block_hasher.
    destruct (read_step_direction data (p st) r Hr) as (D & _).
    rewrite (hash_bit_value _ D). reflexivity.
  - intros st' Hf.
    destruct (loc_step_inv data st st' (or_introl Hf)) as (Hn & r & Hr).
    exists r. split; [exact Hr|].
    rewrite (loc_step_read data st r Hn Hr) in Hf.
    destruct (crosses hasher_level (rs_level r) (last_level st)) eqn:C;
      [|discriminate].
    apply crosses_spec in C. unfold hasher_level in C.
    destruct (read_step_direction data (p st) r Hr) as (D & _).
    injection Hf as <-.
    rewrite hasher_block_hasher, (hash_bit_value _ D).
    repeat split; try tauto.
    destruct (rs_level r =? 255); [lia|reflexivity].
Qed.

Lemma hasher_id_at_boundary_witness :
  exists st', loc_step chain_one_hasher_step init_state = Finished st'
    /\ hasher (loc st') = 2.
Proof.
  exact (proj1 (hasher_id_at_boundary chain_one_hasher_step init_state)
           {| rs_direction := 0; rs_algorithm := GT_HASHALG_SHA1; rs_hash_size := 20;
              rs_level := 255; rs_next := 24 |}
           eq_refl eq_refl eq_refl ltac:(discriminate)).
Defined.

(** The level the loop remembers never exceeds the hasher level. *)
Lemma loc_step_last_level (data : list Z) (st st' : LocState) :
  loc_step data st = Continue st' ->
  last_level st <= hasher_level -> last_level st' <= hasher_level.
Proof.
  intros Hc Hl.
  destruct (loc_step_inv data st st' (or_intror Hc)) as (Hn & r & Hr).
  rewrite (loc_step_read data st r Hn Hr) in Hc.
  destruct (crosses hasher_level (rs_level r) (last_level st)) eqn:C; [discriminate|].
  injection Hc as <-. cbn [push_bit last_level].
  destruct (Z.le_gt_cases (rs_level r) hasher_level) as [H|H]; [exact H|].
  rewrite (proj2 (crosses_spec _ _ _)) in C by lia. discriminate.
Qed.

Lemma rounds_last_level (n : nat) (data : list Z) :
  forall st st', rounds n data st = Some st' ->
    last_level st <= hasher_level -> last_level st' <= hasher_level.
Proof.
  induction n as [|n IH]; intros st st'; cbn [rounds].
  - intros [= <-]. tauto.
  - destruct (loc_step data st) as [res| |st1|st1] eqn:E; try discriminate.
    intros H Hl. apply (IH st1 st' H). eapply loc_step_last_level; eassumption.
Qed.

(** The loop comes to an end: on a chain of [n] bytes [n + 1] rounds are
    never used up. *)
Lemma extract_loop_returns (data : list Z) :
  forall fuel st,
    Z.of_nat (List.length data) - p st <= Z.of_nat fuel ->
    exists o, extract_loop (S fuel) data st = Some o
      /\ forall st', o <> Continue st'.
Proof.
  induction fuel as [|fuel IH]; intros st Hf.
  - cbn [extract_loop].
    destruct (loc_step data st) as [res| |st1|st1] eqn:E;
      try (eexists; split; [reflexivity|intros st'; discriminate]).
    destruct (loc_step_inv data st st1 (or_intror E)) as (_ & r & Hr).
    destruct (read_step_bytes data (p st) r Hr) as (_ & _ & _ & B).
    destruct (read_step_direction data (p st) r Hr) as (_ & _ & S2 & _).
    cbn in Hf. lia.
  - cbn [extract_loop].
    destruct (loc_step data st) as [res| |st1|st1] eqn:E;
      try (eexists; split; [reflexivity|intros st'; discriminate]).
    destruct (loc_step_inv data st st1 (or_intror E)) as (Hn & r & Hr).
    destruct (read_step_direction data (p st) r Hr) as (_ & _ & S2 & N).
    apply IH.
    rewrite (loc_step_read data st r Hn Hr) in E.
    destruct (crosses hasher_level (rs_level r) (last_level st)); [discriminate|].
    injection E as <-. cbn [push_bit p]. rewrite region_blocks_p.
    cbn [remember_step p]. lia.
Qed.

Lemma run_loop_returns (data : list Z) :
  exists o, run_loop data = Some o /\ forall st', o <> Continue st'.
Proof.
  unfold run_loop. apply extract_loop_returns. cbn [init_state p]. lia.
Qed.

(** [extractLocation] is undefined only where the source writes beyond
    [steps[255]]. *)
Lemma extractLocation_undefined (malloc_ok : bool) (data : list Z) :
  extractLocation malloc_ok data = None -> run_loop data = Some Overrun.
Proof.
  unfold extractLocation.
  destruct (run_loop_returns data) as (o & -> & Hc).
  destruct o as [res| |st|st]; try discriminate; [reflexivity| |].
  - destruct (_ >? 0); [destruct malloc_ok|]; discriminate.
  - exfalso. apply (Hc st). reflexivity.
Qed.

End Boundaries.

Section LocalToState.
Import Location.

Lemma collectBits_loop_len (n : nat) (buf : list Z) :
  forall len res, 0 <= len ->
    0 <= snd (collectBits_loop n buf len res)
    /\ (len <= Z.of_nat n -> snd (collectBits_loop n buf len res) = 0).
Proof.
  induction n as [|n IH]; intros len res Hl; cbn [collectBits_loop].
  - cbn [snd]. split; lia.
  - destruct (len >? 0) eqn:E.
    + rewrite Z.gtb_ltb in E. apply Z.ltb_lt in E.
      destruct (IH (len - 1) (Z.lor (Z.shiftl res 1 mod 2 ^ 32) (rd buf (len - 1)))
                  ltac:(lia)) as [A B].
      split; [exact A|]. intros H. apply B. lia.
    + rewrite Z.gtb_ltb in E. apply Z.ltb_ge in E. cbn [snd]. split; lia.
Qed.

Lemma checkName_len (data steps : list Z) (len : Z) (name : option Z) (name_len : Z) :
  0 <= len -> 0 <= snd (checkName data steps len name name_len).
Proof.
  intros Hl. destruct (Z.eq_dec len 0) as [->|Hne]; [cbn; lia|].
  destruct (checkName_cases data steps len name name_len ltac:(lia)) as [[_ E]|[_ E]];
    rewrite E; cbn [snd]; lia.
Qed.

(** The block collects every bit that is left. *)
Lemma state_block_num_bits (data : list Z) (st : LocState) :
  0 <= num_bits st -> num_bits (state_block data st) = 0.
Proof.
  intros Hn. unfold state_block, region_block.
  pose proof (collectBits_loop_len (Z.to_nat ab_bits_state) (bits st) (num_bits st) 0 Hn)
    as [A _].
  fold (collectBits (bits st) (num_bits st) ab_bits_state) in A.
  destruct (collectBits (bits st) (num_bits st) ab_bits_state) as [m n1].
  cbn [snd] in A.
  pose proof (collectBits_loop_len (Z.to_nat slot_bits_state) (bits st) n1 0 A) as [B _].
  fold (collectBits (bits st) n1 slot_bits_state) in B.
  destruct (collectBits (bits st) n1 slot_bits_state) as [s n2].
  cbn [snd] in B.
  pose proof (checkName_len data (steps st) n2 (local_name (loc st))
                (local_name_len (loc st)) B) as C.
  destruct (checkName data (steps st) n2 (local_name (loc st)) (local_name_len (loc st)))
    as [[nm nl] n3].
  cbn [snd] in C.
  pose proof (collectBits_loop_len (Z.to_nat n3) (bits st) n3 0 C) as [_ D].
  fold (collectBits (bits st) n3 n3) in D.
  destruct (collectBits (bits st) n3 n3) as [c n4].
  cbn [snd] in D. cbn [update num_bits]. apply D. lia.
Qed.

(** C5 as stated fails, in two ways.
    The threshold is 21, not 22: in [chain_level_22] the seventh step has
    level 22 after a step of level 6, which does not exceed 22, yet the
    round runs the block and assigns machine 3, slot 3 and client id 1.
    And a step that ends the walk does not run the block: in
    [chain_level_drop] the last step has level 255 after a step of level
    10, so its level exceeds the threshold while the level before it did
    not; the local members keep the values of the earlier crossing, where
    the block would have assigned them anew (all zero, no bit being
    left). *)
Lemma state_block_threshold_and_hasher :
  (state_level = 21
   /\ let st := state_after 6 chain_level_22 in
      rounds 6 chain_level_22 init_state = Some st
      /\ last_level st = 6
      /\ read_step chain_level_22 (p st)
         = inr {| rs_direction := 0; rs_algorithm := GT_HASHALG_SHA1;
                  rs_hash_size := 20; rs_level := 22; rs_next := 168 |}
      /\ crosses 22 22 (last_level st) = false
      /\ local_fields (loc st) = (0, 0, None, 0, 0)
      /\ option_map local_fields (final_loc chain_level_22)
         = Some (3, 3, None, 0, 1))
  /\ (let st := state_after 8 chain_level_drop in
      rounds 8 chain_level_drop init_state = Some st
      /\ last_level st = 10
      /\ read_step chain_level_drop (p st)
         = inr {| rs_direction := 0; rs_algorithm := GT_HASHALG_SHA1;
                  rs_hash_size := 20; rs_level := 255; rs_next := 216 |}
      /\ crosses 22 255 (last_level st) = true
      /\ crosses state_level 255 (last_level st) = true
      /\ local_fields (loc st) = (3, 3, None, 0, 1)
      /\ option_map local_fields (final_loc chain_level_drop)
         = Some (3, 3, None, 0, 1)
      /\ local_fields (loc (state_block chain_level_drop
                              (upper_blocks chain_level_drop 255 (last_level st)
                                 (remember_step st 216))))
         = (0, 0, None, 0, 0)).
Proof. vm_compute. repeat split; reflexivity. Qed.

(** C5, amended. The threshold of the local-to-state block is
    [state_level = gdepth_state + slot_bits_state + ab_bits_state - 2 = 21].
    A round whose step has level [l] after a level [ll]:
    - when [l] does not cross the hasher level 80, the round runs the block
      exactly when [l > 21] and [ll <= 21]: if so the local members are
      what the block assigns, if not they are left as they were;
    - when [l] crosses the hasher level the loop ends and the block is not
      run, whatever [ll] is.
    The block takes [local_machine] from 2 bits, [local_slot] from 2 bits,
    lets [checkName] look for a name, and takes [client_id] from all the
    bits that remain. *)
Theorem local_to_state_transition (data : list Z) (st : LocState) (r : RawStep) :
  num_bits st < 256 ->
  read_step data (p st) = inr r ->
  let l := rs_level r in
  let ll := last_level st in
  let st1 := upper_blocks data l ll (remember_step st (rs_next r)) in
  (state_level = 21 /\ ab_bits_state = 2 /\ slot_bits_state = 2)
  /\ (crosses hasher_level l ll = false -> 21 < l /\ ll <= 21 ->
        exists st', loc_step data st = Continue st'
          /\ local_fields (loc st') = local_fields (loc (state_block data st1)))
  /\ (crosses hasher_level l ll = false -> ~ (21 < l /\ ll <= 21) ->
        exists st', loc_step data st = Continue st'
          /\ local_fields (loc st') = local_fields (loc st))
  /\ (crosses hasher_level l ll = true ->
        exists st', loc_step data st = Finished st'
          /\ local_fields (loc st') = local_fields (loc st))
  /\ (let '(machine, n1) := collectBits (bits st1) (num_bits st1) 2 in
      let '(slot, n2) := collectBits (bits st1) n1 2 in
      let '(name, name_len, n3) :=
        checkName data (steps st1) n2 (local_name (loc st1)) (local_name_len (loc st1)) in
      let '(client, n4) := collectBits (bits st1) n3 n3 in
      local_fields (loc (state_block data st1)) = (machine, slot, name, name_len, client)
      /\ num_bits (state_block data st1) = n4
      /\ (0 <= num_bits st1 -> n4 = 0)).
Proof.
  intros Hn Hr l ll st1.
  split; [repeat split; reflexivity|].
  rewrite (loc_step_read data st r Hn Hr). fold l ll.
  split; [|split; [|split]].
  - intros C H. rewrite C. eexists. split; [reflexivity|].
    cbn [push_bit loc]. unfold region_blocks. fold st1.
    rewrite (proj2 (crosses_spec state_level l ll)) by exact H.
    unfold when at 2.
    unfold when. destruct (crosses 1 l ll); [apply client_block_local|reflexivity].
  - intros C H. rewrite C. eexists. split; [reflexivity|].
    cbn [push_bit loc]. unfold region_blocks. fold st1.
    destruct (crosses state_level l ll) eqn:S.
    { apply crosses_spec in S. contradiction. }
    unfold when at 2.
    assert (U : local_fields (loc st1) = local_fields (loc st)).
    { unfold st1. rewrite upper_blocks_local. reflexivity. }
    unfold when. destruct (crosses 1 l ll);
      [rewrite client_block_local; exact U|exact U].
  - intros C. rewrite C. eexists. split; [reflexivity|].
    rewrite hasher_block_local. reflexivity.
  - pose proof (state_block_num_bits data st1) as Z0.
    unfold state_block, region_block in *.
    change ab_bits_state with 2 in *. change slot_bits_state with 2 in *.
    destruct (collectBits (bits st1) (num_bits st1) 2) as [m n1].
    destruct (collectBits (bits st1) n1 2) as [s n2].
    destruct (checkName data (steps st1) n2 (local_name (loc st1))
                (local_name_len (loc st1))) as [[nm nl] n3].
    destruct (collectBits (bits st1) n3 n3) as [c n4].
    cbn [update num_bits loc] in *.
    repeat split. exact Z0.
Qed.

Lemma local_to_state_transition_witness :
  exists st',
    loc_step chain_local_state_hasher (state_after 6 chain_local_state_hasher)
    = Continue st'
    /\ local_fields (loc st')
       = local_fields
           (loc (state_block chain_local_state_hasher
                   (upper_blocks chain_local_state_hasher 23 6
                      (remember_step (state_after 6 chain_local_state_hasher) 168)))).
Proof.
  assert (Hn : num_bits (state_after 6 chain_local_state_hasher) < 256)
    by (vm_compute; reflexivity).
  assert (Hr : read_step chain_local_state_hasher
                 (p (state_after 6 chain_local_state_hasher))
               = inr {| rs_direction := 0; rs_algorithm := GT_HASHALG_SHA1;
                        rs_hash_size := 20; rs_level := 23; rs_next := 168 |})
    by (vm_compute; reflexivity).
  assert (Hl : last_level (state_after 6 chain_local_state_hasher) = 6)
    by (vm_compute; reflexivity).
  destruct (local_to_state_transition chain_local_state_hasher
              (state_after 6 chain_local_state_hasher) _ Hn Hr) as (_ & H & _).
  cbn [rs_level rs_next] in H. rewrite Hl in H.
  apply H; [reflexivity|split; [reflexivity|discriminate]].
Defined.

(** On that chain the walk ends with machine 3, slot 3 and client id 1. *)
Example local_state_hasher_fields :
  option_map local_fields (final_loc chain_local_state_hasher)
  = Some (3, 3, None, 0, 1).
Proof. vm_compute. reflexivity. Qed.

End LocalToState.

(** ** Verification *)
Section Flags.

Lemma has_flag_lor_same (v flag : Z) : has_flag (Z.lor v flag) flag.
Proof.
  unfold has_flag. apply Z.bits_inj'. intros n Hn.
  rewrite Z.land_spec, Z.lor_spec. destruct (Z.testbit v n), (Z.testbit flag n); reflexivity.
Qed.

Lemma has_flag_lor (v other flag : Z) : has_flag v flag -> has_flag (Z.lor v other) flag.
Proof.
  unfold has_flag. intros H. apply Z.bits_inj'. intros n Hn.
  apply (f_equal (fun x => Z.testbit x n)) in H.
  rewrite Z.land_spec in H. rewrite Z.land_spec, Z.lor_spec.
  destruct (Z.testbit v n), (Z.testbit flag n), (Z.testbit other n);
    cbn in *; congruence.
Qed.

End Flags.

Section RegistrationTime.
Import Token Verify.

(** A value of [history_identifier] beyond [2^31 - 1] fails the test made
    for a four-byte [time_t]. *)
Lemma time_t_overflow_32 (env : Env) (h : Z) :
  sizeof_time_t env = 4 -> 2 ^ 31 <= h < 2 ^ 64 -> time_t_overflow env h = true.
Proof.
  intros Hs Hh. unfold time_t_overflow, cast_time_t, cast_signed, cast_uint64.
  rewrite Hs. change (8 * 4) with 32. change (32 - 1) with 31.
  pose proof (Z.mod_pos_bound (h + 2 ^ 31) (2 ^ 32) ltac:(lia)) as B.
  destruct ((h + 2 ^ 31) mod 2 ^ 32 - 2 ^ 31 <? 0) eqn:E; [reflexivity|].
  apply Z.ltb_ge in E. cbn [orb].
  rewrite Z.mod_small by lia.
  apply negb_true_iff. apply Z.eqb_neq. lia.
Qed.

(** A value that fits passes it. *)
Lemma time_t_fits_32 (env : Env) (h : Z) :
  sizeof_time_t env = 4 -> 0 <= h < 2 ^ 31 -> time_t_overflow env h = false.
Proof.
  intros Hs Hh. unfold time_t_overflow, cast_time_t, cast_signed, cast_uint64.
  rewrite Hs. change (8 * 4) with 32. change (32 - 1) with 31.
  rewrite (Z.mod_small (h + 2 ^ 31)) by lia.
  replace (h + 2 ^ 31 - 2 ^ 31) with h by lia.
  rewrite (proj2 (Z.ltb_ge h 0)) by lia. rewrite Z.mod_small by lia.
  rewrite Z.eqb_refl. reflexivity.
Qed.

End RegistrationTime.

Section CreateInfo.
Import Token Verify.

Ltac step_bind H :=
  match type of H with
  | bind ?r _ = Ok _ =>
      let E := fresh "E" in
      destruct r eqn:E; cbn [bind] in H; [|discriminate H|discriminate H]
  end.

Lemma errors_set_implicit (info : GTVerificationInfo) (i : GTTimeStampImplicit) :
  verification_errors (set_implicit info i) = verification_errors info.
Proof. reflexivity. Qed.

Lemma errors_set_explicit (info : GTVerificationInfo) (e : GTTimeStampExplicit) :
  verification_errors (set_explicit info e) = verification_errors info.
Proof. reflexivity. Qed.

Lemma registration_time_status (env : Env) (sig : GTTimeSignature)
    (info info1 : GTVerificationInfo) (h : Z) :
  registration_time env sig info = Ok (info1, h) ->
  verification_status info1 = verification_status info
  /\ (forall flag, has_flag (verification_errors info) flag ->
                   has_flag (verification_errors info1) flag).
Proof.
  unfold registration_time.
  destruct (GT_shape env (history sig)) as [r1 shape].
  match goal with
  | |- context [let '(_, _) := ?x in _] => destruct x as [r2 hid]
  end.
  match goal with
  | |- context [if negb ?b then _ else _] => destruct (negb b)
  end.
  - match goal with
    | |- context [if ?b then _ else _] => destruct b; [|discriminate]
    end.
    intros [= <- _]. split; [reflexivity|].
    intros flag Hf. apply has_flag_lor. exact Hf.
  - intros [= <- _]. tauto.
Qed.

(** The status bitmap before the registration time is looked at. *)
Lemma status_signature_present (info : GTVerificationInfo)
    (refs : option (list (list Z))) (o : option GTSignatureInfo) (pk : GTSignatureInfo) :
  o = Some pk ->
  has_flag
    (verification_status
       match refs with
       | Some refs =>
           if Z.of_nat (List.length refs) >? 0
           then add_status
                  match o with
                  | Some _ => add_status info GT_PUBLIC_KEY_SIGNATURE_PRESENT
                  | None => info
                  end GT_PUBLICATION_REFERENCE_PRESENT
           else match o with
                | Some _ => add_status info GT_PUBLIC_KEY_SIGNATURE_PRESENT
                | None => info
                end
       | None =>
           match o with
           | Some _ => add_status info GT_PUBLIC_KEY_SIGNATURE_PRESENT
           | None => info
           end
       end)
    GT_PUBLIC_KEY_SIGNATURE_PRESENT.
Proof.
  intros ->.
  destruct refs as [refs|]; [destruct (_ >? 0)|];
    cbn [add_status verification_status];
    first [apply has_flag_lor_same | apply has_flag_lor; apply has_flag_lor_same].
Qed.

(** What a successful [createVerificationInfo] has gone through. *)
Lemma createVerificationInfo_inv (env : Env) (tok : PKCS7)
    (si : option PKCS7_SIGNER_INFO) (sig : GTTimeSignature) (parse_data : Z)
    (info : GTVerificationInfo) :
  createVerificationInfo env tok si sig parse_data = Ok info ->
  exists info0 info1 h,
    registration_time env sig info0 = Ok (info1, h)
    /\ (forall flag, has_flag (verification_errors info1) flag ->
                     has_flag (verification_errors info) flag)
    /\ reported_time info = Some (cast_int64 h)
    /\ (forall pk, pkSignature sig = Some pk ->
          has_flag (verification_status info) GT_PUBLIC_KEY_SIGNATURE_PRESENT
          /\ exists s c, si = Some s /\ PKCS7_cert_from_signer_info tok s = Some c).
Proof.
  unfold createVerificationInfo. intros H.
  step_bind H. step_bind H. destruct a0 as [info1 h]. cbn [fst snd] in H.
  unfold create_tail in H. cbv zeta in H.
  step_bind H. destruct a0 as [info2 out].
  exists a, info1, h.
  split; [exact E0|].
  assert (S0 : forall pk, pkSignature sig = Some pk ->
                 has_flag (verification_status a) GT_PUBLIC_KEY_SIGNATURE_PRESENT).
  { intros pk Hpk. unfold create_head in E. cbv zeta in E.
    step_bind E. step_bind E. step_bind E. injection E as <-.
    apply (status_signature_present a2 (pubReference sig) _ pk Hpk). }
  rename E0 into E2. rename E1 into E3.
  destruct (registration_time_status _ _ _ _ _ E2) as [S1 _].
  assert (F : (forall flag, has_flag (verification_errors info1) flag ->
                            has_flag (verification_errors info2) flag)
              /\ verification_status info2 = verification_status info1).
  { destruct (Location.extractLocation _ _) as [[res o]|]; [|discriminate E3].
    destruct (res =? GT_OK); [injection E3 as <- _; tauto|].
    destruct (res =? GT_INVALID_LINKING_INFO); [|discriminate E3].
    injection E3 as <- _. split; [|reflexivity].
    intros flag Hf. cbn [add_error verification_errors].
    apply has_flag_lor. exact Hf. }
  destruct F as [F S2].
  destruct (match out with Some (id, name) => (id, name) | None => (0, None) end)
    as [id name].
  destruct (Z.land (verification_status info2) GT_PUBLIC_KEY_SIGNATURE_PRESENT =? 0)
    eqn:P.
  - step_bind H. injection H as <-.
    split; [intros flag Hf; apply F; exact Hf|split; [reflexivity|]].
    intros pk Hpk. exfalso.
    pose proof (S0 pk Hpk) as Hs.
    rewrite <- S1, <- S2 in Hs. unfold has_flag in Hs.
    apply Z.eqb_eq in P. rewrite P in Hs. discriminate Hs.
  - destruct (pkSignature sig) as [pk|] eqn:Hpk; [|discriminate H].
    destruct si as [s|]; [|discriminate H].
    step_bind H. injection H as <-.
    split; [|split].
    + intros flag Hf.
      destruct (snd a0); [rewrite errors_set_implicit, errors_set_explicit|
                          rewrite errors_set_implicit]; apply F; exact Hf.
    + destruct (snd a0); reflexivity.
    + intros pk' _. split.
      * assert (Hs : has_flag (verification_status info2)
                       GT_PUBLIC_KEY_SIGNATURE_PRESENT).
        { rewrite S2, S1. apply (S0 pk). reflexivity. }
        destruct (snd a0); exact Hs.
      * match goal with
        | E' : setVerifiedPKISignatureInfo _ _ _ _ _ = Ok _ |- _ =>
            unfold setVerifiedPKISignatureInfo in E';
            destruct (PKCS7_cert_from_signer_info tok s) as [c|] eqn:Ec;
              [|discriminate E']
        end.
        exists s, c. split; [reflexivity|exact Ec].
Qed.

End CreateInfo.

Section SubChecks.
Import Token Verify.

Lemma bind_defined {A B : Type} (r : Res A) (k : A -> Res B) :
  defined r -> (forall a, defined (k a)) -> defined (bind r k).
Proof. unfold defined. destruct r; cbn [bind]; [auto|discriminate|congruence]. Qed.

Lemma require_defined (b : bool) (code : Z) : defined (require b code).
Proof. unfold defined, require. destruct b; discriminate. Qed.

Lemma call_defined {A : Type} (r : Z * A) : defined (call r).
Proof. unfold defined, call. destruct (fst r =? GT_OK); discriminate. Qed.

Lemma from_option_defined {A : Type} (o : option A) (code : Z) :
  defined (from_option o code).
Proof. unfold defined, from_option. destruct o; discriminate. Qed.

Lemma Ok_defined {A : Type} (a : A) : defined (Ok a).
Proof. unfold defined. discriminate. Qed.

Ltac defined_steps :=
  repeat first
    [ apply require_defined | apply call_defined | apply from_option_defined
    | apply Ok_defined
    | apply bind_defined; [|intros ?] ].

Lemma checkHashChain_defined (env : Env) (tst : GTTSTInfo) (si : PKCS7_SIGNER_INFO)
    (sig : GTTimeSignature) : defined (checkHashChain env tst si sig).
Proof.
  unfold checkHashChain. cbv zeta. defined_steps.
  destruct (PKCS7_get_signed_attribute si NID_pkcs9_messageDigest) as [a'|];
    [destruct (type a' =? V_ASN1_OCTET_STRING)|]; unfold defined; discriminate.
Qed.

Lemma checkPublicKeySignature_defined (env : Env) (sig : GTTimeSignature)
    (pk : GTSignatureInfo) (c : X509) :
  defined (checkPublicKeySignature env sig pk c).
Proof. unfold checkPublicKeySignature. cbv zeta. defined_steps. Qed.

Lemma code_of_defined (r : Res unit) : defined r -> exists code, code_of r = Ok code.
Proof.
  unfold defined. destruct r; cbn [code_of]; [eauto|eauto|congruence].
Qed.

(** A sub-check that reports an error does not report [GT_OK]. *)
Lemma require_code (b : bool) (code res : Z) :
  require b code = Err res -> res = code.
Proof. unfold require. destruct b; congruence. Qed.

Lemma call_code {A : Type} (r : Z * A) (res : Z) :
  call r = Err res -> res <> GT_OK.
Proof.
  unfold call. destruct (fst r =? GT_OK) eqn:E; [discriminate|].
  intros [= <-]. apply Z.eqb_neq. exact E.
Qed.

Lemma add_error_zero (info : GTVerificationInfo) : add_error info 0 = info.
Proof. destruct info. unfold add_error. cbn. rewrite Z.lor_0_r. reflexivity. Qed.

End SubChecks.

Section Orchestrator.
Import Token Verify.

(** The codes the two [switch] statements turn into flags, and two system
    errors they let through. *)
Lemma downgraded_codes :
  hashchain_failure GT_INVALID_FORMAT = true
  /\ hashchain_failure GT_UNTRUSTED_HASH_ALGORITHM = true
  /\ hashchain_failure GT_WRONG_SIGNED_DATA = true
  /\ hashchain_failure GT_INVALID_AGGREGATION = true
  /\ signature_failure GT_INVALID_FORMAT = true
  /\ signature_failure GT_UNTRUSTED_HASH_ALGORITHM = true
  /\ signature_failure GT_UNTRUSTED_SIGNATURE_ALGORITHM = true
  /\ signature_failure GT_WRONG_SIGNED_DATA = true
  /\ signature_failure GT_INVALID_SIGNATURE = true
  /\ hashchain_failure GT_OUT_OF_MEMORY = false
  /\ hashchain_failure GT_CRYPTO_FAILURE = false
  /\ hashchain_failure GT_INVALID_LINKING_INFO = false
  /\ signature_failure GT_OUT_OF_MEMORY = false
  /\ signature_failure GT_CRYPTO_FAILURE = false.
Proof. repeat split; reflexivity. Qed.

(** C3 as stated fails: on [timestamp_no_certificate] the syntactic check
    fails with [GT_UNSUPPORTED_FORMAT], the chain recomputation with
    [GT_INVALID_AGGREGATION], and the signer's certificate is missing, which
    is [GT_INVALID_FORMAT] for the signature check; none of these is a
    system error and no call fails for a system reason.  Still
    [GTTimestamp_verify] returns [GT_INVALID_FORMAT] and no verification
    info: [createVerificationInfo] gives up on the missing certificate
    before the first sub-check runs. *)
Lemma verify_aborts_without_certificate :
  let env := sample_env 8 1300000000 0 in
  let tok := sample_token 1 None in
  let sig := sample_time_signature bad_imprint (Some sample_pk_signature) in
  checkTimestampSyntax env tok sample_tst_info sample_signer_info sig
  = GT_UNSUPPORTED_FORMAT
  /\ checkHashChain env sample_tst_info sample_signer_info sig
     = Err GT_INVALID_AGGREGATION
  /\ PKCS7_cert_from_signer_info tok sample_signer_info = None
  /\ is_system_error GT_UNSUPPORTED_FORMAT = false
  /\ is_system_error GT_INVALID_AGGREGATION = false
  /\ is_system_error GT_INVALID_FORMAT = false
  /\ createVerificationInfo env tok (Some sample_signer_info) sig 0
     = Err GT_INVALID_FORMAT
  /\ GTTimestamp_verify env (Some timestamp_no_certificate) 0 true
     = Err GT_INVALID_FORMAT
  /\ ret_code (GTTimestamp_verify env (Some timestamp_no_certificate) 0 true)
     <> Some GT_OK.
Proof. vm_compute. repeat split; discriminate. Qed.

(** C3, amended. Once [createVerificationInfo] has succeeded (which, for a
    timestamp with a PKI signature, needs the signer's certificate in the
    token), [GTTimestamp_verify] runs every sub-check and does not stop at
    one that fails:
    - any result of the syntactic check other than [GT_OK] sets
      [GT_SYNTACTIC_CHECK_FAILURE];
    - the results [GT_INVALID_FORMAT], [GT_UNTRUSTED_HASH_ALGORITHM],
      [GT_WRONG_SIGNED_DATA] and [GT_INVALID_AGGREGATION] of the chain
      recomputation set [GT_HASHCHAIN_VERIFICATION_FAILURE];
    - the results [GT_INVALID_FORMAT], [GT_UNTRUSTED_HASH_ALGORITHM],
      [GT_UNTRUSTED_SIGNATURE_ALGORITHM], [GT_WRONG_SIGNED_DATA] and
      [GT_INVALID_SIGNATURE] of the PKI check set
      [GT_PUBLIC_KEY_SIGNATURE_FAILURE];
    and the call returns [GT_OK] with the info carrying all these flags.
    Any other result of the chain recomputation or of the PKI check (out of
    memory, a failure of the crypto library) is returned as it is, with no
    verification info. *)
Theorem verify_accumulates_flags (env : Env) (ts : GTTimestamp) (tok : PKCS7)
    (tst : GTTSTInfo) (sig : GTTimeSignature) (si : PKCS7_SIGNER_INFO)
    (parse_data : Z) (info0 : GTVerificationInfo) :
  token ts = Some tok -> tst_info ts = Some tst -> time_signature ts = Some sig ->
  the_signer_info ts = Some si ->
  createVerificationInfo env tok (Some si) sig parse_data = Ok info0 ->
  let s := checkTimestampSyntax env tok tst si sig in
  let run := GTTimestamp_verify env (Some ts) parse_data true in
  exists h k,
    code_of (checkHashChain env tst si sig) = Ok h
    /\ match pkSignature sig with
       | None => k = GT_OK
       | Some pk =>
           exists c, PKCS7_cert_from_signer_info tok si = Some c
             /\ code_of (checkPublicKeySignature env sig pk c) = Ok k
       end
    /\ (h = GT_OK \/ hashchain_failure h = true ->
        k = GT_OK \/ signature_failure k = true ->
        run = Ok (add_error
                    (add_error
                       (add_error info0
                          (flag_if (negb (s =? GT_OK)) GT_SYNTACTIC_CHECK_FAILURE))
                       (flag_if (negb (h =? GT_OK)) GT_HASHCHAIN_VERIFICATION_FAILURE))
                    (flag_if (negb (k =? GT_OK)) GT_PUBLIC_KEY_SIGNATURE_FAILURE)))
    /\ (h <> GT_OK -> hashchain_failure h = false -> run = Err h)
    /\ (h = GT_OK \/ hashchain_failure h = true ->
        k <> GT_OK -> signature_failure k = false -> run = Err k).
Proof.
  intros Ht Hi Hs Hsi Hc s run.
  destruct (code_of_defined _ (checkHashChain_defined env tst si sig)) as [h Hh].
  destruct (createVerificationInfo_inv _ _ _ _ _ _ Hc) as (_ & _ & _ & _ & _ & _ & Hpk).
  assert (K : exists k,
             match pkSignature sig with
             | None => k = GT_OK
             | Some pk =>
                 exists c, PKCS7_cert_from_signer_info tok si = Some c
                   /\ code_of (checkPublicKeySignature env sig pk c) = Ok k
             end).
  { destruct (pkSignature sig) as [pk|] eqn:Epk; [|exists GT_OK; reflexivity].
    destruct (Hpk pk eq_refl) as (_ & s' & c & Heq & Hcert).
    injection Heq as <-.
    destruct (code_of_defined _ (checkPublicKeySignature_defined env sig pk c))
      as [k Hk].
    exists k, c. split; assumption. }
  destruct K as [k Hk].
  exists h, k. split; [exact Hh|split; [exact Hk|]].
  assert (R : run =
              let info1 := add_error info0
                             (flag_if (negb (s =? GT_OK)) GT_SYNTACTIC_CHECK_FAILURE) in
              bind (if h =? GT_OK then Ok info1
                    else if hashchain_failure h
                         then Ok (add_error info1 GT_HASHCHAIN_VERIFICATION_FAILURE)
                         else Err h)
                (fun info2 =>
                   match pkSignature sig with
                   | None => Ok info2
                   | Some _ =>
                       if k =? GT_OK then Ok info2
                       else if signature_failure k
                            then Ok (add_error info2 GT_PUBLIC_KEY_SIGNATURE_FAILURE)
                            else Err k
                   end)).
  { unfold run, GTTimestamp_verify. rewrite Ht, Hi, Hs. cbn [require bind].
    rewrite Hsi, Hc. cbn [bind]. fold s. rewrite Hh. cbn [bind].
    assert (I1 : (if negb (s =? GT_OK)
                  then add_error info0 GT_SYNTACTIC_CHECK_FAILURE else info0)
                 = add_error info0
                     (flag_if (negb (s =? GT_OK)) GT_SYNTACTIC_CHECK_FAILURE)).
    { destruct (negb (s =? GT_OK)); cbn [flag_if];
        [reflexivity|rewrite add_error_zero; reflexivity]. }
    rewrite I1. cbv zeta.
    match goal with
    | |- bind ?r _ = bind ?r _ => destruct r as [info2| |]; cbn [bind]
    end; [|reflexivity|reflexivity].
    destruct (pkSignature sig) as [pk|] eqn:Epk; [|reflexivity].
    destruct Hk as (c & Hcert & Hk).
    destruct (Hpk pk eq_refl) as (Hflag & _).
    assert (P : negb (Z.land (verification_status info0)
                        GT_PUBLIC_KEY_SIGNATURE_PRESENT =? 0) = true).
    { unfold has_flag in Hflag. rewrite Hflag. reflexivity. }
    rewrite P, Hcert, Hk. cbn [bind]. reflexivity. }
  rewrite R. cbv zeta. clear R.
  split; [|split].
  - intros Hh' Hk'.
    assert (E1 : (if h =? GT_OK
                  then Ok (add_error info0
                             (flag_if (negb (s =? GT_OK)) GT_SYNTACTIC_CHECK_FAILURE))
                  else if hashchain_failure h
                       then Ok (add_error
                                  (add_error info0
                                     (flag_if (negb (s =? GT_OK))
                                        GT_SYNTACTIC_CHECK_FAILURE))
                                  GT_HASHCHAIN_VERIFICATION_FAILURE)
                       else Err h)
                 = Ok (add_error
                         (add_error info0
                            (flag_if (negb (s =? GT_OK)) GT_SYNTACTIC_CHECK_FAILURE))
                         (flag_if (negb (h =? GT_OK))
                            GT_HASHCHAIN_VERIFICATION_FAILURE))).
    { destruct (h =? GT_OK) eqn:E; cbn [negb flag_if].
      - rewrite add_error_zero. reflexivity.
      - destruct Hh' as [-> | ->]; [discriminate E|reflexivity]. }
    rewrite E1. cbn [bind].
    destruct (pkSignature sig) as [pk|].
    + destruct (k =? GT_OK) eqn:E; cbn [negb flag_if].
      * rewrite add_error_zero. reflexivity.
      * destruct Hk' as [-> | ->]; [discriminate E|reflexivity].
    + subst k. cbn [negb flag_if Z.eqb]. rewrite add_error_zero. reflexivity.
  - intros Hne Hf. rewrite (proj2 (Z.eqb_neq h GT_OK) Hne), Hf. reflexivity.
  - intros Hh' Hne Hf.
    destruct (pkSignature sig) as [pk|]; [|contradiction].
    rewrite (proj2 (Z.eqb_neq k GT_OK) Hne), Hf.
    destruct (h =? GT_OK) eqn:E; [reflexivity|].
    destruct Hh' as [-> | ->]; [discriminate E|reflexivity].
Qed.

End Orchestrator.

Section OrchestratorRuns.
Import Token Verify.

Lemma verify_accumulates_flags_witness :
  exists info,
    GTTimestamp_verify (sample_env 8 1300000000 0) (Some timestamp_all_wrong) 1 true
    = Ok info
    /\ verification_errors info
       = Z.lor (Z.lor GT_SYNTACTIC_CHECK_FAILURE GT_HASHCHAIN_VERIFICATION_FAILURE)
               GT_PUBLIC_KEY_SIGNATURE_FAILURE.
Proof.
  destruct (verify_accumulates_flags (sample_env 8 1300000000 0) timestamp_all_wrong
              (sample_token 1 (Some [sample_certificate])) sample_tst_info
              (sample_time_signature bad_imprint (Some sample_pk_signature))
              sample_signer_info 1
              (info_of (createVerificationInfo (sample_env 8 1300000000 0)
                          (sample_token 1 (Some [sample_certificate]))
                          (Some sample_signer_info)
                          (sample_time_signature bad_imprint (Some sample_pk_signature))
                          1))
              eq_refl eq_refl eq_refl eq_refl ltac:(vm_compute; reflexivity))
    as (h & k & Hh & Hk & Hrun & _).
  vm_compute in Hh. injection Hh as <-.
  destruct Hk as (c & Hc & Hk).
  vm_compute in Hc. injection Hc as <-.
  vm_compute in Hk. injection Hk as <-.
  eexists. split.
  - apply Hrun; right; reflexivity.
  - vm_compute. reflexivity.
Defined.

(** On a timestamp on which every sub-check passes no flag is set. *)
Example verify_sound_timestamp :
  option_map verification_errors
    (match GTTimestamp_verify (sample_env 8 1300000000 1) (Some timestamp_sound) 0 true
     with Ok info => Some info | _ => None end)
  = Some GT_NO_FAILURES.
Proof. vm_compute. reflexivity. Qed.

(** What a successful [GTTimestamp_verify] has gone through. *)
Lemma verify_inv (env : Env) (ts : GTTimestamp) (parse_data : Z) (b : bool)
    (info : GTVerificationInfo) :
  GTTimestamp_verify env (Some ts) parse_data b = Ok info ->
  exists tok sig si info0,
    token ts = Some tok /\ time_signature ts = Some sig
    /\ createVerificationInfo env tok si sig parse_data = Ok info0
    /\ implicit_data info = implicit_data info0
    /\ (forall flag, has_flag (verification_errors info0) flag ->
                     has_flag (verification_errors info) flag).
Proof.
  unfold GTTimestamp_verify.
  destruct (token ts) as [tok|]; [|discriminate].
  destruct (tst_info ts) as [tst|]; [|discriminate].
  destruct (time_signature ts) as [sig|]; [|discriminate].
  destruct (require b GT_INVALID_ARGUMENT); cbn [bind]; [|discriminate|discriminate].
  destruct (createVerificationInfo env tok (the_signer_info ts) sig parse_data)
    as [info0| |] eqn:C; cbn [bind]; [|discriminate|discriminate].
  destruct (the_signer_info ts) as [si|]; [|discriminate].
  intros H. exists tok, sig, (Some si), info0.
  split; [reflexivity|split; [reflexivity|split; [exact C|]]].
  set (info1 := if negb (checkTimestampSyntax env tok tst si sig =? GT_OK)
                then add_error info0 GT_SYNTACTIC_CHECK_FAILURE else info0) in H.
  assert (I1 : implicit_data info1 = implicit_data info0
               /\ forall flag, has_flag (verification_errors info0) flag ->
                               has_flag (verification_errors info1) flag).
  { unfold info1. destruct (negb _); split; try reflexivity; try tauto.
    intros flag Hf. apply has_flag_lor. exact Hf. }
  destruct I1 as [I1 F1]. clearbody info1.
  destruct (code_of (checkHashChain env tst si sig)) as [h| |]; cbn [bind] in H;
    [|discriminate H|discriminate H].
  assert (I2 : exists info2,
             (if h =? GT_OK then Ok info1
              else if hashchain_failure h
                   then Ok (add_error info1 GT_HASHCHAIN_VERIFICATION_FAILURE)
                   else Err h) = Ok info2
             /\ implicit_data info2 = implicit_data info1
             /\ forall flag, has_flag (verification_errors info1) flag ->
                             has_flag (verification_errors info2) flag).
  { destruct (h =? GT_OK); [exists info1; repeat split; tauto|].
    destruct (hashchain_failure h); [|cbn [bind] in H; discriminate H].
    eexists. split; [reflexivity|split; [reflexivity|]].
    intros flag Hf. apply has_flag_lor. exact Hf. }
  destruct I2 as (info2 & E2 & I2 & F2). rewrite E2 in H. cbn [bind] in H.
  assert (I3 : implicit_data info = implicit_data info2
               /\ forall flag, has_flag (verification_errors info2) flag ->
                               has_flag (verification_errors info) flag).
  { destruct (pkSignature sig) as [pk|]; [|injection H as <-; tauto].
    match type of H with
    | bind ?r _ = _ => destruct r as [k| |]; cbn [bind] in H;
                         [|discriminate H|discriminate H]
    end.
    destruct (k =? GT_OK); [injection H as <-; tauto|].
    destruct (signature_failure k); [|discriminate H].
    injection H as <-. split; [reflexivity|].
    intros flag Hf. apply has_flag_lor. exact Hf. }
  destruct I3 as [I3 F3].
  split; [congruence|]. intros flag Hf. auto.
Qed.



(** With an eight-byte [time_t] the same identifier is reported as it is. *)
Example registered_time_64 :
  option_map reported_time
    (match GTTimestamp_verify (sample_env 8 5000000000 1) (Some timestamp_extended) 0 true
     with Ok info => Some info | _ => None end)
  = Some (Some 5000000000).
Proof. vm_compute. reflexivity. Qed.

End OrchestratorRuns.

(** ** Extension *)
Section Extension.
Import Extend.

Lemma fresh_timestamp (h : Heap) : timestamps h !! fresh (dom (timestamps h)) = None.
Proof. apply not_elem_of_dom. apply is_fresh. Qed.

Lemma fresh_token (h : Heap) : tokens h !! fresh (dom (tokens h)) = None.
Proof. apply not_elem_of_dom. apply is_fresh. Qed.

(** Updating the timestamp at the new address keeps the memory [built]. *)
Lemma built_store (h : Heap) (a ta : nat) (tok : Token.PKCS7) (h2 : Heap)
    (o : GTTimestamp_st) :
  built h a ta tok h2 -> token o = Some ta ->
  built h a ta tok (store_timestamp h2 a o).
Proof.
  intros (o0 & T & Ts & Tk & O) Ho. exists o.
  unfold store_timestamp. cbn [timestamps tokens out].
  rewrite Ts, insert_insert_eq. repeat split; assumption.
Qed.

Lemma built_lookup (h : Heap) (a ta : nat) (tok : Token.PKCS7) (h2 : Heap) :
  built h a ta tok h2 ->
  (exists o, timestamps h2 !! a = Some o /\ token o = Some ta)
  /\ tokens h2 !! ta = Some tok.
Proof.
  intros (o & T & Ts & Tk & O). split.
  - exists o. rewrite Ts, lookup_insert_eq. split; [reflexivity|exact T].
  - rewrite Tk, lookup_insert_eq. reflexivity.
Qed.

(** The two refreshing functions write to the new timestamp only. *)
Lemma updateTSTInfo_built (env : ExtendEnv) (h : Heap) (a ta : nat)
    (tok : Token.PKCS7) (h2 h3 : Heap) (code : Z) :
  built h a ta tok h2 ->
  GTTimestamp_updateTSTInfo env h2 (Some a) = Some (code, h3) ->
  built h a ta tok h3.
Proof.
  intros B. destruct (built_lookup _ _ _ _ _ B) as ((o & Lo & To) & Lt).
  unfold GTTimestamp_updateTSTInfo. rewrite Lo, To.
  cbn [store_timestamp tokens]. rewrite Lt.
  repeat match goal with
         | |- context [if ?b then _ else _] => destruct b
         end;
    try match goal with
        | |- context [d2i_GTTSTInfo ?e ?x] => destruct (d2i_GTTSTInfo e x)
        end;
    intros H; injection H as <- <-;
    repeat (apply built_store; [|reflexivity]); exact B.
Qed.

Lemma updateTimeSignature_built (env : ExtendEnv) (h : Heap) (a ta : nat)
    (tok : Token.PKCS7) (h2 h3 : Heap) (code : Z) :
  built h a ta tok h2 ->
  GTTimestamp_updateTimeSignature env h2 (Some a) = Some (code, h3) ->
  built h a ta tok h3
  /\ (code = GT_OK ->
      exists o si,
        timestamps h3 !! a = Some o
        /\ Token.PKCS7_get_signer_info tok = Some [si]
        /\ signer_info o = Some 0%nat
        /\ time_signature o = d2i_GTTimeSignature env (Token.enc_digest si)
        /\ is_Some (time_signature o)).
Proof.
  intros B. destruct (built_lookup _ _ _ _ _ B) as ((o & Lo & To) & Lt).
  unfold GTTimestamp_updateTimeSignature. rewrite Lo, To.
  cbn [store_timestamp tokens]. rewrite Lt.
  destruct (negb (Token.type_is_signed tok)).
  { intros H; injection H as <- <-.
    split; [apply built_store; [exact B|reflexivity]|discriminate]. }
  destruct (Token.PKCS7_get_signer_info tok) as [[|si [|si' sis]]|] eqn:S;
    try (intros H; injection H as <- <-;
         split; [apply built_store; [exact B|reflexivity]|discriminate]).
  destruct (negb _ || negb _).
  { intros H; injection H as <- <-.
    split; [repeat (apply built_store; [|reflexivity]); exact B|discriminate]. }
  destruct (d2i_GTTimeSignature env (Token.enc_digest si)) as [sig|] eqn:D.
  - intros H; injection H as <- <-.
    split; [repeat (apply built_store; [|reflexivity]); exact B|].
    intros _. eexists _, si. cbn [store_timestamp timestamps].
    rewrite lookup_insert_eq.
    split; [reflexivity|split; [reflexivity|split; [reflexivity|]]].
    cbn [time_signature]. split; [symmetry; exact D|eexists; reflexivity].
  - intros H; injection H as <- <-.
    split; [repeat (apply built_store; [|reflexivity]); exact B|].
    destruct (time_signature_malloc_failure env); discriminate.
Qed.

(** Freeing the new timestamp gives the memory back as it was. *)
Lemma free_built (h : Heap) (a ta : nat) (tok : Token.PKCS7) (h2 : Heap) :
  timestamps h !! a = None -> tokens h !! ta = None ->
  built h a ta tok h2 -> GTTimestamp_free h2 (Some a) = h.
Proof.
  intros Fa Fta B.
  destruct (built_lookup _ _ _ _ _ B) as ((o & Lo & To) & _).
  destruct B as (o' & _ & Ts & Tk & O).
  unfold GTTimestamp_free. rewrite Lo, To, Ts, Tk, O.
  rewrite !delete_insert_id by assumption. destruct h; reflexivity.
Qed.

(** An error of the first part is not [GT_OK]. *)
Lemma extended_time_signature_code (env : ExtendEnv) (sig : Token.GTTimeSignature)
    (response : list Z) (response_length res : Z) :
  extended_time_signature env sig response response_length = Err res ->
  res <> GT_OK.
Proof.
  unfold extended_time_signature. intros H.
  destruct (d2i_GTCertTokenResponse env response response_length) as [resp|];
    cbn [from_option bind] in H.
  2:{ injection H as <-. destruct (response_malloc_failure env); intros E; discriminate E. }
  destruct (call (GT_analyseResponseStatus env (status resp), ())) eqn:E1;
    cbn [bind] in H;
    [|injection H as <-; eapply call_code; exact E1|discriminate H].
  destruct (certToken resp) as [ct|]; cbn [from_option bind] in H;
    [|injection H as <-; intros E; discriminate E].
  destruct (ct_version ct =? 1); cbn [require bind] in H;
    [|injection H as <-; intros E; discriminate E].
  destruct (call (GT_checkUnhandledExtensions env (ct_extensions ct), ())) eqn:E2;
    cbn [bind] in H;
    [|injection H as <-; eapply call_code; exact E2|discriminate H].
  destruct (call (GT_extendConsistencyCheck env sig ct, ())) eqn:E3;
    cbn [bind] in H;
    [|injection H as <-; eapply call_code; exact E3|discriminate H].
  eapply call_code. exact H.
Qed.

(** The second part either fails before anything but the empty timestamp
    exists, or leaves the new timestamp with its own token. *)
Lemma build_spec (env : ExtendEnv) (h : Heap) (a : nat) (in_token : Token.PKCS7)
    (ets : Token.GTTimeSignature) (o0 : GTTimestamp_st) (code : Z) (h2 : Heap) :
  build env (store_timestamp h a o0) a in_token ets = Some (code, h2) ->
  let ta := fresh (dom (tokens h)) in
  (code <> GT_OK /\ h2 = store_timestamp h a o0)
  \/ (exists tok,
        built h a ta tok h2
        /\ (code = GT_OK ->
            exists si sis packed o,
              Token.PKCS7_get_signer_info in_token = Some (si :: sis)
              /\ ASN1_item_pack env ets = Some packed
              /\ tok = spliced in_token (si :: sis) si packed
              /\ timestamps h2 !! a = Some o
              /\ token o = Some ta
              /\ time_signature o = d2i_GTTimeSignature env packed
              /\ is_Some (time_signature o))).
Proof.
  intros H ta. unfold build in H.
  destruct (negb (PKCS7_dup env)).
  { injection H as <- <-. left. split; [intros E; discriminate E|reflexivity]. }
  right.
  change (fresh (dom (tokens (store_timestamp h a o0)))) with ta in H.
  set (h' := store_timestamp (store_token (store_timestamp h a o0) ta in_token) a
               {| token := Some ta; tst_info := None; signer_info := None;
                  time_signature := None |}) in H.
  assert (B0 : built h a ta in_token h').
  { exists {| token := Some ta; tst_info := None; signer_info := None;
               time_signature := None |}.
    split; [reflexivity|]. unfold h'. cbn [store_timestamp store_token
      timestamps tokens out]. rewrite insert_insert_eq. repeat split. }
  destruct (Token.PKCS7_get_signer_info in_token) as [[|si sis]|] eqn:S;
    try discriminate H.
  destruct (ASN1_item_pack env ets) as [packed|] eqn:P.
  2:{ injection H as <- <-. exists in_token. split; [exact B0|].
      destruct (pack_malloc_failure env); intros E; discriminate E. }
  set (tok := spliced in_token (si :: sis) si packed) in H.
  assert (B1 : built h a ta tok (store_token h' ta tok)).
  { destruct B0 as (o & T & Ts & Tk & O). exists o.
    unfold store_token. cbn [timestamps tokens out].
    rewrite Tk, insert_insert_eq. repeat split; assumption. }
  exists tok.
  destruct (GTTimestamp_updateTSTInfo env (store_token h' ta tok) (Some a))
    as [[r1 h3]|] eqn:U1; [|discriminate H].
  pose proof (updateTSTInfo_built _ _ _ _ _ _ _ _ B1 U1) as B2.
  destruct (negb (r1 =? GT_OK)) eqn:N1.
  { injection H as <- <-. split; [exact B2|].
    intros ->. discriminate N1. }
  destruct (GTTimestamp_updateTimeSignature env h3 (Some a))
    as [[r2 h4]|] eqn:U2; [|discriminate H].
  destruct (updateTimeSignature_built _ _ _ _ _ _ _ _ B2 U2) as [B3 F].
  destruct (negb (r2 =? GT_OK)) eqn:N2.
  { injection H as <- <-. split; [exact B3|].
    intros ->. discriminate N2. }
  injection H as <- <-. split; [exact B3|].
  intros _.
  apply negb_false_iff, Z.eqb_eq in N2.
  destruct (F N2) as (o & si' & Lo & Sg & _ & Ts & Is).
  exists si, sis, packed, o.
  split; [reflexivity|split; [reflexivity|split; [reflexivity|split; [exact Lo|]]]].
  destruct (built_lookup _ _ _ _ _ B3) as ((o' & Lo' & To') & _).
  rewrite Lo in Lo'. injection Lo' as <-.
  split; [exact To'|].
  assert (E : Token.enc_digest si' = packed).
  { unfold tok, spliced, Token.PKCS7_get_signer_info in Sg.
    cbn [Token.type_is_signed Token.signer_info_stack] in Sg.
    unfold Token.PKCS7_get_signer_info in S.
    destruct (Token.type_is_signed in_token); [|discriminate S].
    cbn in Sg. injection Sg as <- _. reflexivity. }
  rewrite <- E. split; assumption.
Qed.

(** C8. [GTTimestamp_createExtendedTimestamp] is transactional.  Whatever
    it returns, every timestamp and token that was allocated before the
    call is the same afterwards, the input among them.  When it returns
    [GT_OK], the caller's variable holds the address of a timestamp that
    did not exist before, whose token is a new object: the duplicate of the
    input's token with the packed new time signature in its signer info and
    without certificates.  When it returns anything else, the memory is
    exactly what it was: nothing is stored and nothing is left behind. *)
Theorem createExtendedTimestamp_transactional (env : ExtendEnv) (h h' : Heap)
    (timestamp : option nat) (response : option (list Z)) (response_length : Z)
    (extended_timestamp : bool) (code : Z) :
  GTTimestamp_createExtendedTimestamp env h timestamp response response_length
    extended_timestamp = Some (code, h') ->
  (forall a o, timestamps h !! a = Some o -> timestamps h' !! a = Some o)
  /\ (forall a t, tokens h !! a = Some t -> tokens h' !! a = Some t)
  /\ ((code <> GT_OK /\ h' = h)
      \/ (code = GT_OK /\ extended env h h' timestamp response response_length)).
Proof.
  unfold GTTimestamp_createExtendedTimestamp. intros H.
  assert (Same : forall c, c <> GT_OK ->
            Some (c, h) = Some (code, h') ->
            (forall a o, timestamps h !! a = Some o -> timestamps h' !! a = Some o)
            /\ (forall a t, tokens h !! a = Some t -> tokens h' !! a = Some t)
            /\ ((code <> GT_OK /\ h' = h)
                \/ (code = GT_OK
                    /\ extended env h h' timestamp response response_length))).
  { intros c Hc E. injection E as <- <-.
    split; [tauto|split; [tauto|left; split; [exact Hc|reflexivity]]]. }
  destruct timestamp as [a_in|]; [|apply (Same GT_INVALID_ARGUMENT); [intros E; discriminate E|exact H]].
  destruct (timestamps h !! a_in) as [o_in|] eqn:Lin; [|discriminate H].
  destruct (token o_in) as [ta_in|] eqn:Tin;
    [|apply (Same GT_INVALID_ARGUMENT); [intros E; discriminate E|exact H]].
  destruct (tst_info o_in) as [tst|];
    [|apply (Same GT_INVALID_ARGUMENT); [intros E; discriminate E|exact H]].
  destruct (time_signature o_in) as [sig|] eqn:Sin;
    [|apply (Same GT_INVALID_ARGUMENT); [intros E; discriminate E|exact H]].
  destruct response as [resp|];
    [|apply (Same GT_INVALID_ARGUMENT); [intros E; discriminate E|exact H]].
  destruct ((response_length =? 0) || negb extended_timestamp);
    [apply (Same GT_INVALID_ARGUMENT); [intros E; discriminate E|exact H]|].
  destruct (extended_time_signature env sig resp response_length)
    as [ets|res|] eqn:X; [| |discriminate H].
  2:{ apply (Same res); [|exact H]. eapply extended_time_signature_code. exact X. }
  destruct (negb (GT_malloc_timestamp env));
    [apply (Same GT_OUT_OF_MEMORY); [intros E; discriminate E|exact H]|].
  destruct (tokens h !! ta_in) as [in_token|] eqn:Lt; [|discriminate H].
  set (a := fresh (dom (timestamps h))) in H.
  set (o0 := {| token := None; tst_info := None; signer_info := None;
                time_signature := None |}) in H.
  pose proof (fresh_timestamp h) as Fa. fold a in Fa.
  pose proof (fresh_token h) as Fta.
  destruct (build env (store_timestamp h a o0) a in_token ets) as [[res h2]|] eqn:Bd;
    [|discriminate H].
  destruct (build_spec _ _ _ _ _ _ _ _ Bd) as [[Hne ->]|(tok & B & Fin)].
  - (* the duplicate could not be allocated *)
    rewrite (proj2 (Z.eqb_neq res GT_OK) Hne) in H.
    apply (Same res); [exact Hne|].
    rewrite <- H. f_equal. f_equal.
    unfold GTTimestamp_free, store_timestamp. cbn [timestamps tokens out].
    rewrite lookup_insert_eq. cbn [token o0].
    rewrite delete_insert_id by exact Fa. destruct h; reflexivity.
  - destruct (res =? GT_OK) eqn:R.
    + (* success *)
      apply Z.eqb_eq in R. subst res. injection H as <- <-.
      destruct (Fin eq_refl) as (si & sis & packed & new & S & P & -> & Ln & Tn & Ts & Is).
      destruct B as (o & To & Bts & Btk & Bo).
      unfold extended. unfold store_out. cbn [timestamps tokens out].
      split; [|split].
      * intros a' o' L. rewrite Bts.
        rewrite lookup_insert_ne; [exact L|]. intros ->. congruence.
      * intros a' t' L. rewrite Btk.
        rewrite lookup_insert_ne; [exact L|]. intros <-. congruence.
      * right. split; [reflexivity|].
        exists a_in, o_in, ta_in, in_token, sig, resp, ets, a,
               (fresh (dom (tokens h))), new, si, sis, packed.
        repeat split; try assumption; try reflexivity.
        rewrite Btk, lookup_insert_eq. reflexivity.
    + (* a failure after the duplicate was made *)
      apply Z.eqb_neq in R.
      apply (Same res); [exact R|].
      rewrite <- H. f_equal. f_equal. symmetry.
      eapply free_built; eassumption.
Qed.

Lemma createExtendedTimestamp_transactional_witness :
  let h' := heap_of (GTTimestamp_createExtendedTimestamp sample_extend_env sample_heap
                       (Some 0%nat) (Some [1; 2; 3]) 3 true) sample_heap in
  GTTimestamp_createExtendedTimestamp sample_extend_env sample_heap
    (Some 0%nat) (Some [1; 2; 3]) 3 true = Some (GT_OK, h')
  /\ (forall a o, timestamps sample_heap !! a = Some o -> timestamps h' !! a = Some o)
  /\ extended sample_extend_env sample_heap h' (Some 0%nat) (Some [1; 2; 3]) 3.
Proof.
  intros h'.
  assert (E : GTTimestamp_createExtendedTimestamp sample_extend_env sample_heap
                (Some 0%nat) (Some [1; 2; 3]) 3 true = Some (GT_OK, h'))
    by (vm_compute; reflexivity).
  destruct (createExtendedTimestamp_transactional _ _ _ _ _ _ _ _ E)
    as (F1 & _ & [[Hne _]|[_ Hext]]).
  - exfalso. apply Hne. reflexivity.
  - split; [exact E|split; [exact F1|exact Hext]].
Defined.

(** A failure after the duplicate has been made and changed: the error is
    returned and the memory is what it was. *)
Example createExtendedTimestamp_failure :
  GTTimestamp_createExtendedTimestamp failing_extend_env sample_heap
    (Some 0%nat) (Some [1; 2; 3]) 3 true
  = Some (GT_INVALID_FORMAT, sample_heap).
Proof. vm_compute. reflexivity. Qed.

End Extension.

(** * Further properties *)

Section Base32Codec.
Import Base32.

Lemma window_ok_all :
  forallb (fun r => forallb (fun b1 => forallb (fun b2 => window_ok r b1 b2)
                                              (seqZ 0 256)) (seqZ 0 256)) (seqZ 0 8) = true.
Proof. vm_compute. reflexivity. Qed.

Lemma window_ok_at (r b1 b2 : Z) :
  0 <= r < 8 -> is_byte b1 -> is_byte b2 -> window_ok r b1 b2 = true.
Proof.
  intros Hr H1 H2.
  pose proof window_ok_all as H.
  rewrite forallb_seqZ in H. specialize (H r ltac:(lia)). cbv beta in H.
  rewrite forallb_seqZ in H. specialize (H b1 ltac:(unfold is_byte in *; lia)). cbv beta in H.
  rewrite forallb_seqZ in H. apply H. unfold is_byte in *; lia.
Qed.

Lemma rd_byte (data : list Z) (j : Z) : Forall is_byte data -> is_byte (rd data j).
Proof.
  intros H. unfold rd. destruct (j <? 0); [unfold is_byte; lia|].
  destruct (data !! Z.to_nat j) as [b|] eqn:E; cbn [default].
  - rewrite Forall_forall in H. apply H.
    eapply list_elem_of_lookup_2. exact E.
  - unfold is_byte; lia.
Qed.

Lemma rd_out (data : list Z) (j : Z) : Z.of_nat (List.length data) <= j -> rd data j = 0.
Proof.
  intros H. unfold rd. destruct (j <? 0); [reflexivity|].
  rewrite lookup_ge_None_2 by lia. reflexivity.
Qed.

Lemma readNextBits_window (data : list Z) (t : Z) :
  0 <= t -> Z.quot t 8 < Z.of_nat (List.length data) ->
  readNextBits data (Z.of_nat (List.length data)) t
  = window_read (Z.rem t 8) (rd data (Z.quot t 8)) (rd data (Z.quot t 8 + 1)).
Proof.
  intros Ht Hq. unfold readNextBits, window_read.
  rewrite geb_false by lia.
  replace (t - Z.quot t 8 * 8) with (Z.rem t 8)
    by (pose proof (Z.quot_rem' t 8); lia).
  destruct (Z.quot t 8 + 1 <? Z.of_nat (List.length data)) eqn:E; [reflexivity|].
  rewrite (rd_out data (Z.quot t 8 + 1)) by lia.
  destruct (_ <? 5); [|reflexivity].
  rewrite Z.land_0_l, Z.shiftr_0_l, Z.lor_0_r. reflexivity.
Qed.

Lemma addBits_parts (buf : list Z) (t v : Z) :
  0 <= t -> 0 <= v ->
  addBits buf t v
  = (if Z.rem t 8 <=? 3 then or_byte buf (Z.quot t 8) (first_part (Z.rem t 8) v)
     else or_byte (or_byte buf (Z.quot t 8) (first_part (Z.rem t 8) v))
                  (Z.quot t 8 + 1) (second_part (Z.rem t 8) v),
     t + 5).
Proof.
  intros Ht Hv. unfold addBits.
  rewrite (proj2 (Z.ltb_ge v 0)) by lia.
  destruct (rem8_cases t Ht) as [E|[E|[E|[E|[E|[E|[E|E]]]]]]];
    rewrite E; unfold first_part, second_part;
    match goal with
    | |- context [if 8 - ?k >? 5 then 5 else 8 - ?k] =>
        let w := eval vm_compute in (if 8 - k >? 5 then 5 else 8 - k) in
        change (if 8 - k >? 5 then 5 else 8 - k) with w
    end;
    match goal with
    | |- context [?a <? 5] =>
        let w := eval vm_compute in (a <? 5) in change (a <? 5) with w
    end;
    match goal with
    | |- context [?a <=? 3] =>
        let w := eval vm_compute in (a <=? 3) in change (a <=? 3) with w
    end;
    cbv iota; f_equal; lia.
Qed.

Lemma rd_wr_eq (l : list Z) (i v : Z) :
  0 <= i < Z.of_nat (List.length l) -> rd (wr l i v) i = v.
Proof.
  intros Hi. unfold rd, wr. rewrite (proj2 (Z.ltb_ge i 0)) by lia.
  rewrite list_lookup_insert_eq by lia. reflexivity.
Qed.

Lemma length_wr (l : list Z) (i v : Z) : List.length (wr l i v) = List.length l.
Proof. unfold wr. destruct (i <? 0); [reflexivity|]. apply length_insert. Qed.

Lemma length_or_byte (l : list Z) (i v : Z) : List.length (or_byte l i v) = List.length l.
Proof. apply length_wr. Qed.

Lemma rd_or_byte_eq (l : list Z) (i v : Z) :
  0 <= i < Z.of_nat (List.length l) ->
  rd (or_byte l i v) i = to_uchar (Z.lor (rd l i) v).
Proof. intros Hi. unfold or_byte. apply rd_wr_eq. exact Hi. Qed.

Lemma rd_or_byte_ne (l : list Z) (i j v : Z) :
  0 <= j -> i <> j -> rd (or_byte l i v) j = rd l j.
Proof. intros Hj Hij. unfold or_byte. apply rd_wr_ne; assumption. Qed.

Lemma clear_low_all (b k : Z) : is_byte b -> 8 <= k -> clear_low b k = 0.
Proof.
  intros Hb Hk. unfold clear_low.
  rewrite Z.shiftr_div_pow2 by lia.
  rewrite Z.div_small; [apply Z.shiftl_0_l|].
  unfold is_byte in Hb. split; [lia|].
  apply Z.lt_le_trans with (2 ^ 8); [lia|].
  apply Z.pow_le_mono_r; lia.
Qed.

Lemma clear_low_0 (b : Z) : clear_low b 0 = b.
Proof. unfold clear_low. rewrite Z.shiftr_0_r, Z.shiftl_0_r. reflexivity. Qed.

(** One symbol: what the encoder reads at bit [t] is what the decoder needs
    to extend the first [t] bits of the data by five. *)
Lemma addBits_readNextBits (data buf : list Z) (t : Z) :
  Forall is_byte data ->
  0 <= t -> Z.quot t 8 < Z.of_nat (List.length data) ->
  Z.quot t 8 + 1 < Z.of_nat (List.length buf) ->
  holds data t buf ->
  let v := readNextBits data (Z.of_nat (List.length data)) t in
  0 <= v < 32
  /\ snd (addBits buf t v) = t + 5
  /\ List.length (fst (addBits buf t v)) = List.length buf
  /\ holds data (t + 5) (fst (addBits buf t v)).
Proof.
  intros Hd Ht Hq Hl Hh v.
  pose proof (Z.quot_rem' t 8) as Hqr.
  assert (Hr : 0 <= Z.rem t 8 < 8).
  { rewrite Z.rem_mod_nonneg by lia. apply Z.mod_pos_bound. lia. }
  assert (Hq0 : 0 <= Z.quot t 8) by (apply Z.quot_pos; lia).
  set (r := Z.rem t 8) in *. set (q := Z.quot t 8) in *.
  pose proof (window_ok_at r (rd data q) (rd data (q + 1)) Hr
                (rd_byte data q Hd) (rd_byte data (q + 1) Hd)) as W.
  unfold window_ok in W.
  assert (Ev : v = window_read r (rd data q) (rd data (q + 1))).
  { subst v. apply readNextBits_window; assumption. }
  rewrite <- Ev in W.
  apply andb_prop in W. destruct W as [W W2].
  apply andb_prop in W. destruct W as [W W1].
  apply andb_prop in W. destruct W as [Wa Wb].
  apply Z.leb_le in Wa. apply Z.ltb_lt in Wb. apply Z.eqb_eq in W1.
  split; [lia|].
  rewrite addBits_parts by lia. fold r q. cbn [fst snd].
  split; [reflexivity|].
  assert (K1 : rd buf q = clear_low (rd data q) (8 - r)).
  { rewrite Hh by lia. unfold kept.
    destruct (8 * (q + 1) <=? t) eqn:E1; [apply Z.leb_le in E1; lia|].
    destruct (t <=? 8 * q) eqn:E2.
    - apply Z.leb_le in E2. symmetry. apply clear_low_all; [apply rd_byte; exact Hd|lia].
    - f_equal. lia. }
  assert (K2 : rd buf (q + 1) = 0).
  { rewrite Hh by lia. unfold kept.
    destruct (8 * (q + 1 + 1) <=? t) eqn:E1; [apply Z.leb_le in E1; lia|].
    destruct (t <=? 8 * (q + 1)) eqn:E2; [reflexivity|apply Z.leb_gt in E2; lia]. }
  destruct (r <=? 3) eqn:R3.
  - apply Z.leb_le in R3. split; [apply length_or_byte|].
    intros j Hj. rewrite length_or_byte in Hj.
    destruct (Z.eq_dec j q) as [->|Hne].
    + rewrite rd_or_byte_eq by lia. rewrite K1, W1.
      unfold kept.
      destruct (r + 5 >=? 8) eqn:E; rewrite Z.geb_leb in E.
      * apply Z.leb_le in E. rewrite (proj2 (Z.leb_le _ _)) by lia. reflexivity.
      * apply Z.leb_gt in E. rewrite (proj2 (Z.leb_gt _ _)) by lia.
        rewrite (proj2 (Z.leb_gt _ _)) by lia. f_equal. lia.
    + rewrite rd_or_byte_ne by lia. rewrite Hh by lia. unfold kept.
      destruct (Z_lt_le_dec j q).
      * rewrite !(proj2 (Z.leb_le (8 * (j + 1)) _)) by lia. reflexivity.
      * rewrite !(proj2 (Z.leb_gt (8 * (j + 1)) _)) by lia.
        rewrite !(proj2 (Z.leb_le _ (8 * j))) by lia. reflexivity.
  - apply Z.leb_gt in R3. cbn [orb] in W2. apply Z.eqb_eq in W2.
    split; [rewrite !length_or_byte; reflexivity|].
    intros j Hj. rewrite !length_or_byte in Hj.
    destruct (Z.eq_dec j (q + 1)) as [->|Hne1].
    + rewrite rd_or_byte_eq by (rewrite length_or_byte; lia).
      rewrite rd_or_byte_ne by lia. rewrite K2, W2. unfold kept.
      rewrite (proj2 (Z.leb_gt _ _)) by lia.
      rewrite (proj2 (Z.leb_gt _ _)) by lia. f_equal. lia.
    + rewrite rd_or_byte_ne by lia.
      destruct (Z.eq_dec j q) as [->|Hne].
      * rewrite rd_or_byte_eq by lia. rewrite K1, W1. unfold kept.
        rewrite (proj2 (Z.geb_le _ _)) by lia.
        rewrite (proj2 (Z.leb_le _ _)) by lia. reflexivity.
      * rewrite rd_or_byte_ne by lia. rewrite Hh by lia. unfold kept.
        destruct (Z_lt_le_dec j q).
        -- rewrite !(proj2 (Z.leb_le (8 * (j + 1)) _)) by lia. reflexivity.
        -- rewrite !(proj2 (Z.leb_gt (8 * (j + 1)) _)) by lia.
           rewrite !(proj2 (Z.leb_le _ (8 * j))) by lia. reflexivity.
Qed.

Lemma codes_chars (l : list ascii) : Location.codes (string_of_list_ascii l) = chars l.
Proof. unfold Location.codes, chars. rewrite list_ascii_of_string_of_list_ascii. reflexivity. Qed.

Lemma chars_app (a b : list ascii) : chars (a ++ b) = chars a ++ chars b.
Proof. apply map_app. Qed.

Lemma decode_table_char (v : Z) (buf : list Z) (t : Z) :
  0 <= v < 32 ->
  decode_char (Z.of_N (N_of_ascii (table_char v))) (buf, t) = Some (addBits buf t v)
  /\ Z.of_N (N_of_ascii (table_char v)) <> 61
  /\ Z.of_N (N_of_ascii (table_char v)) <> 0.
Proof.
  intros Hv.
  assert (E : In v (seqZ 0 32)).
  { apply list_elem_of_In. apply elem_of_seqZ. lia. }
  vm_compute in E.
  repeat (destruct E as [<-|E]; [repeat split; (reflexivity || discriminate)|]).
  destruct E.
Qed.

Lemma decode_loop_app (a b : list Z) :
  forall st, Forall plain a -> decode_loop (a ++ b) st = decode_loop b (decode_loop a st).
Proof.
  induction a as [|c a IH]; intros st Ha; [reflexivity|].
  apply Forall_cons in Ha. destruct Ha as [[Hc _] Ha].
  cbn [app decode_loop].
  destruct (decode_char c st) as [st'|] eqn:E.
  - apply IH. exact Ha.
  - exfalso. unfold decode_char in E. destruct st as [buf n].
    rewrite (proj2 (Z.eqb_neq c 61) Hc) in E.
    destruct (isdigit c); [discriminate|].
    destruct (is_upper c || is_lower c); discriminate.
Qed.

Lemma plain_rev (ret : list ascii) :
  Forall plain (chars ret) -> Forall plain (chars (rev ret)).
Proof.
  intros H. unfold chars in *. rewrite map_rev. apply List.Forall_rev. exact H.
Qed.

Section RoundTrip.
Variable data : list Z.
Variable L : nat.
Variable group_len : Z.
Hypothesis data_bytes : Forall is_byte data.
Hypothesis L_large : Z.of_nat (List.length data) < Z.of_nat L.

Let n := Z.of_nat (List.length data).

Lemma decodes_to_start : decodes_to data L 0 [] (replicate L 0).
Proof.
  unfold decodes_to. repeat split; try (cbn; lia).
  - constructor.
  - apply length_replicate.
  - intros j Hj. unfold kept.
    rewrite (proj2 (Z.leb_gt _ _)) by lia.
    rewrite (proj2 (Z.leb_le _ _)) by lia.
    unfold rd. destruct (j <? 0); [reflexivity|].
    rewrite length_replicate in Hj.
    rewrite lookup_replicate_2 by lia. reflexivity.
Qed.

Lemma encode_loop_decodes (fuel : nat) :
  forall t ret buf,
    decodes_to data L t ret buf ->
    exists buf',
      decodes_to data L (fst (encode_loop fuel data n group_len t ret))
                 (snd (encode_loop fuel data n group_len t ret)) buf'.
Proof.
  induction fuel as [|fuel IH]; intros t ret buf H; cbn [encode_loop].
  - exists buf. exact H.
  - destruct (readNextBits data n t =? -1) eqn:E.
    + exists buf. exact H.
    + apply Z.eqb_neq in E.
      destruct H as (Hp & Hd & Hlen & Hh & Ht & Hn).
      assert (Hq : Z.quot t 8 < n).
      { destruct (Z_lt_le_dec (Z.quot t 8) n) as [|Hge]; [assumption|].
        exfalso. apply E. apply readNextBits_end. exact Hge. }
      destruct (addBits_readNextBits data buf t data_bytes ltac:(lia) Hq
                  ltac:(lia) Hh) as (Hv & Hs & Hl' & Hh').
      fold n in Hv, Hs, Hl', Hh'.
      set (v := readNextBits data n t) in *.
      destruct (decode_table_char v buf t Hv) as (Dc & D61 & D0).
      assert (Q : t < 8 * n).
      { pose proof (Z.quot_rem' t 8) as Hqr.
        pose proof (Z.rem_bound_pos t 8 ltac:(lia) ltac:(lia)). lia. }
      assert (Step : decodes_to data L (t + 5) (push (table_char v) ret) (fst (addBits buf t v))).
      { unfold decodes_to, push. repeat split.
        - cbn [chars map]. constructor; [split; assumption|exact Hp].
        - cbn [rev]. rewrite chars_app. rewrite decode_loop_app.
          + rewrite Hd. cbn [chars map decode_loop]. rewrite Dc.
            rewrite <- Hs. destruct (addBits buf t v); reflexivity.
          + apply plain_rev. exact Hp.
        - rewrite Hl'. exact Hlen.
        - exact Hh'.
        - lia.
        - cbn [List.length]. lia.
        - lia. }
      match goal with
      | |- context [if ?c then _ else _] => destruct c
      end.
      * eapply IH.
        destruct Step as (Sp & Sd & Slen & Sh & St & Sn).
        unfold decodes_to, push. repeat split.
        -- cbn [chars map]. constructor; [split; discriminate|exact Sp].
        -- cbn [rev]. rewrite chars_app. rewrite decode_loop_app.
           ++ unfold push in Sd. cbn [rev] in Sd. rewrite Sd. reflexivity.
           ++ apply (plain_rev (table_char v :: ret)). exact Sp.
        -- exact Slen.
        -- exact Sh.
        -- lia.
        -- unfold push in St. cbn [List.length] in *. lia.
        -- lia.
      * eapply IH. exact Step.
Qed.
End RoundTrip.

Lemma pad_loop_shape (fuel : nat) (group_len : Z) :
  forall t ret,
    exists l, snd (pad_loop fuel group_len t ret) = l ++ ret
      /\ Forall (fun c => c <> 0) (chars l)
      /\ (l = [] \/ exists l', l = l' ++ ["="%char]).
Proof.
  induction fuel as [|fuel IH]; intros t ret; cbn [pad_loop].
  - exists []. repeat split; [constructor|left; reflexivity].
  - destruct (Z.rem t 40 =? 0).
    + exists []. repeat split; [constructor|left; reflexivity].
    + match goal with
      | |- context [pad_loop fuel _ ?b ?r] => destruct (IH b r) as (l & Hl & Hz & Hs)
      end.
      rewrite Hl.
      match goal with
      | |- context [if ?c then _ else _] => destruct c
      end; unfold push.
      * exists (l ++ ["-"%char; "="%char]). rewrite <- app_assoc. split; [reflexivity|].
        split.
        -- rewrite chars_app. apply Forall_app. split; [exact Hz|].
           repeat constructor; discriminate.
        -- right. exists (l ++ ["-"%char]). rewrite <- app_assoc. reflexivity.
      * exists (l ++ ["="%char]). rewrite <- app_assoc. split; [reflexivity|].
        split.
        -- rewrite chars_app. apply Forall_app. split; [exact Hz|].
           repeat constructor; discriminate.
        -- right. exists l. reflexivity.
Qed.

Lemma rd_lookup (l : list Z) (i : nat) :
  (i < List.length l)%nat -> l !! i = Some (rd l (Z.of_nat i)).
Proof.
  intros Hi. unfold rd. rewrite (proj2 (Z.ltb_ge _ 0)) by lia.
  rewrite Nat2Z.id.
  destruct (l !! i) eqn:E; [reflexivity|].
  apply lookup_ge_None in E. lia.
Qed.

Lemma holds_full (data buf : list Z) (t : Z) :
  holds data t buf ->
  8 * Z.of_nat (List.length data) <= t ->
  (List.length data <= List.length buf)%nat ->
  take (List.length data) buf = data.
Proof.
  intros Hh Ht Hl. apply list_eq. intros i.
  destruct (Nat.lt_ge_cases i (List.length data)) as [Hi|Hi].
  - rewrite lookup_take_lt by lia.
    rewrite rd_lookup by lia. rewrite (rd_lookup data) by lia.
    rewrite Hh by lia. unfold kept.
    rewrite (proj2 (Z.leb_le _ _)) by lia. reflexivity.
  - rewrite lookup_take_ge by lia. symmetry. apply lookup_ge_None. lia.
Qed.

Lemma strlen_nonzero (s rest : list Z) :
  Forall (fun c => c <> 0) s -> strlen (s ++ 0 :: rest) = Z.of_nat (List.length s).
Proof.
  induction s as [|c s IH]; intros H; [reflexivity|].
  apply Forall_cons in H. destruct H as [Hc H].
  cbn [app strlen List.length]. rewrite (proj2 (Z.eqb_neq c 0) Hc).
  rewrite IH by exact H. lia.
Qed.

Lemma decode_loop_stop (l : list Z) (st : list Z * Z) :
  l = [] \/ (exists l', l = 61 :: l') -> decode_loop l st = st.
Proof.
  intros [->|[l' ->]]; [reflexivity|].
  cbn [decode_loop]. destruct st. reflexivity.
Qed.

(** What decoding needs to know about the text of the encoder. *)
Lemma encoded_text (data : list Z) (group_len : Z) (L : nat) :
  Forall is_byte data ->
  Z.of_nat (List.length data) < Z.of_nat L ->
  exists e buf t,
    GT_base32Encode true data group_len = Some e
    /\ Forall (fun c => c <> 0) (Location.codes (text e))
    /\ decode_loop (Location.codes (text e)) (replicate L 0, 0) = (buf, t)
    /\ Z.quot t 8 = Z.of_nat (List.length data)
    /\ take (List.length data) buf = data
    /\ 8 * Z.of_nat (List.length data)
       <= 5 * Z.of_nat (List.length (Location.codes (text e))).
Proof.
  intros Hd HL. unfold GT_base32Encode. cbn [negb].
  set (n := Z.of_nat (List.length data)).
  pose proof (GT_base32Encode_loop_ends data group_len) as Hend.
  cbv zeta in Hend. fold n in Hend.
  destruct (encode_loop_decodes data L group_len Hd HL (S (Z.to_nat (n * 8))) 0 [] (replicate L 0)
              (decodes_to_start data L HL)) as (buf & Hdec).
  fold n in Hdec.
  destruct (encode_loop (S (Z.to_nat (n * 8))) data n group_len 0 []) as [t1 ret1].
  cbn [fst snd] in Hend, Hdec.
  destruct Hdec as (Hp & Hdl & Hlen & Hh & Ht & Hn).
  apply readNextBits_end in Hend.
  destruct (pad_loop_shape 8 group_len t1 ret1) as (l & Hl & Hz & Hs).
  destruct (pad_loop 8 group_len t1 ret1) as [t2 ret2]. cbn [snd] in Hl. subst ret2.
  eexists _, buf, t1. split; [reflexivity|]. cbn [text].
  rewrite codes_chars, rev_app_distr, chars_app.
  assert (Q : 8 * n <= t1 /\ Z.quot t1 8 = n).
  { pose proof (Z.quot_rem' t1 8) as Hqr.
    pose proof (Z.rem_bound_pos t1 8 ltac:(lia) ltac:(lia)). fold n in Hn. lia. }
  repeat split.
  - apply Forall_app. split.
    + eapply Forall_impl; [apply plain_rev; exact Hp|]. intros c [_ Hc]. exact Hc.
    + unfold chars in *. rewrite map_rev. apply List.Forall_rev. exact Hz.
  - rewrite decode_loop_app by (apply plain_rev; exact Hp).
    rewrite Hdl. apply decode_loop_stop.
    destruct Hs as [->|[l' ->]]; [left; reflexivity|right].
    rewrite rev_app_distr. cbn [rev app chars map]. eexists. reflexivity.
  - apply Q.
  - eapply holds_full; [exact Hh|fold n; lia|lia].
  - rewrite length_app. unfold chars at 1. rewrite length_map, length_rev.
    fold n. lia.
Qed.

Lemma decode_encoded (data : list Z) (group_len : Z) (e : Encoded) (s : list Z) (len : Z) :
  Forall is_byte data ->
  GT_base32Encode true data group_len = Some e ->
  (if len <? 0 then strlen s else len)
  = Z.of_nat (List.length (Location.codes (text e))) ->
  take (List.length (Location.codes (text e))) s = Location.codes (text e) ->
  decoded_bytes (GT_base32Decode true s len) = Some data.
Proof.
  intros Hd He Hlen Htake.
  set (m := Z.of_nat (List.length (Location.codes (text e)))) in *.
  destruct (encoded_text data group_len (S (List.length data)) Hd ltac:(lia))
    as (e0 & buf0 & t0 & He0 & _ & _ & _ & _ & Hm).
  rewrite He in He0. injection He0 as <-. fold m in Hm.
  set (L := Z.to_nat (Z.quot (m * 5) 8 + 2)).
  assert (HL : Z.of_nat (List.length data) < Z.of_nat L).
  { subst L. assert (Z.of_nat (List.length data) <= Z.quot (m * 5) 8).
    { apply Z.quot_le_lower_bound; lia. }
    lia. }
  destruct (encoded_text data group_len L Hd HL)
    as (e1 & buf & t & He1 & _ & Hdec & Hq & Htk & _).
  rewrite He in He1. injection He1 as <-.
  unfold GT_base32Decode. rewrite Hlen. cbn [negb]. fold L.
  unfold m. rewrite Nat2Z.id. rewrite Htake, Hdec.
  cbn [decoded_bytes]. rewrite Hq, Nat2Z.id, Htk. reflexivity.
Qed.



Lemma mod_succ (a m : Z) :
  0 <= a -> 0 < m ->
  (a + 1) mod m = if a mod m =? m - 1 then 0 else a mod m + 1.
Proof.
  intros Ha Hm.
  pose proof (Z.div_mod a m ltac:(lia)) as Hd.
  pose proof (Z.mod_pos_bound a m Hm) as Hb.
  destruct (a mod m =? m - 1) eqn:E.
  - apply Z.eqb_eq in E. symmetry.
    apply (Z.mod_unique_pos _ _ (a / m + 1)); [lia|]. nia.
  - apply Z.eqb_neq in E. symmetry.
    apply (Z.mod_unique_pos _ _ (a / m)); [lia|]. nia.
Qed.

Lemma ret_len_push (a : ascii) (ret : list ascii) : ret_len (push a ret) = ret_len ret + 1.
Proof. unfold ret_len, push. cbn [List.length]. lia. Qed.

Lemma ret_len_nonneg (ret : list ascii) : 0 <= ret_len ret.
Proof. unfold ret_len. lia. Qed.

(** One round of either loop: a character, and a dash if the group is full
    and [more] characters follow. *)
Lemma spaced_round (group_len t : Z) (ret : list ascii) (a : ascii) (more : bool) :
  0 < group_len ->
  spaced group_len t ret (Z.rem (ret_len ret) (group_len + 1)) ->
  let ret1 := push a ret in
  let ret2 := if (Z.rem (ret_len ret1) (group_len + 1) =? group_len) && more
              then push "-"%char ret1 else ret1 in
  spaced group_len (t + 5) ret2 (Z.rem (ret_len ret2) (group_len + 1))
  /\ (more = false -> spaced group_len (t + 5) ret2 1).
Proof.
  intros Hg (c & d & Ht & Hl & Hd & Hc & Hs) ret1 ret2.
  pose proof (ret_len_nonneg ret) as Hn.
  rewrite Z.rem_mod_nonneg in Hs by lia.
  pose proof (Z.mod_pos_bound (ret_len ret) (group_len + 1) ltac:(lia)) as Hb.
  assert (E1 : Z.rem (ret_len ret1) (group_len + 1)
               = if ret_len ret mod (group_len + 1) =? group_len then 0
                 else ret_len ret mod (group_len + 1) + 1).
  { subst ret1. rewrite ret_len_push. rewrite Z.rem_mod_nonneg by lia.
    rewrite mod_succ by lia. replace (group_len + 1 - 1) with group_len by lia.
    reflexivity. }
  subst ret2. rewrite E1.
  destruct (ret_len ret mod (group_len + 1) =? group_len) eqn:F.
  - apply Z.eqb_eq in F.
    replace (0 =? group_len) with false by (symmetry; apply Z.eqb_neq; lia).
    cbn [andb]. rewrite E1.
    split; [|intros _]; exists (c + 1), d; subst ret1; rewrite ret_len_push;
      repeat split; lia.
  - apply Z.eqb_neq in F.
    destruct ((ret_len ret mod (group_len + 1) + 1 =? group_len) && more) eqn:G.
    + apply andb_prop in G. destruct G as [G ->]. apply Z.eqb_eq in G.
      split; [|discriminate].
      exists (c + 1), (d + 1). rewrite ret_len_push. subst ret1. rewrite ret_len_push.
      rewrite Z.rem_mod_nonneg by lia.
      replace (ret_len ret + 1 + 1) with (ret_len ret + 1 + 1) by lia.
      rewrite (mod_succ (ret_len ret + 1)) by lia.
      rewrite (mod_succ (ret_len ret)) by lia.
      replace (group_len + 1 - 1) with group_len by lia.
      rewrite (proj2 (Z.eqb_neq _ _) F).
      rewrite (proj2 (Z.eqb_eq _ _) G).
      repeat split; nia.
    + rewrite E1.
      split; [|intros _]; exists (c + 1), d; subst ret1; rewrite ret_len_push;
        repeat split; lia.
Qed.

Lemma spaced_weaken (group_len t : Z) (ret : list ascii) (s : Z) :
  0 <= s -> spaced group_len t ret s -> spaced group_len t ret 0.
Proof.
  intros Hs (c & d & H). exists c, d. repeat split; lia.
Qed.

Section Counting.
Variable group_len : Z.
Hypothesis group_pos : 0 < group_len.

Lemma encode_loop_spaced (data : list Z) (n : Z) (fuel : nat) :
  forall t ret,
    spaced group_len t ret (Z.rem (ret_len ret) (group_len + 1)) ->
    let res := encode_loop fuel data n group_len t ret in
    spaced group_len (fst res) (snd res) (Z.rem (ret_len (snd res)) (group_len + 1))
    /\ t <= fst res
    /\ (fst res = t -> snd res = ret)
    /\ (t < fst res -> 8 * n <= fst res -> spaced group_len (fst res) (snd res) 1).
Proof.
  induction fuel as [|fuel IH]; intros t ret H; cbn [encode_loop].
  - cbn [fst snd]. repeat split; [exact H|lia|lia].
  - destruct (readNextBits data n t =? -1).
    + cbn [fst snd]. repeat split; [exact H|lia|lia].
    + destruct (spaced_round group_len t ret (table_char (readNextBits data n t))
                  (t + 5 <? n * 8) group_pos H) as [R1 R2].
      cbv zeta in R1, R2.
      match goal with
      | |- context [encode_loop fuel data n group_len (t + 5) ?r] => set (ret2 := r) in *
      end.
      specialize (IH (t + 5) ret2 R1). cbv zeta in IH.
      destruct IH as (I1 & I2 & I3 & I4).
      repeat split; [exact I1|lia|lia|].
      intros _ Hend.
      destruct (Z.eq_dec (fst (encode_loop fuel data n group_len (t + 5) ret2)) (t + 5))
        as [Heq|Hne].
      * rewrite Heq in *. rewrite (I3 eq_refl). apply R2. apply Z.ltb_ge. lia.
      * apply I4; lia.
Qed.

Lemma pad_loop_spaced (fuel : nat) :
  forall t ret,
    0 <= t ->
    spaced group_len t ret (Z.rem (ret_len ret) (group_len + 1)) ->
    let res := pad_loop fuel group_len t ret in
    spaced group_len (fst res) (snd res) (Z.rem (ret_len (snd res)) (group_len + 1))
    /\ t <= fst res
    /\ (fst res = t -> snd res = ret)
    /\ (t < fst res -> fst res mod 40 = 0 -> spaced group_len (fst res) (snd res) 1).
Proof.
  induction fuel as [|fuel IH]; intros t ret Ht H; cbn [pad_loop].
  - cbn [fst snd]. repeat split; [exact H|lia|lia].
  - destruct (Z.rem t 40 =? 0).
    + cbn [fst snd]. repeat split; [exact H|lia|lia].
    + destruct (spaced_round group_len t ret "="%char
                  (negb (Z.rem t 40 =? 35)) group_pos H) as [R1 R2].
      cbv zeta in R1, R2.
      match goal with
      | |- context [pad_loop fuel group_len (t + 5) ?r] => set (ret2 := r) in *
      end.
      specialize (IH (t + 5) ret2 ltac:(lia) R1). cbv zeta in IH.
      destruct IH as (I1 & I2 & I3 & I4).
      repeat split; [exact I1|lia|lia|].
      intros _ Hend.
      destruct (Z.eq_dec (fst (pad_loop fuel group_len (t + 5) ret2)) (t + 5))
        as [Heq|Hne].
      * rewrite Heq in *. rewrite (I3 eq_refl). apply R2.
        rewrite Z.rem_mod_nonneg by lia.
        replace (t mod 40 =? 35) with true; [reflexivity|].
        symmetry. apply Z.eqb_eq. Z.div_mod_to_equations. lia.
      * apply I4; lia.
Qed.

End Counting.

(** The padding loop stops at the next multiple of 40. *)
Lemma pad_loop_stops (group_len : Z) (fuel : nat) :
  forall t ret,
    0 <= t -> t mod 5 = 0 -> (40 - t mod 40) mod 40 <= 5 * Z.of_nat fuel ->
    fst (pad_loop fuel group_len t ret) = t + (40 - t mod 40) mod 40.
Proof.
  induction fuel as [|fuel IH]; intros t ret Ht H5 Hf; cbn [pad_loop].
  - cbn [fst]. Z.div_mod_to_equations. lia.
  - rewrite Z.rem_mod_nonneg by lia.
    destruct (t mod 40 =? 0) eqn:E.
    + apply Z.eqb_eq in E. cbn [fst]. rewrite E. change ((40 - 0) mod 40) with 0. lia.
    + apply Z.eqb_neq in E.
      match goal with
      | |- context [pad_loop fuel group_len (t + 5) ?r] =>
          rewrite (IH (t + 5) r ltac:(lia)
                      ltac:(Z.div_mod_to_equations; lia)
                      ltac:(Z.div_mod_to_equations; lia))
      end.
      Z.div_mod_to_equations. lia.
Qed.

Lemma encode_loop_bound (data : list Z) (n group_len : Z) (fuel : nat) :
  forall t ret,
    0 <= t < 8 * n + 5 ->
    0 <= fst (encode_loop fuel data n group_len t ret) < 8 * n + 5.
Proof.
  induction fuel as [|fuel IH]; intros t ret Ht; cbn [encode_loop]; [exact Ht|].
  destruct (readNextBits data n t =? -1) eqn:E; [exact Ht|].
  apply IH. apply Z.eqb_neq in E.
  assert (Hq : Z.quot t 8 < n).
  { destruct (Z_lt_le_dec (Z.quot t 8) n) as [|Hge]; [assumption|].
    exfalso. apply E. apply readNextBits_end. exact Hge. }
  pose proof (Z.quot_rem' t 8). pose proof (Z.rem_bound_pos t 8 ltac:(lia) ltac:(lia)).
  lia.
Qed.

Lemma length_string_of_list_ascii (l : list ascii) :
  String.length (string_of_list_ascii l) = List.length l.
Proof. induction l as [|a l IH]; [reflexivity|]. cbn. rewrite IH. reflexivity. Qed.


Lemma symbol_count_nonneg (cs : list Z) : 0 <= symbol_count cs.
Proof.
  induction cs as [|c cs IH]; cbn [symbol_count]; [lia|].
  destruct (c =? 61); [lia|]. destruct (base32_symbol c); lia.
Qed.

Lemma symbol_value_nonneg (c : Z) :
  base32_symbol c = true ->
  0 <= (if isdigit c then rd base32NumDecTable (c - 48) else toupper c - 65).
Proof.
  intros H. destruct (isdigit c) eqn:D; [apply table_nonneg|].
  unfold base32_symbol in H. rewrite D in H. cbn [orb] in H.
  unfold toupper, is_upper, is_lower in *.
  destruct ((97 <=? c) && (c <=? 122)) eqn:Lo; lia.
Qed.

Lemma decode_char_symbol (c : Z) (buf : list Z) (t : Z) :
  c <> 61 -> base32_symbol c = true ->
  decode_char c (buf, t)
  = Some (addBits buf t (if isdigit c then rd base32NumDecTable (c - 48)
                         else toupper c - 65)).
Proof.
  intros Hc H. unfold decode_char. rewrite (proj2 (Z.eqb_neq c 61) Hc).
  destruct (isdigit c) eqn:D; [reflexivity|].
  unfold base32_symbol in H. rewrite D in H. cbn [orb] in H. rewrite H. reflexivity.
Qed.

Lemma decode_char_other (c : Z) (st : list Z * Z) :
  c <> 61 -> base32_symbol c = false -> decode_char c st = Some st.
Proof.
  intros Hc H. unfold decode_char. destruct st as [buf t].
  rewrite (proj2 (Z.eqb_neq c 61) Hc).
  unfold base32_symbol in H.
  destruct (isdigit c); [discriminate|]. cbn [orb] in H. rewrite H. reflexivity.
Qed.

Lemma decode_loop_count (cs : list Z) :
  forall buf t, 0 <= t ->
    snd (decode_loop cs (buf, t)) = t + 5 * symbol_count cs.
Proof.
  induction cs as [|c cs IH]; intros buf t Ht; cbn [decode_loop symbol_count]; [cbn; lia|].
  destruct (c =? 61) eqn:E.
  - apply Z.eqb_eq in E. subst c. cbn. lia.
  - apply Z.eqb_neq in E. destruct (base32_symbol c) eqn:B.
    + rewrite decode_char_symbol by assumption.
      pose proof (addBits_count buf t _ Ht (symbol_value_nonneg c B)) as Hs.
      destruct (addBits buf t _) as [buf' t']. cbn [snd] in Hs. subst t'.
      rewrite IH by lia. lia.
    + rewrite decode_char_other by assumption. rewrite IH by lia. lia.
Qed.

Lemma decode_loop_length (cs : list Z) :
  forall buf t, 0 <= t ->
    List.length (fst (decode_loop cs (buf, t))) = List.length buf.
Proof.
  induction cs as [|c cs IH]; intros buf t Ht; cbn [decode_loop]; [reflexivity|].
  destruct (Z.eq_dec c 61) as [->|E]; [reflexivity|].
  destruct (base32_symbol c) eqn:B.
  - rewrite decode_char_symbol by assumption.
    pose proof (symbol_value_nonneg c B) as Hv.
    set (v := if isdigit c then _ else _) in *.
    pose proof (addBits_count buf t v Ht Hv) as Hs.
    pose proof (addBits_parts buf t v Ht Hv) as Hp.
    destruct (addBits buf t v) as [buf' t']. cbn [snd] in Hs. subst t'.
    rewrite IH by lia.
    injection Hp as ->. destruct (_ <=? 3); rewrite ?length_or_byte; reflexivity.
  - rewrite decode_char_other by assumption. apply IH. exact Ht.
Qed.


Lemma decode_char_toupper (c : Z) (st : list Z * Z) :
  decode_char (toupper c) st = decode_char c st.
Proof.
  unfold toupper at 1. destruct (is_lower c) eqn:Lo; [|reflexivity].
  unfold is_lower in Lo. apply andb_prop in Lo. destruct Lo as [L1 L2].
  apply Z.leb_le in L1. apply Z.leb_le in L2.
  destruct st as [buf t]. unfold decode_char.
  rewrite (proj2 (Z.eqb_neq (c - 32) 61)) by lia.
  rewrite (proj2 (Z.eqb_neq c 61)) by lia.
  unfold isdigit, is_upper, is_lower, toupper, is_lower.
  repeat match goal with
         | |- context [?a <=? ?b] =>
             first [rewrite (proj2 (Z.leb_le a b)) by lia
                   |rewrite (proj2 (Z.leb_gt a b)) by lia]
         end.
  reflexivity.
Qed.

Lemma decode_loop_toupper (s : list Z) :
  forall st, decode_loop (map toupper s) st = decode_loop s st.
Proof.
  induction s as [|c s IH]; intros st; [reflexivity|].
  cbn [map decode_loop]. rewrite decode_char_toupper.
  destruct (decode_char c st); [apply IH|reflexivity].
Qed.

Lemma strlen_toupper (s : list Z) : strlen (map toupper s) = strlen s.
Proof.
  induction s as [|c s IH]; [reflexivity|]. cbn [map strlen]. rewrite IH.
  unfold toupper, is_lower.
  destruct ((97 <=? c) && (c <=? 122)) eqn:Lo; [|reflexivity].
  apply andb_prop in Lo. destruct Lo as [L1 L2].
  apply Z.leb_le in L1. apply Z.leb_le in L2.
  rewrite (proj2 (Z.eqb_neq (c - 32) 0)) by lia.
  rewrite (proj2 (Z.eqb_neq c 0)) by lia. reflexivity.
Qed.

(** X4. [GT_base32Decode] does not distinguish the case of letters: a text
    with its lower-case letters turned into upper case decodes to the same
    result. *)
Theorem base32Decode_case_insensitive (malloc_ok : bool) (s : list Z) (base32_len : Z) :
  GT_base32Decode malloc_ok (map toupper s) base32_len
  = GT_base32Decode malloc_ok s base32_len.
Proof.
  unfold GT_base32Decode. rewrite strlen_toupper.
  destruct (negb malloc_ok); [reflexivity|].
  rewrite firstn_map, decode_loop_toupper. reflexivity.
Qed.

Lemma rd_app_l (l1 l2 : list Z) (i : Z) :
  i < Z.of_nat (List.length l1) -> rd (l1 ++ l2) i = rd l1 i.
Proof.
  intros Hi. unfold rd. destruct (i <? 0) eqn:E; [reflexivity|].
  apply Z.ltb_ge in E. rewrite lookup_app_l by lia. reflexivity.
Qed.

Lemma or_byte_app (buf ext : list Z) (idx v : Z) :
  0 <= idx < Z.of_nat (List.length buf) ->
  or_byte (buf ++ ext) idx v = or_byte buf idx v ++ ext.
Proof.
  intros Hi. unfold or_byte. rewrite rd_app_l by lia. unfold wr.
  rewrite (proj2 (Z.ltb_ge idx 0)) by lia.
  apply insert_app_l. lia.
Qed.

Lemma addBits_app (buf ext : list Z) (t v : Z) :
  0 <= t -> 0 <= v -> Z.quot t 8 + 1 < Z.of_nat (List.length buf) ->
  addBits (buf ++ ext) t v = (fst (addBits buf t v) ++ ext, snd (addBits buf t v)).
Proof.
  intros Ht Hv Hl. rewrite !addBits_parts by lia. cbn [fst snd].
  assert (0 <= Z.quot t 8) by (apply Z.quot_pos; lia).
  destruct (_ <=? 3).
  - rewrite or_byte_app by lia. reflexivity.
  - rewrite or_byte_app by lia. rewrite or_byte_app by (rewrite length_or_byte; lia).
    reflexivity.
Qed.

Lemma decode_loop_app_buf (cs : list Z) (ext : list Z) :
  forall buf t,
    0 <= t ->
    Z.quot (t + 5 * symbol_count cs) 8 + 1 < Z.of_nat (List.length buf) ->
    decode_loop cs (buf ++ ext, t)
    = (fst (decode_loop cs (buf, t)) ++ ext, snd (decode_loop cs (buf, t))).
Proof.
  induction cs as [|c cs IH]; intros buf t Ht Hl; cbn [decode_loop]; [reflexivity|].
  destruct (Z.eq_dec c 61) as [->|E]; [reflexivity|].
  cbn [symbol_count] in Hl. rewrite (proj2 (Z.eqb_neq c 61) E) in Hl.
  pose proof (symbol_count_nonneg cs) as Hk.
  destruct (base32_symbol c) eqn:B.
  - rewrite !decode_char_symbol by assumption.
    pose proof (symbol_value_nonneg c B) as Hv.
    set (v := if isdigit c then _ else _) in *.
    assert (Hq : Z.quot t 8 <= Z.quot (t + 5 * (1 + symbol_count cs)) 8).
    { apply Z.quot_le_mono; lia. }
    rewrite addBits_app by lia.
    pose proof (addBits_count buf t v Ht Hv) as Hs.
    pose proof (addBits_parts buf t v Ht Hv) as Hp.
    assert (Hlen : List.length (fst (addBits buf t v)) = List.length buf).
    { rewrite Hp. cbn [fst]. destruct (_ <=? 3); rewrite ?length_or_byte; reflexivity. }
    destruct (addBits buf t v) as [buf' t']. cbn [fst snd] in *. subst t'.
    apply IH; [lia|]. rewrite Hlen.
    replace (t + 5 + 5 * symbol_count cs) with (t + 5 * (1 + symbol_count cs)) by lia.
    exact Hl.
  - rewrite !decode_char_other by assumption.
    apply IH; [lia|]. replace (0 + symbol_count cs) with (symbol_count cs) in Hl by lia.
    exact Hl.
Qed.

Lemma decode_loop_significant (cs : list Z) :
  forall st, decode_loop (filter (fun c => significant c = true) cs) st = decode_loop cs st.
Proof.
  induction cs as [|c cs IH]; intros st; [reflexivity|].
  destruct (significant c) eqn:Sg.
  - rewrite filter_cons_True by exact Sg. cbn [decode_loop].
    destruct (decode_char c st); [apply IH|reflexivity].
  - rewrite filter_cons_False by (rewrite Sg; discriminate). cbn [decode_loop].
    unfold significant in Sg.
    apply orb_false_elim in Sg. destruct Sg as [Sg _].
    apply orb_false_elim in Sg. destruct Sg as [S1 S2]. apply Z.eqb_neq in S2.
    rewrite decode_char_other by assumption. apply IH.
Qed.

Lemma symbol_count_significant (cs : list Z) :
  symbol_count (filter (fun c => significant c = true) cs) = symbol_count cs.
Proof.
  induction cs as [|c cs IH]; [reflexivity|].
  destruct (significant c) eqn:Sg.
  - rewrite filter_cons_True by exact Sg. cbn [symbol_count]. rewrite IH. reflexivity.
  - rewrite filter_cons_False by (rewrite Sg; discriminate). cbn [symbol_count].
    unfold significant in Sg.
    apply orb_false_elim in Sg. destruct Sg as [Sg _].
    apply orb_false_elim in Sg. destruct Sg as [S1 S2].
    rewrite S1, S2, IH. lia.
Qed.

Lemma symbol_count_le (cs : list Z) : symbol_count cs <= Z.of_nat (List.length cs).
Proof.
  induction cs as [|c cs IH]; cbn [symbol_count List.length]; [lia|].
  destruct (c =? 61); [lia|]. destruct (base32_symbol c); lia.
Qed.

Lemma strlen_nonneg (s : list Z) : 0 <= strlen s.
Proof.
  induction s as [|c s IH]; cbn [strlen]; [lia|]. destruct (c =? 0); lia.
Qed.

Lemma strlen_le (s : list Z) : strlen s <= Z.of_nat (List.length s).
Proof.
  induction s as [|c s IH]; cbn [strlen List.length]; [lia|]. destruct (c =? 0); lia.
Qed.

(** The characters of a C string. *)
Lemma take_strlen_significant (s : list Z) :
  take (Z.to_nat (strlen (filter (fun c => significant c = true) s)))
       (filter (fun c => significant c = true) s)
  = filter (fun c => significant c = true) (take (Z.to_nat (strlen s)) s).
Proof.
  induction s as [|c s IH]; [reflexivity|].
  pose proof (strlen_nonneg s) as Hs.
  pose proof (strlen_nonneg (filter (fun c => significant c = true) s)) as Hs'.
  cbn [strlen]. destruct (c =? 0) eqn:Z0.
  - apply Z.eqb_eq in Z0. subst c.
    rewrite filter_cons_True by reflexivity. cbn [strlen]. reflexivity.
  - replace (Z.to_nat (1 + strlen s)) with (S (Z.to_nat (strlen s))) by lia.
    cbn [take]. destruct (significant c) eqn:Sg.
    + rewrite !filter_cons_True by exact Sg. cbn [strlen]. rewrite Z0.
      replace (Z.to_nat (1 + strlen (filter (fun c => significant c = true) s)))
        with (S (Z.to_nat (strlen (filter (fun c => significant c = true) s)))) by lia.
      cbn [take]. rewrite IH. reflexivity.
    + rewrite !filter_cons_False by (rewrite Sg; discriminate). exact IH.
Qed.

Lemma length_take_strlen (s : list Z) :
  Z.of_nat (List.length (take (Z.to_nat (strlen s)) s)) = strlen s.
Proof.
  rewrite length_take. pose proof (strlen_nonneg s). pose proof (strlen_le s). lia.
Qed.





End Base32Codec.

Section Asn1TimeGet.
Import Asn1Time.

Lemma month_loop_add (n : nat) (leap : bool) :
  forall i r, month_loop n leap i r = r + month_loop n leap i 0.
Proof.
  induction n as [|n IH]; intros i r; cbn [month_loop]; [lia|].
  destruct (i >=? 0); [|lia].
  rewrite (IH (i - 1) (r + days_at leap i * 86400)),
    (IH (i - 1) (0 + days_at leap i * 86400)). lia.
Qed.

Lemma past_centuries_add (fuel : nat) (year : Z) :
  forall i r, past_centuries fuel year i r = r + past_centuries fuel year i 0.
Proof.
  induction fuel as [|fuel IH]; intros i r; cbn [past_centuries]; [lia|].
  destruct (i >=? year); [|lia].
  rewrite (IH (i - 100) (if Z.rem i 400 =? 0 then r else r + 86400)),
    (IH (i - 100) (if Z.rem i 400 =? 0 then 0 else 0 + 86400)).
  destruct (Z.rem i 400 =? 0); lia.
Qed.

Lemma future_centuries_add (fuel : nat) (year : Z) :
  forall i r, future_centuries fuel year i r = r + future_centuries fuel year i 0.
Proof.
  induction fuel as [|fuel IH]; intros i r; cbn [future_centuries]; [lia|].
  destruct (i <? year); [|lia].
  rewrite (IH (i + 100) (if Z.rem i 400 =? 0 then r else r - 86400)),
    (IH (i + 100) (if Z.rem i 400 =? 0 then 0 else 0 - 86400)).
  destruct (Z.rem i 400 =? 0); lia.
Qed.

Lemma year_ok_all : forallb year_ok (seqZ 0 10000) = true.
Proof. vm_compute. reflexivity. Qed.

Lemma month_ok_all : forallb (month_ok 0) (seqZ 1 12) = true.
Proof. vm_compute. reflexivity. Qed.

Lemma leap_flag (y : Z) :
  0 <= y ->
  ((Z.rem y 4 =? 0) && negb (Z.rem y 100 =? 0)) || (Z.rem y 400 =? 0) = is_leap_year y.
Proof.
  intros Hy. unfold is_leap_year. rewrite !Z.rem_mod_nonneg by lia. reflexivity.
Qed.

Lemma days_before_month_leap (y m : Z) :
  days_before_month y m
  = if is_leap_year y then days_before_month 2000 m else days_before_month 2001 m.
Proof.
  unfold days_before_month.
  assert (E : forall k, days_in_month y k
              = if is_leap_year y then days_in_month 2000 k else days_in_month 2001 k).
  { intros k. unfold days_in_month.
    change (is_leap_year 2000) with true. change (is_leap_year 2001) with false.
    destruct (is_leap_year y); reflexivity. }
  destruct (is_leap_year y); f_equal; apply map_ext; intros k; rewrite E; reflexivity.
Qed.

(** The conversion by hand computes the seconds since the epoch of the
    civil time, less the offset in minutes. *)
Lemma seconds_by_hand_spec (y m d hour min sec isdst offset : Z) :
  0 <= y <= 9999 -> 1 <= m <= 12 ->
  seconds_by_hand (tm_of y m d hour min sec isdst) offset
  = let r := unix_seconds y m d hour min sec - 60 * offset in
    (if y <? 1970
     then (if r >=? 0 then GT_TIME_OVERFLOW else GT_OK)
     else (if r <? 0 then GT_TIME_OVERFLOW else GT_OK), r).
Proof.
  intros Hy Hm.
  pose proof year_ok_all as HY. rewrite forallb_seqZ in HY.
  specialize (HY y ltac:(lia)). unfold year_ok in HY. apply Z.eqb_eq in HY.
  pose proof month_ok_all as HM. rewrite forallb_seqZ in HM.
  specialize (HM m ltac:(lia)). unfold month_ok in HM.
  apply andb_prop in HM. destruct HM as [HM1 HM2].
  apply Z.eqb_eq in HM1. apply Z.eqb_eq in HM2.
  unfold seconds_by_hand, tm_of.
  cbn [tm_sec tm_min tm_hour tm_mday tm_mon tm_year].
  replace (y - 1900 + 1900) with y by lia.
  rewrite leap_flag by lia.
  assert (R : forall base,
    (if y <? 1970
     then past_centuries 100 y 1900
            (month_loop 12 (is_leap_year y) (m - 1 - 1) base + (y - 1970) * 31536000
             - Z.quot (1970 - y + 2) 4 * 86400)
     else future_centuries 100 y 2100
            (month_loop 12 (is_leap_year y) (m - 1 - 1) base + (y - 1970) * 31536000
             + Z.quot (y - 1970 + 1) 4 * 86400))
    = base + 86400 * (days_before_year y + days_before_month y m)).
  { intros base. rewrite (month_loop_add 12 _ _ base).
    rewrite (days_before_month_leap y m).
    unfold year_part in HY.
    destruct (y <? 1970).
    - rewrite past_centuries_add. rewrite past_centuries_add in HY.
      destruct (is_leap_year y); lia.
    - rewrite future_centuries_add. rewrite future_centuries_add in HY.
      destruct (is_leap_year y); lia. }
  cbv zeta. unfold unix_seconds.
  destruct (y <? 1970) eqn:E.
  - rewrite R. f_equal; [|lia].
    match goal with
    | |- (if ?a >=? 0 then _ else _) = (if ?b >=? 0 then _ else _) =>
        replace a with b by lia
    end. reflexivity.
  - rewrite R. f_equal; [|lia].
    match goal with
    | |- (if ?a <? 0 then _ else _) = (if ?b <? 0 then _ else _) =>
        replace a with b by lia
    end. reflexivity.
Qed.

Lemma pint_two (d : list Z) (s s' v lo hi e : Z) :
  rd d s = 48 + v / 10 -> rd d (s + 1) = 48 + v mod 10 ->
  s' = s + 2 -> 0 <= v <= 99 -> lo <= v <= hi ->
  pint d s 2 lo hi e = (v, s', e).
Proof.
  intros H0 H1 -> Hv Hr. unfold pint. cbn [pint_loop]. rewrite H0, H1.
  assert (A : 0 <= v / 10 <= 9) by (Z.div_mod_to_equations; lia).
  assert (B : 0 <= v mod 10 <= 9) by (Z.div_mod_to_equations; lia).
  rewrite !(proj2 (Z.ltb_ge _ 48)) by lia.
  rewrite !gtb_false by lia. cbn [orb].
  replace ((0 * 10 + (48 + v / 10 - 48)) * 10 + (48 + v mod 10 - 48)) with v
    by (Z.div_mod_to_equations; lia).
  replace (s + 1 + 1) with (s + 2) by lia.
  rewrite (proj2 (Z.ltb_ge v lo)) by lia. rewrite gtb_false by lia. reflexivity.
Qed.

Lemma pint_four (d : list Z) (s s' v lo hi e : Z) :
  rd d s = 48 + v / 1000 -> rd d (s + 1) = 48 + (v / 100) mod 10 ->
  rd d (s + 2) = 48 + (v / 10) mod 10 -> rd d (s + 3) = 48 + v mod 10 ->
  s' = s + 4 -> 0 <= v <= 9999 -> lo <= v <= hi ->
  pint d s 4 lo hi e = (v, s', e).
Proof.
  intros H0 H1 H2 H3 -> Hv Hr. unfold pint. cbn [pint_loop].
  replace (s + 1 + 1) with (s + 2) by lia.
  replace (s + 2 + 1) with (s + 3) by lia.
  rewrite H0, H1, H2, H3.
  assert (A : 0 <= v / 1000 <= 9) by (Z.div_mod_to_equations; lia).
  assert (B : 0 <= (v / 100) mod 10 <= 9) by (Z.div_mod_to_equations; lia).
  assert (C : 0 <= (v / 10) mod 10 <= 9) by (Z.div_mod_to_equations; lia).
  assert (D : 0 <= v mod 10 <= 9) by (Z.div_mod_to_equations; lia).
  rewrite !(proj2 (Z.ltb_ge _ 48)) by lia.
  rewrite !gtb_false by lia. cbn [orb].
  replace ((((0 * 10 + (48 + v / 1000 - 48)) * 10 + (48 + (v / 100) mod 10 - 48)) * 10
            + (48 + (v / 10) mod 10 - 48)) * 10 + (48 + v mod 10 - 48)) with v
    by (Z.div_mod_to_equations; lia).
  replace (s + 3 + 1) with (s + 4) by lia.
  rewrite (proj2 (Z.ltb_ge v lo)) by lia. rewrite gtb_false by lia. reflexivity.
Qed.

Lemma digit_test (v : Z) :
  0 <= v <= 9 -> (48 + v >=? 48) && (48 + v <=? 57) = true.
Proof.
  intros H. rewrite geb_true by lia. rewrite (proj2 (Z.leb_le _ _)) by lia. reflexivity.
Qed.

Ltac parse_two d s s' v lo hi :=
  rewrite (pint_two d s s' v lo hi GT_OK eq_refl eq_refl eq_refl ltac:(lia) ltac:(lia)).

Section Fields.
Variables y m dd hour min sec : Z.
Variables sec_text rest : list Z.
Hypothesis month_range : 1 <= m <= 12.
Hypothesis day_range : 1 <= dd <= 31.
Hypothesis time_range : time_of_day hour min sec.
Hypothesis seconds : seconds_text sec sec_text rest.

Lemma read_fields_generalized :
  0 <= y <= 9999 ->
  read_fields true
    (four_digits y ++ two_digits m ++ two_digits dd ++ two_digits hour
     ++ two_digits min ++ sec_text ++ rest)
  = (tm_of y m dd hour min sec 0, 12 + Z.of_nat (List.length sec_text), GT_OK).
Proof.
  intros year_range. destruct time_range as (Hh & Hmi & Hs).
  unfold read_fields. cbv zeta.
  set (d := four_digits y ++ _).
  rewrite (pint_four d 0 4 y 0 9999 GT_OK eq_refl eq_refl eq_refl eq_refl eq_refl
             year_range year_range).
  parse_two d 4 6 m 1 12. parse_two d 6 8 dd 1 31.
  parse_two d 8 10 hour 0 23. parse_two d 10 12 min 0 59.
  destruct seconds as [->|(-> & -> & Hn)].
  - assert (R12 : rd d 12 = 48 + sec / 10) by reflexivity.
    rewrite R12. rewrite digit_test by (Z.div_mod_to_equations; lia).
    parse_two d 12 14 sec 0 59. reflexivity.
  - assert (R12 : rd d 12 = rd rest 0) by reflexivity.
    rewrite R12, Hn. reflexivity.
Qed.

Lemma read_fields_utc (yy : Z) :
  0 <= yy <= 99 -> y = utc_year yy ->
  read_fields false
    (two_digits yy ++ two_digits m ++ two_digits dd ++ two_digits hour
     ++ two_digits min ++ sec_text ++ rest)
  = (tm_of y m dd hour min sec 0, 10 + Z.of_nat (List.length sec_text), GT_OK).
Proof.
  intros year_range Hy. destruct time_range as (Hh & Hmi & Hs).
  unfold read_fields. cbv zeta.
  set (d := two_digits yy ++ _).
  parse_two d 0 2 yy 0 99.
  parse_two d 2 4 m 1 12. parse_two d 4 6 dd 1 31.
  parse_two d 6 8 hour 0 23. parse_two d 8 10 min 0 59.
  assert (Ey : (if yy <? 50 then yy + 100 else yy) = y - 1900).
  { subst y. unfold utc_year. destruct (yy <? 50); lia. }
  destruct seconds as [->|(-> & -> & Hn)].
  - assert (R : rd d 10 = 48 + sec / 10) by reflexivity.
    rewrite R. rewrite digit_test by (Z.div_mod_to_equations; lia).
    parse_two d 10 12 sec 0 59. rewrite Ey. reflexivity.
  - assert (R : rd d 10 = rd rest 0) by reflexivity.
    rewrite R, Hn. rewrite Ey. reflexivity.
Qed.
End Fields.

Lemma rd_after (pre l : list Z) (p k : Z) :
  p = Z.of_nat (List.length pre) -> 0 <= k -> rd (pre ++ l) (p + k) = rd l k.
Proof. intros -> Hk. apply rd_app_r. exact Hk. Qed.

Lemma rd_here (pre l : list Z) (p : Z) :
  p = Z.of_nat (List.length pre) -> rd (pre ++ l) p = rd l 0.
Proof. intros Hp. rewrite <- (rd_after pre l p 0 Hp) by lia. f_equal. lia. Qed.

Lemma read_zone_at (pre rest : list Z) (z : Zone) (p : Z) :
  p = Z.of_nat (List.length pre) -> zone_ok z ->
  read_zone (pre ++ zone_text z ++ rest) p GT_OK
  = Some (zone_minutes z, p + Z.of_nat (List.length (zone_text z)), GT_OK).
Proof.
  intros Hp Hz. unfold read_zone.
  rewrite !(rd_here pre _ p Hp).
  set (d := pre ++ _).
  destruct z as [|hh mm|hh mm]; cbn [zone_text zone_minutes zone_ok app] in *.
  - change (rd (90 :: rest) 0) with 90. change (90 =? 90) with true. cbv iota.
    reflexivity.
  - destruct Hz as [Zh Zm].
    change (rd (43 :: _) 0) with 43. change (43 =? 90) with false.
    change (43 =? 45) with false. change (43 =? 43) with true. cbn [orb]. cbv iota zeta.
    rewrite (pint_two d (p + 1) (p + 3) hh 0 12 GT_OK); try lia.
    + rewrite (pint_two d (p + 3) (p + 5) mm 0 59 GT_OK); try lia.
      * reflexivity.
      * subst d. rewrite (rd_after pre _ p 3 Hp) by lia. reflexivity.
      * subst d. replace (p + 3 + 1) with (p + 4) by lia.
        rewrite (rd_after pre _ p 4 Hp) by lia. reflexivity.
    + subst d. rewrite (rd_after pre _ p 1 Hp) by lia. reflexivity.
    + subst d. replace (p + 1 + 1) with (p + 2) by lia.
      rewrite (rd_after pre _ p 2 Hp) by lia. reflexivity.
  - destruct Hz as [Zh Zm].
    change (rd (45 :: _) 0) with 45. change (45 =? 90) with false.
    change (45 =? 45) with true. cbn [orb]. cbv iota zeta.
    rewrite (pint_two d (p + 1) (p + 3) hh 0 12 GT_OK); try lia.
    + rewrite (pint_two d (p + 3) (p + 5) mm 0 59 GT_OK); try lia.
      * reflexivity.
      * subst d. rewrite (rd_after pre _ p 3 Hp) by lia. reflexivity.
      * subst d. replace (p + 3 + 1) with (p + 4) by lia.
        rewrite (rd_after pre _ p 4 Hp) by lia. reflexivity.
    + subst d. rewrite (rd_after pre _ p 1 Hp) by lia. reflexivity.
    + subst d. replace (p + 1 + 1) with (p + 2) by lia.
      rewrite (rd_after pre _ p 2 Hp) by lia. reflexivity.
Qed.

Lemma skip_fraction_at (frac : list Z) :
  forall (fuel : nat) (pre rest : list Z) (p : Z),
    p = Z.of_nat (List.length pre) ->
    Forall (fun c => fraction_char c = true) frac ->
    fraction_char (rd rest 0) = false ->
    (List.length frac <= fuel)%nat ->
    skip_fraction fuel (pre ++ frac ++ rest) p = p + Z.of_nat (List.length frac).
Proof.
  induction frac as [|c frac IH]; intros fuel pre rest p Hp Hf Hr Hl.
  - cbn [app List.length]. replace (p + Z.of_nat 0) with p by lia.
    destruct fuel as [|fuel]; [reflexivity|]. cbn [skip_fraction].
    rewrite !(rd_here pre rest p Hp).
    unfold fraction_char in Hr. rewrite Hr. lia.
  - apply Forall_cons in Hf. destruct Hf as [Hc Hf].
    destruct fuel as [|fuel]; [cbn [List.length] in Hl; lia|].
    cbn [skip_fraction].
    rewrite !(rd_here pre _ p Hp).
    change (rd ((c :: frac) ++ rest) 0) with c.
    unfold fraction_char in Hc. rewrite Hc.
    replace ((c :: frac) ++ rest) with ([c] ++ frac ++ rest) by reflexivity.
    rewrite app_assoc.
    rewrite (IH fuel (pre ++ [c]) rest (p + 1)).
    + cbn [List.length]. lia.
    + rewrite length_app. cbn [List.length]. lia.
    + exact Hf.
    + exact Hr.
    + cbn [List.length] in Hl. lia.
Qed.

Lemma zone_first (z : Zone) (rest : list Z) :
  fraction_char (rd (zone_text z ++ rest) 0) = false
  /\ (rd (zone_text z ++ rest) 0 =? 0) = false
  /\ (rd (zone_text z ++ rest) 0 >=? 48) && (rd (zone_text z ++ rest) 0 <=? 57) = false.
Proof. destruct z; repeat split; reflexivity. Qed.

(** From the fields on: fractional seconds (in a GeneralizedTime), the
    zone, the end of the text and the conversion by hand. *)
Lemma get_with_zone (mktime : tm -> Z) (generalized : bool) (pre frac : list Z)
    (z : Zone) (y m dd hour min sec : Z) :
  read_fields generalized (pre ++ frac ++ zone_text z ++ [0])
  = (tm_of y m dd hour min sec 0, Z.of_nat (List.length pre), GT_OK) ->
  (generalized = false -> frac = []) ->
  Forall (fun c => fraction_char c = true) frac ->
  zone_ok z -> 0 <= y <= 9999 -> 1 <= m <= 12 ->
  GT_ASN1_TIME_get mktime (asn1_time (time_type generalized) (pre ++ frac ++ zone_text z))
  = (sign_code y (unix_seconds y m dd hour min sec - 60 * zone_minutes z),
     Some (unix_seconds y m dd hour min sec - 60 * zone_minutes z)).
Proof.
  intros Hf Hg Hfrac Hz Hy Hm.
  unfold GT_ASN1_TIME_get, asn1_time. cbn [type length data].
  assert (Ty : negb (time_type generalized =? V_ASN1_GENERALIZEDTIME)
               && negb (time_type generalized =? V_ASN1_UTCTIME) = false)
    by (destruct generalized; reflexivity).
  rewrite Ty.
  assert (Tg : (time_type generalized =? V_ASN1_GENERALIZEDTIME) = generalized)
    by (destruct generalized; reflexivity).
  rewrite Tg. cbv zeta.
  rewrite (rd_here (pre ++ frac ++ zone_text z) [0] _ eq_refl).
  change (rd [0] 0 =? 0) with true. cbn [negb].
  replace ((pre ++ frac ++ zone_text z) ++ [0]) with (pre ++ frac ++ zone_text z ++ [0])
    by (rewrite <- !app_assoc; reflexivity).
  rewrite Hf. change (GT_OK =? GT_OK) with true. cbn [negb].
  set (d := pre ++ frac ++ zone_text z ++ [0]).
  set (p := Z.of_nat (List.length pre)).
  destruct (zone_first z [0]) as (Z1 & Z2 & _).
  assert (Sk : (if generalized then skip_fraction (List.length d) d p else p)
               = p + Z.of_nat (List.length frac)).
  { destruct generalized.
    - subst d. apply skip_fraction_at; [reflexivity|exact Hfrac|exact Z1|].
      rewrite !length_app. lia.
    - rewrite (Hg eq_refl). cbn [List.length]. lia. }
  rewrite Sk.
  assert (Dp : d = (pre ++ frac) ++ zone_text z ++ [0])
    by (subst d; rewrite <- app_assoc; reflexivity).
  assert (Hp : p + Z.of_nat (List.length frac) = Z.of_nat (List.length (pre ++ frac)))
    by (rewrite length_app; lia).
  rewrite Dp at 1. rewrite (rd_here (pre ++ frac) _ _ Hp), Z2, andb_false_r.
  rewrite Dp at 1. rewrite (read_zone_at (pre ++ frac) [0] z _ Hp Hz).
  change (GT_OK =? GT_OK) with true. cbn [negb].
  assert (De : d = ((pre ++ frac) ++ zone_text z) ++ [0])
    by (subst d; rewrite <- !app_assoc; reflexivity).
  rewrite De.
  rewrite (rd_here ((pre ++ frac) ++ zone_text z) [0]) by (rewrite length_app; lia).
  change (rd [0] 0 =? 0) with true. cbn [negb].
  rewrite seconds_by_hand_spec by lia. reflexivity.
Qed.

Ltac side :=
  first [assumption | lia | discriminate | (intros _; reflexivity) | constructor].

Lemma days_before_month_bound (y m : Z) :
  1 <= m <= 12 ->
  0 <= days_before_month y m <= (if is_leap_year y then 335 else 334).
Proof.
  intros Hm. rewrite days_before_month_leap.
  assert (E : In m (seqZ 1 12)).
  { apply list_elem_of_In. apply elem_of_seqZ. lia. }
  vm_compute in E.
  repeat (destruct E as [<-|E];
          [destruct (is_leap_year y); vm_compute; split; discriminate|]).
  destruct E.
Qed.

Lemma days_before_month_succ (y m : Z) :
  1 <= m ->
  days_before_month y (m + 1) = days_before_month y m + days_in_month y m.
Proof.
  intros Hm. unfold days_before_month.
  replace (m + 1 - 1) with (m - 1 + 1) by lia.
  rewrite seqZ_app by lia. rewrite map_app, fold_right_app.
  replace (1 + (m - 1)) with m by lia.
  change (seqZ m 1) with [m]. cbn [map fold_right].
  generalize (map (days_in_month y) (seqZ 1 (m - 1))). intros l.
  induction l as [|a l IH]; cbn [fold_right]; lia.
Qed.

Lemma leap_year_not_1969 (y : Z) : is_leap_year y = true -> y <> 1969.
Proof. intros H ->. vm_compute in H. discriminate. Qed.

(** A time of the civil calendar lies on the side of the epoch that its
    year names. *)
Lemma unix_seconds_sign (y m d hour min sec : Z) :
  0 <= y -> 1 <= m <= 12 -> 1 <= d <= 31 -> time_of_day hour min sec ->
  (1970 <= y -> 0 <= unix_seconds y m d hour min sec)
  /\ (y < 1970 -> unix_seconds y m d hour min sec < 0).
Proof.
  intros Hy Hm Hd (Hh & Hmi & Hs).
  pose proof (days_before_month_bound y m Hm) as Hb.
  unfold unix_seconds, days_before_year, leap_years_before.
  split; intros Hc.
  - assert (0 <= 365 * (y - 1970) + ((y - 1) / 4 - (y - 1) / 100 + (y - 1) / 400
                                     - (1969 / 4 - 1969 / 100 + 1969 / 400))).
    { change (1969 / 4) with 492. change (1969 / 100) with 19. change (1969 / 400) with 4.
      Z.div_mod_to_equations. lia. }
    change (1970 - 1) with 1969. destruct (is_leap_year y); lia.
  - change (1970 - 1) with 1969.
    change (1969 / 4) with 492. change (1969 / 100) with 19. change (1969 / 400) with 4.
    destruct (is_leap_year y) eqn:L.
    + apply leap_year_not_1969 in L.
      assert (365 * (y - 1970) + ((y - 1) / 4 - (y - 1) / 100 + (y - 1) / 400
                                  - (492 - 19 + 4)) <= -731)
        by (Z.div_mod_to_equations; lia).
      lia.
    + assert (365 * (y - 1970) + ((y - 1) / 4 - (y - 1) / 100 + (y - 1) / 400
                                  - (492 - 19 + 4)) <= -365)
        by (Z.div_mod_to_equations; lia).
      lia.
Qed.

(** X6. A GeneralizedTime [YYYYMMDDhhmmss], fractional seconds or none, and a
    zone, for a day that the month has: [GT_ASN1_TIME_get] stores the
    seconds from 1970-01-01 00:00:00 UTC to that time in the Gregorian
    calendar, less the difference to UTC.  It returns [GT_TIME_OVERFLOW]
    when that instant is on the other side of the epoch than the year of
    the text, and [GT_OK] otherwise; with the zone [Z] it returns
    [GT_OK]. *)
Theorem GT_ASN1_TIME_get_generalized (mktime : tm -> Z)
    (y m d hour min sec : Z) (frac : list Z) (z : Zone) :
  0 <= y <= 9999 -> 1 <= m <= 12 -> 1 <= d <= days_in_month y m ->
  time_of_day hour min sec ->
  Forall (fun c => fraction_char c = true) frac ->
  zone_ok z ->
  let r := unix_seconds y m d hour min sec - 60 * zone_minutes z in
  GT_ASN1_TIME_get mktime
    (asn1_time V_ASN1_GENERALIZEDTIME
       (four_digits y ++ two_digits m ++ two_digits d ++ two_digits hour
        ++ two_digits min ++ two_digits sec ++ frac ++ zone_text z))
  = (sign_code y r, Some r)
  /\ (z = Zulu -> sign_code y r = GT_OK).
Proof.
  intros Hy Hm Hd Ht Hfrac Hz r.
  assert (Hd31 : 1 <= d <= 31).
  { unfold days_in_month in Hd.
    destruct (m =? 2); [destruct (is_leap_year y); lia|].
    destruct ((m =? 4) || (m =? 6) || (m =? 9) || (m =? 11)); lia. }
  split.
  - apply (get_with_zone mktime true
             (four_digits y ++ two_digits m ++ two_digits d ++ two_digits hour
              ++ two_digits min ++ two_digits sec) frac z y m d hour min sec);
      try assumption; [|discriminate].
    apply (read_fields_generalized y m d hour min sec (two_digits sec)
             (frac ++ zone_text z ++ [0]) Hm Hd31 Ht (or_introl eq_refl) Hy).
  - intros ->. subst r. cbn [zone_minutes].
    destruct (unix_seconds_sign y m d hour min sec ltac:(lia) Hm Hd31 Ht) as [P N].
    unfold sign_code. destruct (y <? 1970) eqn:E.
    + apply Z.ltb_lt in E. specialize (N E).
      rewrite geb_false by lia. reflexivity.
    + apply Z.ltb_ge in E. specialize (P E).
      rewrite (proj2 (Z.ltb_ge _ 0)) by lia. reflexivity.
Qed.

(** X7. A UTCTime [YYMMDDhhmmss] with a zone is converted like the
    GeneralizedTime of the same fields whose year is [2000 + YY] when [YY]
    is below 50 and [1900 + YY] otherwise: the two digits stand for the
    years 1950 to 2049. *)
Theorem GT_ASN1_TIME_get_utctime (mktime : tm -> Z)
    (yy m d hour min sec : Z) (z : Zone) :
  0 <= yy <= 99 -> 1 <= m <= 12 -> 1 <= d <= days_in_month (utc_year yy) m ->
  time_of_day hour min sec ->
  zone_ok z ->
  GT_ASN1_TIME_get mktime
    (asn1_time V_ASN1_UTCTIME
       (two_digits yy ++ two_digits m ++ two_digits d ++ two_digits hour
        ++ two_digits min ++ two_digits sec ++ zone_text z))
  = GT_ASN1_TIME_get mktime
      (asn1_time V_ASN1_GENERALIZEDTIME
         (four_digits (utc_year yy) ++ two_digits m ++ two_digits d ++ two_digits hour
          ++ two_digits min ++ two_digits sec ++ zone_text z))
  /\ 1950 <= utc_year yy <= 2049.
Proof.
  intros Hyy Hm Hd Ht Hz.
  assert (Hy : 1950 <= utc_year yy <= 2049).
  { unfold utc_year. destruct (yy <? 50) eqn:E; [apply Z.ltb_lt in E|apply Z.ltb_ge in E]; lia. }
  split; [|exact Hy].
  assert (Hd31 : 1 <= d <= 31).
  { unfold days_in_month in Hd.
    destruct (m =? 2); [destruct (is_leap_year (utc_year yy)); lia|].
    destruct ((m =? 4) || (m =? 6) || (m =? 9) || (m =? 11)); lia. }
  etransitivity.
  - apply (get_with_zone mktime false
             (two_digits yy ++ two_digits m ++ two_digits d ++ two_digits hour
              ++ two_digits min ++ two_digits sec) [] z (utc_year yy) m d hour min sec); [|side ..].
    apply (read_fields_utc (utc_year yy) m d hour min sec (two_digits sec)
             (zone_text z ++ [0]) Hm Hd31 Ht (or_introl eq_refl) yy Hyy eq_refl).
  - symmetry.
    apply (get_with_zone mktime true
             (four_digits (utc_year yy) ++ two_digits m ++ two_digits d ++ two_digits hour
              ++ two_digits min ++ two_digits sec) [] z (utc_year yy) m d hour min sec); [|side ..].
    apply (read_fields_generalized (utc_year yy) m d hour min sec (two_digits sec)
             (zone_text z ++ [0]) Hm Hd31 Ht (or_introl eq_refl)). lia.
Qed.

(** X8. The seconds may be left out: a time that ends in the minutes and the
    zone is converted like the same time with the seconds [00]. *)
Theorem GT_ASN1_TIME_get_without_seconds (mktime : tm -> Z) (generalized : bool)
    (y m d hour min : Z) (z : Zone) :
  0 <= y <= (if generalized then 9999 else 99) ->
  1 <= m <= 12 -> 1 <= d <= 31 ->
  0 <= hour <= 23 -> 0 <= min <= 59 ->
  zone_ok z ->
  let year_text := if generalized then four_digits y else two_digits y in
  GT_ASN1_TIME_get mktime
    (asn1_time (time_type generalized)
       (year_text ++ two_digits m ++ two_digits d ++ two_digits hour
        ++ two_digits min ++ zone_text z))
  = GT_ASN1_TIME_get mktime
      (asn1_time (time_type generalized)
         (year_text ++ two_digits m ++ two_digits d ++ two_digits hour
          ++ two_digits min ++ two_digits 0 ++ zone_text z)).
Proof.
  intros Hy Hm Hd Hh Hmi Hz year_text.
  assert (Ht : time_of_day hour min 0) by (unfold time_of_day; lia).
  destruct (zone_first z [0]) as (_ & _ & Z3).
  destruct generalized; subst year_text.
  - etransitivity.
    + apply (get_with_zone mktime true
               (four_digits y ++ two_digits m ++ two_digits d ++ two_digits hour
                ++ two_digits min) [] z y m d hour min 0); [|side ..].
      apply (read_fields_generalized y m d hour min 0 []
               (zone_text z ++ [0]) Hm Hd Ht
               (or_intror (conj eq_refl (conj eq_refl Z3))) Hy).
    + symmetry.
      apply (get_with_zone mktime true
               (four_digits y ++ two_digits m ++ two_digits d ++ two_digits hour
                ++ two_digits min ++ two_digits 0) [] z y m d hour min 0); [|side ..].
      apply (read_fields_generalized y m d hour min 0 (two_digits 0)
               (zone_text z ++ [0]) Hm Hd Ht (or_introl eq_refl) Hy).
  - assert (Hu : 0 <= utc_year y <= 9999).
    { unfold utc_year. destruct (y <? 50); lia. }
    etransitivity.
    + apply (get_with_zone mktime false
               (two_digits y ++ two_digits m ++ two_digits d ++ two_digits hour
                ++ two_digits min) [] z (utc_year y) m d hour min 0); [|side ..].
      apply (read_fields_utc (utc_year y) m d hour min 0 []
               (zone_text z ++ [0]) Hm Hd Ht
               (or_intror (conj eq_refl (conj eq_refl Z3))) y Hy eq_refl).
    + symmetry.
      apply (get_with_zone mktime false
               (two_digits y ++ two_digits m ++ two_digits d ++ two_digits hour
                ++ two_digits min ++ two_digits 0) [] z (utc_year y) m d hour min 0); [|side ..].
      apply (read_fields_utc (utc_year y) m d hour min 0 (two_digits 0)
               (zone_text z ++ [0]) Hm Hd Ht (or_introl eq_refl) y Hy eq_refl).
Qed.

(** X9. The day of the month is only compared with 31: a day after the last
    day of its month, in a month before December, is converted like the
    day of the next month that it counts on to. *)
Theorem GT_ASN1_TIME_get_day_overflow (mktime : tm -> Z)
    (y m d hour min sec : Z) (z : Zone) :
  0 <= y <= 9999 -> 1 <= m <= 11 -> days_in_month y m < d <= 31 ->
  time_of_day hour min sec ->
  zone_ok z ->
  GT_ASN1_TIME_get mktime
    (asn1_time V_ASN1_GENERALIZEDTIME
       (four_digits y ++ two_digits m ++ two_digits d ++ two_digits hour
        ++ two_digits min ++ two_digits sec ++ zone_text z))
  = GT_ASN1_TIME_get mktime
      (asn1_time V_ASN1_GENERALIZEDTIME
         (four_digits y ++ two_digits (m + 1) ++ two_digits (d - days_in_month y m)
          ++ two_digits hour ++ two_digits min ++ two_digits sec ++ zone_text z)).
Proof.
  intros Hy Hm Hd Ht Hz.
  assert (Hdim : 28 <= days_in_month y m <= 31).
  { unfold days_in_month.
    destruct (m =? 2); [destruct (is_leap_year y); lia|].
    destruct ((m =? 4) || (m =? 6) || (m =? 9) || (m =? 11)); lia. }
  assert (E : unix_seconds y (m + 1) (d - days_in_month y m) hour min sec
              = unix_seconds y m d hour min sec).
  { unfold unix_seconds. rewrite days_before_month_succ by lia. lia. }
  etransitivity.
  - apply (get_with_zone mktime true
             (four_digits y ++ two_digits m ++ two_digits d ++ two_digits hour
              ++ two_digits min ++ two_digits sec) [] z y m d hour min sec); [|side ..].
    apply (read_fields_generalized y m d hour min sec (two_digits sec)
             (zone_text z ++ [0]) ltac:(lia) ltac:(lia) Ht (or_introl eq_refl) Hy).
  - symmetry. rewrite <- E.
    apply (get_with_zone mktime true
             (four_digits y ++ two_digits (m + 1) ++ two_digits (d - days_in_month y m)
              ++ two_digits hour ++ two_digits min ++ two_digits sec) [] z
             y (m + 1) (d - days_in_month y m) hour min sec); [|side ..].
    apply (read_fields_generalized y (m + 1) (d - days_in_month y m) hour min sec
             (two_digits sec) (zone_text z ++ [0]) ltac:(lia) ltac:(lia) Ht
             (or_introl eq_refl) Hy).
Qed.

(** X10. A GeneralizedTime without a zone is a local time: [GT_ASN1_TIME_get]
    stores what [mktime] returns for the fields with [tm_isdst = -1], and
    returns [GT_TIME_OVERFLOW] when that is -1, the value [mktime] fails
    with, and [GT_OK] otherwise. *)
Theorem GT_ASN1_TIME_get_local (mktime : tm -> Z)
    (y m d hour min sec : Z) (frac : list Z) :
  0 <= y <= 9999 -> 1 <= m <= 12 -> 1 <= d <= 31 ->
  time_of_day hour min sec ->
  Forall (fun c => fraction_char c = true) frac ->
  let result := mktime (tm_of y m d hour min sec (-1)) in
  GT_ASN1_TIME_get mktime
    (asn1_time V_ASN1_GENERALIZEDTIME
       (four_digits y ++ two_digits m ++ two_digits d ++ two_digits hour
        ++ two_digits min ++ two_digits sec ++ frac))
  = (if result =? -1 then GT_TIME_OVERFLOW else GT_OK, Some result).
Proof.
  intros Hy Hm Hd Ht Hfrac result.
  set (pre := four_digits y ++ two_digits m ++ two_digits d ++ two_digits hour
              ++ two_digits min ++ two_digits sec).
  change (four_digits y ++ two_digits m ++ two_digits d ++ two_digits hour
          ++ two_digits min ++ two_digits sec ++ frac) with (pre ++ frac).
  unfold GT_ASN1_TIME_get, asn1_time. cbn [type length data].
  change (V_ASN1_GENERALIZEDTIME =? V_ASN1_GENERALIZEDTIME) with true.
  cbn [negb andb]. cbv zeta.
  rewrite (rd_here (pre ++ frac) [0] _ eq_refl).
  change (rd [0] 0 =? 0) with true. cbn [negb].
  replace ((pre ++ frac) ++ [0]) with (pre ++ frac ++ [0])
    by (rewrite <- !app_assoc; reflexivity).
  assert (F : read_fields true (pre ++ frac ++ [0])
              = (tm_of y m d hour min sec 0, Z.of_nat (List.length pre), GT_OK)).
  { apply (read_fields_generalized y m d hour min sec (two_digits sec)
             (frac ++ [0]) Hm Hd Ht (or_introl eq_refl) Hy). }
  rewrite F. change (GT_OK =? GT_OK) with true. cbn [negb].
  rewrite (skip_fraction_at frac _ pre [0] _ eq_refl Hfrac eq_refl)
    by (rewrite !length_app; lia).
  replace (pre ++ frac ++ [0]) with ((pre ++ frac) ++ [0])
    by (rewrite <- !app_assoc; reflexivity).
  rewrite (rd_here (pre ++ frac) [0]) by (rewrite length_app; lia).
  change (rd [0] 0 =? 0) with true. cbv iota. reflexivity.
Qed.

Lemma pint_code (d : list Z) (s : Z) (n : nat) (lo hi e : Z) :
  format_code e -> format_code (snd (pint d s n lo hi e)).
Proof.
  intros He. unfold pint.
  destruct (pint_loop d n s 0) as [[v|] s']; cbn [snd].
  - destruct ((v <? lo) || (v >? hi)); [right; reflexivity|exact He].
  - right. reflexivity.
Qed.

Lemma read_fields_code (generalized : bool) (d : list Z) :
  format_code (snd (read_fields generalized d)).
Proof.
  unfold read_fields. cbv zeta.
  assert (H0 : format_code GT_OK) by (left; reflexivity).
  set (first :=
    if generalized
    then let '(v, s, error) := pint d 0 4 0 9999 GT_OK in (v - 1900, s, error)
    else let '(v, s, error) := pint d 0 2 0 99 GT_OK in
         (if v <? 50 then v + 100 else v, s, error)).
  assert (H1 : format_code (snd first)).
  { subst first. destruct generalized.
    - pose proof (pint_code d 0 4 0 9999 GT_OK H0) as P.
      destruct (pint d 0 4 0 9999 GT_OK) as [[v s] e]. exact P.
    - pose proof (pint_code d 0 2 0 99 GT_OK H0) as P.
      destruct (pint d 0 2 0 99 GT_OK) as [[v s] e]. exact P. }
  destruct first as [[year s1] e1]. cbn [snd] in H1.
  pose proof (pint_code d s1 2 1 12 e1 H1) as H2.
  destruct (pint d s1 2 1 12 e1) as [[v2 s2] e2]. cbn [snd] in H2.
  pose proof (pint_code d s2 2 1 31 e2 H2) as H3.
  destruct (pint d s2 2 1 31 e2) as [[v3 s3] e3]. cbn [snd] in H3.
  pose proof (pint_code d s3 2 0 23 e3 H3) as H4.
  destruct (pint d s3 2 0 23 e3) as [[v4 s4] e4]. cbn [snd] in H4.
  pose proof (pint_code d s4 2 0 59 e4 H4) as H5.
  destruct (pint d s4 2 0 59 e4) as [[v5 s5] e5]. cbn [snd] in H5.
  destruct ((rd d s5 >=? 48) && (rd d s5 <=? 57)).
  - pose proof (pint_code d s5 2 0 59 e5 H5) as H6.
    destruct (pint d s5 2 0 59 e5) as [[v6 s6] e6]. exact H6.
  - exact H5.
Qed.

Lemma read_zone_code (d : list Z) (s e : Z) (offset s' e' : Z) :
  format_code e -> read_zone d s e = Some (offset, s', e') -> format_code e'.
Proof.
  intros He. unfold read_zone.
  destruct (rd d s =? 90); [intros [= _ _ <-]; exact He|].
  destruct ((rd d s =? 45) || (rd d s =? 43)); [|discriminate].
  cbv zeta.
  pose proof (pint_code d (s + 1) 2 0 12 e He) as H1.
  destruct (pint d (s + 1) 2 0 12 e) as [[v1 s1] e1]. cbn [snd] in H1.
  pose proof (pint_code d s1 2 0 59 e1 H1) as H2.
  destruct (pint d s1 2 0 59 e1) as [[v2 s2] e2]. cbn [snd] in H2.
  intros [= _ _ <-]. exact H2.
Qed.

(** X11. The codes [GT_ASN1_TIME_get] returns: [GT_INVALID_FORMAT], and then it
    stores nothing, or [GT_OK] or [GT_TIME_OVERFLOW]. *)
Theorem GT_ASN1_TIME_get_codes (mktime : tm -> Z) (a : ASN1_TIME) :
  match GT_ASN1_TIME_get mktime a with
  | (code, None) => code = GT_INVALID_FORMAT
  | (code, Some _) => code = GT_OK \/ code = GT_TIME_OVERFLOW
  end.
Proof.
  unfold GT_ASN1_TIME_get.
  destruct (negb (type a =? V_ASN1_GENERALIZEDTIME) && negb (type a =? V_ASN1_UTCTIME));
    [reflexivity|].
  cbv zeta. destruct (data a) as [d|]; [|reflexivity].
  destruct (negb (rd d (length a) =? 0)); [reflexivity|].
  pose proof (read_fields_code (type a =? V_ASN1_GENERALIZEDTIME) d) as Hf.
  destruct (read_fields (type a =? V_ASN1_GENERALIZEDTIME) d) as [[t s] e].
  cbn [snd] in Hf.
  destruct (negb (e =? GT_OK)) eqn:E.
  - destruct Hf as [->| ->]; [discriminate|reflexivity].
  - apply negb_false_iff in E. apply Z.eqb_eq in E. subst e.
    match goal with
    | |- context [if ?c then (_, Some _) else _] => destruct c
    end.
    + destruct (_ =? -1); [right|left]; reflexivity.
    + match goal with
      | |- context [read_zone d ?p GT_OK] =>
          pose proof (read_zone_code d p GT_OK) as Hz;
          destruct (read_zone d p GT_OK) as [[[offset s'] e']|]
      end; [|reflexivity].
      specialize (Hz offset s' e' ltac:(left; reflexivity) eq_refl).
      destruct (negb (e' =? GT_OK)) eqn:E'.
      * destruct Hz as [->| ->]; [discriminate|reflexivity].
      * destruct (negb (rd d s' =? 0)); [reflexivity|].
        unfold seconds_by_hand. cbv zeta.
        destruct (_ <? 1970).
        -- destruct (_ >=? 0); [right|left]; reflexivity.
        -- destruct (_ <? 0); [right|left]; reflexivity.
Qed.

Ltac closed_range := repeat split; vm_compute; congruence.

Lemma GT_ASN1_TIME_get_generalized_witness :
  GT_ASN1_TIME_get (fun _ => 0)
    (asn1_time V_ASN1_GENERALIZEDTIME
       (four_digits 1970 ++ two_digits 1 ++ two_digits 1 ++ two_digits 0
        ++ two_digits 30 ++ two_digits 0 ++ [46; 53] ++ zone_text (Ahead 1 0)))
  = (GT_TIME_OVERFLOW, Some (-1800)).
Proof.
  refine (proj1 (GT_ASN1_TIME_get_generalized (fun _ => 0) 1970 1 1 0 30 0 [46; 53]
                   (Ahead 1 0) _ _ _ _ _ _)).
  - closed_range.
  - closed_range.
  - closed_range.
  - closed_range.
  - repeat constructor.
  - closed_range.
Defined.

Lemma GT_ASN1_TIME_get_utctime_witness :
  GT_ASN1_TIME_get (fun _ => 0)
    (asn1_time V_ASN1_UTCTIME
       (two_digits 49 ++ two_digits 12 ++ two_digits 31 ++ two_digits 23
        ++ two_digits 59 ++ two_digits 59 ++ zone_text Zulu))
  = GT_ASN1_TIME_get (fun _ => 0)
      (asn1_time V_ASN1_GENERALIZEDTIME
         (four_digits (utc_year 49) ++ two_digits 12 ++ two_digits 31 ++ two_digits 23
          ++ two_digits 59 ++ two_digits 59 ++ zone_text Zulu))
  /\ utc_year 49 = 2049.
Proof.
  split; [|reflexivity].
  refine (proj1 (GT_ASN1_TIME_get_utctime (fun _ => 0) 49 12 31 23 59 59 Zulu _ _ _ _ _)).
  - closed_range.
  - closed_range.
  - closed_range.
  - closed_range.
  - exact I.
Defined.

Lemma GT_ASN1_TIME_get_without_seconds_witness :
  GT_ASN1_TIME_get (fun _ => 0)
    (asn1_time (time_type false)
       (two_digits 70 ++ two_digits 1 ++ two_digits 1 ++ two_digits 0
        ++ two_digits 0 ++ zone_text Zulu))
  = GT_ASN1_TIME_get (fun _ => 0)
      (asn1_time (time_type false)
         (two_digits 70 ++ two_digits 1 ++ two_digits 1 ++ two_digits 0
          ++ two_digits 0 ++ two_digits 0 ++ zone_text Zulu)).
Proof.
  refine (GT_ASN1_TIME_get_without_seconds (fun _ => 0) false 70 1 1 0 0 Zulu _ _ _ _ _ _).
  - closed_range.
  - closed_range.
  - closed_range.
  - closed_range.
  - closed_range.
  - exact I.
Defined.

Lemma GT_ASN1_TIME_get_day_overflow_witness :
  GT_ASN1_TIME_get (fun _ => 0)
    (asn1_time V_ASN1_GENERALIZEDTIME
       (four_digits 2023 ++ two_digits 2 ++ two_digits 31 ++ two_digits 12
        ++ two_digits 0 ++ two_digits 0 ++ zone_text Zulu))
  = GT_ASN1_TIME_get (fun _ => 0)
      (asn1_time V_ASN1_GENERALIZEDTIME
         (four_digits 2023 ++ two_digits (2 + 1) ++ two_digits (31 - days_in_month 2023 2)
          ++ two_digits 12 ++ two_digits 0 ++ two_digits 0 ++ zone_text Zulu))
  /\ 31 - days_in_month 2023 2 = 3.
Proof.
  split; [|reflexivity].
  refine (GT_ASN1_TIME_get_day_overflow (fun _ => 0) 2023 2 31 12 0 0 Zulu _ _ _ _ _).
  - closed_range.
  - closed_range.
  - closed_range.
  - closed_range.
  - exact I.
Defined.

Lemma GT_ASN1_TIME_get_local_witness :
  GT_ASN1_TIME_get (fun t => tm_hour t * 3600)
    (asn1_time V_ASN1_GENERALIZEDTIME
       (four_digits 2026 ++ two_digits 1 ++ two_digits 2 ++ two_digits 3
        ++ two_digits 4 ++ two_digits 5 ++ []))
  = (GT_OK, Some 10800).
Proof.
  refine (GT_ASN1_TIME_get_local (fun t => tm_hour t * 3600) 2026 1 2 3 4 5 [] _ _ _ _ _).
  - closed_range.
  - closed_range.
  - closed_range.
  - closed_range.
  - constructor.
Defined.

Lemma reads_at_nil (d : list Z) (s : Z) : reads_at d s [].
Proof. intros i Hi. cbn in Hi. lia. Qed.

Lemma reads_at_app (d : list Z) (s : Z) (a b : list Z) :
  reads_at d s a -> reads_at d (s + Z.of_nat (List.length a)) b ->
  reads_at d s (a ++ b).
Proof.
  intros Ha Hb i Hi. rewrite length_app in Hi.
  destruct (Z.lt_ge_cases i (Z.of_nat (List.length a))) as [L|G].
  - rewrite Ha by lia. unfold rd.
    rewrite !(proj2 (Z.ltb_ge i 0)) by lia.
    rewrite lookup_app_l by lia. reflexivity.
  - replace (s + i) with (s + Z.of_nat (List.length a) + (i - Z.of_nat (List.length a)))
      by lia.
    rewrite Hb by lia.
    replace i with (Z.of_nat (List.length a) + (i - Z.of_nat (List.length a))) at 2 by lia.
    rewrite rd_app_r by lia. reflexivity.
Qed.

Lemma reads_at_two (d : list Z) (s c1 c2 : Z) :
  rd d s = c1 -> rd d (s + 1) = c2 -> reads_at d s [c1; c2].
Proof.
  intros H1 H2 i Hi. cbn [List.length] in Hi.
  assert (C : i = 0 \/ i = 1) by lia.
  destruct C as [-> | ->]; [rewrite Z.add_0_r; exact H1|exact H2].
Qed.

Lemma reads_at_four (d : list Z) (s c1 c2 c3 c4 : Z) :
  rd d s = c1 -> rd d (s + 1) = c2 -> rd d (s + 2) = c3 -> rd d (s + 3) = c4 ->
  reads_at d s [c1; c2; c3; c4].
Proof.
  intros H1 H2 H3 H4 i Hi. cbn [List.length] in Hi.
  assert (C : i = 0 \/ i = 1 \/ i = 2 \/ i = 3) by lia.
  destruct C as [-> | [-> | [-> | ->]]]; [rewrite Z.add_0_r| | |]; assumption.
Qed.

(** What a call of [pint] that leaves no error has read. *)
Lemma pint_loop_digit (d : list Z) (n : nat) :
  forall s acc v s',
    pint_loop d n s acc = (Some v, s') ->
    s' = s + Z.of_nat n
    /\ forall i, 0 <= i < Z.of_nat n -> 48 <= rd d (s + i) <= 57.
Proof.
  induction n as [|n IH]; intros s acc v s'; cbn [pint_loop].
  - intros [= _ <-]. split; [cbn; lia|]. intros i Hi. cbn in Hi. lia.
  - destruct ((rd d s <? 48) || (rd d s >? 57)) eqn:E; [discriminate|].
    apply orb_false_iff in E. destruct E as [E1 E2].
    apply Z.ltb_ge in E1. rewrite Z.gtb_ltb in E2. apply Z.ltb_ge in E2.
    intros H. destruct (IH _ _ _ _ H) as (-> & Hd).
    split; [lia|]. intros i Hi.
    destruct (Z.eq_dec i 0) as [->|Hne]; [rewrite Z.add_0_r; lia|].
    replace (s + i) with (s + 1 + (i - 1)) by lia. apply Hd. lia.
Qed.

Lemma pint_two_inv (d : list Z) (s lo hi e v s' : Z) :
  pint d s 2 lo hi e = (v, s', GT_OK) ->
  e = GT_OK /\ s' = s + 2 /\ lo <= v <= hi /\ 0 <= v <= 99
  /\ reads_at d s (two_digits v).
Proof.
  unfold pint.
  destruct (pint_loop d 2 s 0) as [[r|] s1] eqn:L; [|discriminate].
  destruct ((r <? lo) || (r >? hi)) eqn:R; [discriminate|].
  intros [= <- <- <-].
  apply orb_false_iff in R. destruct R as [R1 R2].
  apply Z.ltb_ge in R1. rewrite Z.gtb_ltb in R2. apply Z.ltb_ge in R2.
  destruct (pint_loop_digit d 2 s 0 r s1 L) as (-> & Hd).
  pose proof (Hd 0 ltac:(lia)) as D0. pose proof (Hd 1 ltac:(lia)) as D1.
  rewrite Z.add_0_r in D0.
  cbn [pint_loop] in L.
  rewrite (proj2 (Z.ltb_ge (rd d s) 48)), (gtb_false (rd d s) 57) in L by lia.
  rewrite (proj2 (Z.ltb_ge (rd d (s + 1)) 48)), (gtb_false (rd d (s + 1)) 57) in L by lia.
  cbn [orb] in L. injection L as L.
  split; [reflexivity|]. split; [cbn; lia|]. split; [lia|]. split; [lia|].
  unfold two_digits. apply reads_at_two; Z.div_mod_to_equations; lia.
Qed.

Lemma pint_four_inv (d : list Z) (s lo hi e v s' : Z) :
  pint d s 4 lo hi e = (v, s', GT_OK) ->
  e = GT_OK /\ s' = s + 4 /\ lo <= v <= hi /\ 0 <= v <= 9999
  /\ reads_at d s (four_digits v).
Proof.
  unfold pint.
  destruct (pint_loop d 4 s 0) as [[r|] s1] eqn:L; [|discriminate].
  destruct ((r <? lo) || (r >? hi)) eqn:R; [discriminate|].
  intros [= <- <- <-].
  apply orb_false_iff in R. destruct R as [R1 R2].
  apply Z.ltb_ge in R1. rewrite Z.gtb_ltb in R2. apply Z.ltb_ge in R2.
  destruct (pint_loop_digit d 4 s 0 r s1 L) as (-> & Hd).
  pose proof (Hd 0 ltac:(lia)) as D0. pose proof (Hd 1 ltac:(lia)) as D1.
  pose proof (Hd 2 ltac:(lia)) as D2. pose proof (Hd 3 ltac:(lia)) as D3.
  rewrite Z.add_0_r in D0.
  cbn [pint_loop] in L.
  replace (s + 1 + 1) with (s + 2) in L by lia.
  replace (s + 2 + 1) with (s + 3) in L by lia.
  rewrite (proj2 (Z.ltb_ge (rd d s) 48)), (gtb_false (rd d s) 57) in L by lia.
  rewrite (proj2 (Z.ltb_ge (rd d (s + 1)) 48)), (gtb_false (rd d (s + 1)) 57) in L by lia.
  rewrite (proj2 (Z.ltb_ge (rd d (s + 2)) 48)), (gtb_false (rd d (s + 2)) 57) in L by lia.
  rewrite (proj2 (Z.ltb_ge (rd d (s + 3)) 48)), (gtb_false (rd d (s + 3)) 57) in L by lia.
  cbn [orb] in L. injection L as L.
  split; [reflexivity|]. split; [cbn; lia|]. split; [lia|]. split; [lia|].
  unfold four_digits.
  set (c0 := rd d s) in *. set (c1 := rd d (s + 1)) in *.
  set (c2 := rd d (s + 2)) in *. set (c3 := rd d (s + 3)) in *.
  apply reads_at_four; fold c0 c1 c2 c3; Z.div_mod_to_equations; lia.
Qed.

Lemma reads_at_fields (d y m dd hour min sec : list Z) :
  let n := Z.of_nat (List.length y) in
  List.length m = 2%nat -> List.length dd = 2%nat ->
  List.length hour = 2%nat -> List.length min = 2%nat ->
  reads_at d 0 y -> reads_at d n m -> reads_at d (n + 2) dd ->
  reads_at d (n + 2 + 2) hour -> reads_at d (n + 2 + 2 + 2) min ->
  reads_at d (n + 2 + 2 + 2 + 2) sec ->
  reads_at d 0 (y ++ m ++ dd ++ hour ++ min ++ sec).
Proof.
  intros n L1 L2 L3 L4 R0 R1 R2 R3 R4 R5.
  apply reads_at_app; [exact R0|]. rewrite Z.add_0_l. fold n.
  apply reads_at_app; [exact R1|]. rewrite L1. change (Z.of_nat 2) with 2.
  apply reads_at_app; [exact R2|]. rewrite L2. change (Z.of_nat 2) with 2.
  apply reads_at_app; [exact R3|]. rewrite L3. change (Z.of_nat 2) with 2.
  apply reads_at_app; [exact R4|]. rewrite L4. change (Z.of_nat 2) with 2.
  exact R5.
Qed.

(** The fields that [read_fields] has read when it leaves no error. *)
Lemma read_fields_inv (generalized : bool) (d : list Z) (t : tm) (s : Z) :
  read_fields generalized d = (t, s, GT_OK) ->
  exists y m dd hour min sec sec_text,
    reads_at d 0 (year_text generalized y ++ two_digits m ++ two_digits dd
                  ++ two_digits hour ++ two_digits min ++ sec_text)
    /\ s = Z.of_nat (List.length (year_text generalized y)) + 8
           + Z.of_nat (List.length sec_text)
    /\ year_range generalized y /\ 1 <= m <= 12 /\ 1 <= dd <= 31
    /\ time_of_day hour min sec
    /\ (sec_text = two_digits sec
        \/ (sec_text = [] /\ sec = 0 /\ (rd d s >=? 48) && (rd d s <=? 57) = false)).
Proof.
  unfold read_fields. cbv zeta.
  set (first :=
    if generalized
    then let '(v, s, error) := pint d 0 4 0 9999 GT_OK in (v - 1900, s, error)
    else let '(v, s, error) := pint d 0 2 0 99 GT_OK in
         (if v <? 50 then v + 100 else v, s, error)).
  assert (F : forall year s1, first = (year, s1, GT_OK) ->
            exists y, reads_at d 0 (year_text generalized y)
                      /\ s1 = Z.of_nat (List.length (year_text generalized y))
                      /\ year_range generalized y).
  { intros year s1. subst first. destruct generalized.
    - destruct (pint d 0 4 0 9999 GT_OK) as [[v s0] e0] eqn:P. intros [= _ <- ->].
      destruct (pint_four_inv _ _ _ _ _ _ _ P) as (_ & -> & R & _ & Rd).
      exists v. split; [exact Rd|]. split; [reflexivity|exact R].
    - destruct (pint d 0 2 0 99 GT_OK) as [[v s0] e0] eqn:P. intros [= _ <- ->].
      destruct (pint_two_inv _ _ _ _ _ _ _ P) as (_ & -> & R & _ & Rd).
      exists v. split; [exact Rd|]. split; [reflexivity|exact R]. }
  destruct first as [[year s1] e1].
  destruct (pint d s1 2 1 12 e1) as [[v2 s2] e2] eqn:P2.
  destruct (pint d s2 2 1 31 e2) as [[v3 s3] e3] eqn:P3.
  destruct (pint d s3 2 0 23 e3) as [[v4 s4] e4] eqn:P4.
  destruct (pint d s4 2 0 59 e4) as [[v5 s5] e5] eqn:P5.
  destruct ((rd d s5 >=? 48) && (rd d s5 <=? 57)) eqn:Dg.
  - destruct (pint d s5 2 0 59 e5) as [[v6 s6] e6] eqn:P6.
    intros [= _ <- ->].
    destruct (pint_two_inv _ _ _ _ _ _ _ P6) as (-> & -> & R6 & _ & Rd6).
    destruct (pint_two_inv _ _ _ _ _ _ _ P5) as (-> & -> & R5 & _ & Rd5).
    destruct (pint_two_inv _ _ _ _ _ _ _ P4) as (-> & -> & R4 & _ & Rd4).
    destruct (pint_two_inv _ _ _ _ _ _ _ P3) as (-> & -> & R3 & _ & Rd3).
    destruct (pint_two_inv _ _ _ _ _ _ _ P2) as (-> & -> & R2 & _ & Rd2).
    destruct (F year s1 eq_refl) as (y & Rd1 & -> & Ry).
    exists y, v2, v3, v4, v5, v6, (two_digits v6).
    split; [apply reads_at_fields; try reflexivity; assumption|].
    split; [cbn [List.length two_digits]; lia|].
    repeat split; try lia; try assumption. left. reflexivity.
  - intros [= _ <- ->].
    destruct (pint_two_inv _ _ _ _ _ _ _ P5) as (-> & -> & R5 & _ & Rd5).
    destruct (pint_two_inv _ _ _ _ _ _ _ P4) as (-> & -> & R4 & _ & Rd4).
    destruct (pint_two_inv _ _ _ _ _ _ _ P3) as (-> & -> & R3 & _ & Rd3).
    destruct (pint_two_inv _ _ _ _ _ _ _ P2) as (-> & -> & R2 & _ & Rd2).
    destruct (F year s1 eq_refl) as (y & Rd1 & -> & Ry).
    exists y, v2, v3, v4, v5, 0, [].
    split; [apply reads_at_fields; try reflexivity; try assumption;
            apply reads_at_nil|].
    split; [cbn [List.length]; lia|].
    repeat split; try lia; try assumption. right.
    split; [reflexivity|]. split; [reflexivity|exact Dg].
Qed.

(** What the loop over fractional seconds has skipped. *)
Lemma skip_fraction_inv (d : list Z) (fuel : nat) :
  forall s, exists frac,
    skip_fraction fuel d s = s + Z.of_nat (List.length frac)
    /\ reads_at d s frac
    /\ Forall (fun c => fraction_char c = true) frac.
Proof.
  induction fuel as [|fuel IH]; intros s; cbn [skip_fraction].
  - exists []. split; [cbn; lia|]. split; [apply reads_at_nil|constructor].
  - destruct ((rd d s =? 46) || (rd d s =? 44) || ((rd d s >=? 48) && (rd d s <=? 57)))
      eqn:E.
    + destruct (IH (s + 1)) as (frac & Es & R & F).
      exists (rd d s :: frac). split; [rewrite Es; cbn [List.length]; lia|].
      split; [|constructor; [exact E|exact F]].
      change (rd d s :: frac) with ([rd d s] ++ frac).
      apply reads_at_app; [|exact R].
      intros i Hi. cbn [List.length] in Hi. replace i with 0 by lia.
      rewrite Z.add_0_r. reflexivity.
    + exists []. split; [cbn; lia|]. split; [apply reads_at_nil|constructor].
Qed.

(** The zone that [read_zone] has read when it leaves no error. *)
Lemma read_zone_inv (d : list Z) (s e offset s' : Z) :
  read_zone d s e = Some (offset, s', GT_OK) ->
  exists z, zone_ok z /\ reads_at d s (zone_text z)
            /\ s' = s + Z.of_nat (List.length (zone_text z)).
Proof.
  unfold read_zone.
  destruct (rd d s =? 90) eqn:Z0.
  { intros [= _ <- _]. apply Z.eqb_eq in Z0. exists Zulu.
    split; [exact I|]. split; [|cbn; lia].
    intros i Hi. cbn in Hi. replace i with 0 by lia. rewrite Z.add_0_r. exact Z0. }
  destruct ((rd d s =? 45) || (rd d s =? 43)) eqn:Sg; [|discriminate].
  cbv zeta.
  destruct (pint d (s + 1) 2 0 12 e) as [[v1 s1] e1] eqn:P1.
  destruct (pint d s1 2 0 59 e1) as [[v2 s2] e2] eqn:P2.
  intros [= _ <- ->].
  destruct (pint_two_inv _ _ _ _ _ _ _ P2) as (-> & -> & R2 & _ & Rd2).
  destruct (pint_two_inv _ _ _ _ _ _ _ P1) as (_ & -> & R1 & _ & Rd1).
  assert (Rz : forall c, rd d s = c ->
            reads_at d s (c :: two_digits v1 ++ two_digits v2)).
  { intros c Hc.
    change (c :: two_digits v1 ++ two_digits v2)
      with ([c] ++ two_digits v1 ++ two_digits v2).
    apply reads_at_app.
    - intros i Hi. cbn [List.length] in Hi. replace i with 0 by lia.
      rewrite Z.add_0_r. exact Hc.
    - apply reads_at_app; [exact Rd1|].
      replace (s + Z.of_nat (List.length [c]) + Z.of_nat (List.length (two_digits v1)))
        with (s + 1 + 2) by (cbn; lia).
      exact Rd2. }
  destruct (rd d s =? 45) eqn:M.
  - apply Z.eqb_eq in M. exists (Behind v1 v2).
    split; [cbn; lia|]. split; [apply Rz; exact M|cbn; lia].
  - cbn [orb] in Sg. apply Z.eqb_eq in Sg. exists (Ahead v1 v2).
    split; [cbn; lia|]. split; [apply Rz; exact Sg|cbn; lia].
Qed.

Lemma reads_at_first (d : list Z) (s : Z) (text rest : list Z) :
  reads_at d s (text ++ rest) -> rest <> [] ->
  rd d (s + Z.of_nat (List.length text)) = rd rest 0.
Proof.
  intros R Hne. rewrite (R (Z.of_nat (List.length text))).
  - replace (Z.of_nat (List.length text)) with (Z.of_nat (List.length text) + 0) at 1
      by lia.
    apply rd_app_r. lia.
  - rewrite length_app. destruct rest; [congruence|cbn [List.length]; lia].
Qed.

(** X12. [GT_ASN1_TIME_get] stores a value only for a text of the form it is
    written for.  The type tag is that of a UTCTime or a GeneralizedTime,
    and the buffer holds, up to a terminator: the year (two digits, four in
    a GeneralizedTime), month 01 to 12, day 01 to 31, hour 00 to 23, minute
    00 to 59, perhaps the second 00 to 59; in a GeneralizedTime any run of
    digits, full stops and commas; then [Z] or a sign with hours 00 to 12
    and minutes 00 to 59 (in a GeneralizedTime the zone may be missing).
    The terminator need not be the one at [a->length]. *)
Theorem GT_ASN1_TIME_get_accepts (mktime : tm -> Z) (a : ASN1_TIME) (code v : Z) :
  GT_ASN1_TIME_get mktime a = (code, Some v) ->
  exists generalized d text,
    type a = time_type generalized /\ data a = Some d
    /\ rd d (length a) = 0
    /\ time_text generalized text
    /\ reads_at d 0 (text ++ [0]).
Proof.
  unfold GT_ASN1_TIME_get.
  destruct (negb (type a =? V_ASN1_GENERALIZEDTIME) && negb (type a =? V_ASN1_UTCTIME))
    eqn:Ty; [discriminate|].
  cbv zeta. destruct (data a) as [d|]; [|discriminate].
  destruct (rd d (length a) =? 0) eqn:T0; cbn [negb]; [|discriminate].
  apply Z.eqb_eq in T0.
  set (g := type a =? V_ASN1_GENERALIZEDTIME) in *.
  assert (Hty : type a = time_type g).
  { subst g. destruct (type a =? V_ASN1_GENERALIZEDTIME) eqn:G.
    - apply Z.eqb_eq in G. exact G.
    - cbn [negb andb] in Ty. apply negb_false_iff in Ty. apply Z.eqb_eq in Ty. exact Ty. }
  destruct (read_fields g d) as [[t s] e] eqn:Rf.
  destruct (e =? GT_OK) eqn:E; cbn [negb]; [|discriminate].
  apply Z.eqb_eq in E. subst e.
  destruct (read_fields_inv g d t s Rf)
    as (y & m & dd & hour & min & sec & sec_text & Rd & Hs & Ry & Rm & Rdd & Rt & Sec).
  set (pre := year_text g y ++ two_digits m ++ two_digits dd ++ two_digits hour
              ++ two_digits min ++ sec_text) in *.
  assert (Lp : s = Z.of_nat (List.length pre)).
  { subst pre. rewrite !length_app. cbn [List.length two_digits]. lia. }
  assert (Fr : exists frac,
             (if g then skip_fraction (List.length d) d s else s)
             = s + Z.of_nat (List.length frac)
             /\ reads_at d s frac
             /\ Forall (fun c => fraction_char c = true) frac
             /\ (g = false -> frac = [])).
  { destruct g.
    - destruct (skip_fraction_inv d (List.length d) s) as (frac & Es & R & F).
      exists frac. repeat split; try assumption. discriminate.
    - exists []. split; [cbn; lia|]. split; [apply reads_at_nil|].
      split; [constructor|reflexivity]. }
  destruct Fr as (frac & -> & Rfrac & Ffrac & Gfrac).
  set (s1 := s + Z.of_nat (List.length frac)).
  assert (Build : forall ztext, zone_end g ztext ->
            reads_at d s1 ztext ->
            rd d (s1 + Z.of_nat (List.length ztext)) = 0 ->
            exists generalized d0 text,
              time_type g = time_type generalized /\ Some d = Some d0
              /\ rd d0 (length a) = 0
              /\ time_text generalized text
              /\ reads_at d0 0 (text ++ [0])).
  { intros ztext Hz Rz Rend.
    assert (Rall : reads_at d 0 (pre ++ frac ++ ztext ++ [0])).
    { apply reads_at_app; [exact Rd|]. rewrite Z.add_0_l, <- Lp.
      apply reads_at_app; [exact Rfrac|]. fold s1.
      apply reads_at_app; [exact Rz|].
      intros i Hi. cbn [List.length] in Hi. replace i with 0 by lia.
      rewrite Z.add_0_r. exact Rend. }
    exists g, d, (pre ++ frac ++ ztext).
    split; [reflexivity|]. split; [reflexivity|]. split; [exact T0|].
    split.
    - exists y, m, dd, hour, min, sec, sec_text, frac, ztext.
      split; [subst pre; rewrite <- !app_assoc; reflexivity|].
      split; [exact Ry|]. split; [exact Rm|]. split; [exact Rdd|].
      split; [exact Rt|].
      split; [|split; [exact Ffrac|split; [exact Gfrac|exact Hz]]].
      destruct Sec as [Sec|(S1 & S2 & S3)]; [left; exact Sec|right].
      split; [exact S1|]. split; [exact S2|].
      assert (Hr : rd (frac ++ ztext ++ [0]) 0 = rd d s).
      { rewrite Lp. replace (Z.of_nat (List.length pre))
          with (0 + Z.of_nat (List.length pre)) by lia.
        symmetry. apply (reads_at_first d 0 pre (frac ++ ztext ++ [0]) Rall).
        destruct frac; [destruct ztext|]; discriminate. }
      rewrite Hr. exact S3.
    - rewrite <- !app_assoc. exact Rall. }
  rewrite Hty.
  destruct (g && (rd d s1 =? 0)) eqn:Loc.
  - intros _. apply andb_true_iff in Loc. destruct Loc as [G L].
    apply Z.eqb_eq in L.
    apply (Build []); [left; split; [exact G|reflexivity]|apply reads_at_nil|].
    cbn [List.length]. rewrite Z.add_0_r. exact L.
  - destruct (read_zone d s1 GT_OK) as [[[offset s2] e2]|] eqn:Rz; [|discriminate].
    destruct (e2 =? GT_OK) eqn:E2; cbn [negb]; [|discriminate].
    apply Z.eqb_eq in E2. subst e2.
    destruct (rd d s2 =? 0) eqn:End; cbn [negb]; [|discriminate].
    apply Z.eqb_eq in End. intros _.
    destruct (read_zone_inv d s1 GT_OK offset s2 Rz) as (z & Hz & Rzt & ->).
    apply (Build (zone_text z)); [right; exists z; split; [exact Hz|reflexivity]| |];
      assumption.
Qed.

Lemma GT_ASN1_TIME_get_accepts_witness :
  exists generalized d text,
    type (asn1_time V_ASN1_UTCTIME (Location.codes "700101000000Z"))
    = time_type generalized
    /\ data (asn1_time V_ASN1_UTCTIME (Location.codes "700101000000Z")) = Some d
    /\ rd d (length (asn1_time V_ASN1_UTCTIME (Location.codes "700101000000Z"))) = 0
    /\ time_text generalized text
    /\ reads_at d 0 (text ++ [0]).
Proof.
  apply (GT_ASN1_TIME_get_accepts (fun _ => 0)
           (asn1_time V_ASN1_UTCTIME (Location.codes "700101000000Z")) GT_OK 0).
  vm_compute. reflexivity.
Defined.

End Asn1TimeGet.

Section LocationWalk.
Import Location.

Ltac destruct_pairs :=
  repeat match goal with
         | |- context [let '(_, _) := ?x in _] => destruct x eqn:?
         end.

(** [collectBits] never raises the count of bits. *)
Lemma collectBits_loop_le (n : nat) (buf : list Z) :
  forall len res, snd (collectBits_loop n buf len res) <= len.
Proof.
  induction n as [|n IH]; intros len res; cbn [collectBits_loop snd]; [lia|].
  destruct (len >? 0); cbn [snd]; [|lia].
  specialize (IH (len - 1) (Z.lor (Z.shiftl res 1 mod 2 ^ 32) (rd buf (len - 1)))). lia.
Qed.

Lemma collectBits_le (buf : list Z) (len num : Z) :
  snd (collectBits buf len num) <= len.
Proof. apply collectBits_loop_le. Qed.

Lemma checkName_le (data steps : list Z) (len : Z) (name : option Z) (name_len : Z) :
  snd (checkName data steps len name name_len) <= len.
Proof.
  unfold checkName.
  repeat match goal with
         | |- context [if ?b then _ else _] => destruct b
         end; cbn [snd]; lia.
Qed.

Lemma region_block_le (data : list Z) (st : LocState) (ab sl : Z)
    (name : option Z) (name_len : Z) :
  snd (region_block data st ab sl name name_len) <= num_bits st.
Proof.
  unfold region_block.
  pose proof (collectBits_le (bits st) (num_bits st) ab) as H1.
  destruct (collectBits (bits st) (num_bits st) ab) as [m n1]. cbn [snd] in H1.
  pose proof (collectBits_le (bits st) n1 sl) as H2.
  destruct (collectBits (bits st) n1 sl) as [s n2]. cbn [snd] in H2.
  pose proof (checkName_le data (steps st) n2 name name_len) as H3.
  destruct (checkName data (steps st) n2 name name_len) as [[nm nl] n3]. cbn [snd] in H3.
  pose proof (collectBits_le (bits st) n3 n3) as H4.
  destruct (collectBits (bits st) n3 n3) as [c n4]. cbn [snd] in H4.
  cbn [snd]. lia.
Qed.

Lemma top_block_le (data : list Z) (st : LocState) :
  num_bits (top_block data st) <= num_bits st.
Proof.
  unfold top_block.
  pose proof (region_block_le data st ab_bits_top slot_bits_top
                (national_name (loc st)) (national_name_len (loc st))) as H.
  destruct (region_block _ _ _ _ _ _) as [[[[[m s] nm] nl] c] n]. exact H.
Qed.

Lemma national_block_le (data : list Z) (st : LocState) :
  num_bits (national_block data st) <= num_bits st.
Proof.
  unfold national_block.
  pose proof (region_block_le data st ab_bits_national slot_bits_national
                (state_name (loc st)) (state_name_len (loc st))) as H.
  destruct (region_block _ _ _ _ _ _) as [[[[[m s] nm] nl] c] n]. exact H.
Qed.

Lemma state_block_le (data : list Z) (st : LocState) :
  num_bits (state_block data st) <= num_bits st.
Proof.
  unfold state_block.
  pose proof (region_block_le data st ab_bits_state slot_bits_state
                (local_name (loc st)) (local_name_len (loc st))) as H.
  destruct (region_block _ _ _ _ _ _) as [[[[[m s] nm] nl] c] n]. exact H.
Qed.

Lemma client_block_le (data : list Z) (st : LocState) :
  num_bits (client_block data st) <= num_bits st.
Proof.
  unfold client_block.
  pose proof (checkName_le data (steps st) (num_bits st)
                (client_name (loc st)) (client_name_len (loc st))) as H.
  destruct (checkName _ _ _ _ _) as [[nm nl] n]. exact H.
Qed.

Lemma when_le (b : bool) (f : LocState -> LocState) (st : LocState) :
  (forall s, num_bits (f s) <= num_bits s) -> num_bits (when b f st) <= num_bits st.
Proof. intros H. unfold when. destruct b; [apply H|lia]. Qed.

Lemma region_blocks_le (data : list Z) (hash_level ll : Z) (st : LocState) :
  num_bits (region_blocks data hash_level ll st) <= num_bits st.
Proof.
  unfold region_blocks, upper_blocks.
  etransitivity; [apply when_le, client_block_le|].
  etransitivity; [apply when_le, state_block_le|].
  etransitivity; [apply when_le, national_block_le|].
  apply when_le, top_block_le.
Qed.

Lemma hash_size_min (a : Z) : GT_getHashSize a <> 0 -> 20 <= GT_getHashSize a.
Proof. unfold GT_getHashSize. repeat destruct (Z.eqb _ _); lia. Qed.

(** A round that continues has moved over at least 24 bytes of the chain
    and has one more bit at most. *)
Lemma loc_step_advance (data : list Z) (st st' : LocState) :
  loc_step data st = Continue st' ->
  num_bits st < 256
  /\ num_bits st' <= num_bits st + 1
  /\ p st + 24 <= p st'
  /\ p st' <= Z.of_nat (List.length data).
Proof.
  intros Hc.
  destruct (loc_step_inv data st st' (or_intror Hc)) as (Hn & r & Hr).
  rewrite (loc_step_read data st r Hn Hr) in Hc.
  destruct (crosses hasher_level (rs_level r) (last_level st)); [discriminate|].
  injection Hc as <-.
  destruct (read_step_direction data (p st) r Hr) as (_ & S1 & S2 & N).
  destruct (read_step_bytes data (p st) r Hr) as (_ & _ & _ & B).
  pose proof (hash_size_min (rs_algorithm r)) as Hm.
  pose proof (region_blocks_le data (rs_level r) (last_level st)
                (remember_step st (rs_next r))) as Hle.
  cbn [push_bit num_bits p]. rewrite region_blocks_p.
  cbn [remember_step num_bits p] in *.
  repeat split; lia.
Qed.

(** The loop leaves [steps[256]] alone as long as fewer than 256 steps of
    24 bytes fit before the read position. *)
Lemma extract_loop_no_overrun (data : list Z) :
  forall fuel st,
    24 * num_bits st <= p st ->
    p st <= Z.of_nat (List.length data) ->
    Z.of_nat (List.length data) < 6144 ->
    extract_loop fuel data st <> Some Overrun.
Proof.
  induction fuel as [|fuel IH]; intros st H1 H2 H3; cbn [extract_loop]; [discriminate|].
  destruct (loc_step data st) as [res| |st1|st1] eqn:E; try discriminate.
  - unfold loc_step in E.
    destruct (num_bits st >=? 256) eqn:G.
    + rewrite Z.geb_leb in G. apply Z.leb_le in G. lia.
    + destruct (read_step data (p st)); [discriminate|].
      destruct (crosses _ _ _); discriminate.
  - destruct (loc_step_advance data st st1 E) as (A1 & A2 & A3 & A4).
    apply IH; lia.
Qed.

Lemma extractLocation_returns (malloc_ok : bool) (hash_chain : list Z) :
  Z.of_nat (List.length hash_chain) < 6144 ->
  extractLocation malloc_ok hash_chain <> None.
Proof.
  intros Hlen E. apply extractLocation_undefined in E.
  apply (extract_loop_no_overrun hash_chain (S (List.length hash_chain)) init_state);
    [cbn; lia|cbn; lia|exact Hlen|exact E].
Qed.

(** The codes the loop leaves with. *)
Lemma read_step_code (data : list Z) (pos res : Z) :
  read_step data pos = inl res -> res = GT_INVALID_LINKING_INFO.
Proof.
  unfold read_step.
  repeat match goal with
         | |- context [if ?b then _ else _] => destruct b
         end; congruence.
Qed.

Lemma extract_loop_code (data : list Z) :
  forall fuel st res,
    extract_loop fuel data st = Some (Invalid res) -> res = GT_INVALID_LINKING_INFO.
Proof.
  induction fuel as [|fuel IH]; intros st res; cbn [extract_loop]; [discriminate|].
  destruct (loc_step data st) as [res1| |st1|st1] eqn:E; try discriminate.
  - intros [= <-]. unfold loc_step in E.
    destruct (num_bits st >=? 256); [discriminate|].
    destruct (read_step data (p st)) eqn:R.
    + injection E as <-. eapply read_step_code; eassumption.
    + destruct (crosses _ _ _); discriminate.
  - apply IH.
Qed.



Lemma window_value_last (buf : list Z) (k : nat) :
  forall lo, window_value buf lo (S k)
             = window_value buf lo k + rd buf (lo + Z.of_nat k) * 2 ^ Z.of_nat k.
Proof.
  induction k as [|k IH]; intros lo.
  - cbn [window_value]. replace (lo + Z.of_nat 0) with lo by lia. cbn. lia.
  - change (window_value buf lo (S (S k)))
      with (rd buf lo + 2 * window_value buf (lo + 1) (S k)).
    rewrite IH. cbn [window_value].
    replace (lo + 1 + Z.of_nat k) with (lo + Z.of_nat (S k)) by lia.
    rewrite (Nat2Z.inj_succ k), Z.pow_succ_r by lia. lia.
Qed.

Lemma window_value_bound (buf : list Z) (k : nat) :
  forall lo, (forall i, lo <= i < lo + Z.of_nat k -> is_bit (rd buf i)) ->
    0 <= window_value buf lo k < 2 ^ Z.of_nat k.
Proof.
  induction k as [|k IH]; intros lo Hb.
  - cbn. lia.
  - cbn [window_value]. rewrite Nat2Z.inj_succ, Z.pow_succ_r by lia.
    specialize (IH (lo + 1) ltac:(intros i Hi; apply Hb; lia)).
    destruct (Hb lo ltac:(lia)) as [-> | ->]; lia.
Qed.

Lemma lor_bit (x b : Z) : 0 <= x -> is_bit b -> Z.lor (2 * x) b = 2 * x + b.
Proof.
  intros Hx Hb. rewrite <- Z.lxor_lor, <- Z.add_nocarry_lxor; try reflexivity.
  all: apply Z.bits_inj'; intros n Hn; rewrite Z.land_spec, Z.bits_0;
    destruct (Z.eq_dec n 0) as [-> | Hne];
    [rewrite Z.testbit_even_0; reflexivity
    |destruct Hb as [-> | ->];
     [rewrite Z.bits_0, andb_false_r; reflexivity
     |replace n with (Z.succ (n - 1)) by lia;
      change 1 with (2 * 0 + 1) at 2; rewrite Z.testbit_odd_succ by lia;
      rewrite Z.bits_0, andb_false_r; reflexivity]].
Qed.

(** The loop of [collectBits] from any accumulator. *)
Lemma collectBits_loop_value (buf : list Z) (n : nat) :
  forall len res,
    0 <= res < 2 ^ 32 ->
    Z.of_nat n <= len ->
    (forall i, len - Z.of_nat n <= i < len -> is_bit (rd buf i)) ->
    collectBits_loop n buf len res
    = ((res * 2 ^ Z.of_nat n + window_value buf (len - Z.of_nat n) n) mod 2 ^ 32,
       len - Z.of_nat n).
Proof.
  induction n as [|n IH]; intros len res Hres Hlen Hb.
  - cbn [collectBits_loop window_value]. cbn [Z.of_nat]. rewrite Z.pow_0_r.
    f_equal; [|lia]. rewrite Z.mod_small; lia.
  - cbn [collectBits_loop]. rewrite gtb_true by lia.
    rewrite Z.shiftl_mul_pow2 by lia.
    assert (Hbit : is_bit (rd buf (len - 1))) by (apply Hb; lia).
    replace (res * 2 ^ 1 mod 2 ^ 32) with (2 * (res mod 2 ^ 31)).
    2:{ change (2 ^ 32) with (2 * 2 ^ 31). change (2 ^ 1) with 2.
        rewrite (Z.mul_comm res 2). rewrite Z.mul_mod_distr_l by lia. reflexivity. }
    assert (Hm : 0 <= res mod 2 ^ 31 < 2 ^ 31) by (apply Z.mod_pos_bound; lia).
    rewrite lor_bit by (lia || assumption).
    rewrite IH.
    + f_equal; [|lia].
      replace (len - 1 - Z.of_nat n) with (len - Z.of_nat (S n)) by lia.
      rewrite window_value_last.
      replace (len - Z.of_nat (S n) + Z.of_nat n) with (len - 1) by lia.
      rewrite (Nat2Z.inj_succ n), Z.pow_succ_r by lia.
      set (V := window_value buf (len - Z.succ (Z.of_nat n)) n).
      set (P := 2 ^ Z.of_nat n). set (b := rd buf (len - 1)).
      replace ((2 * (res mod 2 ^ 31) + b) * P + V)
        with ((2 * (res mod 2 ^ 31)) * P + (b * P + V)) by lia.
      replace (res * (2 * P) + (V + b * P)) with ((2 * res) * P + (b * P + V)) by lia.
      rewrite Z.add_mod by lia. rewrite (Z.mul_mod (2 * (res mod 2 ^ 31))) by lia.
      rewrite (Z.add_mod (2 * res * P)) by lia. rewrite (Z.mul_mod (2 * res)) by lia.
      f_equal. f_equal. f_equal. f_equal.
      change (2 ^ 32) with (2 * 2 ^ 31).
      rewrite !Z.mul_mod_distr_l by lia. rewrite Z.mod_mod by lia. reflexivity.
    + destruct Hbit as [-> | ->]; lia.
    + lia.
    + intros i Hi. apply Hb. lia.
Qed.

(** A loop that runs out of bits stops. *)
Lemma collectBits_loop_short (buf : list Z) (n : nat) :
  forall len res (k : nat),
    0 <= len -> len = Z.of_nat k -> (k <= n)%nat ->
    collectBits_loop n buf len res = collectBits_loop k buf len res.
Proof.
  induction n as [|n IH]; intros len res k H0 Hk Hle.
  - assert (k = 0%nat) by lia. subst k. reflexivity.
  - destruct k as [|k].
    + cbn [collectBits_loop]. rewrite gtb_false by lia. reflexivity.
    + cbn [collectBits_loop]. rewrite gtb_true by lia. apply IH; lia.
Qed.

(** X14. [collectBits(buf, &len, num)] takes the last [num] bits of
    [buf[0..len-1]], or all [len] of them when there are fewer, off the
    array and returns the number they spell, least significant bit first,
    cut to 32 bits. *)
Theorem collectBits_value (buf : list Z) (len num : Z) :
  0 <= len -> 0 <= num ->
  let k := Z.min num len in
  (forall i, len - k <= i < len -> is_bit (rd buf i)) ->
  collectBits buf len num
  = (window_value buf (len - k) (Z.to_nat k) mod 2 ^ 32, len - k)
  /\ (k <= 32 ->
      fst (collectBits buf len num) = window_value buf (len - k) (Z.to_nat k)).
Proof.
  intros Hlen Hnum k Hb.
  assert (E : collectBits buf len num
              = (window_value buf (len - k) (Z.to_nat k) mod 2 ^ 32, len - k)).
  { unfold collectBits.
    destruct (Z.le_gt_cases num len) as [Hle|Hgt].
    - assert (k = num) by (unfold k; lia).
      rewrite collectBits_loop_value; rewrite ?Z2Nat.id by lia; try lia.
      + rewrite H. reflexivity.
      + intros i Hi. apply Hb. lia.
    - assert (k = len) by (unfold k; lia).
      rewrite (collectBits_loop_short buf (Z.to_nat num) len 0 (Z.to_nat len)) by lia.
      rewrite collectBits_loop_value; rewrite ?Z2Nat.id by lia; try lia.
      + rewrite H. reflexivity.
      + intros i Hi. apply Hb. lia. }
  split; [exact E|].
  intros Hk. rewrite E. cbn [fst].
  pose proof (window_value_bound buf (Z.to_nat k) (len - k)) as B.
  rewrite Z2Nat.id in B by (unfold k; lia).
  specialize (B ltac:(intros i Hi; apply Hb; lia)).
  apply Z.mod_small. split; [lia|].
  apply Z.lt_le_trans with (2 ^ k); [lia|].
  apply Z.pow_le_mono_r; lia.
Qed.

Lemma collectBits_value_witness :
  collectBits [1; 0; 1; 1; 0] 4 3 = (window_value [1; 0; 1; 1; 0] 1 3 mod 2 ^ 32, 1).
Proof.
  refine (proj1 (collectBits_value [1; 0; 1; 1; 0] 4 3 _ _ _)); try lia.
  intros i Hi. change (Z.min 3 4) with 3 in Hi.
  assert (C : i = 1 \/ i = 2 \/ i = 3) by lia.
  destruct C as [-> | [-> | ->]]; [left|right|right]; reflexivity.
Defined.

Lemma lor_low (x y : Z) :
  0 <= x -> 0 <= y < 2 ^ 16 -> Z.lor (x * 2 ^ 16) y = x * 2 ^ 16 + y.
Proof.
  intros Hx Hy. rewrite <- Z.lxor_lor, <- Z.add_nocarry_lxor; try reflexivity.
  all: apply Z.bits_inj'; intros n Hn; rewrite Z.land_spec, Z.bits_0;
    destruct (Z.lt_ge_cases n 16) as [L|G];
    [rewrite Z.mul_pow2_bits_low by lia; reflexivity
    |rewrite <- (Z.mod_small y (2 ^ 16)) by lia;
     rewrite Z.mod_pow2_bits_high by lia; apply andb_false_r].
Qed.

(** X15. When the three clusters and the client id fit 16 bits each, the
    location id holds them in four 16-bit fields, the national cluster in
    the most significant one, and each can be read back. *)
Theorem pack_id_fields (l : LocationInfo) :
  short (national_cluster l) -> short (state_cluster l) ->
  short (local_cluster l) -> short (client_id l) ->
  pack_id l = national_cluster l * 2 ^ 48 + state_cluster l * 2 ^ 32
              + local_cluster l * 2 ^ 16 + client_id l
  /\ id_field (pack_id l) 48 = national_cluster l
  /\ id_field (pack_id l) 32 = state_cluster l
  /\ id_field (pack_id l) 16 = local_cluster l
  /\ id_field (pack_id l) 0 = client_id l.
Proof.
  unfold short. intros Hn Hs Hl Hc.
  assert (E : pack_id l = national_cluster l * 2 ^ 48 + state_cluster l * 2 ^ 32
                          + local_cluster l * 2 ^ 16 + client_id l).
  { unfold pack_id. rewrite Z.lor_0_l.
    rewrite !Z.shiftl_mul_pow2 by lia.
    rewrite (Z.mod_small (national_cluster l * 2 ^ 16)) by lia.
    rewrite lor_low by lia.
    rewrite (Z.mod_small ((national_cluster l * 2 ^ 16 + state_cluster l) * 2 ^ 16)) by lia.
    rewrite lor_low by lia.
    rewrite Z.mod_small by lia.
    rewrite lor_low by lia. lia. }
  split; [exact E|]. rewrite E. unfold id_field.
  change (2 ^ 48) with 281474976710656. change (2 ^ 32) with 4294967296.
  change (2 ^ 16) with 65536 in *. change (2 ^ 0) with 1.
  repeat split; Z.div_mod_to_equations; lia.
Qed.

Lemma pack_id_fields_witness :
  pack_id (set_hasher (set_local (set_state (set_national loc_zero 0 0 None 0 2)
                                            0 0 None 0 3) 0 0 None 0 4) 1 1)
  = 1 * 2 ^ 48 + 2 * 2 ^ 32 + 3 * 2 ^ 16 + 4.
Proof.
  refine (proj1 (pack_id_fields _ _ _ _ _)); unfold short; cbn; lia.
Defined.

Lemma print_cluster_short_all :
  forallb (fun a => forallb (fun b => forallb (fun c => forallb (fun d => forallb (fun e =>
    Z.of_nat (List.length (print_cluster (10000 * a + 1000 * b + 100 * c + 10 * d + e)))
    <=? 7) decimal_digits) decimal_digits) decimal_digits) decimal_digits) decimal_digits
  = true.
Proof. vm_compute. reflexivity. Qed.

Lemma in_decimal_digits (a : Z) : 0 <= a <= 9 -> In a decimal_digits.
Proof.
  intros H.
  assert (C : a = 0 \/ a = 1 \/ a = 2 \/ a = 3 \/ a = 4 \/ a = 5 \/ a = 6 \/ a = 7
              \/ a = 8 \/ a = 9) by lia.
  unfold decimal_digits. cbn [In]. intuition congruence.
Qed.

Lemma print_cluster_short (v : Z) :
  0 <= v < 100000 -> Z.of_nat (List.length (print_cluster v)) <= 7.
Proof.
  intros Hv. apply Z.leb_le.
  pose proof print_cluster_short_all as A.
  rewrite forallb_forall in A.
  specialize (A (v / 10000) (in_decimal_digits (v / 10000) ltac:(Z.div_mod_to_equations; lia))).
  rewrite forallb_forall in A.
  specialize (A ((v / 1000) mod 10)
                (in_decimal_digits ((v / 1000) mod 10) ltac:(Z.div_mod_to_equations; lia))).
  rewrite forallb_forall in A.
  specialize (A ((v / 100) mod 10)
                (in_decimal_digits ((v / 100) mod 10) ltac:(Z.div_mod_to_equations; lia))).
  rewrite forallb_forall in A.
  specialize (A ((v / 10) mod 10)
                (in_decimal_digits ((v / 10) mod 10) ltac:(Z.div_mod_to_equations; lia))).
  rewrite forallb_forall in A.
  specialize (A (v mod 10) (in_decimal_digits (v mod 10) ltac:(Z.div_mod_to_equations; lia))).
  replace (10000 * (v / 10000) + 1000 * ((v / 1000) mod 10) + 100 * ((v / 100) mod 10)
           + 10 * ((v / 10) mod 10) + v mod 10) with v in A
    by (Z.div_mod_to_equations; lia).
  exact A.
Qed.

Lemma length_name_bytes (data : list Z) (name : option Z) (name_len : Z) :
  0 <= name_len -> Z.of_nat (List.length (name_bytes data name name_len)) <= name_len.
Proof.
  intros H. unfold name_bytes. destruct name as [o|]; cbn [List.length]; [|lia].
  rewrite length_take. lia.
Qed.

Lemma length_part_text (data : list Z) (name : option Z) (name_len cluster : Z) :
  0 <= name_len -> printable name_len cluster ->
  Z.of_nat (List.length (part_text data name name_len cluster)) <= part_len name_len.
Proof.
  intros H0 Hp. unfold part_text, part_len.
  destruct (name_len >? 0) eqn:E.
  - apply length_name_bytes. exact H0.
  - rewrite Z.gtb_ltb in E. apply Z.ltb_ge in E.
    destruct Hp as [Hp|Hp]; [lia|].
    apply print_cluster_short. exact Hp.
Qed.

(** X16. The location name with its final NUL fits the buffer allocated for it
    when every part without a name tag has a cluster below 100000, the
    largest number that the seven characters reserved for it can hold. *)
Theorem make_name_fits (data : list Z) (l : LocationInfo) :
  0 <= national_name_len l -> 0 <= state_name_len l ->
  0 <= local_name_len l -> 0 <= client_name_len l ->
  printable (national_name_len l) (national_cluster l) ->
  printable (state_name_len l) (state_cluster l) ->
  printable (local_name_len l) (local_cluster l) ->
  Z.of_nat (List.length (name_text (make_name data l))) + 1
  <= name_alloc (make_name data l).
Proof.
  intros N0 S0 L0 C0 Pn Ps Pl.
  pose proof (length_part_text data (national_name l) _ _ N0 Pn) as A1.
  pose proof (length_part_text data (state_name l) _ _ S0 Ps) as A2.
  pose proof (length_part_text data (local_name l) _ _ L0 Pl) as A3.
  pose proof (length_name_bytes data (client_name l) _ C0) as A4.
  unfold make_name. cbn [name_text name_alloc].
  destruct (client_name_len l >? 0); rewrite !length_app; lia.
Qed.

Lemma make_name_fits_witness :
  Z.of_nat (List.length (name_text (make_name [65; 66]
     (set_client_name (set_hasher loc_zero 1 99999) (Some 0) 2)))) + 1
  <= name_alloc (make_name [65; 66]
       (set_client_name (set_hasher loc_zero 1 99999) (Some 0) 2)).
Proof.
  apply make_name_fits; unfold printable; cbn; lia.
Defined.

Lemma forallb_seqZ_ext (f g : Z -> bool) (a n : Z) :
  (forall i, a <= i < a + n -> f i = g i) ->
  forallb f (seqZ a n) = forallb g (seqZ a n).
Proof.
  intros H. apply eq_true_iff_eq. rewrite !forallb_seqZ.
  split; intros F i Hi; [rewrite <- H by exact Hi|rewrite H by exact Hi]; apply F; exact Hi.
Qed.

(** A step that has been read lies in the chain, the level byte included. *)
Lemma stepped_bounds (data : list Z) (s : Z) :
  stepped data s ->
  0 <= s
  /\ s + 3 + GT_getHashSize (rd data (s + 2)) < Z.of_nat (List.length data)
  /\ 20 <= GT_getHashSize (rd data (s + 2)).
Proof.
  intros (Hs & r & Hr).
  destruct (read_step_bytes data s r Hr) as (_ & B2 & _ & B4).
  destruct (read_step_direction data s r Hr) as (_ & S1 & S2 & _).
  rewrite S1, B2 in *. pose proof (hash_size_min (rd data (s + 2))). lia.
Qed.

(** Bytes behind the chain do not change how a step is read. *)
Lemma read_step_app (data rest : list Z) (pos : Z) (r : RawStep) :
  0 <= pos -> read_step data pos = inr r -> read_step (data ++ rest) pos = inr r.
Proof.
  intros Hpos. unfold read_step. rewrite length_app, Nat2Z.inj_add.
  destruct (pos + 1 >=? _) eqn:E1; [discriminate|].
  destruct (negb (rd data (pos + 1) =? 0) && negb (rd data (pos + 1) =? 1)) eqn:E2;
    [discriminate|].
  destruct (pos + 1 + 1 >=? _) eqn:E3; [discriminate|].
  destruct (GT_getHashSize (rd data (pos + 1 + 1)) =? 0) eqn:E4; [discriminate|].
  destruct (pos + 1 + 1 + 1 + GT_getHashSize (rd data (pos + 1 + 1)) >=? _) eqn:E5;
    [discriminate|].
  rewrite Z.geb_leb in E1, E3, E5. apply Z.leb_gt in E1, E3, E5.
  intros [= <-].
  rewrite (rd_app_l data rest (pos + 1)) by lia.
  rewrite (rd_app_l data rest (pos + 1 + 1)) by lia.
  rewrite (rd_app_l data rest (pos + 1 + 1 + 1 + _)) by lia.
  rewrite E2, E4. rewrite !geb_false by lia. reflexivity.
Qed.

Lemma stepped_app (data rest : list Z) (s : Z) :
  stepped data s -> stepped (data ++ rest) s.
Proof.
  intros (Hs & r & Hr). split; [exact Hs|]. exists r. apply read_step_app; assumption.
Qed.

(** [checkName] on a remembered step looks at bytes of the chain only. *)
Lemma checkName_app (data rest steps : list Z) (len : Z) (name : option Z)
    (name_len : Z) :
  (0 < len -> stepped data (rd steps (len - 1))) ->
  checkName (data ++ rest) steps len name name_len
  = checkName data steps len name name_len.
Proof.
  intros Hs. unfold checkName.
  destruct (len <=? 0) eqn:E0; [reflexivity|]. apply Z.leb_gt in E0.
  destruct (stepped_bounds data _ (Hs E0)) as (B0 & B1 & B2).
  set (step := rd steps (len - 1)) in *.
  rewrite (rd_app_l data rest (step + 1)) by lia.
  rewrite (rd_app_l data rest (step + 2)) by lia.
  destruct (rd data (step + 1) =? 1); cbn [negb]; [|reflexivity].
  destruct (rd data (step + 2) =? GT_HASHALG_SHA224) eqn:E2; cbn [negb]; [|reflexivity].
  apply Z.eqb_eq in E2. rewrite E2 in B1.
  change (GT_getHashSize GT_HASHALG_SHA224) with 28 in *.
  rewrite (rd_app_l data rest (step + 3 + 0)) by lia.
  rewrite (rd_app_l data rest (step + 3 + 1)) by lia.
  destruct (rd data (step + 3 + 0) =? 0); cbn [negb]; [|reflexivity].
  destruct (rd data (step + 3 + 1) + 2 >? 28); [reflexivity|].
  rewrite (forallb_seqZ_ext (fun i => rd (data ++ rest) (step + 3 + i) =? 0)
             (fun i => rd data (step + 3 + i) =? 0)).
  - reflexivity.
  - intros i Hi. rewrite rd_app_l by lia. reflexivity.
Qed.

(** The name [checkName] leaves behind lies in the chain, and it takes one
    step off at most. *)
Lemma checkName_inside (data steps : list Z) (len : Z) (name : option Z)
    (name_len : Z) :
  (0 < len -> stepped data (rd steps (len - 1))) ->
  name_inside data name name_len ->
  0 <= len ->
  name_inside data (fst (fst (checkName data steps len name name_len)))
                   (snd (fst (checkName data steps len name name_len)))
  /\ 0 <= snd (checkName data steps len name name_len) <= len.
Proof.
  intros Hs Hn Hl.
  destruct (Z.eq_dec len 0) as [->|Hne].
  { cbn. split; [exact Hn|lia]. }
  destruct (checkName_cases data steps len name name_len ltac:(lia)) as [[T E]|[_ E]];
    rewrite E; cbn [fst snd].
  - split; [|lia].
    destruct (stepped_bounds data _ (Hs ltac:(lia))) as (B0 & B1 & _).
    destruct T as (_ & T2 & _ & T4 & _). rewrite T2 in B1.
    change (GT_getHashSize GT_HASHALG_SHA224) with 28 in B1.
    intros Hpos. eexists. split; [reflexivity|]. lia.
  - split; [exact Hn|lia].
Qed.

Lemma collectBits_range (buf : list Z) (len num : Z) :
  0 <= len -> 0 <= snd (collectBits buf len num) <= len.
Proof.
  intros Hl. split; [|apply collectBits_le].
  apply collectBits_loop_len. exact Hl.
Qed.

(** The statements shared by the three region blocks. *)
Lemma region_block_app (data rest : list Z) (n : Z) (st : LocState) (ab sl : Z)
    (name : option Z) (name_len : Z) :
  remembered data n st ->
  region_block (data ++ rest) st ab sl name name_len
  = region_block data st ab sl name name_len.
Proof.
  intros (Hn & Hs & _). unfold region_block.
  pose proof (collectBits_range (bits st) (num_bits st) ab ltac:(lia)) as H1.
  destruct (collectBits (bits st) (num_bits st) ab) as [m n1]. cbn [snd] in H1.
  pose proof (collectBits_range (bits st) n1 sl ltac:(lia)) as H2.
  destruct (collectBits (bits st) n1 sl) as [s n2]. cbn [snd] in H2.
  rewrite checkName_app; [reflexivity|].
  intros Hpos. apply Hs. lia.
Qed.

Lemma region_block_inside (data : list Z) (n : Z) (st : LocState) (ab sl : Z)
    (name : option Z) (name_len : Z) :
  remembered data n st ->
  name_inside data name name_len ->
  match region_block data st ab sl name name_len with
  | (_, _, nm, nl, _, k) => name_inside data nm nl /\ 0 <= k <= num_bits st
  end.
Proof.
  intros (Hn & Hs & _) Hi. unfold region_block.
  pose proof (collectBits_range (bits st) (num_bits st) ab ltac:(lia)) as H1.
  destruct (collectBits (bits st) (num_bits st) ab) as [m n1]. cbn [snd] in H1.
  pose proof (collectBits_range (bits st) n1 sl ltac:(lia)) as H2.
  destruct (collectBits (bits st) n1 sl) as [s n2]. cbn [snd] in H2.
  pose proof (checkName_inside data (steps st) n2 name name_len
                ltac:(intros Hpos; apply Hs; lia) Hi ltac:(lia)) as (H3 & H4).
  destruct (checkName data (steps st) n2 name name_len) as [[nm nl] n3].
  cbn [fst snd] in H3, H4.
  pose proof (collectBits_range (bits st) n3 n3 ltac:(lia)) as H5.
  destruct (collectBits (bits st) n3 n3) as [c n4]. cbn [snd] in H5.
  split; [exact H3|lia].
Qed.

Lemma top_block_sound (data rest : list Z) : sound_block data rest top_block.
Proof.
  intros n st R. unfold top_block.
  rewrite (region_block_app data rest n st) by exact R.
  destruct R as (Hn & Hs & N1 & N2 & N3 & N4).
  pose proof (region_block_inside data n st ab_bits_top slot_bits_top
                (national_name (loc st)) (national_name_len (loc st))
                (conj Hn (conj Hs (conj N1 (conj N2 (conj N3 N4))))) N1) as H.
  destruct (region_block data st _ _ _ _) as [[[[[m s] nm] nl] c] k].
  destruct H as (H1 & H2).
  split; [|reflexivity].
  split; [cbn [update num_bits]; lia|]. split; [exact Hs|].
  repeat split; assumption.
Qed.

Lemma national_block_sound (data rest : list Z) : sound_block data rest national_block.
Proof.
  intros n st R. unfold national_block.
  rewrite (region_block_app data rest n st) by exact R.
  destruct R as (Hn & Hs & N1 & N2 & N3 & N4).
  pose proof (region_block_inside data n st ab_bits_national slot_bits_national
                (state_name (loc st)) (state_name_len (loc st))
                (conj Hn (conj Hs (conj N1 (conj N2 (conj N3 N4))))) N2) as H.
  destruct (region_block data st _ _ _ _) as [[[[[m s] nm] nl] c] k].
  destruct H as (H1 & H2).
  split; [|reflexivity].
  split; [cbn [update num_bits]; lia|]. split; [exact Hs|].
  repeat split; assumption.
Qed.

Lemma state_block_sound (data rest : list Z) : sound_block data rest state_block.
Proof.
  intros n st R. unfold state_block.
  rewrite (region_block_app data rest n st) by exact R.
  destruct R as (Hn & Hs & N1 & N2 & N3 & N4).
  pose proof (region_block_inside data n st ab_bits_state slot_bits_state
                (local_name (loc st)) (local_name_len (loc st))
                (conj Hn (conj Hs (conj N1 (conj N2 (conj N3 N4))))) N3) as H.
  destruct (region_block data st _ _ _ _) as [[[[[m s] nm] nl] c] k].
  destruct H as (H1 & H2).
  split; [|reflexivity].
  split; [cbn [update num_bits]; lia|]. split; [exact Hs|].
  repeat split; assumption.
Qed.

Lemma client_block_sound (data rest : list Z) : sound_block data rest client_block.
Proof.
  intros n st (Hn & Hs & N1 & N2 & N3 & N4). unfold client_block.
  rewrite checkName_app by (intros Hpos; apply Hs; lia).
  pose proof (checkName_inside data (steps st) (num_bits st)
                (client_name (loc st)) (client_name_len (loc st))
                ltac:(intros Hpos; apply Hs; lia) N4 ltac:(lia)) as (H1 & H2).
  destruct (checkName data (steps st) (num_bits st) _ _) as [[nm nl] k].
  cbn [fst snd] in H1, H2.
  split; [|reflexivity].
  split; [cbn [update num_bits]; lia|]. split; [exact Hs|].
  repeat split; assumption.
Qed.

Lemma when_sound (data rest : list Z) (b : bool) (f : list Z -> LocState -> LocState) :
  sound_block data rest f -> sound_block data rest (fun d => when b (f d)).
Proof.
  intros H n st R. unfold when. destruct b; [apply H; exact R|].
  split; [exact R|reflexivity].
Qed.

Lemma region_blocks_sound (data rest : list Z) (hash_level ll : Z) :
  sound_block data rest (fun d => region_blocks d hash_level ll).
Proof.
  intros n st R. unfold region_blocks, upper_blocks.
  destruct (when_sound data rest (crosses top_level hash_level ll) top_block
              (top_block_sound data rest) n st R) as (R1 & E1).
  cbv beta in R1, E1. rewrite E1.
  destruct (when_sound data rest (crosses national_level hash_level ll) national_block
              (national_block_sound data rest) n _ R1) as (R2 & E2).
  cbv beta in R2, E2. rewrite E2.
  destruct (when_sound data rest (crosses state_level hash_level ll) state_block
              (state_block_sound data rest) n _ R2) as (R3 & E3).
  cbv beta in R3, E3. rewrite E3.
  destruct (when_sound data rest (crosses 1 hash_level ll) client_block
              (client_block_sound data rest) n _ R3) as (R4 & E4).
  cbv beta in R4, E4. rewrite E4.
  split; [exact R4|reflexivity].
Qed.

(** The blocks leave [steps] alone. *)
Lemma region_blocks_steps (data : list Z) (hash_level ll : Z) (st : LocState) :
  steps (region_blocks data hash_level ll st) = steps st.
Proof.
  unfold region_blocks, upper_blocks, when,
    top_block, national_block, state_block, client_block, region_block.
  repeat match goal with
         | |- context [if ?b then _ else _] => destruct b
         end;
    repeat match goal with
           | |- context [let '(_, _) := ?x in _] => destruct x
           end; reflexivity.
Qed.

(** The state after [steps[num_bits] = p]. *)
Lemma remember_step_remembered (data : list Z) (st : LocState) (r : RawStep) :
  round_start data st -> num_bits st < 256 ->
  read_step data (p st) = inr r ->
  remembered data (num_bits st + 1) (remember_step st (rs_next r)).
Proof.
  intros (Hlen & Hp & Hn & Hs & Hnames) Hlt Hr.
  split; [cbn [remember_step num_bits]; lia|].
  split; [|exact Hnames].
  intros j Hj. cbn [remember_step steps].
  destruct (Z.eq_dec j (num_bits st)) as [->|Hne].
  - rewrite rd_wr_eq by lia. split; [exact Hp|]. exists r. exact Hr.
  - rewrite rd_wr_ne by lia. apply Hs. lia.
Qed.

(** A round that continues. *)
Lemma loc_step_continue_app (data rest : list Z) (st st' : LocState) :
  round_start data st ->
  loc_step data st = Continue st' ->
  round_start data st' /\ loc_step (data ++ rest) st = Continue st'.
Proof.
  intros RS Hc.
  destruct (loc_step_inv data st st' (or_intror Hc)) as (Hn & r & Hr).
  pose proof (remember_step_remembered data st r RS Hn Hr) as R.
  destruct RS as (Hlen & Hp & Hrem).
  rewrite (loc_step_read data st r Hn Hr) in Hc.
  rewrite (loc_step_read (data ++ rest) st r Hn (read_step_app data rest _ r Hp Hr)).
  destruct (crosses hasher_level (rs_level r) (last_level st)); [discriminate|].
  injection Hc as <-.
  destruct (region_blocks_sound data rest (rs_level r) (last_level st) _ _ R) as (R' & E).
  cbv beta in R', E. rewrite E. split; [|reflexivity].
  pose proof (region_blocks_le data (rs_level r) (last_level st)
                (remember_step st (rs_next r))) as Hle.
  cbn [remember_step num_bits] in Hle.
  destruct (read_step_direction data (p st) r Hr) as (_ & _ & S2 & N).
  destruct R' as (Hn' & Hs' & Hnames').
  split; [|split].
  - cbn [push_bit steps]. rewrite region_blocks_steps. cbn [remember_step steps].
    rewrite length_wr. exact Hlen.
  - cbn [push_bit p]. rewrite region_blocks_p. cbn [remember_step p]. lia.
  - unfold remembered. cbn [push_bit num_bits steps loc].
    split; [lia|]. split; [|exact Hnames'].
    intros j Hj. apply Hs'. lia.
Qed.

(** The round that ends the loop. *)
Lemma loc_step_finished_app (data rest : list Z) (st st' : LocState) :
  round_start data st ->
  loc_step data st = Finished st' ->
  names_inside data (loc st') /\ loc_step (data ++ rest) st = Finished st'.
Proof.
  intros (Hlen & Hp & Hn0 & Hs & Hnames) Hf.
  destruct (loc_step_inv data st st' (or_introl Hf)) as (Hn & r & Hr).
  rewrite (loc_step_read data st r Hn Hr) in Hf.
  rewrite (loc_step_read (data ++ rest) st r Hn (read_step_app data rest _ r Hp Hr)).
  destruct (crosses hasher_level (rs_level r) (last_level st)); [|discriminate].
  injection Hf as <-. split; [|reflexivity].
  unfold hasher_block. cbn [remember_step bits num_bits loc].
  destruct (collectBits (bits st) (num_bits st) (num_bits st)) as [nc k].
  exact Hnames.
Qed.

(** The loop on a chain with bytes behind it, with any larger fuel. *)
Lemma extract_loop_app (data rest : list Z) :
  forall fuel st st',
    round_start data st ->
    extract_loop fuel data st = Some (Finished st') ->
    names_inside data (loc st')
    /\ forall fuel', (fuel <= fuel')%nat ->
         extract_loop fuel' (data ++ rest) st = Some (Finished st').
Proof.
  induction fuel as [|fuel IH]; intros st st' RS; cbn [extract_loop]; [discriminate|].
  destruct (loc_step data st) as [res| |st1|st1] eqn:E; try discriminate.
  - intros [= <-].
    destruct (loc_step_finished_app data rest st st1 RS E) as (N & E').
    split; [exact N|]. intros [|fuel'] Hf; [lia|].
    cbn [extract_loop]. rewrite E'. reflexivity.
  - intros H.
    destruct (loc_step_continue_app data rest st st1 RS E) as (RS1 & E').
    destruct (IH st1 st' RS1 H) as (N & F).
    split; [exact N|]. intros [|fuel'] Hf; [lia|].
    cbn [extract_loop]. rewrite E'. apply F. lia.
Qed.

Lemma round_start_init (data : list Z) : round_start data init_state.
Proof.
  split; [reflexivity|]. split; [cbn; lia|].
  split; [cbn; lia|]. split; [cbn [init_state num_bits]; intros j Hj; lia|].
  repeat split; intros H; cbn in H; lia.
Qed.

Lemma name_bytes_app (data rest : list Z) (name : option Z) (name_len : Z) :
  name_inside data name name_len -> 0 < name_len ->
  name_bytes (data ++ rest) name name_len = name_bytes data name name_len.
Proof.
  intros H Hpos. destruct (H Hpos) as (o & -> & Ho & Hl). unfold name_bytes.
  rewrite drop_app_le by lia. rewrite take_app_le; [reflexivity|].
  rewrite length_drop. lia.
Qed.

Lemma part_text_app (data rest : list Z) (name : option Z) (name_len cluster : Z) :
  name_inside data name name_len ->
  part_text (data ++ rest) name name_len cluster = part_text data name name_len cluster.
Proof.
  intros H. unfold part_text. destruct (name_len >? 0) eqn:E; [|reflexivity].
  rewrite Z.gtb_ltb in E. apply Z.ltb_lt in E. apply name_bytes_app; assumption.
Qed.

Lemma make_name_app (data rest : list Z) (l : LocationInfo) :
  names_inside data l -> make_name (data ++ rest) l = make_name data l.
Proof.
  intros (N1 & N2 & N3 & N4). unfold make_name.
  rewrite !part_text_app by assumption.
  destruct (client_name_len l >? 0) eqn:E; [|reflexivity].
  rewrite Z.gtb_ltb in E. apply Z.ltb_lt in E.
  rewrite name_bytes_app by assumption. reflexivity.
Qed.

(** X17. Whatever follows the step that ends the walk (the first step whose
    level exceeds 80) is ignored: when [extractLocation] does not reject a
    chain, it gives the same result for the chain with any bytes added
    behind it. *)
Theorem extractLocation_ignores_rest (malloc_ok : bool) (hash_chain rest : list Z)
    (res : Z) (out : option (Z * option NameBuf)) :
  extractLocation malloc_ok hash_chain = Some (res, out) ->
  res <> GT_INVALID_LINKING_INFO ->
  extractLocation malloc_ok (hash_chain ++ rest) = Some (res, out).
Proof.
  unfold extractLocation. intros H Hres.
  destruct (run_loop hash_chain) as [[r| |st|st]|] eqn:E; try discriminate.
  - injection H as <- <-.
    unfold run_loop in E. apply extract_loop_code in E. contradiction.
  - unfold run_loop in E.
    destruct (extract_loop_app hash_chain rest _ _ st (round_start_init hash_chain) E)
      as (N & F).
    unfold run_loop. rewrite (F (S (List.length (hash_chain ++ rest)))).
    + rewrite (make_name_app hash_chain rest (loc st) N). exact H.
    + rewrite length_app. lia.
Qed.

Lemma extractLocation_ignores_rest_witness :
  extractLocation true (chain_local_state_hasher ++ [1; 2; 3])
  = Some (GT_OK, Some (281474976710657, None)).
Proof.
  apply (extractLocation_ignores_rest true chain_local_state_hasher [1; 2; 3]).
  - vm_compute. reflexivity.
  - discriminate.
Defined.

Lemma crosses_low (threshold hash_level ll : Z) :
  hash_level <= threshold -> crosses threshold hash_level ll = false.
Proof. intros H. unfold crosses. rewrite gtb_false by lia. reflexivity. Qed.

(** A round on a low step pushes its bit and moves on. *)
Lemma loc_step_low (pre rest : list Z) (s : ChainStep) (st : LocState) :
  low_step s -> p st = Z.of_nat (List.length pre) -> num_bits st < 256 ->
  exists st',
    loc_step (pre ++ chain_step_bytes s ++ rest) st = Continue st'
    /\ num_bits st' = num_bits st + 1
    /\ p st' = Z.of_nat (List.length (pre ++ chain_step_bytes s))
    /\ last_level st' = cs_level s.
Proof.
  intros ((Hd & Ha & Hs) & Hl) Hp Hn. unfold chain_step_bytes.
  pose proof (read_step_layout pre (cs_first s) (cs_direction s) (cs_algorithm s)
                (cs_sibling s) (cs_level s) rest Hd Ha Hs) as R.
  rewrite <- Hp in R at 1.
  rewrite (loc_step_read _ st _ Hn R). cbn [rs_level rs_direction rs_next].
  rewrite (crosses_low hasher_level) by (unfold hasher_level; lia).
  eexists. split; [reflexivity|].
  unfold region_blocks, upper_blocks.
  rewrite (crosses_low top_level), (crosses_low national_level),
    (crosses_low state_level), (crosses_low 1)
    by (unfold top_level, national_level, state_level, gdepth_top, gdepth_national,
          gdepth_state, slot_bits_top, ab_bits_top, slot_bits_national,
          ab_bits_national, slot_bits_state, ab_bits_state; lia).
  unfold when. cbn [push_bit remember_step num_bits p last_level].
  rewrite length_app, Nat2Z.inj_add, length_step_bytes. repeat split; lia.
Qed.

(** As many rounds as there are low steps at the read position. *)
Lemma rounds_low (l : list ChainStep) :
  forall pre rest st,
    Forall low_step l ->
    p st = Z.of_nat (List.length pre) ->
    num_bits st + Z.of_nat (List.length l) <= 256 ->
    exists st',
      rounds (List.length l) (pre ++ chain_bytes l ++ rest) st = Some st'
      /\ num_bits st' = num_bits st + Z.of_nat (List.length l).
Proof.
  induction l as [|s l IH]; intros pre rest st Hl Hp Hn.
  - exists st. split; [reflexivity|]. cbn [List.length]. lia.
  - apply Forall_cons in Hl. destruct Hl as (Hs & Hl).
    cbn [List.length] in Hn.
    change (chain_bytes (s :: l)) with (chain_step_bytes s ++ chain_bytes l).
    rewrite <- (app_assoc (chain_step_bytes s)).
    destruct (loc_step_low pre (chain_bytes l ++ rest) s st Hs Hp ltac:(lia))
      as (st1 & E & N1 & P1 & _).
    cbn [List.length rounds]. rewrite E.
    rewrite (app_assoc pre).
    destruct (IH (pre ++ chain_step_bytes s) rest st1 Hl P1 ltac:(lia)) as (st' & R & N').
    exists st'. split; [exact R|]. lia.
Qed.

Lemma rounds_extract_loop (n : nat) (data : list Z) :
  forall st st' fuel,
    rounds n data st = Some st' ->
    extract_loop (n + fuel) data st = extract_loop fuel data st'.
Proof.
  induction n as [|n IH]; intros st st' fuel; cbn [rounds].
  - intros [= <-]. reflexivity.
  - destruct (loc_step data st) as [res| |st1|st1] eqn:E; try discriminate.
    intros H. cbn [Nat.add extract_loop]. rewrite E. apply IH. exact H.
Qed.

Lemma length_chain_bytes (l : list ChainStep) :
  Forall low_step l -> (List.length l <= List.length (chain_bytes l))%nat.
Proof.
  induction 1 as [|s l Hs Hl IH]; [reflexivity|].
  change (chain_bytes (s :: l)) with (chain_step_bytes s ++ chain_bytes l).
  rewrite length_app. unfold chain_step_bytes at 1.
  pose proof (length_step_bytes (cs_first s) (cs_direction s) (cs_algorithm s)
                (cs_sibling s) (cs_level s)).
  cbn [List.length]. lia.
Qed.

(** X18. A chain that begins with 256 readable steps of level 0 or 1 makes the
    loop of [extractLocation] store the beginning of a 257th step in
    [steps[256]], beyond the end of the array: no level test fires on such
    a step, so none of the 256 bits is ever taken off. *)
Theorem extractLocation_overrun (malloc_ok : bool) (l : list ChainStep)
    (rest : list Z) :
  Forall low_step l -> List.length l = 256%nat ->
  run_loop (chain_bytes l ++ rest) = Some Overrun
  /\ extractLocation malloc_ok (chain_bytes l ++ rest) = None.
Proof.
  intros Hl Hlen.
  assert (R : run_loop (chain_bytes l ++ rest) = Some Overrun).
  { destruct (rounds_low l [] rest init_state Hl eq_refl) as (st' & R & N).
    { rewrite Hlen. cbn. lia. }
    cbn [app] in R. unfold run_loop.
    pose proof (length_chain_bytes l Hl) as Hc.
    replace (S (List.length (chain_bytes l ++ rest)))
      with (List.length l + S (List.length (chain_bytes l ++ rest) - List.length l))%nat
      by (rewrite length_app; lia).
    rewrite (rounds_extract_loop _ _ _ _ _ R).
    cbn [extract_loop]. unfold loc_step.
    rewrite geb_true; [reflexivity|].
    rewrite N, Hlen. cbn. lia. }
  split; [exact R|]. unfold extractLocation. rewrite R. reflexivity.
Qed.

Lemma extractLocation_overrun_witness :
  extractLocation true
    (chain_bytes (replicate 256 {| cs_first := 0; cs_direction := 1;
                                   cs_algorithm := GT_HASHALG_SHA1;
                                   cs_sibling := sha1_sibling; cs_level := 0 |}) ++ [])
  = None.
Proof.
  refine (proj2 (extractLocation_overrun true _ [] _ _)).
  - apply Forall_replicate. repeat split; try (left; reflexivity) || (right; reflexivity).
    + discriminate.
    + cbn. lia.
  - apply length_replicate.
Defined.

End LocationWalk.

Section DecodeMemory.
Import Extend.
Import Decode.

Lemma new_token_built (h : Heap) (t : Token.PKCS7) :
  let a := fresh (dom (timestamps h)) in
  let ta := fresh (dom (tokens h)) in
  built h a ta t
    (set_token (store_timestamp h a {| token := None; tst_info := None;
                                       signer_info := None;
                                       time_signature := None |}) a t).
Proof.
  intros a ta.
  exists {| token := Some ta; tst_info := None; signer_info := None;
            time_signature := None |}.
  unfold set_token, store_timestamp, store_token.
  cbn [timestamps tokens out token].
  split; [reflexivity|]. split; [apply insert_insert_eq|].
  split; reflexivity.
Qed.

Ltac built_steps :=
  repeat (apply built_store; [|reflexivity]); assumption.

(** The statements that end the two decoding functions. *)
Lemma finish_spec (env : ExtendEnv) (h : Heap) (a ta : nat) (t : Token.PKCS7)
    (h2 : Heap) :
  timestamps h !! a = None -> tokens h !! ta = None ->
  built h a ta t h2 ->
  transactional env h (finish env h2 a) (fun t' => t' = t).
Proof.
  intros Fa Fta B.
  assert (Fail : forall c hx, c <> GT_OK -> built h a ta t hx ->
            transactional env h (Some (c, GTTimestamp_free hx (Some a)))
              (fun t' => t' = t)).
  { intros c hx Hc Bx. exists c, (GTTimestamp_free hx (Some a)).
    split; [reflexivity|]. split; [intros E; contradiction|].
    intros _. eapply free_built; eassumption. }
  destruct (built_lookup _ _ _ _ _ B) as ((o & Lo & To) & Lt).
  unfold finish, GTTimestamp_updateTSTInfo. rewrite Lo, To.
  cbn [store_timestamp tokens]. rewrite Lt.
  destruct (Token.type_is_signed t) eqn:C1; cbn [negb];
    [|apply Fail; [discriminate|built_steps]].
  destruct (Token.detached t) eqn:C2; [apply Fail; [discriminate|built_steps]|].
  destruct (Token.contents_type t =? Token.NID_id_smime_ct_TSTInfo) eqn:C3; cbn [negb];
    [|apply Fail; [discriminate|built_steps]].
  destruct (Token.type (Token.contents t) =? Token.V_ASN1_OCTET_STRING) eqn:C4;
    cbn [negb]; [|apply Fail; [discriminate|built_steps]].
  destruct (d2i_GTTSTInfo env (Token.value_octet_string (Token.contents t)))
    as [tst|] eqn:D1.
  2:{ destruct (tst_info_malloc_failure env);
        (apply Fail; [discriminate|built_steps]). }
  change (negb (GT_OK =? GT_OK)) with false. cbv iota.
  unfold GTTimestamp_updateTimeSignature.
  cbn [store_timestamp timestamps tokens]. rewrite lookup_insert_eq.
  cbn [token tst_info]. rewrite Lt. rewrite C1. cbn [negb].
  unfold Token.PKCS7_get_signer_info. rewrite C1.
  destruct (Token.signer_info_stack t) as [[|si [|si' sis]]|] eqn:S;
    try (apply Fail; [discriminate|built_steps]).
  destruct (Token.algorithm (Token.digest_enc_alg si)
            =? Token.GT_id_gt_time_signature_alg_nid) eqn:C5; cbn [negb orb];
    [|apply Fail; [discriminate|built_steps]].
  destruct (match Token.parameter (Token.digest_enc_alg si) with
            | Some ty => ty =? Token.V_ASN1_NULL
            | None => true
            end) eqn:C6; cbn [negb];
    [|apply Fail; [discriminate|built_steps]].
  destruct (d2i_GTTimeSignature env (Token.enc_digest si)) as [sig|] eqn:D2.
  2:{ destruct (time_signature_malloc_failure env);
        (apply Fail; [discriminate|built_steps]). }
  change (negb (GT_OK =? GT_OK)) with false. cbv iota.
  eexists _, _. split; [reflexivity|]. split; [|intros E; exfalso; apply E; reflexivity].
  intros _. exists t. split; [reflexivity|].
  destruct B as (o' & _ & Ts & Tk & O).
  exists a, ta, si, tst, sig.
  split; [exact Fa|]. split; [exact Fta|].
  unfold store_out, store_timestamp. cbn [timestamps tokens out].
  split; [rewrite Ts, !insert_insert_eq; reflexivity|].
  split; [exact Tk|]. split; [reflexivity|].
  split; [|split; [exact D1|exact D2]].
  apply Z.eqb_eq in C3, C4, C5.
  repeat split; try assumption.
  destruct (Token.parameter (Token.digest_enc_alg si)) as [ty|]; [|left; reflexivity].
  apply Z.eqb_eq in C6. subst ty. right. reflexivity.
Qed.

(** What the two decoders hand out when they return [GT_OK]. *)
Lemma decoders_decoded (env : ExtendEnv) (denv : DecodeEnv) (h h' : Heap)
    (buffer : option (list Z)) (length : Z) :
  GTTimestamp_DERDecode env denv h buffer length true = Some (GT_OK, h')
  \/ GTTimestamp_createTimestamp env denv h buffer length true = Some (GT_OK, h') ->
  exists t, decoded env h h' t.
Proof.
  assert (Fin : forall t,
            finish env
              (set_token (store_timestamp h (fresh (dom (timestamps h)))
                            {| token := None; tst_info := None; signer_info := None;
                               time_signature := None |})
                         (fresh (dom (timestamps h))) t)
              (fresh (dom (timestamps h))) = Some (GT_OK, h') ->
            exists t0, decoded env h h' t0).
  { intros t E.
    destruct (finish_spec env h _ _ t _ (fresh_timestamp h) (fresh_token h)
                (new_token_built h t)) as (code & h1 & E1 & Hok & _).
    rewrite E in E1. injection E1 as <- <-.
    destruct (Hok eq_refl) as (t' & _ & Hd). exists t'. exact Hd. }
  unfold GTTimestamp_DERDecode, GTTimestamp_createTimestamp, GTTimestamp_new.
  intros [H|H]; revert H.
  - destruct buffer as [d|]; [|discriminate].
    destruct (_ || _); [discriminate|].
    destruct (GT_malloc_timestamp env); [|discriminate].
    destruct (d2i_PKCS7 denv d length) as [t|];
      [apply Fin|destruct (token_malloc_failure denv); discriminate].
  - destruct buffer as [r|]; [|discriminate].
    destruct (_ || _); [discriminate|].
    destruct (d2i_GTTimeStampResp denv r length) as [resp|];
      [|destruct (resp_malloc_failure denv); discriminate].
    cbv zeta.
    destruct (GT_analyseResponseStatus env (resp_status resp) =? GT_OK) eqn:A;
      cbn [negb].
    2:{ intros [= E _]. rewrite E in A. discriminate A. }
    destruct (timeStampToken resp) as [t|]; [|discriminate].
    destruct (GT_malloc_timestamp env); [|discriminate].
    apply Fin.
Qed.

(** X19. [GTTimestamp_DERDecode] always returns, and it is transactional: when
    it returns [GT_OK], the caller's variable holds a new timestamp made of
    the token that [d2i_PKCS7] has decoded from the buffer, which has
    passed the checks of the two update functions; when it returns an
    error, the memory is exactly what it was. *)
Theorem DERDecode_transactional (env : ExtendEnv) (denv : DecodeEnv) (h : Heap)
    (data : option (list Z)) (data_length : Z) (timestamp : bool) :
  transactional env h (GTTimestamp_DERDecode env denv h data data_length timestamp)
    (fun t => exists d, data = Some d /\ data_length <> 0 /\ timestamp = true
                        /\ d2i_PKCS7 denv d data_length = Some t).
Proof.
  assert (Same : forall c src, c <> GT_OK -> transactional env h (Some (c, h)) src).
  { intros c src Hc. exists c, h. split; [reflexivity|].
    split; [intros E; contradiction|reflexivity]. }
  unfold GTTimestamp_DERDecode.
  destruct data as [d|]; [|apply Same; discriminate].
  destruct (data_length =? 0) eqn:L; cbn [orb]; [apply Same; discriminate|].
  destruct timestamp; cbn [negb]; [|apply Same; discriminate].
  unfold GTTimestamp_new.
  destruct (GT_malloc_timestamp env); [|apply Same; discriminate].
  pose proof (fresh_timestamp h) as Fa. pose proof (fresh_token h) as Fta.
  destruct (d2i_PKCS7 denv d data_length) as [t|] eqn:D.
  - destruct (finish_spec env h _ _ t _ Fa Fta (new_token_built h t))
      as (code & h' & E & Hok & Herr).
    exists code, h'. split; [exact E|]. split; [|exact Herr].
    intros Hc. destruct (Hok Hc) as (t' & -> & Hd).
    exists t. split; [|exact Hd].
    exists d. apply Z.eqb_neq in L. repeat split; assumption.
  - assert (F : GTTimestamp_free
                  (store_timestamp h (fresh (dom (timestamps h)))
                     {| token := None; tst_info := None; signer_info := None;
                        time_signature := None |})
                  (Some (fresh (dom (timestamps h)))) = h).
    { unfold GTTimestamp_free, store_timestamp. cbn [timestamps tokens out].
      rewrite lookup_insert_eq. cbn [token].
      rewrite delete_insert_id by exact Fa. destruct h; reflexivity. }
    rewrite F. destruct (token_malloc_failure denv); apply Same; discriminate.
Qed.

(** X20. [GTTimestamp_createTimestamp] always returns, and it is transactional:
    when it returns [GT_OK], the response has been decoded, its status has
    been accepted, and the caller's variable holds a new timestamp made of
    the token of the response, which has passed the checks of the two
    update functions; when it returns an error, the memory is exactly what
    it was. *)
Theorem createTimestamp_transactional (env : ExtendEnv) (denv : DecodeEnv) (h : Heap)
    (response : option (list Z)) (response_length : Z) (timestamp : bool) :
  transactional env h
    (GTTimestamp_createTimestamp env denv h response response_length timestamp)
    (fun t => exists r resp,
                response = Some r /\ response_length <> 0 /\ timestamp = true
                /\ d2i_GTTimeStampResp denv r response_length = Some resp
                /\ GT_analyseResponseStatus env (resp_status resp) = GT_OK
                /\ timeStampToken resp = Some t).
Proof.
  assert (Same : forall c src, c <> GT_OK -> transactional env h (Some (c, h)) src).
  { intros c src Hc. exists c, h. split; [reflexivity|].
    split; [intros E; contradiction|reflexivity]. }
  unfold GTTimestamp_createTimestamp.
  destruct response as [r|]; [|apply Same; discriminate].
  destruct (response_length =? 0) eqn:L; cbn [orb]; [apply Same; discriminate|].
  destruct timestamp; cbn [negb]; [|apply Same; discriminate].
  destruct (d2i_GTTimeStampResp denv r response_length) as [resp|] eqn:D.
  2:{ destruct (resp_malloc_failure denv); apply Same; discriminate. }
  cbv zeta.
  destruct (GT_analyseResponseStatus env (resp_status resp) =? GT_OK) eqn:A; cbn [negb].
  2:{ apply Same. apply Z.eqb_neq. exact A. }
  destruct (timeStampToken resp) as [t|] eqn:T; [|apply Same; discriminate].
  unfold GTTimestamp_new.
  destruct (GT_malloc_timestamp env); [|apply Same; discriminate].
  pose proof (fresh_timestamp h) as Fa. pose proof (fresh_token h) as Fta.
  destruct (finish_spec env h _ _ t _ Fa Fta (new_token_built h t))
    as (code & h' & E & Hok & Herr).
  exists code, h'. split; [exact E|]. split; [|exact Herr].
  intros Hc. destruct (Hok Hc) as (t' & -> & Hd).
  exists t. split; [|exact Hd].
  exists r, resp. apply Z.eqb_neq in L. apply Z.eqb_eq in A. repeat split; assumption.
Qed.

End DecodeMemory.

Section DecodedTimestamps.
Import Token.
Import Verify.
Import Query.

Ltac defined_steps :=
  repeat first
    [ apply require_defined | apply call_defined | apply from_option_defined
    | apply Ok_defined
    | apply bind_defined; [|intros ?] ].

Lemma Err_defined {A : Type} (res : Z) : defined (@Err A res).
Proof. unfold defined. discriminate. Qed.

(** Without a PKI signature the status bit is not set. *)
Lemma create_head_status (env : Env) (sig : GTTimeSignature) (parse_data : Z)
    (info : GTVerificationInfo) :
  create_head env sig parse_data = Ok info ->
  pkSignature sig = None ->
  Z.land (verification_status info) GT_PUBLIC_KEY_SIGNATURE_PRESENT = 0.
Proof.
  unfold create_head. intros H Hpk. rewrite Hpk in H. cbv zeta in H.
  destruct (require (malloc_info env) GT_OUT_OF_MEMORY); cbn [bind] in H;
    [|discriminate H|discriminate H].
  destruct (require (malloc_implicit env) GT_OUT_OF_MEMORY); cbn [bind] in H;
    [|discriminate H|discriminate H].
  destruct (negb (parse_data =? 0)).
  - destruct (call (addExplicitVerificationInfo env, ())); cbn [bind] in H;
      [|discriminate H|discriminate H].
    destruct (pubReference sig) as [refs|]; [destruct (_ >? 0)|];
      injection H as <-; reflexivity.
  - cbn [bind] in H.
    destruct (pubReference sig) as [refs|]; [destruct (_ >? 0)|];
      injection H as <-; reflexivity.
Qed.

Lemma setVerifiedPKISignatureInfo_defined (env : Env) (tok : PKCS7)
    (si : PKCS7_SIGNER_INFO) (pk : GTSignatureInfo)
    (explicit : option GTTimeStampExplicit) :
  defined (setVerifiedPKISignatureInfo env tok si pk explicit).
Proof.
  unfold setVerifiedPKISignatureInfo. defined_steps.
  destruct explicit; defined_steps.
Qed.

(** [createVerificationInfo] on a timestamp with a signer info and a short
    location chain. *)
Lemma createVerificationInfo_defined (env : Env) (tok : PKCS7)
    (si : PKCS7_SIGNER_INFO) (sig : GTTimeSignature) (parse_data : Z) :
  Z.of_nat (List.length (location sig)) < 6144 ->
  defined (createVerificationInfo env tok (Some si) sig parse_data).
Proof.
  intros Hlen. unfold createVerificationInfo.
  destruct (create_head env sig parse_data) as [info0| |] eqn:H0; cbn [bind];
    [|apply Err_defined|].
  2:{ exfalso. revert H0. unfold create_head. cbv zeta.
      destruct (require (malloc_info env) GT_OUT_OF_MEMORY) eqn:R1; cbn [bind];
        [|discriminate|destruct (malloc_info env); discriminate].
      destruct (require (malloc_implicit env) GT_OUT_OF_MEMORY) eqn:R2; cbn [bind];
        [|discriminate|destruct (malloc_implicit env); discriminate].
      destruct (negb (parse_data =? 0)); cbn [bind]; [|discriminate].
      unfold call. cbn [fst snd]. destruct (_ =? GT_OK); cbn [bind]; discriminate. }
  destruct (registration_time env sig info0) as [[info1 hid]| |] eqn:H1; cbn [bind];
    [|apply Err_defined|].
  2:{ exfalso. revert H1. unfold registration_time.
      destruct (GT_shape env (history sig)) as [r1 shape].
      match goal with
      | |- context [let '(_, _) := ?x in _] => destruct x as [r2 h2]
      end.
      repeat match goal with
             | |- context [if ?b then _ else _] => destruct b
             end; discriminate. }
  cbn [fst snd]. unfold create_tail. cbv zeta.
  pose proof (extractLocation_returns (malloc_location_name env) (location sig) Hlen)
    as Hloc.
  destruct (Location.extractLocation (malloc_location_name env) (location sig))
    as [[res o]|]; [|contradiction].
  assert (S1 : verification_status info1 = verification_status info0)
    by (eapply registration_time_status; exact H1).
  assert (Tail : forall info2 : GTVerificationInfo,
            verification_status info2 = verification_status info1 ->
            forall out : option (Z * option Location.NameBuf),
            defined
              (let '(tmp_info, out) := (info2, out) in
               let '(id, name) :=
                 match out with
                 | Some (id, name) => (id, name)
                 | None => (0, None)
                 end in
               if Z.land (verification_status tmp_info)
                    GT_PUBLIC_KEY_SIGNATURE_PRESENT =? 0
               then
                 bind (setVerifiedPublicationSignatureInfo env sig)
                   (fun s =>
                      Ok (set_implicit tmp_info
                            {| location_id := id; location_name := name;
                               registered_time := cast_int64 hid;
                               public_key_fingerprint := None;
                               publication_string := Some s |}))
               else
                 match pkSignature sig, Some si with
                 | Some pk, Some si0 =>
                     bind (setVerifiedPKISignatureInfo env tok si0 pk
                             (explicit_data tmp_info))
                       (fun r =>
                          Ok (set_implicit
                                match snd r with
                                | Some e => set_explicit tmp_info e
                                | None => tmp_info
                                end
                                {| location_id := id; location_name := name;
                                   registered_time := cast_int64 hid;
                                   public_key_fingerprint := Some (fst r);
                                   publication_string := None |}))
                 | _, _ => Undef
                 end)).
  { intros info2 S2 out.
    destruct (match out with Some (id, name) => (id, name) | None => (0, None) end)
      as [id name].
    destruct (Z.land (verification_status info2) GT_PUBLIC_KEY_SIGNATURE_PRESENT =? 0)
      eqn:P.
    - unfold setVerifiedPublicationSignatureInfo. defined_steps.
    - destruct (pkSignature sig) as [pk|] eqn:Hpk.
      + apply bind_defined; [apply setVerifiedPKISignatureInfo_defined|].
        intros r. apply Ok_defined.
      + exfalso. apply Z.eqb_neq in P. apply P.
        rewrite S2, S1. eapply create_head_status; eassumption. }
  destruct (res =? GT_OK); cbn [bind].
  - apply Tail. reflexivity.
  - destruct (res =? GT_INVALID_LINKING_INFO); cbn [bind]; [|apply Err_defined].
    apply Tail. reflexivity.
Qed.

(** [GTTimestamp_verify] on a timestamp whose three members are set and
    whose signer info is in its token. *)
Lemma verify_defined (env : Env) (ts : GTTimestamp) (tok : PKCS7) (tst : GTTSTInfo)
    (sig : GTTimeSignature) (si : PKCS7_SIGNER_INFO) (parse_data : Z) (b : bool) :
  token ts = Some tok -> tst_info ts = Some tst -> time_signature ts = Some sig ->
  the_signer_info ts = Some si ->
  Z.of_nat (List.length (location sig)) < 6144 ->
  defined (GTTimestamp_verify env (Some ts) parse_data b).
Proof.
  intros Ht Hi Hs Hsi Hlen. unfold GTTimestamp_verify. rewrite Ht, Hi, Hs, Hsi.
  destruct b; cbn [require bind]; [|apply Err_defined].
  pose proof (createVerificationInfo_defined env tok si sig parse_data Hlen) as D.
  destruct (createVerificationInfo env tok (Some si) sig parse_data) as [info0| |];
    cbn [bind]; [|apply Err_defined|exfalso; apply D; reflexivity].
  cbv zeta.
  destruct (code_of_defined _ (checkHashChain_defined env tst si sig)) as (c & ->).
  cbn [bind].
  match goal with
  | |- defined (bind ?r _) => destruct r as [info1| |] eqn:E1
  end; cbn [bind]; [|apply Err_defined|].
  2:{ exfalso. revert E1.
      repeat match goal with
             | |- context [if ?b then _ else _] => destruct b
             end; discriminate. }
  destruct (pkSignature sig) as [pk|]; [|apply Ok_defined].
  match goal with
  | |- defined (bind ?r _) => destruct r as [k| |] eqn:E2
  end; cbn [bind].
  - repeat match goal with
           | |- context [if ?b then _ else _] => destruct b
           end; first [apply Ok_defined | apply Err_defined].
  - apply Err_defined.
  - exfalso. revert E2.
    match goal with
    | |- context [match ?c with Some _ => _ | None => _ end] => destruct c as [c'|]
    end; [|discriminate].
    destruct (code_of_defined _ (checkPublicKeySignature_defined env sig pk c'))
      as (k & ->).
    discriminate.
Qed.

Import Extend Decode.

(** What the memory [decoded] holds for the caller. *)
Lemma decoded_handed_out (env : ExtendEnv) (h h' : Heap) (t : PKCS7) :
  decoded env h h' t ->
  exists si tst sig,
    handed_out h'
    = Some {| Token.token := Some t; Token.tst_info := Some tst;
              Token.signer_info := Some 0%nat; Token.time_signature := Some sig |}
    /\ signer_info_stack t = Some [si].
Proof.
  intros (a & ta & si & tst & sig & Fa & Fta & Ts & Tk & O & W & D1 & D2).
  exists si, tst, sig. split; [|apply W].
  unfold handed_out, timestamp_at. rewrite O, Ts, lookup_insert_eq.
  cbn [Extend.token Extend.tst_info Extend.signer_info Extend.time_signature].
  rewrite Tk, lookup_insert_eq. reflexivity.
Qed.



End DecodedTimestamps.

Section Queries.
Import Token.
Import Verify.
Import Query.

Ltac step_bind H :=
  match type of H with
  | bind ?r _ = Ok _ =>
      let E := fresh "E" in
      destruct r eqn:E; cbn [bind] in H; [|discriminate H|discriminate H]
  end.

(** The sub-checks of [GTTimestamp_verify] add error flags and nothing
    else. *)
Lemma verify_info (env : Env) (ts : GTTimestamp) (parse_data : Z) (b : bool)
    (info : GTVerificationInfo) :
  GTTimestamp_verify env (Some ts) parse_data b = Ok info ->
  exists tok sig si info0,
    token ts = Some tok /\ time_signature ts = Some sig
    /\ createVerificationInfo env tok si sig parse_data = Ok info0
    /\ implicit_data info = implicit_data info0
    /\ verification_status info = verification_status info0.
Proof.
  unfold GTTimestamp_verify.
  destruct (token ts) as [tok|]; [|discriminate].
  destruct (tst_info ts) as [tst|]; [|discriminate].
  destruct (time_signature ts) as [sig|]; [|discriminate].
  destruct (require b GT_INVALID_ARGUMENT); cbn [bind]; [|discriminate|discriminate].
  destruct (createVerificationInfo env tok (the_signer_info ts) sig parse_data)
    as [info0| |] eqn:C; cbn [bind]; [|discriminate|discriminate].
  destruct (the_signer_info ts) as [si|]; [|discriminate].
  intros H. exists tok, sig, (Some si), info0.
  split; [reflexivity|split; [reflexivity|split; [exact C|]]].
  set (info1 := if negb (checkTimestampSyntax env tok tst si sig =? GT_OK)
                then add_error info0 GT_SYNTACTIC_CHECK_FAILURE else info0) in H.
  assert (I1 : implicit_data info1 = implicit_data info0
               /\ verification_status info1 = verification_status info0).
  { unfold info1. destruct (negb _); split; reflexivity. }
  destruct I1 as [I1 F1]. clearbody info1.
  destruct (code_of (checkHashChain env tst si sig)) as [h| |]; cbn [bind] in H;
    [|discriminate H|discriminate H].
  assert (I2 : exists info2,
             (if h =? GT_OK then Ok info1
              else if hashchain_failure h
                   then Ok (add_error info1 GT_HASHCHAIN_VERIFICATION_FAILURE)
                   else Err h) = Ok info2
             /\ implicit_data info2 = implicit_data info1
             /\ verification_status info2 = verification_status info1).
  { destruct (h =? GT_OK); [exists info1; repeat split; tauto|].
    destruct (hashchain_failure h); [|cbn [bind] in H; discriminate H].
    eexists. split; [reflexivity|split; reflexivity]. }
  destruct I2 as (info2 & E2 & I2 & F2). rewrite E2 in H. cbn [bind] in H.
  assert (I3 : implicit_data info = implicit_data info2
               /\ verification_status info = verification_status info2).
  { destruct (pkSignature sig) as [pk|]; [|injection H as <-; tauto].
    match type of H with
    | bind ?r _ = _ => destruct r as [k| |]; cbn [bind] in H;
                         [|discriminate H|discriminate H]
    end.
    destruct (k =? GT_OK); [injection H as <-; tauto|].
    destruct (signature_failure k); [|discriminate H].
    injection H as <-. split; reflexivity. }
  destruct I3 as [I3 F3]. split; congruence.
Qed.

(** The implicit data that [createVerificationInfo] fills in. *)
Lemma createVerificationInfo_kind (env : Env) (tok : PKCS7)
    (si : option PKCS7_SIGNER_INFO) (sig : GTTimeSignature) (parse_data : Z)
    (info : GTVerificationInfo) :
  createVerificationInfo env tok si sig parse_data = Ok info ->
  match pkSignature sig with
  | Some _ => reports_signed info
  | None => reports_extended info
  end.
Proof.
  intros H.
  destruct (createVerificationInfo_inv env tok si sig parse_data info H)
    as (i0 & i1 & hid & _ & _ & _ & Hpk).
  unfold createVerificationInfo in H.
  step_bind H. step_bind H. destruct a0 as [info1 h]. cbn [fst snd] in H.
  unfold create_tail in H. cbv zeta in H.
  step_bind H. destruct a0 as [info2 out].
  assert (S1 : verification_status info1 = verification_status a)
    by (eapply registration_time_status; eassumption).
  assert (S2 : verification_status info2 = verification_status info1).
  { destruct (Location.extractLocation _ _) as [[res o]|]; [|discriminate E1].
    destruct (res =? GT_OK); [injection E1 as <- _; reflexivity|].
    destruct (res =? GT_INVALID_LINKING_INFO); [|discriminate E1].
    injection E1 as <- _. reflexivity. }
  destruct (match out with Some (id, name) => (id, name) | None => (0, None) end)
    as [id name].
  destruct (Z.land (verification_status info2) GT_PUBLIC_KEY_SIGNATURE_PRESENT =? 0)
    eqn:P.
  - apply Z.eqb_eq in P. step_bind H. injection H as <-.
    destruct (pkSignature sig) as [pk|] eqn:Epk.
    + exfalso. destruct (Hpk pk eq_refl) as (Hf & _).
      cbn [set_implicit verification_status] in Hf. unfold has_flag in Hf.
      rewrite P in Hf. discriminate Hf.
    + split; [exact P|]. eexists. split; [reflexivity|].
      split; [reflexivity|eexists; reflexivity].
  - destruct (pkSignature sig) as [pk|] eqn:Epk; [|discriminate H].
    destruct si as [s|]; [|discriminate H].
    step_bind H. injection H as <-.
    split.
    + destruct (Hpk pk eq_refl) as (Hf & _). exact Hf.
    + eexists. split; [reflexivity|]. cbn [public_key_fingerprint publication_string].
      split; [eexists; reflexivity|reflexivity].
Qed.

(** X22. [GTTimestamp_isExtended] agrees with what [GTTimestamp_verify]
    reports.  For every timestamp that [GTTimestamp_verify] hands out a
    verification info for, [GTTimestamp_isExtended] returns [GT_EXTENDED] or
    [GT_NOT_EXTENDED]; it returns [GT_NOT_EXTENDED] exactly when the status
    has [GT_PUBLIC_KEY_SIGNATURE_PRESENT] set, and then the implicit data
    carries a key fingerprint and no publication string; it returns
    [GT_EXTENDED] exactly when the flag is clear, and then the implicit
    data carries a publication string and no key fingerprint. *)
Theorem isExtended_agrees_with_verify (env : Env) (ts : GTTimestamp)
    (parse_data : Z) (b : bool) (info : GTVerificationInfo) :
  GTTimestamp_verify env (Some ts) parse_data b = Ok info ->
  (GTTimestamp_isExtended (Some ts) = GT_NOT_EXTENDED /\ reports_signed info)
  \/ (GTTimestamp_isExtended (Some ts) = GT_EXTENDED /\ reports_extended info).
Proof.
  intros H.
  destruct (verify_info env ts parse_data b info H)
    as (tok & sig & si & info0 & Ht & Hs & C & I & S).
  pose proof (createVerificationInfo_kind env tok si sig parse_data info0 C) as K.
  unfold GTTimestamp_isExtended. rewrite Hs.
  unfold reports_signed, reports_extended in *. rewrite S, I.
  destruct (pkSignature sig); [left|right]; split; [reflexivity|exact K|reflexivity|exact K].
Qed.

Lemma isExtended_agrees_with_verify_witness :
  GTTimestamp_isExtended (Some timestamp_extended) = GT_EXTENDED
  /\ reports_extended
       (info_of (GTTimestamp_verify (sample_env 8 1300000000 1)
                   (Some timestamp_extended) 0 true)).
Proof.
  assert (E : GTTimestamp_verify (sample_env 8 1300000000 1) (Some timestamp_extended)
                0 true
              = Ok (info_of (GTTimestamp_verify (sample_env 8 1300000000 1)
                               (Some timestamp_extended) 0 true)))
    by (vm_compute; reflexivity).
  destruct (isExtended_agrees_with_verify _ _ _ _ _ E) as [[H _]|H].
  - vm_compute in H. discriminate H.
  - exact H.
Defined.

(** The registration time is looked up without an error exactly when no
    flag is added. *)
Lemma registration_time_found (env : Env) (sig : GTTimeSignature)
    (info info1 : GTVerificationInfo) (h : Z) :
  registration_time env sig info = Ok (info1, h) ->
  Z.land (verification_errors info1) GT_SYNTACTIC_CHECK_FAILURE = 0 ->
  exists shape,
    GT_shape env (history sig) = (GT_OK, shape)
    /\ GT_findHistoryIdentifier env (publicationIdentifier (publishedData sig)) shape
       = (GT_OK, h).
Proof.
  unfold registration_time.
  destruct (GT_shape env (history sig)) as [r1 shape] eqn:Es.
  destruct (r1 =? GT_OK) eqn:R1.
  - apply Z.eqb_eq in R1. subst r1.
    destruct (GT_findHistoryIdentifier env (publicationIdentifier (publishedData sig))
                shape) as [r2 hid] eqn:Ef.
    destruct ((sizeof_time_t env <? 8) && (r2 =? GT_OK) && time_t_overflow env hid).
    + change (negb (GT_INVALID_FORMAT =? GT_OK)) with true. cbv iota.
      change ((GT_INVALID_FORMAT =? GT_INVALID_FORMAT)
              || (GT_INVALID_FORMAT =? GT_INVALID_LINKING_INFO)
              || (GT_INVALID_FORMAT =? GT_UNSUPPORTED_FORMAT)) with true. cbv iota.
      intros [= <- <-] Hz. exfalso.
      pose proof (has_flag_lor_same (verification_errors info)
                    GT_SYNTACTIC_CHECK_FAILURE) as Hf.
      unfold has_flag in Hf. cbn [add_error verification_errors] in Hz.
      rewrite Hz in Hf. discriminate Hf.
    + destruct (r2 =? GT_OK) eqn:R2; cbn [negb].
      * apply Z.eqb_eq in R2. subst r2. intros [= <- <-] _.
        exists shape. split; [reflexivity|exact Ef].
      * destruct (_ || _); [|discriminate].
        intros [= <- <-] Hz. exfalso.
        pose proof (has_flag_lor_same (verification_errors info)
                      GT_SYNTACTIC_CHECK_FAILURE) as Hf.
        unfold has_flag in Hf. cbn [add_error verification_errors] in Hz.
        rewrite Hz in Hf. discriminate Hf.
  - rewrite !R1. rewrite !andb_false_r. cbn [andb]. rewrite !R1. cbn [negb].
    destruct (_ || _); [|discriminate].
    intros [= <- <-] Hz. exfalso.
    pose proof (has_flag_lor_same (verification_errors info)
                  GT_SYNTACTIC_CHECK_FAILURE) as Hf.
    unfold has_flag in Hf. cbn [add_error verification_errors] in Hz.
    rewrite Hz in Hf. discriminate Hf.
Qed.

Lemma land_1_cases (v : Z) :
  Z.land v GT_SYNTACTIC_CHECK_FAILURE = 0
  \/ Z.land v GT_SYNTACTIC_CHECK_FAILURE = GT_SYNTACTIC_CHECK_FAILURE.
Proof.
  unfold GT_SYNTACTIC_CHECK_FAILURE.
  pose proof (Z.land_ones v 1 ltac:(lia)) as E. change (Z.ones 1) with 1 in E.
  rewrite E. change (2 ^ 1) with 2.
  pose proof (Z.mod_pos_bound v 2 ltac:(lia)). lia.
Qed.

(** A verification info without the syntactic flag reports the history
    identifier that the environment has found. *)
Lemma verify_reported_time (env : Env) (ts : GTTimestamp) (parse_data : Z) (b : bool)
    (info : GTVerificationInfo) :
  GTTimestamp_verify env (Some ts) parse_data b = Ok info ->
  Z.land (verification_errors info) GT_SYNTACTIC_CHECK_FAILURE = 0 ->
  exists tok tst sig shape h,
    token ts = Some tok /\ tst_info ts = Some tst /\ time_signature ts = Some sig
    /\ GT_shape env (history sig) = (GT_OK, shape)
    /\ GT_findHistoryIdentifier env (publicationIdentifier (publishedData sig)) shape
       = (GT_OK, h)
    /\ reported_time info = Some (cast_int64 h).
Proof.
  intros H Hz.
  destruct (verify_inv env ts parse_data b info H)
    as (tok & sig & si & info0 & Ht & Hs & C & I & F).
  destruct (createVerificationInfo_inv env tok si sig parse_data info0 C)
    as (i0 & i1 & h & R & F1 & T & _).
  assert (Hz1 : Z.land (verification_errors i1) GT_SYNTACTIC_CHECK_FAILURE = 0).
  { destruct (land_1_cases (verification_errors i1)) as [E|E]; [exact E|].
    exfalso. pose proof (F _ (F1 _ E)) as Hf. unfold has_flag in Hf.
    rewrite Hz in Hf. discriminate Hf. }
  destruct (registration_time_found env sig i0 i1 h R Hz1) as (shape & Es & Ef).
  assert (Hi : exists tst, tst_info ts = Some tst).
  { unfold GTTimestamp_verify in H. rewrite Ht in H.
    destruct (tst_info ts) as [tst|]; [eexists; reflexivity|discriminate H]. }
  destruct Hi as (tst & Hi).
  exists tok, tst, sig, shape, h.
  repeat split; try assumption.
  unfold reported_time in *. rewrite I. exact T.
Qed.

Lemma cast_int64_small (h : Z) : 0 <= h < 2 ^ 63 -> cast_int64 h = h.
Proof.
  intros H. unfold cast_int64, cast_signed. change (64 - 1) with 63.
  rewrite Z.mod_small by lia. lia.
Qed.

(** X23. [GTTimestamp_isEarlierThan] compares the registration times that
    [GTTimestamp_verify] reports.  For two timestamps whose verification
    infos do not have [GT_SYNTACTIC_CHECK_FAILURE] set, in an environment
    whose history identifiers are below [2^63], it returns [GT_EARLIER]
    when the registered time of the first one is less than that of the
    second one, and [GT_NOT_EARLIER] otherwise. *)
Theorem isEarlierThan_registered_time (env : Env) (ts1 ts2 : GTTimestamp)
    (parse1 parse2 : Z) (info1 info2 : GTVerificationInfo) :
  identifiers_in_range env ->
  GTTimestamp_verify env (Some ts1) parse1 true = Ok info1 ->
  GTTimestamp_verify env (Some ts2) parse2 true = Ok info2 ->
  Z.land (verification_errors info1) GT_SYNTACTIC_CHECK_FAILURE = 0 ->
  Z.land (verification_errors info2) GT_SYNTACTIC_CHECK_FAILURE = 0 ->
  exists t1 t2,
    reported_time info1 = Some t1 /\ reported_time info2 = Some t2
    /\ GTTimestamp_isEarlierThan env (Some ts1) (Some ts2)
       = if t1 <? t2 then GT_EARLIER else GT_NOT_EARLIER.
Proof.
  intros Hr H1 H2 Z1 Z2.
  destruct (verify_reported_time env ts1 parse1 true info1 H1 Z1)
    as (tok1 & tst1 & sig1 & shape1 & h1 & T1 & I1 & S1 & Es1 & Ef1 & R1).
  destruct (verify_reported_time env ts2 parse2 true info2 H2 Z2)
    as (tok2 & tst2 & sig2 & shape2 & h2 & T2 & I2 & S2 & Es2 & Ef2 & R2).
  exists (cast_int64 h1), (cast_int64 h2).
  split; [exact R1|]. split; [exact R2|].
  unfold GTTimestamp_isEarlierThan.
  rewrite T1, I1, S1, T2, I2, S2, Es1. cbn [negb Z.eqb GT_OK].
  rewrite Ef1. cbn [negb Z.eqb GT_OK]. rewrite Es2. cbn [negb Z.eqb GT_OK].
  rewrite Ef2. cbn [negb Z.eqb GT_OK].
  pose proof (Hr (publicationIdentifier (publishedData sig1)) shape1) as B1.
  pose proof (Hr (publicationIdentifier (publishedData sig2)) shape2) as B2.
  rewrite Ef1 in B1. rewrite Ef2 in B2. cbn [snd] in B1, B2.
  rewrite !cast_int64_small by assumption. reflexivity.
Qed.

Lemma isEarlierThan_registered_time_witness :
  GTTimestamp_isEarlierThan (sample_env 8 1300000000 1)
    (Some timestamp_sound) (Some timestamp_extended) = GT_NOT_EARLIER.
Proof.
  assert (E1 : GTTimestamp_verify (sample_env 8 1300000000 1) (Some timestamp_sound)
                 0 true
               = Ok (info_of (GTTimestamp_verify (sample_env 8 1300000000 1)
                                (Some timestamp_sound) 0 true)))
    by (vm_compute; reflexivity).
  assert (E2 : GTTimestamp_verify (sample_env 8 1300000000 1) (Some timestamp_extended)
                 0 true
               = Ok (info_of (GTTimestamp_verify (sample_env 8 1300000000 1)
                                (Some timestamp_extended) 0 true)))
    by (vm_compute; reflexivity).
  destruct (isEarlierThan_registered_time (sample_env 8 1300000000 1)
              timestamp_sound timestamp_extended 0 0 _ _
              ltac:(intros id shape; cbn; lia) E1 E2
              ltac:(vm_compute; reflexivity) ltac:(vm_compute; reflexivity))
    as (t1 & t2 & R1 & R2 & E).
  vm_compute in R1. injection R1 as <-.
  vm_compute in R2. injection R2 as <-.
  exact E.
Defined.

End Queries.

Section Recode.
Import Extend.
Import Decode.

(** A token that passes every check is made a timestamp. *)
Lemma finish_accepts (env : ExtendEnv) (h : Heap) (a ta : nat) (t : Token.PKCS7)
    (h2 : Heap) (si : Token.PKCS7_SIGNER_INFO) (tst : Token.GTTSTInfo)
    (sig : Token.GTTimeSignature) :
  built h a ta t h2 ->
  timestamp_token t si ->
  d2i_GTTSTInfo env (Token.value_octet_string (Token.contents t)) = Some tst ->
  d2i_GTTimeSignature env (Token.enc_digest si) = Some sig ->
  exists h', finish env h2 a = Some (GT_OK, h').
Proof.
  intros B (C1 & C2 & C3 & C4 & S & C5 & C6) D1 D2.
  destruct (built_lookup _ _ _ _ _ B) as ((o & Lo & To) & Lt).
  unfold finish, GTTimestamp_updateTSTInfo. rewrite Lo, To.
  cbn [store_timestamp tokens]. rewrite Lt.
  rewrite C1, C2, C3, C4, D1. cbn [negb].
  rewrite !Z.eqb_refl. cbn [negb].
  unfold GTTimestamp_updateTimeSignature.
  cbn [store_timestamp timestamps tokens]. rewrite lookup_insert_eq.
  cbn [token tst_info]. rewrite Lt. rewrite C1. cbn [negb].
  unfold Token.PKCS7_get_signer_info. rewrite C1, S, C5, D2.
  rewrite Z.eqb_refl. cbn [negb orb].
  assert (P : match Token.parameter (Token.digest_enc_alg si) with
              | Some ty => ty =? Token.V_ASN1_NULL
              | None => true
              end = true)
    by (destruct C6 as [-> | ->]; reflexivity).
  rewrite P. cbn [negb]. change (negb (GT_OK =? GT_OK)) with false. cbv iota.
  eexists. reflexivity.
Qed.

Lemma handed_out_parts (h' : Heap) (a ta : nat) (tst : Token.GTTSTInfo)
    (sig : Token.GTTimeSignature) (t : Token.PKCS7)
    (m : gmap nat GTTimestamp_st) (mt : gmap nat Token.PKCS7) :
  timestamps h'
  = <[a := {| token := Some ta; tst_info := Some tst; signer_info := Some 0%nat;
              time_signature := Some sig |}]> m ->
  tokens h' = <[ta := t]> mt ->
  out h' = Some a ->
  handed_out h'
  = Some {| Token.token := Some t; Token.tst_info := Some tst;
            Token.signer_info := Some 0%nat; Token.time_signature := Some sig |}.
Proof.
  intros Ts Tk O. unfold handed_out, timestamp_at. rewrite O, Ts, lookup_insert_eq.
  cbn [token tst_info signer_info time_signature]. rewrite Tk, lookup_insert_eq.
  reflexivity.
Qed.

Lemma decoders_allocate (env : ExtendEnv) (denv : DecodeEnv) (h h' : Heap)
    (buffer : option (list Z)) (length : Z) :
  GTTimestamp_DERDecode env denv h buffer length true = Some (GT_OK, h')
  \/ GTTimestamp_createTimestamp env denv h buffer length true = Some (GT_OK, h') ->
  GT_malloc_timestamp env = true.
Proof.
  unfold GTTimestamp_DERDecode, GTTimestamp_createTimestamp, GTTimestamp_new.
  destruct (GT_malloc_timestamp env); [reflexivity|].
  intros [H|H]; exfalso; revert H.
  - destruct buffer; [|discriminate]. destruct (_ || _); discriminate.
  - destruct buffer; [|discriminate]. destruct (_ || _); [discriminate|].
    destruct (d2i_GTTimeStampResp _ _ _);
      [|destruct (resp_malloc_failure denv); discriminate].
    cbv zeta.
    destruct (GT_analyseResponseStatus env _ =? GT_OK) eqn:A; cbn [negb].
    + destruct (timeStampToken _); discriminate.
    + intros [= E _]. rewrite E in A. discriminate A.
Qed.

(** X24. Encoding and decoding again.  When a timestamp made by one of the two
    decoders is encoded by [GTTimestamp_getDEREncoded] and OpenSSL reads
    the token back from the encoding, [GTTimestamp_DERDecode] of the
    encoding returns [GT_OK] and hands out a timestamp equal to the one
    that was encoded, member by member. *)
Theorem getDEREncoded_DERDecode (env : ExtendEnv) (denv : DecodeEnv) (h h1 : Heap)
    (buffer : option (list Z)) (length : Z) (der : list Z)
    (ts : Token.GTTimestamp) (t : Token.PKCS7) :
  GTTimestamp_DERDecode env denv h buffer length true = Some (GT_OK, h1)
  \/ GTTimestamp_createTimestamp env denv h buffer length true = Some (GT_OK, h1) ->
  GTTimestamp_getDEREncoded denv h1 (out h1) true true = Some (GT_OK, Some der) ->
  handed_out h1 = Some ts -> Token.token ts = Some t ->
  der <> [] ->
  d2i_PKCS7 denv der (Z.of_nat (List.length der)) = Some t ->
  i2d_PKCS7 denv t = Some der
  /\ exists h2,
       GTTimestamp_DERDecode env denv h1 (Some der) (Z.of_nat (List.length der)) true
       = Some (GT_OK, h2)
       /\ handed_out h2 = Some ts.
Proof.
  intros H Henc Ho Ht Hne Hd2i.
  pose proof (decoders_allocate env denv h h1 buffer length H) as Hm.
  destruct (decoders_decoded env denv h h1 buffer length H) as (t0 & Hd).
  destruct Hd as (a & ta & si & tst & sig & Fa & Fta & Ts & Tk & O & W & D1 & D2).
  rewrite (handed_out_parts h1 a ta tst sig t0 _ _ Ts Tk O) in Ho.
  injection Ho as <-. cbn [Token.token] in Ht. injection Ht as ->.
  split.
  { revert Henc. unfold GTTimestamp_getDEREncoded. rewrite O, Ts, lookup_insert_eq.
    cbn [token negb orb]. rewrite Tk, lookup_insert_eq.
    destruct (i2d_PKCS7 denv t) as [d|]; [|discriminate].
    destruct (negb (GT_malloc_data denv)); [discriminate|].
    intros [= <-]. reflexivity. }
  unfold GTTimestamp_DERDecode, GTTimestamp_new.
  assert (L : (Z.of_nat (List.length der) =? 0) = false).
  { apply Z.eqb_neq. destruct der; [congruence|cbn [List.length]; lia]. }
  rewrite L, Hm, Hd2i. cbn [orb negb].
  destruct (finish_accepts env h1 _ _ t _ si tst sig (new_token_built h1 t) W D1 D2)
    as (h2 & E).
  exists h2. split; [exact E|].
  destruct (finish_spec env h1 _ _ t _ (fresh_timestamp h1) (fresh_token h1)
              (new_token_built h1 t)) as (code & h2' & E' & Hok & _).
  rewrite E in E'. injection E' as <- <-.
  destruct (Hok eq_refl) as (t' & -> & Hd2).
  destruct Hd2 as (a2 & ta2 & si3 & tst3 & sig3 & _ & _ & Ts2 & Tk2 & O2 & W2 & D3 & D4).
  rewrite (handed_out_parts h2 a2 ta2 tst3 sig3 t _ _ Ts2 Tk2 O2).
  assert (si3 = si).
  { destruct W as (_ & _ & _ & _ & S & _). destruct W2 as (_ & _ & _ & _ & S' & _).
    congruence. }
  subst si3. congruence.
Qed.

Lemma getDEREncoded_DERDecode_witness :
  let h1 := heap_of (GTTimestamp_DERDecode sample_extend_env sample_decode_env
                       sample_heap (Some [48; 0]) 2 true) sample_heap in
  exists h2,
    GTTimestamp_DERDecode sample_extend_env sample_decode_env h1 (Some [48; 0]) 2 true
    = Some (GT_OK, h2)
    /\ handed_out h2 = handed_out h1.
Proof.
  intros h1.
  assert (E : GTTimestamp_DERDecode sample_extend_env sample_decode_env sample_heap
                (Some [48; 0]) 2 true = Some (GT_OK, h1))
    by (vm_compute; reflexivity).
  assert (Ho : handed_out h1
               = Some {| Token.token := Some (sample_token 3 (Some [sample_certificate]));
                         Token.tst_info := Some sample_tst_info;
                         Token.signer_info := Some 0%nat;
                         Token.time_signature :=
                           Some (sample_time_signature good_imprint None) |})
    by (vm_compute; reflexivity).
  destruct (getDEREncoded_DERDecode sample_extend_env sample_decode_env sample_heap h1
              (Some [48; 0]) 2 [48; 0] _ _ (or_introl E)
              ltac:(vm_compute; reflexivity) Ho eq_refl ltac:(discriminate) eq_refl)
    as (_ & h2 & E2 & Ho2).
  exists h2. split; [exact E2|]. rewrite Ho2, Ho. reflexivity.
Defined.

End Recode.

Section VerifySound.
Import Token.
Import Verify.

Lemma bytes_eqb_eq (a b : list Z) : bytes_eqb a b = true -> a = b.
Proof.
  revert b. induction a as [|x a IH]; intros [|y b]; cbn [bytes_eqb];
    try discriminate; [reflexivity|].
  intros H. apply andb_true_iff in H. destruct H as [H1 H2].
  apply Z.eqb_eq in H1. rewrite H1, (IH b H2). reflexivity.
Qed.

Lemma call_ok {A : Type} (r : Z * A) (a : A) : call r = Ok a -> r = (GT_OK, a).
Proof.
  unfold call. destruct r as [c v]. cbn [fst snd].
  destruct (c =? GT_OK) eqn:E; [|discriminate].
  apply Z.eqb_eq in E. intros [= <-]. rewrite E. reflexivity.
Qed.

Lemma require_ok (b : bool) (code : Z) (u : unit) : require b code = Ok u -> b = true.
Proof. unfold require. destruct b; [reflexivity|discriminate]. Qed.

Lemma from_option_ok {A : Type} (o : option A) (code : Z) (a : A) :
  from_option o code = Ok a -> o = Some a.
Proof. unfold from_option. destruct o; [intros [= <-]; reflexivity|discriminate]. Qed.

Ltac step_bind H :=
  match type of H with
  | bind ?r _ = Ok _ =>
      let E := fresh "E" in
      destruct r eqn:E; cbn [bind] in H; [|discriminate H|discriminate H]
  end.

(** [checkHashChain] returns [GT_OK] only for a chain that leads to the
    published imprint. *)
Lemma checkHashChain_ok (env : Env) (tst : GTTSTInfo) (si : PKCS7_SIGNER_INFO)
    (sig : GTTimeSignature) (u : unit) :
  checkHashChain env tst si sig = Ok u ->
  recomputed env tst si sig (publicationImprint (publishedData sig)).
Proof.
  unfold checkHashChain, recomputed. cbv zeta. intros H.
  set (imprint := publicationImprint (publishedData sig)) in *.
  set (alg_client := GT_EVPToHashChainID env _) in *.
  step_bind H. apply require_ok in E. apply negb_true_iff in E. apply Z.ltb_ge in E.
  step_bind H. apply require_ok in E0.
  step_bind H. apply require_ok in E1. apply negb_true_iff in E1. apply Z.ltb_ge in E1.
  step_bind H. clear E2.
  step_bind H. apply from_option_ok in E2.
  step_bind H. apply call_ok in E3.
  step_bind H.
  destruct (PKCS7_get_signed_attribute si NID_pkcs9_messageDigest) as [md|] eqn:Emd;
    [|discriminate E4].
  destruct (type md =? V_ASN1_OCTET_STRING) eqn:Et; [|discriminate E4].
  apply Z.eqb_eq in Et. injection E4 as <-.
  step_bind H. apply require_ok in E4. apply negb_true_iff in E4.
  apply orb_false_iff in E4. destruct E4 as [_ E4].
  apply negb_false_iff in E4. apply bytes_eqb_eq in E4.
  step_bind H. apply from_option_ok in E5.
  step_bind H. apply call_ok in E6.
  step_bind H. apply call_ok in E7.
  step_bind H. apply call_ok in E8.
  step_bind H. apply call_ok in E9.
  step_bind H. apply require_ok in E10. apply bytes_eqb_eq in E10.
  rewrite E10 in E9.
  eexists _, _, md, _, _, _, _.
  split; [intros Hn; rewrite Hn in E; cbn in E; lia|].
  repeat split; try eassumption.
Qed.

Lemma checkPublicKeySignature_ok (env : Env) (sig : GTTimeSignature)
    (pk : GTSignatureInfo) (c : X509) (u : unit) :
  checkPublicKeySignature env sig pk c = Ok u -> signature_verified env sig pk c.
Proof.
  unfold checkPublicKeySignature, signature_verified. cbv zeta. intros H.
  step_bind H. apply from_option_ok in E.
  step_bind H. apply from_option_ok in E0.
  step_bind H. apply from_option_ok in E1.
  step_bind H. step_bind H. step_bind H. step_bind H.
  step_bind H. apply require_ok in E6. apply negb_true_iff in E6. apply Z.ltb_ge in E6.
  step_bind H. apply require_ok in E7. apply negb_true_iff in E7. apply Z.eqb_neq in E7.
  eexists _, _, _. repeat split; try eassumption. lia.
Qed.

(** A sub-check that fails does not fail with [GT_OK]. *)
Lemma bind_err {A B : Type} (r : Res A) (k : A -> Res B) (c : Z) :
  bind r k = Err c -> r = Err c \/ exists a, r = Ok a /\ k a = Err c.
Proof.
  destruct r as [a|c'|]; cbn [bind]; [|intros [= <-]; left; reflexivity|discriminate].
  intros H. right. exists a. split; [reflexivity|exact H].
Qed.

Lemma require_err (b : bool) (code c : Z) :
  code <> GT_OK -> require b code = Err c -> c <> GT_OK.
Proof. unfold require. destruct b; [discriminate|]. intros H [= <-]. exact H. Qed.

Lemma call_err {A : Type} (r : Z * A) (c : Z) : call r = Err c -> c <> GT_OK.
Proof.
  unfold call. destruct (fst r =? GT_OK) eqn:E; [discriminate|].
  intros [= <-]. apply Z.eqb_neq. exact E.
Qed.

Lemma from_option_err {A : Type} (o : option A) (code c : Z) :
  code <> GT_OK -> from_option o code = Err c -> c <> GT_OK.
Proof. unfold from_option. destruct o; [discriminate|]. intros H [= <-]. exact H. Qed.

Ltac err_step H :=
  apply bind_err in H;
  destruct H as [H|[? [_ H]]];
  [first [ apply require_err in H; [exact H|discriminate]
         | apply call_err in H; exact H
         | apply from_option_err in H; [exact H|discriminate] ]|].

Lemma checkHashChain_err (env : Env) (tst : GTTSTInfo) (si : PKCS7_SIGNER_INFO)
    (sig : GTTimeSignature) (c : Z) :
  checkHashChain env tst si sig = Err c -> c <> GT_OK.
Proof.
  unfold checkHashChain. cbv zeta. intros H.
  do 6 err_step H.
  apply bind_err in H. destruct H as [H|[? [_ H]]].
  { destruct (PKCS7_get_signed_attribute si NID_pkcs9_messageDigest) as [md|];
      [destruct (type md =? V_ASN1_OCTET_STRING); [discriminate|]|];
      injection H as <-; discriminate. }
  do 7 err_step H. discriminate.
Qed.

Lemma checkPublicKeySignature_err (env : Env) (sig : GTTimeSignature)
    (pk : GTSignatureInfo) (c : X509) (code : Z) :
  checkPublicKeySignature env sig pk c = Err code -> code <> GT_OK.
Proof.
  unfold checkPublicKeySignature. cbv zeta. intros H.
  do 9 err_step H. discriminate.
Qed.

Lemma code_of_ok (r : Res unit) :
  (forall c, r = Err c -> c <> GT_OK) -> code_of r = Ok GT_OK -> r = Ok tt.
Proof.
  destruct r as [[]|c|]; cbn [code_of]; [reflexivity| |discriminate].
  intros H [= ->]. exfalso. apply (H GT_OK); reflexivity.
Qed.

Lemma add_error_nonzero (info : GTVerificationInfo) (flag : Z) :
  flag <> 0 -> verification_errors (add_error info flag) <> 0.
Proof.
  unfold add_error. cbn [verification_errors]. intros Hf H.
  apply Z.lor_eq_0_iff in H. destruct H as [_ H]. contradiction.
Qed.

(** X25. A verification that reports no failure has passed every check: the
    syntactic check returned [GT_OK], the hash chain recomputed from the
    signed attributes leads to the published imprint, and a PKI signature,
    when the timestamp carries one, was accepted by [EVP_VerifyFinal] under
    the key of the signer's certificate found in the token. *)
Theorem verify_no_failures (env : Env) (ts : GTTimestamp) (parse_data : Z)
    (info : GTVerificationInfo) :
  GTTimestamp_verify env (Some ts) parse_data true = Ok info ->
  verification_errors info = GT_NO_FAILURES ->
  exists tok tst sig si,
    token ts = Some tok /\ tst_info ts = Some tst /\ time_signature ts = Some sig
    /\ the_signer_info ts = Some si
    /\ checkTimestampSyntax env tok tst si sig = GT_OK
    /\ recomputed env tst si sig (publicationImprint (publishedData sig))
    /\ forall pk, pkSignature sig = Some pk ->
         exists certificate,
           PKCS7_cert_from_signer_info tok si = Some certificate
           /\ signature_verified env sig pk certificate.
Proof.
  unfold GTTimestamp_verify, GT_NO_FAILURES.
  destruct (token ts) as [tok|]; [|discriminate].
  destruct (tst_info ts) as [tst|]; [|discriminate].
  destruct (time_signature ts) as [sig|]; [|discriminate].
  cbn [require bind].
  destruct (createVerificationInfo env tok (the_signer_info ts) sig parse_data)
    as [info0| |] eqn:C; cbn [bind]; [|discriminate|discriminate].
  destruct (the_signer_info ts) as [si|]; [|discriminate].
  intros H Z0. exists tok, tst, sig, si.
  do 4 (split; [reflexivity|]).
  set (s := checkTimestampSyntax env tok tst si sig) in *.
  set (info1 := if negb (s =? GT_OK)
                then add_error info0 GT_SYNTACTIC_CHECK_FAILURE else info0) in H.
  assert (S1 : verification_errors info1 = 0 -> s = GT_OK).
  { subst info1. destruct (s =? GT_OK) eqn:Es; cbn [negb].
    - intros _. apply Z.eqb_eq. exact Es.
    - intros Hn. exfalso. revert Hn. apply add_error_nonzero. discriminate. }
  destruct (code_of (checkHashChain env tst si sig)) as [h| |] eqn:Eh;
    cbn [bind] in H; [|discriminate|discriminate].
  set (r2 := if h =? GT_OK then Ok info1
             else if hashchain_failure h
                  then Ok (add_error info1 GT_HASHCHAIN_VERIFICATION_FAILURE)
                  else Err h) in H.
  destruct r2 as [info2| |] eqn:E2; cbn [bind] in H; [|discriminate|discriminate].
  assert (S2 : verification_errors info2 = 0 -> h = GT_OK /\ info2 = info1).
  { subst r2. destruct (h =? GT_OK) eqn:Ehh.
    - injection E2 as <-. intros _. split; [apply Z.eqb_eq; exact Ehh|reflexivity].
    - destruct (hashchain_failure h); [|discriminate].
      injection E2 as <-. intros Hn. exfalso. revert Hn.
      apply add_error_nonzero. discriminate. }
  assert (S3 : verification_errors info2 = 0
               /\ forall pk, pkSignature sig = Some pk ->
                    exists certificate,
                      PKCS7_cert_from_signer_info tok si = Some certificate
                      /\ signature_verified env sig pk certificate).
  { destruct (pkSignature sig) as [pk|].
    2:{ injection H as ->. split; [exact Z0|discriminate]. }
    match type of H with bind ?r _ = _ =>
      destruct r as [k| |] eqn:Ek; cbn [bind] in H; [|discriminate|discriminate] end.
    destruct (k =? GT_OK) eqn:Ekk.
    2:{ destruct (signature_failure k); [|discriminate].
        injection H as <-. exfalso. revert Z0.
        apply add_error_nonzero. discriminate. }
    injection H as ->. split; [exact Z0|].
    apply Z.eqb_eq in Ekk. subst k.
    intros pk' [= <-].
    match type of Ek with
      (match ?c with _ => _ end) = _ => destruct c as [c0|] eqn:Ec end;
      [|discriminate].
    assert (Ecert : PKCS7_cert_from_signer_info tok si = Some c0).
    { destruct (negb (Z.land (verification_status info0)
                             GT_PUBLIC_KEY_SIGNATURE_PRESENT =? 0));
        [exact Ec|discriminate]. }
    exists c0. split; [exact Ecert|].
    apply code_of_ok in Ek; [|apply checkPublicKeySignature_err].
    eapply checkPublicKeySignature_ok. exact Ek. }
  destruct S3 as [Z2 S3]. destruct (S2 Z2) as [Hh ->].
  split; [apply S1; exact Z2|].
  split; [|exact S3].
  subst h. apply code_of_ok in Eh; [|apply checkHashChain_err].
  eapply checkHashChain_ok. exact Eh.
Qed.

Lemma verify_no_failures_witness :
  exists info tok tst sig si,
    GTTimestamp_verify (sample_env 8 1300000000 1) (Some timestamp_sound) 0 true
    = Ok info
    /\ verification_errors info = GT_NO_FAILURES
    /\ token timestamp_sound = Some tok /\ tst_info timestamp_sound = Some tst
    /\ time_signature timestamp_sound = Some sig
    /\ the_signer_info timestamp_sound = Some si
    /\ checkTimestampSyntax (sample_env 8 1300000000 1) tok tst si sig = GT_OK
    /\ recomputed (sample_env 8 1300000000 1) tst si sig
         (publicationImprint (publishedData sig)).
Proof.
  destruct (GTTimestamp_verify (sample_env 8 1300000000 1) (Some timestamp_sound) 0 true)
    as [info| |] eqn:E;
    [|vm_compute in E; discriminate E|vm_compute in E; discriminate E].
  assert (Z0 : verification_errors info = GT_NO_FAILURES).
  { vm_compute in E. injection E as <-. reflexivity. }
  destruct (verify_no_failures (sample_env 8 1300000000 1) timestamp_sound 0 info E Z0)
    as (tok & tst & sig & si & H1 & H2 & H3 & H4 & H5 & H6 & _).
  exists info, tok, tst, sig, si.
  repeat split; assumption.
Defined.

End VerifySound.
